(* ===== verification/_CoqProject ===== *)
-Q . S2P
Prelude.v
Protocol.v
Double.v
Common.v
FrameCut.v
ShmLayout.v
SpscRing.v
Repo.v
InMemory.v
Calendar.v
Messages.v
Prog.v
Handlers.v
Scenario.v
ServerSafety.v
HandlerSteps.v
HandlerProps.v
Connection.v
Engine.v
EngineProps.v
EngineLive.v
EngineBatch.v
Ipc.v
Dispatch.v
BizPool.v
ShmRegion.v
ShmLife.v
Config.v
Channel.v
ClientNet.v
Shell.v
ClientApi.v
CText.v
MysqlPool.v
MysqlRepos.v
MysqlProps.v
MysqlAccounts.v
MysqlUsers.v
RedisStore.v
ClientRide.v
ClientLocation.v
Startup.v
Boot.v
EndToEnd.v
LegacyPool.v
LegacyPoolProps.v
LegacyNet.v
LegacyServer.v
LegacyMain.v
