(* ===== verification/Prelude.v ===== *)
(** * shared_bike_refactor: a verification library

    The program is a bike-sharing service: a gateway process that terminates
    TCP connections with io_uring, a dispatch process that runs the business
    handlers over MySQL and Redis, a shared-memory channel between the two, and
    a Qt client.  legacy/ holds the single-process server the program replaces.
    Requests and responses are protobuf messages in frames of the FBEB protocol.

    ** The parts and the files that model them

    Wire format and shared library (common/)
    - Protocol: frames, encode, decode_frame, stamp_seq (protocol.hpp/.cpp).
    - Double: binary64 arithmetic, computed; sin, cos and atan2 are the
      operations of the class Libm.
    - Common: errors, pricing, ride numbers, validation, geo.
    - FrameCut: cut_frames of the gateway, consume_frames of the client.

    Business process (server/src/handlers, server/include/server/repo)
    - Repo: the data, the interfaces IUserRepo, IAccountRepo, ISessionStore,
      IBikeRepo and IRideRepo as classes of state operations, the laws the
      handlers rely on as classes, RideSessionStore.
    - InMemory: in_memory.hpp, with the instances that discharge the laws.
    - Calendar, Messages: <ctime> as used; the protobuf messages, with parsing
      and serialisation as the class Pb.
    - Prog, Handlers: handlers as programs of atomic repository operations,
      router and registration.  Scenario: a concrete context for witnesses.
    - ServerSafety: what any interleaving of any requests keeps: ids, sessions,
      and on the in-memory repositories the books.  HandlerSteps: running one handler step by step, for any
      repositories.  HandlerProps: what each request does and refuses.

    Storage behind the repositories (server/src/db, server/src/cache)
    - CText: printf conversions, atoi, atoll, atof.
    - MysqlPool, MysqlRepos, MysqlProps: the connection pool with its mutex and
      condition variable, every repository method as a program of leases and
      statements, transactions, deadlock, buffers.
    - MysqlAccounts: the MySQL account repository as an instance of
      IAccountRepo under the handlers, with what the server promises of one
      account as the class AccountDb.  MysqlUsers: the user repository in the
      same way, with the class UserDb, and the handlers while MySQL is down.
    - RedisStore: the session store on Redis.

    Gateway (server/src/gateway)
    - Connection: receive area and send queue of one connection; a number
      stands for the allocation that holds the receive area.
    - Engine: UringEngine: one Definition per submission, completion and
      worker step; operations and connections are heap objects reached by
      address, so a dangling pointer, a double close or front() of an empty
      queue shows as an error value.  EngineProps: the invariant and absence of
      undefined behaviour.  EngineLive: wakeups and accepts.
      EngineBatch: completions harvested together do not disturb each other,
      nor the buffers of the operations still in flight.
    - Shell: descriptors and ring of the engine from construction to
      destruction, the listening address; logging levels; the client's main.

    Inter-process channel (server/src/ipc, server/src/dispatch)
    - ShmLayout, ShmRegion: layout, creation and recovery of the file.
    - ShmLife: the same operations as system calls on the class Kernel, with
      the descriptors and mappings the ShmRegion objects hold, their moves and
      their destructor.
    - SpscRing: the single-producer single-consumer ring.
    - Ipc: FifoChannel, RingSink, RingSource.
    - Dispatch: thread pool, reader, business tasks, reply flush; comparison of
      ring mode with in-process mode.  BizPool: the threads of the pool, its
      condition variable and its destructor.
    - Startup: the signal handler and the life of the engine, the reader's
      supervision of the gateway.  Boot: the order in which both executables
      construct and destroy their objects, exit statuses.
    - Config: configuration file, environment overrides, validation.
    - Channel: the parameters both processes derive from them, creation by the
      one and attachment by the other.

    Client (client/src)
    - ClientNet: TcpWorker.  ClientApi: ApiBridge.  ClientRide: TrajectorySim
      and TrajectoryModel.  ClientLocation: LocationProvider.

    All parts together
    - EndToEnd: calls of the client, its frames, the gateway's batches and the
      way back, along one connection.

    The former server (legacy/)
    - LegacyPool, LegacyPoolProps: thread_pool.cpp, its threads as a step
      relation with mutex and condition variables.
    - LegacyNet: sessions, reassembly of requests from reads of any size, the
      responses.  LegacyServer: dispatch, event handlers and the whole server.
      LegacyMain: configuration, tables and the order of start and stop.

    ** What the theorems show

    - Refinement: the ring is a FIFO queue for every stale snapshot and across
      counter wrap-around; the receive area is a byte queue; the two-process
      mode delivers the bytes of the in-process mode; the system calls on the
      shared-memory files implement their recovery; the former thread pool
      takes tasks in the order of their submission.
    - Round trips and equivalences: frames, cutting of a chunked stream, the
      two cutting loops, codes and sessions in Redis, position reports of the
      client as the server keeps them, the reassembly of the former server.
    - Invariants under interleaving: repositories, ledgers that only grow by
      positive recharges and fees of the tariff, rides billed by it, engine
      bookkeeping, the MySQL pool, one result per client call, one answer per
      location request, one response per session of the former server.
    - Functional behaviour and errors of the handlers, the sink, the source,
      the shared-memory recovery, the transactions.  Composed with the MySQL
      accounts, ending a ride overdraws the account at every refused attempt
      and is free when the charge is rolled back; MySQL keeps one id per mobile
      number that its column takes, and while it is down a recharge is
      acknowledged and lost.
    - End to end: if no handler throws, every call of the client gets exactly
      one result, however the bytes are split and the responses ordered.
    - Liveness and its limits: delivery of queued items, progress of the MySQL
      pool with more connections than threads and its deadlock otherwise,
      accepts that are never re-armed; both thread pools run what was posted
      before their destruction ends and leave no thread behind.
    - Start and stop: no signal handler reaches an engine that is not there, no
      object is destroyed while it is used, regions and engine release every
      descriptor and mapping on every path (one failed creation unmaps twice);
      the two processes meet on the files once they are created, but a gateway
      that attaches to the files of an earlier run before that replays its
      requests.
    - Bounds: statement and escape buffers, placement in shared memory,
      configuration.

    ** Conventions

    Machine integers are Z with the wrap-around written out (u16, u32, u64,
    i32); signed overflow and other undefined behaviour is [Err
    (UndefinedBehaviour _)], which ends a history: no theorem says what happens
    afterwards.  Bytes are [Strings.Byte.byte], C text is a list of
    characters.  Code outside the repository (kernel, libc calls, protobuf,
    toml++, hiredis, libmysqlclient, Qt) is a parameter or a class; what a
    theorem needs of it is a class of laws with a concrete instance in the
    witness.  A clock or a random engine is an arbitrary function of the number
    of readings (World).

    Fuel occurs where a loop is not structural: cut_loop has one unit more than
    the bytes (every frame is at least 14 bytes long), decimal and hexadecimal
    printing have as many as a 64-bit value has digits (320 for the integral
    part of a double), pop_ring one more than the messages queued, flush_replies
    one more than the replies and the tests after which it gives up.  Theorems
    about these functions state the result, not a result if one is reached.

    ** Not modelled

    Generated protobuf code, legacy/bike.pb.cpp too, and third_party/ are
    parameters.  The sinks of the loggers, QML, the map page and the Qt
    application object have no state of their own; nor have the packet dumps of
    legacy/.  Memory ordering is modelled by stale snapshots, not by a weak
    memory model.  In Engine the connection ids and the eventfd counter are
    unbounded (both are 64 bits wide in the code), a cancellation is a request
    the kernel may follow or not, so that any operation may fail at any time,
    and the forced closing of the connections that are left at the reap
    deadline, after which the engine handles nothing any more, is not an event.
    The data race on the random engine of RedisSessionStore and
    the truncation of a mapped file by another process are outside the model. *)

From Stdlib Require Export ZArith Lia Bool.
From Stdlib Require Export Strings.Byte.
From stdpp Require Export base gmap strings list fin_maps sorting.

#[global] Open Scope Z_scope.

(** ** C++ exceptions and undefined behaviour as values *)

(** What a C++ expression can do instead of returning.  [UndefinedBehaviour]
    stands for the operations the language leaves undefined (signed overflow,
    float-to-int conversion out of range, ...). *)
Inductive exn : Type :=
| InvalidArgument (msg : string)
| OverflowError (msg : string)
| RuntimeError (msg : string)
| SinkOverload
| MalformedIpcRequest
| UndefinedBehaviour (what : string).

Inductive result (A : Type) : Type :=
| Ok (a : A)
| Err (e : exn).
Arguments Ok {A} a.
Arguments Err {A} e.

#[export] Instance exn_eq_dec : EqDecision exn.
Proof. solve_decision. Defined.
#[export] Instance result_eq_dec {A} `{EqDecision A} : EqDecision (result A).
Proof. solve_decision. Defined.

Definition rbind {A B} (m : result A) (k : A -> result B) : result B :=
  match m with
  | Ok a => k a
  | Err e => Err e
  end.

Definition is_ok {A} (r : result A) : bool :=
  match r with Ok _ => true | Err _ => false end.

Declare Scope bike_scope.
Delimit Scope bike_scope with bike.
Notation "'try!' x := c 'in' k" := (rbind c (fun x => k))
  (at level 10, x binder, c at level 100, k at level 200) : bike_scope.
#[global] Open Scope bike_scope.

(** ** Machine integers *)

(** Unsigned arithmetic wraps: the value is the residue modulo 2^w. *)
Definition u8 (z : Z) : Z := z mod 2 ^ 8.
Definition u16 (z : Z) : Z := z mod 2 ^ 16.
Definition u32 (z : Z) : Z := z mod 2 ^ 32.
Definition u64 (z : Z) : Z := z mod 2 ^ 64.

(** Conversion of a value to [std::int32_t] (two's complement). *)
Definition i32 (z : Z) : Z := (z + 2 ^ 31) mod 2 ^ 32 - 2 ^ 31.

Definition INT_MIN : Z := - 2 ^ 31.
Definition INT_MAX : Z := 2 ^ 31 - 1.
Definition in_int (z : Z) : bool := (INT_MIN <=? z) && (z <=? INT_MAX).

(** Signed [int] arithmetic: a result outside the range of [int] is undefined. *)
Definition int_checked (z : Z) : result Z :=
  if in_int z then Ok z else Err (UndefinedBehaviour "signed integer overflow").
Definition int_add (a b : Z) : result Z := int_checked (a + b).
Definition int_sub (a b : Z) : result Z := int_checked (a - b).
Definition int_mul (a b : Z) : result Z := int_checked (a * b).
Definition int_neg (a : Z) : result Z := int_checked (- a).

Create HintDb bike discriminated.
#[export] Hint Constants Opaque : bike.
#[export] Hint Variables Opaque : bike.
Create Rewrite HintDb bike_len.

(** ** Automation *)

(** Case analysis on the innermost boolean test or match of the goal. *)
Ltac case_if :=
  match goal with
  | |- context [if ?b then _ else _] =>
      lazymatch b with
      | context [if _ then _ else _] => fail
      | _ => let E := fresh "E" in destruct b eqn:E
      end
  end.

(** Same for a hypothesis. *)
Ltac case_if_in H :=
  match type of H with
  | context [if ?b then _ else _] =>
      lazymatch b with
      | context [if _ then _ else _] => fail
      | _ => let E := fresh "E" in destruct b eqn:E
      end
  end.

(** Turn boolean (in)equalities of the context into propositions, then [lia]. *)
Ltac bool_to_prop :=
  repeat match goal with
  | H : (_ && _) = true |- _ => apply andb_true_iff in H; destruct H
  | H : (_ && _) = false |- _ => apply andb_false_iff in H
  | H : (_ || _) = true |- _ => apply orb_true_iff in H
  | H : (_ || _) = false |- _ => apply orb_false_iff in H; destruct H
  | H : negb _ = true |- _ => apply negb_true_iff in H
  | H : negb _ = false |- _ => apply negb_false_iff in H
  | H : (_ <? _) = true |- _ => apply Z.ltb_lt in H
  | H : (_ <? _) = false |- _ => apply Z.ltb_ge in H
  | H : (_ >? _) = _ |- _ => rewrite Z.gtb_ltb in H
  | H : (_ <=? _) = true |- _ => apply Z.leb_le in H
  | H : (_ <=? _) = false |- _ => apply Z.leb_gt in H
  | H : (_ =? _) = true |- _ => apply Z.eqb_eq in H
  | H : (_ =? _) = false |- _ => apply Z.eqb_neq in H
  end.

Ltac blia := bool_to_prop; lia.

(** Lengths of the list expressions the components build. *)
Ltac len := repeat (progress (autorewrite with bike_len; simpl)).

(** ** Generic lemmas *)

Lemma u8_range z : 0 <= u8 z < 2 ^ 8.
Proof. apply Z.mod_pos_bound; lia. Qed.
Lemma u16_range z : 0 <= u16 z < 2 ^ 16.
Proof. apply Z.mod_pos_bound; lia. Qed.
Lemma u32_range z : 0 <= u32 z < 2 ^ 32.
Proof. apply Z.mod_pos_bound; lia. Qed.
Lemma u64_range z : 0 <= u64 z < 2 ^ 64.
Proof. apply Z.mod_pos_bound; lia. Qed.
Lemma u16_small z : 0 <= z < 2 ^ 16 -> u16 z = z.
Proof. apply Z.mod_small. Qed.
Lemma u32_small z : 0 <= z < 2 ^ 32 -> u32 z = z.
Proof. apply Z.mod_small. Qed.
Lemma u64_small z : 0 <= z < 2 ^ 64 -> u64 z = z.
Proof. apply Z.mod_small. Qed.

Lemma i32_small z : - 2 ^ 31 <= z < 2 ^ 31 -> i32 z = z.
Proof. intros. unfold i32. rewrite Z.mod_small; lia. Qed.

Lemma i32_range z : - 2 ^ 31 <= i32 z < 2 ^ 31.
Proof. unfold i32. pose proof (Z.mod_pos_bound (z + 2 ^ 31) (2 ^ 32)). lia. Qed.

Lemma i32_u32 z : i32 (u32 z) = i32 z.
Proof.
  unfold i32, u32. f_equal.
  rewrite Z.add_mod_idemp_l by lia. reflexivity.
Qed.

Lemma u32_i32 z : u32 (i32 z) = u32 z.
Proof.
  unfold i32, u32. rewrite Zminus_mod_idemp_l. f_equal. lia.
Qed.

Lemma u32_add_l a b : u32 (u32 a + b) = u32 (a + b).
Proof. unfold u32. apply Z.add_mod_idemp_l. lia. Qed.
Lemma u32_add_r a b : u32 (a + u32 b) = u32 (a + b).
Proof. unfold u32. apply Z.add_mod_idemp_r. lia. Qed.
Lemma u32_sub_l a b : u32 (u32 a - b) = u32 (a - b).
Proof. unfold u32. apply Zminus_mod_idemp_l. Qed.
Lemma u32_sub_r a b : u32 (a - u32 b) = u32 (a - b).
Proof. unfold u32. apply Zminus_mod_idemp_r. Qed.
#[export] Hint Resolve u8_range u16_range u32_range u64_range i32_range : bike.

Lemma in_int_iff z : in_int z = true <-> INT_MIN <= z <= INT_MAX.
Proof. unfold in_int. rewrite andb_true_iff, !Z.leb_le. tauto. Qed.

Lemma int_checked_ok z : INT_MIN <= z <= INT_MAX -> int_checked z = Ok z.
Proof. intros. unfold int_checked. rewrite (proj2 (in_int_iff z)); auto. Qed.

Lemma rbind_ok {A B} (m : result A) (k : A -> result B) b :
  rbind m k = Ok b -> exists a, m = Ok a /\ k a = Ok b.
Proof. destruct m; simpl; [eauto | discriminate]. Qed.

(** ** Bytes *)

Definition byte_to_Z (b : byte) : Z := Z.of_N (Byte.to_N b).
Definition byte_of_Z (z : Z) : byte :=
  match Byte.of_N (Z.to_N (u8 z)) with
  | Some b => b
  | None => x00
  end.

#[export] Instance byte_eq_dec : EqDecision byte := Byte.byte_eq_dec.

Lemma byte_to_Z_range b : 0 <= byte_to_Z b < 2 ^ 8.
Proof.
  unfold byte_to_Z. pose proof (Byte.to_N_bounded b). lia.
Qed.
#[export] Hint Resolve byte_to_Z_range : bike.

Lemma byte_to_of_Z z : byte_to_Z (byte_of_Z z) = u8 z.
Proof.
  unfold byte_of_Z, byte_to_Z. pose proof (u8_range z) as Hr.
  destruct (Byte.of_N (Z.to_N (u8 z))) as [b|] eqn:E.
  - apply Byte.to_of_N in E. rewrite E. lia.
  - apply Byte.of_N_None_iff in E. lia.
Qed.

Lemma byte_of_to_Z b : byte_of_Z (byte_to_Z b) = b.
Proof.
  unfold byte_of_Z, byte_to_Z, u8. rewrite Z.mod_small by apply byte_to_Z_range.
  rewrite N2Z.id, Byte.of_to_N. reflexivity.
Qed.

(** Masks, shifts and disjoint [lor] as arithmetic. *)
Lemma land_255 v : Z.land v 255 = v mod 256.
Proof. change 255 with (Z.ones 8). apply Z.land_ones. lia. Qed.

Lemma shiftr_div v n : 0 <= n -> Z.shiftr v n = v / 2 ^ n.
Proof. apply Z.shiftr_div_pow2. Qed.

Lemma testbit_high a n i : 0 <= a < 2 ^ n -> n <= i -> Z.testbit a i = false.
Proof.
  intros Ha Hi. destruct (Z.eq_dec a 0) as [->|]; [apply Z.bits_0|].
  apply Z.bits_above_log2; [lia|].
  assert (Z.log2 a < n); [apply Z.log2_lt_pow2 | ]; lia.
Qed.

Lemma lor_shiftl_add a b n :
  0 <= n -> 0 <= a < 2 ^ n -> Z.lor a (Z.shiftl b n) = a + b * 2 ^ n.
Proof.
  intros Hn Ha. rewrite <- Z.shiftl_mul_pow2 by lia.
  rewrite <- Z.add_lor_land.
  replace (Z.land a (Z.shiftl b n)) with 0; [lia|].
  symmetry. apply Z.bits_inj'. intros i Hi. rewrite Z.bits_0, Z.land_spec.
  destruct (Z_lt_dec i n).
  - rewrite Z.shiftl_spec_low by lia. apply andb_false_r.
  - rewrite (testbit_high a n i) by lia. reflexivity.
Qed.

(** Little-endian composition of bytes is the positional value. *)
Lemma le16_value b0 b1 :
  Z.lor (byte_to_Z b0) (Z.shiftl (byte_to_Z b1) 8) = byte_to_Z b0 + byte_to_Z b1 * 2 ^ 8.
Proof. apply lor_shiftl_add; [lia | apply byte_to_Z_range]. Qed.

Lemma le32_value b0 b1 b2 b3 :
  Z.lor (Z.lor (Z.lor (byte_to_Z b0) (Z.shiftl (byte_to_Z b1) 8))
               (Z.shiftl (byte_to_Z b2) 16)) (Z.shiftl (byte_to_Z b3) 24)
  = byte_to_Z b0 + byte_to_Z b1 * 2 ^ 8 + byte_to_Z b2 * 2 ^ 16 + byte_to_Z b3 * 2 ^ 24.
Proof.
  pose proof (byte_to_Z_range b0). pose proof (byte_to_Z_range b1).
  pose proof (byte_to_Z_range b2).
  rewrite (lor_shiftl_add (byte_to_Z b0)) by lia.
  rewrite (lor_shiftl_add _ (byte_to_Z b2)) by lia.
  apply lor_shiftl_add; lia.
Qed.

(** The byte stored for the [k]-th octet of a word. *)
Lemma octet_value v k :
  0 <= k -> byte_to_Z (byte_of_Z (Z.land (Z.shiftr v k) 255)) = v / 2 ^ k mod 2 ^ 8.
Proof.
  intros. rewrite byte_to_of_Z, land_255, shiftr_div by lia.
  unfold u8. apply Z.mod_mod. lia.
Qed.

Lemma octet0_value v : byte_to_Z (byte_of_Z (Z.land v 255)) = v mod 2 ^ 8.
Proof. rewrite byte_to_of_Z, land_255. unfold u8. apply Z.mod_mod. lia. Qed.

Lemma byte_to_Z_inj a b : byte_to_Z a = byte_to_Z b -> a = b.
Proof. intros H. rewrite <- (byte_of_to_Z a), H. apply byte_of_to_Z. Qed.

(** ** Lists *)

Lemma take_app_exact {A} (l k : list A) n : n = length l -> take n (l ++ k) = l.
Proof. intros ->. apply take_app_length. Qed.
Lemma drop_app_exact {A} (l k : list A) n : n = length l -> drop n (l ++ k) = k.
Proof. intros ->. apply drop_app_length. Qed.

Lemma take_take_app {A} (l k : list A) n :
  (n <= length l)%nat -> take n (l ++ k) = take n l.
Proof. intros. apply take_app_le. lia. Qed.

#[export] Hint Rewrite @length_app @length_take @length_drop @length_map @length_fmap
  @length_replicate @length_insert : bike_len.

(** ** Sums over an updated list *)

Lemma sum_insert {A} (f : A -> nat) l i x y :
  l !! i = Some x -> (sum_list_with f (<[i := y]> l) + f x = sum_list_with f l + f y)%nat.
Proof.
  revert i. induction l as [|a l IH]; intros [|i] H; simplify_eq/=; [lia|].
  apply IH in H. lia.
Qed.

Lemma sum_lookup {A} (f : A -> nat) l i x : l !! i = Some x -> (f x <= sum_list_with f l)%nat.
Proof. revert i. induction l as [|a l IH]; intros [|i] H; simplify_eq/=; [lia|]. apply IH in H. lia. Qed.

Lemma sum_pos {A} (f : A -> nat) l :
  (0 < sum_list_with f l)%nat -> exists i x, l !! i = Some x /\ (0 < f x)%nat.
Proof.
  induction l as [|a l IH]; simpl; [lia|]. intros H. destruct (decide (0 < f a)%nat).
  - by exists 0%nat, a.
  - destruct IH as (i & x & Hi & Hx); [lia|]. by exists (S i), x.
Qed.
