(* ===== verification/Protocol.v ===== *)
(** * The FBEB v2 frame protocol (common/include/bike/protocol.hpp, common/src/protocol.cpp)

    The event table, the frame record, [encode], the three-state decoder
    [decode_frame], its compatibility wrapper [decode] and the in-place
    [stamp_seq].  A byte buffer [(p, n)] is the list of its [n] bytes. *)

From S2P Require Import Prelude.

(** ** Constants and events *)

Definition kFrameMagic : list byte := [x46; x42; x45; x42].  (* 'F' 'B' 'E' 'B' *)
Definition kHeaderLen : Z := 14.
Definition kMaxMessageLen : Z := 372680.

Inductive Event : Type :=
| MobileRequest | MobileResponse
| LoginRequest | LoginResponse
| RechargeRequest | RechargeResponse
| AccountBalanceRequest | AccountBalanceResponse
| ListAccountRecordsRequest | ListAccountRecordsResponse
| ListNearbyBikesRequest | ListNearbyBikesResponse
| ScanUnlockRequest | ScanUnlockResponse
| RidePositionReport
| EndRideRequest | EndRideResponse
| ReportDamageRequest | ReportDamageResponse
| GetRideDetailRequest | GetRideDetailResponse
| ListRidesRequest | ListRidesResponse.

#[export] Instance Event_eq_dec : EqDecision Event.
Proof. solve_decision. Defined.

Definition event_id (e : Event) : Z :=
  match e with
  | MobileRequest => 0x01 | MobileResponse => 0x02
  | LoginRequest => 0x03 | LoginResponse => 0x04
  | RechargeRequest => 0x05 | RechargeResponse => 0x06
  | AccountBalanceRequest => 0x07 | AccountBalanceResponse => 0x08
  | ListAccountRecordsRequest => 0x09 | ListAccountRecordsResponse => 0x10
  | ListNearbyBikesRequest => 0x11 | ListNearbyBikesResponse => 0x12
  | ScanUnlockRequest => 0x13 | ScanUnlockResponse => 0x14
  | RidePositionReport => 0x15
  | EndRideRequest => 0x17 | EndRideResponse => 0x18
  | ReportDamageRequest => 0x19 | ReportDamageResponse => 0x1A
  | GetRideDetailRequest => 0x1B | GetRideDetailResponse => 0x1C
  | ListRidesRequest => 0x1D | ListRidesResponse => 0x1E
  end.

(** ** Frames *)

Record Frame : Type := mkFrame {
  f_event_id : Z;          (* std::uint16_t *)
  f_seq : Z;               (* std::uint32_t *)
  f_payload : list byte    (* std::string *)
}.

Definition Frame0 : Frame := mkFrame 0 0 [].

#[export] Instance Frame_eq_dec : EqDecision Frame.
Proof. solve_decision. Defined.

(** The values the C++ field types can hold. *)
Definition frame_wf (f : Frame) : Prop :=
  0 <= f_event_id f < 2 ^ 16 /\ 0 <= f_seq f < 2 ^ 32.

(** ** Little-endian accessors *)

Definition put_u16_le (out : list byte) (v : Z) : list byte :=
  out ++ [byte_of_Z (Z.land v 0xFF); byte_of_Z (Z.land (Z.shiftr v 8) 0xFF)].

Definition put_u32_le (out : list byte) (u : Z) : list byte :=
  out ++ [byte_of_Z (Z.land u 0xFF); byte_of_Z (Z.land (Z.shiftr u 8) 0xFF);
          byte_of_Z (Z.land (Z.shiftr u 16) 0xFF); byte_of_Z (Z.land (Z.shiftr u 24) 0xFF)].

Definition put_i32_le (out : list byte) (v : Z) : list byte :=
  let u := u32 v in
  out ++ [byte_of_Z (Z.land u 0xFF); byte_of_Z (Z.land (Z.shiftr u 8) 0xFF);
          byte_of_Z (Z.land (Z.shiftr u 16) 0xFF); byte_of_Z (Z.land (Z.shiftr u 24) 0xFF)].

(** [p[i]]; every read of the decoder is guarded by the length test in front of
    it ([decode_canonical]). *)
Definition rd (p : list byte) (i : nat) : Z := byte_to_Z (nth i p x00).

Definition get_u16_le (p : list byte) : Z :=
  Z.lor (rd p 0) (Z.shiftl (rd p 1) 8).

Definition get_u32_le (p : list byte) : Z :=
  Z.lor (Z.lor (Z.lor (rd p 0) (Z.shiftl (rd p 1) 8)) (Z.shiftl (rd p 2) 16))
        (Z.shiftl (rd p 3) 24).

Definition get_i32_le (p : list byte) : Z :=
  let u := Z.lor (Z.lor (Z.lor (rd p 0) (Z.shiftl (rd p 1) 8)) (Z.shiftl (rd p 2) 16))
                 (Z.shiftl (rd p 3) 24) in
  i32 u.

(** [size()] of a vector or string. *)
Definition size_of {A} (l : list A) : Z := Z.of_nat (length l).

(** [std::memcmp(buf, kFrameMagic, 4) == 0] *)
Definition magic_ok (buf : list byte) : bool :=
  bool_decide (take 4 buf = kFrameMagic).

(** ** Encoding *)

Definition encode (f : Frame) : result (list byte) :=
  if size_of (f_payload f) >? kMaxMessageLen
  then Err (OverflowError "payload exceeds kMaxMessageLen")
  else
    let out := kFrameMagic in
    let out := put_u16_le out (f_event_id f) in
    let out := put_u32_le out (f_seq f) in
    let out := put_i32_le out (i32 (size_of (f_payload f))) in
    Ok (out ++ f_payload f).

(** ** Decoding *)

Inductive DecodeStatus : Type := NeedMore | BadFrame | DecOk.
#[export] Instance DecodeStatus_eq_dec : EqDecision DecodeStatus.
Proof. solve_decision. Defined.

Record DecodeOutcome : Type := mkOutcome {
  o_status : DecodeStatus;
  o_frame : Frame;
  o_consumed : Z
}.

Definition decode_frame (buf : list byte) : DecodeOutcome :=
  let n := size_of buf in
  if n <? kHeaderLen then mkOutcome NeedMore Frame0 0
  else if negb (magic_ok buf) then mkOutcome BadFrame Frame0 0
  else
    let len := get_i32_le (drop 10 buf) in
    if (len <? 0) || (u32 len >? kMaxMessageLen) then mkOutcome BadFrame Frame0 0
    else
      let total := kHeaderLen + len in
      if n <? total then mkOutcome NeedMore Frame0 0
      else mkOutcome DecOk
             (mkFrame (get_u16_le (drop 4 buf)) (get_u32_le (drop 6 buf))
                      (take (Z.to_nat len) (drop (Z.to_nat kHeaderLen) buf)))
             total.

Record DecodeResult : Type := mkDecodeResult { dr_frame : Frame; dr_consumed : Z }.

Definition decode (buf : list byte) : option DecodeResult :=
  let out := decode_frame buf in
  match o_status out with
  | DecOk => Some (mkDecodeResult (o_frame out) (o_consumed out))
  | _ => None
  end.

(** [stamp_seq] mutates its argument; the result pairs the returned flag with
    the vector after the call. *)
Definition stamp_seq (encoded : list byte) (seq : Z) : bool * list byte :=
  if size_of encoded <? kHeaderLen then (false, encoded)
  else if negb (magic_ok encoded) then (false, encoded)
  else
    let e := <[6%nat := byte_of_Z (Z.land seq 0xFF)]> encoded in
    let e := <[7%nat := byte_of_Z (Z.land (Z.shiftr seq 8) 0xFF)]> e in
    let e := <[8%nat := byte_of_Z (Z.land (Z.shiftr seq 16) 0xFF)]> e in
    let e := <[9%nat := byte_of_Z (Z.land (Z.shiftr seq 24) 0xFF)]> e in
    (true, e).

(** ** Accessor lemmas *)

(** The four octets of a word, as the [put_*] functions append them. *)
Definition le2 (v : Z) : list byte :=
  [byte_of_Z (Z.land v 0xFF); byte_of_Z (Z.land (Z.shiftr v 8) 0xFF)].
Definition le4 (u : Z) : list byte :=
  [byte_of_Z (Z.land u 0xFF); byte_of_Z (Z.land (Z.shiftr u 8) 0xFF);
   byte_of_Z (Z.land (Z.shiftr u 16) 0xFF); byte_of_Z (Z.land (Z.shiftr u 24) 0xFF)].

#[global] Arguments le2 : simpl never.
#[global] Arguments le4 : simpl never.
#[global] Arguments get_u16_le : simpl never.
#[global] Arguments get_u32_le : simpl never.
#[global] Arguments get_i32_le : simpl never.

Lemma get_u16_value b0 b1 tl :
  get_u16_le (b0 :: b1 :: tl) = byte_to_Z b0 + byte_to_Z b1 * 2 ^ 8.
Proof. apply le16_value. Qed.

Lemma get_u32_value b0 b1 b2 b3 tl :
  get_u32_le (b0 :: b1 :: b2 :: b3 :: tl)
  = byte_to_Z b0 + byte_to_Z b1 * 2 ^ 8 + byte_to_Z b2 * 2 ^ 16 + byte_to_Z b3 * 2 ^ 24.
Proof. apply le32_value. Qed.

Lemma get_i32_u32 p : get_i32_le p = i32 (get_u32_le p).
Proof. reflexivity. Qed.

Lemma get_put_u16 v tl : 0 <= v < 2 ^ 16 -> get_u16_le (le2 v ++ tl) = v.
Proof.
  intros Hv. unfold le2; simpl app. rewrite get_u16_value, octet0_value, octet_value by lia.
  Z.div_mod_to_equations; lia.
Qed.

Lemma get_put_u32 v tl : 0 <= v < 2 ^ 32 -> get_u32_le (le4 v ++ tl) = v.
Proof.
  intros Hv. unfold le4; simpl app.
  rewrite get_u32_value, octet0_value, !octet_value by lia.
  Z.div_mod_to_equations; lia.
Qed.

Lemma get_u16_range b0 b1 tl : 0 <= get_u16_le (b0 :: b1 :: tl) < 2 ^ 16.
Proof.
  rewrite get_u16_value. pose proof (byte_to_Z_range b0). pose proof (byte_to_Z_range b1). lia.
Qed.

Lemma get_u32_range b0 b1 b2 b3 tl : 0 <= get_u32_le (b0 :: b1 :: b2 :: b3 :: tl) < 2 ^ 32.
Proof.
  rewrite get_u32_value. pose proof (byte_to_Z_range b0). pose proof (byte_to_Z_range b1).
  pose proof (byte_to_Z_range b2). pose proof (byte_to_Z_range b3). lia.
Qed.

(** Re-encoding what was read gives back the bytes. *)
Lemma put_get_u16 b0 b1 tl : le2 (get_u16_le (b0 :: b1 :: tl)) = [b0; b1].
Proof.
  pose proof (byte_to_Z_range b0). pose proof (byte_to_Z_range b1).
  unfold le2. rewrite get_u16_value. repeat f_equal; apply byte_to_Z_inj;
    first [rewrite octet_value by lia | rewrite octet0_value]; Z.div_mod_to_equations; lia.
Qed.

Lemma put_get_u32 b0 b1 b2 b3 tl :
  le4 (get_u32_le (b0 :: b1 :: b2 :: b3 :: tl)) = [b0; b1; b2; b3].
Proof.
  pose proof (byte_to_Z_range b0). pose proof (byte_to_Z_range b1).
  pose proof (byte_to_Z_range b2). pose proof (byte_to_Z_range b3).
  unfold le4. rewrite get_u32_value. repeat f_equal; apply byte_to_Z_inj;
    first [rewrite octet_value by lia | rewrite octet0_value]; Z.div_mod_to_equations; lia.
Qed.

(** ** Shape of an encoded frame *)

Definition header (f : Frame) : list byte :=
  kFrameMagic ++ le2 (f_event_id f) ++ le4 (f_seq f) ++ le4 (size_of (f_payload f)).

#[global] Arguments header : simpl never.

Lemma length_header f : length (header f) = 14%nat.
Proof. reflexivity. Qed.

Lemma size_of_header f : size_of (header f) = kHeaderLen.
Proof. reflexivity. Qed.

Lemma size_of_nonneg {A} (l : list A) : 0 <= size_of l.
Proof. unfold size_of. lia. Qed.

Lemma size_of_app {A} (l k : list A) : size_of (l ++ k) = size_of l + size_of k.
Proof. unfold size_of. rewrite length_app. lia. Qed.

Lemma encode_shape f :
  size_of (f_payload f) <= kMaxMessageLen -> encode f = Ok (header f ++ f_payload f).
Proof.
  intros H. unfold encode. destruct (_ >? _) eqn:E; [unfold kMaxMessageLen in *; lia|].
  pose proof (size_of_nonneg (f_payload f)).
  unfold put_i32_le, put_u32_le, put_u16_le, header, le2, le4.
  unfold kMaxMessageLen in *.
  rewrite i32_small, u32_small by lia. simpl. reflexivity.
Qed.

Lemma encode_ok_inv f bs :
  encode f = Ok bs ->
  size_of (f_payload f) <= kMaxMessageLen /\ bs = header f ++ f_payload f.
Proof.
  intros H. assert (Hs : size_of (f_payload f) <= kMaxMessageLen).
  { unfold encode in H. destruct (_ >? _) eqn:E; [discriminate | lia]. }
  split; [done|]. rewrite encode_shape in H by done. congruence.
Qed.

Lemma encode_size f bs : encode f = Ok bs -> size_of bs = kHeaderLen + size_of (f_payload f).
Proof.
  intros [_ ->]%encode_ok_inv. rewrite size_of_app, size_of_header. reflexivity.
Qed.

(** A buffer of at least a header is fourteen bytes and a rest. *)
Lemma header_split (buf : list byte) :
  kHeaderLen <= size_of buf ->
  exists m0 m1 m2 m3 e0 e1 s0 s1 s2 s3 l0 l1 l2 l3 tl,
    buf = m0 :: m1 :: m2 :: m3 :: e0 :: e1 :: s0 :: s1 :: s2 :: s3
             :: l0 :: l1 :: l2 :: l3 :: tl.
Proof.
  unfold size_of, kHeaderLen. intros H.
  do 14 (destruct buf as [|? buf]; [simpl in H; lia|]).
  repeat eexists.
Qed.

Lemma magic_ok_app l k : (4 <= length l)%nat -> magic_ok (l ++ k) = magic_ok l.
Proof. intros. unfold magic_ok. rewrite take_app_le by lia. reflexivity. Qed.

(** The decoder on a buffer whose first fourteen bytes are a well-formed header. *)
Lemma decode_frame_header f rest :
  frame_wf f -> size_of (f_payload f) <= kMaxMessageLen ->
  decode_frame (header f ++ rest)
  = if size_of rest <? size_of (f_payload f) then mkOutcome NeedMore Frame0 0
    else mkOutcome DecOk
           (mkFrame (f_event_id f) (f_seq f)
                    (take (length (f_payload f)) rest))
           (kHeaderLen + size_of (f_payload f)).
Proof.
  intros [He Hs] Hp. pose proof (size_of_nonneg (f_payload f)) as H0.
  pose proof (size_of_nonneg rest).
  assert (HL : get_i32_le (drop 10 (header f ++ rest)) = size_of (f_payload f)).
  { rewrite get_i32_u32. change (drop 10 (header f ++ rest))
      with (le4 (size_of (f_payload f)) ++ rest).
    unfold kMaxMessageLen in *. rewrite get_put_u32, i32_small by lia. reflexivity. }
  unfold decode_frame. rewrite HL, size_of_app, size_of_header.
  unfold kHeaderLen, kMaxMessageLen in *. rewrite u32_small by lia.
  destruct (14 + size_of rest <? 14) eqn:E1; [lia|].
  replace (magic_ok (header f ++ rest)) with true by reflexivity. simpl negb.
  destruct (size_of (f_payload f) <? 0) eqn:E2; [lia|].
  destruct (size_of (f_payload f) >? 372680) eqn:E3; [lia|]. simpl orb.
  replace (14 + size_of rest <? 14 + size_of (f_payload f))
    with (size_of rest <? size_of (f_payload f)) by lia.
  destruct (size_of rest <? _) eqn:E4; [reflexivity|]. do 2 f_equal.
  - change (drop 4 (header f ++ rest))
      with (le2 (f_event_id f) ++ le4 (f_seq f) ++ le4 (size_of (f_payload f)) ++ rest).
    by apply get_put_u16.
  - change (drop 6 (header f ++ rest))
      with (le4 (f_seq f) ++ le4 (size_of (f_payload f)) ++ rest).
    by apply get_put_u32.
  - unfold size_of at 1. rewrite Nat2Z.id. f_equal.
Qed.

Lemma header_reassemble e0 e1 t1 s0 s1 s2 s3 t2 p :
  header (mkFrame (get_u16_le (e0 :: e1 :: t1)) (get_u32_le (s0 :: s1 :: s2 :: s3 :: t2)) p)
  = kFrameMagic ++ [e0; e1; s0; s1; s2; s3] ++ le4 (size_of p).
Proof.
  unfold header. cbn [f_payload f_event_id f_seq].
  rewrite put_get_u16, put_get_u32. reflexivity.
Qed.

(** The decoder on fourteen explicit bytes: the form every case analysis uses. *)
Lemma decode_frame_ok_inv buf f c :
  decode_frame buf = mkOutcome DecOk f c ->
  exists rest, buf = header f ++ f_payload f ++ rest /\ frame_wf f
    /\ size_of (f_payload f) <= kMaxMessageLen
    /\ c = kHeaderLen + size_of (f_payload f).
Proof.
  unfold decode_frame.
  destruct (size_of buf <? kHeaderLen) eqn:E1; [discriminate|].
  destruct (magic_ok buf) eqn:Em; simpl negb; [|discriminate].
  destruct (_ || _) eqn:E2; [discriminate|].
  destruct (size_of buf <? kHeaderLen + _) eqn:E3; [discriminate|].
  intros [= <- <-].
  destruct (header_split buf) as
    (m0&m1&m2&m3&e0&e1&s0&s1&s2&s3&l0&l1&l2&l3&tl&->); [lia|].
  apply bool_decide_eq_true in Em. unfold take, kFrameMagic in Em. injection Em as -> -> -> ->.
  change (Z.to_nat kHeaderLen) with 14%nat. rewrite !skipn_cons, !drop_0 in *.
  rewrite get_i32_u32 in *.
  set (len := get_u32_le [l0; l1; l2; l3]) in *.
  assert (Hlen : get_u32_le (l0 :: l1 :: l2 :: l3 :: tl) = len) by reflexivity.
  rewrite Hlen in *. pose proof (get_u32_range l0 l1 l2 l3 []) as Hr. fold len in Hr.
  apply orb_false_iff in E2 as [E2 E2']. rewrite u32_i32, u32_small in E2' by done.
  unfold kMaxMessageLen, kHeaderLen in *.
  rewrite i32_small in * by lia.
  assert (Hsz : size_of (take (Z.to_nat len) tl) = len).
  { clearbody len. unfold size_of in E3 |- *. rewrite length_take. cbn [length] in E3. blia. }
  exists (drop (Z.to_nat len) tl).
  split; [|split; [|split]]; cbn [f_payload f_event_id f_seq drop].
  - rewrite take_drop, header_reassemble, Hsz. unfold len. by rewrite put_get_u32.
  - split; [apply get_u16_range | apply get_u32_range].
  - rewrite Hsz. blia.
  - by rewrite Hsz.
Qed.

(** ** Properties *)

Lemma decode_encode f bs rest :
  frame_wf f -> encode f = Ok bs ->
  decode_frame (bs ++ rest) = mkOutcome DecOk f (size_of bs).
Proof.
  intros Hwf He. pose proof (encode_size _ _ He) as Hs.
  apply encode_ok_inv in He as [Hp ->]. rewrite <- app_assoc.
  rewrite decode_frame_header by done. rewrite Hs.
  destruct (_ <? _) eqn:E.
  - rewrite size_of_app in E. pose proof (size_of_nonneg rest). lia.
  - rewrite take_app_length. by destruct f.
Qed.

Lemma decode_canonical buf f c :
  decode_frame buf = mkOutcome DecOk f c ->
  frame_wf f /\ kHeaderLen <= c <= size_of buf
  /\ encode f = Ok (take (Z.to_nat c) buf).
Proof.
  intros (rest & -> & Hwf & Hp & ->)%decode_frame_ok_inv.
  pose proof (size_of_nonneg (f_payload f)). pose proof (size_of_nonneg rest).
  split; [done|]. split; [rewrite !size_of_app, size_of_header; lia|].
  rewrite encode_shape by done. f_equal. rewrite app_assoc.
  symmetry. apply take_app_exact.
  rewrite length_app, length_header. unfold size_of, kHeaderLen in *. lia.
Qed.

(** Bytes after a complete header never change a [BadFrame] verdict. *)
Lemma decode_bad_app buf more :
  o_status (decode_frame buf) = BadFrame -> decode_frame (buf ++ more) = decode_frame buf.
Proof.
  unfold decode_frame.
  destruct (size_of buf <? kHeaderLen) eqn:E1; [discriminate|].
  destruct (header_split buf) as
    (m0&m1&m2&m3&e0&e1&s0&s1&s2&s3&l0&l1&l2&l3&tl&->); [lia|].
  rewrite size_of_app. pose proof (size_of_nonneg more).
  destruct (_ + _ <? kHeaderLen) eqn:E2; [lia|].
  rewrite magic_ok_app by (simpl; lia). simpl app. simpl drop.
  destruct (negb _); [done|].
  change (get_i32_le (l0 :: l1 :: l2 :: l3 :: tl ++ more))
    with (get_i32_le (l0 :: l1 :: l2 :: l3 :: tl)).
  destruct (_ || _); [done|]. intros Hbad. by case_if_in Hbad.
Qed.

Lemma decode_stable buf more :
  o_status (decode_frame buf) <> NeedMore ->
  decode_frame (buf ++ more) = decode_frame buf.
Proof.
  intros H. destruct (decode_frame buf) as [st f c] eqn:E; simpl in H.
  destruct st; [done| |].
  - rewrite <- E. apply decode_bad_app. by rewrite E.
  - destruct (decode_canonical _ _ _ E) as (Hwf & Hc & He).
    apply decode_frame_ok_inv in E as (rest & -> & _ & Hp & ->).
    rewrite <- !app_assoc, app_assoc.
    rewrite (decode_encode f (header f ++ f_payload f)).
    + by rewrite size_of_app, size_of_header.
    + done.
    + by apply encode_shape.
Qed.

(** C5: every frame that [encode] accepts is decoded back to itself by
    [decode_frame], whatever bytes follow it in the stream, and exactly the
    bytes of the frame are consumed. *)
Theorem decode_encode_roundtrip f bs rest :
  frame_wf f -> encode f = Ok bs ->
  decode_frame (bs ++ rest) = mkOutcome DecOk f (size_of bs).
Proof. apply decode_encode. Qed.

Lemma decode_encode_roundtrip_witness :
  frame_wf (mkFrame 0x13 7 [x61; x62])
  /\ encode (mkFrame 0x13 7 [x61; x62])
     = Ok [x46; x42; x45; x42; x13; x00; x07; x00; x00; x00; x02; x00; x00; x00; x61; x62]
  /\ decode_frame ([x46; x42; x45; x42; x13; x00; x07; x00; x00; x00;
                    x02; x00; x00; x00; x61; x62] ++ [x46])
     = mkOutcome DecOk (mkFrame 0x13 7 [x61; x62]) 16.
Proof.
  assert (Hwf : frame_wf (mkFrame 0x13 7 [x61; x62])) by (split; simpl; lia).
  split; [exact Hwf|]. split; [reflexivity|].
  exact (decode_encode_roundtrip (mkFrame 0x13 7 [x61; x62])
    [x46; x42; x45; x42; x13; x00; x07; x00; x00; x00; x02; x00; x00; x00; x61; x62]
    [x46] Hwf eq_refl).
Defined.

(** the wire format is canonical and the decoder stays inside its buffer:
    a successfully decoded frame re-encodes to exactly the bytes that were
    consumed, which are a prefix of the buffer. *)
Theorem decode_frame_canonical buf f c :
  decode_frame buf = mkOutcome DecOk f c ->
  frame_wf f /\ kHeaderLen <= c <= size_of buf
  /\ encode f = Ok (take (Z.to_nat c) buf).
Proof. apply decode_canonical. Qed.

Lemma decode_frame_canonical_witness :
  encode (mkFrame 0x15 1 [x30]) =
  Ok (take 15 [x46; x42; x45; x42; x15; x00; x01; x00; x00; x00; x01; x00; x00; x00; x30; xff]).
Proof.
  apply (decode_frame_canonical
    [x46; x42; x45; x42; x15; x00; x01; x00; x00; x00; x01; x00; x00; x00; x30; xff] _ 15).
  vm_compute. reflexivity.
Defined.

Lemma decode_frame_needmore_prefix f bs k :
  frame_wf f -> encode f = Ok bs -> (k < length bs)%nat ->
  decode_frame (take k bs) = mkOutcome NeedMore Frame0 0.
Proof.
  intros Hwf [Hp ->]%encode_ok_inv Hk. rewrite length_app, length_header in Hk.
  destruct (decide (k < 14)%nat) as [Hlt|Hge].
  - unfold decode_frame. destruct (_ <? kHeaderLen) eqn:E; [reflexivity|].
    unfold size_of, kHeaderLen in E. rewrite length_take in E. blia.
  - rewrite take_app_ge, length_header by (rewrite length_header; lia).
    rewrite decode_frame_header by done.
    destruct (_ <? _) eqn:E; [reflexivity|].
    unfold size_of in E. rewrite length_take in E. blia.
Qed.

(** [stamp_seq] on an encoded frame is the encoding of the same frame with
    the new sequence number: event id, length and payload are untouched. *)
Lemma stamp_encode f s bs :
  encode f = Ok bs ->
  exists bs', stamp_seq bs s = (true, bs')
    /\ encode (mkFrame (f_event_id f) s (f_payload f)) = Ok bs'.
Proof.
  intros [Hp ->]%encode_ok_inv.
  exists (header (mkFrame (f_event_id f) s (f_payload f)) ++ f_payload f). split.
  - unfold stamp_seq. rewrite size_of_app, size_of_header.
    pose proof (size_of_nonneg (f_payload f)).
    destruct (_ <? kHeaderLen) eqn:E; [lia|].
    replace (magic_ok (header f ++ f_payload f)) with true by reflexivity.
    reflexivity.
  - by apply (encode_shape (mkFrame (f_event_id f) s (f_payload f))).
Qed.

Lemma stamp_seq_false l s : fst (stamp_seq l s) = false -> snd (stamp_seq l s) = l.
Proof. unfold stamp_seq. repeat case_if; simpl; congruence. Qed.

Lemma stamp_seq_length l s : length (snd (stamp_seq l s)) = length l.
Proof. unfold stamp_seq. repeat case_if; simpl; rewrite ?length_insert; reflexivity. Qed.

(** Response ids are the request id plus one, except for the account records. *)
Lemma event_id_range e : 0 < event_id e < 2 ^ 16.
Proof. destruct e; simpl; lia. Qed.

Lemma event_id_inj e1 e2 : event_id e1 = event_id e2 -> e1 = e2.
Proof. destruct e1, e2; simpl; intros H; first [reflexivity | discriminate H]. Qed.
