(* ===== verification/Double.v ===== *)
(** * IEEE-754 binary64 as the C++ code uses it

    [double] values are the specification floats of the standard library at
    precision 53 and exponent bound 1024: every operation is computed, rounded
    to nearest even, with signed zeros, infinities and NaN.  The elementary
    functions of <cmath> that are not correctly rounded by the standard
    ([sin], [cos], [atan2]) are the operations of the class [Libm]. *)

From S2P Require Import Prelude.
From Stdlib Require Export SpecFloat.

Definition double : Type := spec_float.
Definition prec : Z := 53.
Definition emax : Z := 1024.

#[export] Instance double_eq_dec : EqDecision double.
Proof. unfold double. solve_decision. Defined.

Definition d_of_Z (z : Z) : double := binary_normalize prec emax z 0 false.
Definition d_add : double -> double -> double := SFadd prec emax.
Definition d_sub : double -> double -> double := SFsub prec emax.
Definition d_mul : double -> double -> double := SFmul prec emax.
Definition d_div : double -> double -> double := SFdiv prec emax.
Definition d_sqrt : double -> double := SFsqrt prec emax.
Definition d_lt (x y : double) : bool := SFltb x y.
Definition d_le (x y : double) : bool := SFleb x y.

(** A decimal literal [n / 10^k]; exact division rounded once, which is the
    literal's value when [n] and [10^k] are below 2^53. *)
Definition d_lit (n : Z) (k : Z) : double := d_div (d_of_Z n) (d_of_Z (10 ^ k)).

Definition d_zero : double := S754_zero false.

Definition d_finite (x : double) : bool :=
  match x with S754_zero _ | S754_finite _ _ _ => true | _ => false end.
Definition d_is_nan (x : double) : bool :=
  match x with S754_nan => true | _ => false end.

(** [static_cast<int>(x)]: truncation toward zero; NaN, infinities and values
    that do not fit [int] are undefined. *)
Definition d_trunc (x : double) : option Z :=
  match x with
  | S754_zero _ => Some 0
  | S754_finite s m e =>
      let v := if 0 <=? e then Z.pos m * 2 ^ e else Z.pos m / 2 ^ (- e) in
      Some (if s then - v else v)
  | _ => None
  end.

Definition d_to_int (x : double) : result Z :=
  match d_trunc x with
  | Some v => int_checked v
  | None => Err (UndefinedBehaviour "float to int conversion")
  end.

(** The library functions whose value the standard leaves to the
    implementation. *)
Class Libm : Type := {
  m_sin : double -> double;
  m_cos : double -> double;
  m_atan2 : double -> double -> double
}.

(** What the C standard (Annex F) requires of them on the inputs used here. *)
Class LibmLaws `{Libm} : Prop := {
  sin_zero : forall s, m_sin (S754_zero s) = S754_zero s;
  cos_finite : forall x, d_finite x = true -> d_finite (m_cos x) = true;
  atan2_zero : forall m e, m_atan2 d_zero (S754_finite false m e) = d_zero
}.

(** ** Comparison lemmas *)

Lemma SFcompare_none x y :
  SFcompare x y = None <-> d_is_nan x = true \/ d_is_nan y = true.
Proof.
  split.
  - destruct x, y; simpl; try discriminate; auto.
  - intros [H|H]; [destruct x | destruct x, y]; simpl in *; try discriminate; reflexivity.
Qed.

Lemma SFcompare_antisym x y c :
  SFcompare x y = Some c -> SFcompare y x = Some (CompOpp c).
Proof.
  destruct x as [s|s| |s m e], y as [s'|s'| |s' m' e']; simpl; intros [= <-];
    try discriminate; try (destruct s); try (destruct s'); try reflexivity.
  - rewrite (Z.compare_antisym e' e). destruct (e' ?= e); simpl; try reflexivity.
    f_equal. f_equal. change (Pos.compare_cont Eq m' m) with (Pos.compare m' m).
    change (Pos.compare_cont Eq m m') with (Pos.compare m m').
    apply Pos.compare_antisym.
  - rewrite (Z.compare_antisym e' e). destruct (e' ?= e); simpl; try reflexivity.
    f_equal. change (Pos.compare_cont Eq m' m) with (Pos.compare m' m).
    change (Pos.compare_cont Eq m m') with (Pos.compare m m').
    apply Pos.compare_antisym.
Qed.

(** Total order on the doubles that are not NaN. *)
Lemma d_lt_ge x y :
  d_is_nan x = false -> d_is_nan y = false -> d_lt x y = false -> d_le y x = true.
Proof.
  intros Hx Hy. unfold d_lt, d_le, SFltb, SFleb.
  destruct (SFcompare x y) as [c|] eqn:E.
  - rewrite (SFcompare_antisym _ _ _ E). by destruct c.
  - apply SFcompare_none in E as [E|E]; congruence.
Qed.

Lemma d_le_not_nan x y : d_le x y = true -> d_is_nan x = false /\ d_is_nan y = false.
Proof. unfold d_le, SFleb. destruct x, y; simpl; try discriminate; auto. Qed.

Lemma d_le_nan_r x : d_le x S754_nan = false.
Proof. by destruct x. Qed.

(** A double between two finite doubles is finite. *)
Lemma d_between_finite lo x hi :
  d_finite lo = true -> d_finite hi = true ->
  d_le lo x = true -> d_le x hi = true -> d_finite x = true.
Proof.
  unfold d_le, SFleb. destruct lo, hi; try discriminate; intros _ _;
    destruct x as [?|[]| |? ? ?]; simpl; try discriminate; auto.
Qed.

(** [x - x] is +0 for finite [x]. *)
Lemma d_sub_self x : d_finite x = true -> d_sub x x = d_zero.
Proof.
  destruct x as [[]|?| |s m e]; try discriminate; intros _; try reflexivity.
  unfold d_sub, SFsub, d_zero. rewrite Z.sub_diag. reflexivity.
Qed.

Lemma d_mul_zero_r s x :
  d_finite x = true -> exists s', d_mul x (S754_zero s) = S754_zero s'.
Proof. destruct x; try discriminate; intros _; eexists; reflexivity. Qed.

Lemma d_mul_not_inf x y : d_is_nan x = true -> d_mul x y = S754_nan.
Proof. by destruct x. Qed.
