(* ===== verification/Common.v ===== *)
(** * The shared library bike_common: error codes, pricing, ride numbers,
      validation and geometry (common/include/bike/, common/src/) *)

From S2P Require Import Prelude Double.
From Stdlib Require Import Ascii.

(** ** Error codes (errors.hpp) *)

Inductive ErrCode : Type :=
| ErrOk | InvalidMsg | Unauthorized | InvalidData | MethodNotAllowed
| ProcessFailed | BikeIsTook | BikeIsRunning | BikeIsDamaged | Unknown.

#[export] Instance ErrCode_eq_dec : EqDecision ErrCode.
Proof. solve_decision. Defined.

Definition code (c : ErrCode) : Z :=
  match c with
  | ErrOk => 200 | InvalidMsg => 400 | Unauthorized => 401 | InvalidData => 404
  | MethodNotAllowed => 405 | ProcessFailed => 406 | BikeIsTook => 407
  | BikeIsRunning => 408 | BikeIsDamaged => 409 | Unknown => 0xFF
  end.

Definition to_string (c : ErrCode) : string :=
  match c with
  | ErrOk => "ok"
  | InvalidMsg => "invalid message"
  | Unauthorized => "unauthorized (session expired)"
  | InvalidData => "invalid data"
  | MethodNotAllowed => "method not allowed"
  | ProcessFailed => "process failed"
  | BikeIsTook => "bike is took"
  | BikeIsRunning => "bike is running"
  | BikeIsDamaged => "bike is damaged"
  | Unknown => "unknown"
  end.

Lemma code_inj a b : code a = code b -> a = b.
Proof. destruct a, b; simpl; intros H; first [reflexivity | discriminate H]. Qed.

(** ** Pricing (pricing.cpp) *)

Section Pricing.
Local Open Scope bike_scope.

Definition compute_fee (duration_sec : Z) : result Z :=
  if duration_sec <? 0 then Err (InvalidArgument "negative duration")
  else
    let base_sec := 15 * 60 in
    let step_sec := 15 * 60 in
    let fee := 100 in
    if duration_sec <=? base_sec then Ok fee
    else
      try! extra_sec := int_sub duration_sec base_sec in
      try! t := int_add extra_sec step_sec in
      try! t := int_sub t 1 in
      let extra_chunks := Z.quot t step_sec in
      try! e := int_mul extra_chunks 50 in
      int_add fee e.

(** The tariff of pricing.hpp: one yuan (100 cents) covers the first 15
    minutes, each further quarter of an hour begun costs 50 cents. *)
Definition quarters (d : Z) : Z := (d + 899) / 900.
Definition tariff (d : Z) : Z := 100 + 50 * Z.max 0 (quarters d - 1).

Lemma compute_fee_tariff d : 0 <= d <= INT_MAX -> compute_fee d = Ok (tariff d).
Proof.
  intros Hd. unfold compute_fee, tariff, quarters, INT_MAX in *.
  destruct (d <? 0) eqn:E0; [lia|].
  change (15 * 60) with 900. destruct (d <=? 900) eqn:E1.
  - f_equal. assert ((d + 899) / 900 <= 1); [|lia].
    apply Z.lt_succ_r, Z.div_lt_upper_bound; lia.
  - unfold int_sub, int_add, int_mul.
    rewrite (int_checked_ok (d - 900)) by (unfold INT_MIN, INT_MAX; lia). simpl rbind.
    rewrite (int_checked_ok (d - 900 + 900)) by (unfold INT_MIN, INT_MAX; lia). simpl rbind.
    replace (d - 900 + 900 - 1) with (d - 1) by lia.
    rewrite (int_checked_ok (d - 1)) by (unfold INT_MIN, INT_MAX; lia). simpl rbind.
    rewrite Z.quot_div_nonneg by lia.
    assert (Hq : (d + 899) / 900 = (d - 1) / 900 + 1).
    { replace (d + 899) with (d - 1 + 1 * 900) by lia. apply Z.div_add; lia. }
    assert (0 <= (d - 1) / 900 <= 2 ^ 31 / 900).
    { split; [apply Z.div_pos; lia | apply Z.div_le_mono; lia]. }
    assert (2 ^ 31 / 900 = 2386092) by reflexivity.
    rewrite int_checked_ok by (unfold INT_MIN, INT_MAX; lia). simpl rbind.
    rewrite int_checked_ok by (unfold INT_MIN, INT_MAX; lia). f_equal. lia.
Qed.

Lemma quarters_mono a b : a <= b -> quarters a <= quarters b.
Proof. intros. apply Z.div_le_mono; lia. Qed.

Lemma tariff_mono a b : a <= b -> tariff a <= tariff b.
Proof. intros H%quarters_mono. unfold tariff. lia. Qed.

Lemma tariff_pos d : 100 <= tariff d.
Proof. unfold tariff. lia. Qed.

Lemma tariff_int d : d <= INT_MAX -> tariff d <= INT_MAX.
Proof.
  intros H%tariff_mono. transitivity (tariff INT_MAX); [done|].
  vm_compute. discriminate.
Qed.

(** [compute_fee] charges the published tariff for every duration an
    [int] can hold, without overflowing on the way, and throws exactly on
    negative durations; the fee never decreases with the duration. *)
Theorem compute_fee_spec d :
  INT_MIN <= d <= INT_MAX ->
  compute_fee d = (if d <? 0 then Err (InvalidArgument "negative duration")
                   else Ok (tariff d))
  /\ (forall d', 0 <= d <= d' -> tariff d <= tariff d')
  /\ 100 <= tariff d <= INT_MAX.
Proof.
  intros Hd. split; [|split].
  - destruct (d <? 0) eqn:E; [unfold compute_fee; by rewrite E|].
    apply compute_fee_tariff. blia.
  - intros d' [_ H]. by apply tariff_mono.
  - split; [apply tariff_pos | apply tariff_int; lia].
Qed.
End Pricing.

Lemma compute_fee_spec_witness :
  compute_fee 901 = Ok 150 /\ compute_fee INT_MAX = Ok (tariff INT_MAX).
Proof.
  split.
  - apply (compute_fee_spec 901). vm_compute. split; discriminate.
  - apply (compute_fee_spec INT_MAX). vm_compute. split; discriminate.
Defined.

(** ** Decimal formatting: printf's [%0<w>d] *)

Definition digit (d : Z) : ascii := ascii_of_N (Z.to_N (48 + d)).
Definition digit_value (c : ascii) : Z := Z.of_N (N_of_ascii c) - 48.

(** Digits of a non-negative number, most significant first; [fuel] digits at
    most (an [int] has ten). *)
Fixpoint dec (fuel : nat) (n : Z) (acc : list ascii) : list ascii :=
  match fuel with
  | O => acc
  | S fuel =>
      let acc := digit (n mod 10) :: acc in
      if n / 10 =? 0 then acc else dec fuel (n / 10) acc
  end.
Definition decimal (n : Z) : list ascii := dec 20 n [].
#[global] Arguments decimal : simpl never.

Definition fmt_0d (width : nat) (z : Z) : list ascii :=
  let digits := decimal (Z.abs z) in
  let sign := if z <? 0 then ["-"%char] else [] in
  sign ++ replicate (width - length sign - length digits) (digit 0) ++ digits.

(** The number a digit string denotes. *)
Definition undec (l : list ascii) : Z := fold_left (fun a c => 10 * a + digit_value c) l 0.

Fixpoint string_of_chars (l : list ascii) : string :=
  match l with [] => EmptyString | c :: l => String c (string_of_chars l) end.
Fixpoint chars_of_string (s : string) : list ascii :=
  match s with EmptyString => [] | String c s => c :: chars_of_string s end.

(** ** Ride numbers (ride_no.cpp) *)

(** [snprintf(buf, sizeof buf, ...)] keeps at most [sizeof buf - 1] characters. *)
Definition snprintf (bufsize : nat) (out : list ascii) : list ascii :=
  take (bufsize - 1) out.

Definition make_ride_no (date_yyyymmdd daily_seq : Z) : result string :=
  if (daily_seq <? 1) || (daily_seq >? 999999)
  then Err (InvalidArgument "daily_seq out of [1, 999999]")
  else Ok (string_of_chars
             (snprintf 16 ("R"%char :: fmt_0d 8 date_yyyymmdd ++ fmt_0d 6 daily_seq))).

Section RideNo.
Lemma digit_value_digit d : 0 <= d < 10 -> digit_value (digit d) = d.
Proof.
  intros H. assert (Hd : d = 0 \/ d = 1 \/ d = 2 \/ d = 3 \/ d = 4 \/ d = 5 \/ d = 6
    \/ d = 7 \/ d = 8 \/ d = 9) by lia.
  repeat destruct Hd as [->|Hd]; try reflexivity. by subst.
Qed.

Lemma undec_app l k a :
  fold_left (fun a c => 10 * a + digit_value c) (l ++ k) a
  = fold_left (fun a c => 10 * a + digit_value c) k
      (fold_left (fun a c => 10 * a + digit_value c) l a).
Proof. apply fold_left_app. Qed.

(** [dec] prepends the digits of [n] to the accumulator. *)
Lemma dec_spec fuel : forall n acc k,
  (k <= fuel)%nat -> (0 < k)%nat -> 0 <= n < 10 ^ Z.of_nat k ->
  exists ds, dec fuel n acc = ds ++ acc /\ (1 <= length ds <= k)%nat /\ undec ds = n
    /\ Forall (fun c => 0 <= digit_value c < 10) ds.
Proof.
  induction fuel as [|fuel IH]; intros n acc k Hk Hk0 Hn; [lia|].
  pose proof (Z.mod_pos_bound n 10 ltac:(lia)) as Hm.
  assert (Hdv : digit_value (digit (n mod 10)) = n mod 10) by by apply digit_value_digit.
  simpl. destruct (n / 10 =? 0) eqn:E.
  - exists [digit (n mod 10)]. split; [done|]. split; [simpl; lia|]. split.
    + unfold undec; simpl. rewrite Hdv. apply Z.eqb_eq in E.
      pose proof (Z.div_mod n 10). lia.
    + constructor; [lia | constructor].
  - destruct k as [|[|k]]; [lia | |].
    { exfalso. apply Z.eqb_neq in E. apply E, Z.div_small. simpl in Hn. lia. }
    destruct (IH (n / 10) (digit (n mod 10) :: acc) (S k)) as (ds & H1 & H2 & H3 & H4);
      [lia | lia | |].
    { split; [apply Z.div_pos; lia|]. apply Z.div_lt_upper_bound; [lia|].
      replace (Z.of_nat (S (S k))) with (Z.succ (Z.of_nat (S k))) in Hn by lia.
      rewrite Z.pow_succ_r in Hn by lia. lia. }
    exists (ds ++ [digit (n mod 10)]). rewrite H1, <- app_assoc. split; [done|].
    rewrite length_app. simpl length. split; [lia|]. split.
    + unfold undec in *. rewrite undec_app, H3. simpl. rewrite Hdv.
      pose proof (Z.div_mod n 10). lia.
    + apply Forall_app. split; [done|]. constructor; [lia | constructor].
Qed.

Lemma undec_zeros n l : undec (replicate n (digit 0) ++ l) = undec l.
Proof. induction n; [done|]. simpl. unfold undec in *. simpl. exact IHn. Qed.

(** Zero padding to the exact width loses nothing. *)
Lemma fmt_0d_spec w z :
  (0 < w <= 20)%nat -> 0 <= z < 10 ^ Z.of_nat w ->
  length (fmt_0d w z) = w /\ undec (fmt_0d w z) = z.
Proof.
  intros Hw Hz. unfold fmt_0d, decimal. rewrite Z.abs_eq by lia.
  destruct (z <? 0) eqn:E; [lia|]. rewrite app_nil_l, Nat.sub_0_r.
  destruct (dec_spec 20 z [] w) as (ds & -> & Hl & Hu & _); [lia | lia | done |].
  rewrite app_nil_r, undec_zeros, length_app, length_replicate. split; [lia | done].
Qed.

Lemma chars_of_string_of_chars l : chars_of_string (string_of_chars l) = l.
Proof. induction l as [|c l IH]; simpl; [|rewrite IH]; reflexivity. Qed.

(** What a client can read back from a ride number. *)
Definition parse_ride_no (s : string) : Z * Z :=
  let l := tail (chars_of_string s) in (undec (take 8 l), undec (drop 8 l)).

Lemma make_ride_no_ok date seq :
  0 <= date < 10 ^ 8 -> 1 <= seq <= 999999 ->
  exists s, make_ride_no date seq = Ok s /\ String.length s = 15%nat
    /\ parse_ride_no s = (date, seq).
Proof.
  intros Hd Hs. unfold make_ride_no.
  destruct ((seq <? 1) || (seq >? 999999)) eqn:E; [bool_to_prop; lia|].
  destruct (fmt_0d_spec 8 date) as [L1 U1]; [lia | exact Hd |].
  destruct (fmt_0d_spec 6 seq) as [L2 U2]; [lia | simpl; lia |].
  eexists; split; [reflexivity|].
  unfold snprintf. change (16 - 1)%nat with 15%nat. cbn [take].
  rewrite take_ge by (rewrite length_app; lia).
  split.
  - assert (Hlen : forall l, String.length (string_of_chars l) = length l).
    { induction l as [|c l IH]; simpl; [|rewrite IH]; reflexivity. }
    rewrite Hlen. cbn [length]. rewrite length_app. lia.
  - unfold parse_ride_no. rewrite chars_of_string_of_chars. cbn [tail].
    rewrite take_app_exact, drop_app_exact by lia. by rewrite U1, U2.
Qed.

(** for every eight-digit date and every sequence number in [1, 999999]
    the ride number is the 15 characters "R", date, zero-padded sequence: it
    fits the 16-byte buffer, and date and sequence can be read back, so two
    ride numbers are equal only for the same date and sequence number. *)
Theorem make_ride_no_roundtrip date seq :
  0 <= date < 10 ^ 8 -> 1 <= seq <= 999999 ->
  (exists s, make_ride_no date seq = Ok s /\ String.length s = 15%nat
    /\ parse_ride_no s = (date, seq))
  /\ forall date' seq', 0 <= date' < 10 ^ 8 -> 1 <= seq' <= 999999 ->
     make_ride_no date' seq' = make_ride_no date seq -> date' = date /\ seq' = seq.
Proof.
  intros Hd Hs. split; [by apply make_ride_no_ok|].
  intros date' seq' Hd' Hs' Heq.
  destruct (make_ride_no_ok date seq Hd Hs) as (s & E & _ & P).
  destruct (make_ride_no_ok date' seq' Hd' Hs') as (s' & E' & _ & P').
  rewrite E, E' in Heq. injection Heq as ->. rewrite P in P'. by injection P' as -> ->.
Qed.
End RideNo.

Lemma make_ride_no_roundtrip_witness :
  make_ride_no 20260719 1 = Ok "R20260719000001"
  /\ exists s, make_ride_no 20260719 1 = Ok s /\ String.length s = 15%nat
      /\ parse_ride_no s = (20260719, 1).
Proof.
  split; [vm_compute; reflexivity|].
  apply (make_ride_no_roundtrip 20260719 1); lia.
Defined.

(** ** Validation (validation.cpp) *)

Definition valid_bike_no (s : string) : bool :=
  negb (bool_decide (s = "")) && (Z.of_nat (String.length s) <=? 32).

Definition valid_lat (lat : double) : bool :=
  d_le (d_of_Z (-90)) lat && d_le lat (d_of_Z 90).

Definition valid_lng (lng : double) : bool :=
  d_le (d_of_Z (-180)) lng && d_le lng (d_of_Z 180).

Definition clamp_radius (r : double) : double :=
  if d_le r (d_of_Z 0) then d_of_Z 500
  else if d_lt r (d_of_Z 50) then d_of_Z 50
  else if d_lt (d_of_Z 2000) r then d_of_Z 2000
  else r.

Definition clamp_limit (n : Z) : Z :=
  if n =? 0 then 20
  else if n <? 1 then 1
  else if n >? 100 then 100
  else n.

Lemma valid_lat_finite x : valid_lat x = true -> d_finite x = true.
Proof.
  unfold valid_lat. intros [H1 H2]%andb_true_iff.
  by apply (d_between_finite (d_of_Z (-90)) x (d_of_Z 90)).
Qed.

Lemma valid_lng_finite x : valid_lng x = true -> d_finite x = true.
Proof.
  unfold valid_lng. intros [H1 H2]%andb_true_iff.
  by apply (d_between_finite (d_of_Z (-180)) x (d_of_Z 180)).
Qed.

Lemma clamp_limit_range n : 1 <= clamp_limit n <= 100.
Proof. unfold clamp_limit. repeat case_if; blia. Qed.

Lemma clamp_radius_range r :
  d_is_nan r = false ->
  d_le (d_of_Z 50) (clamp_radius r) = true /\ d_le (clamp_radius r) (d_of_Z 2000) = true.
Proof.
  intros Hn. unfold clamp_radius.
  case_if; [split; reflexivity|]. case_if; [split; reflexivity|].
  case_if; [split; reflexivity|]. split; by apply d_lt_ge.
Qed.

(** input validation. Accepted coordinates are finite doubles (a NaN or an
    infinity is rejected); a page size is always in [1, 100]; a radius that is
    not NaN is clamped into [50, 2000] metres, a NaN passes through unchanged. *)
Theorem validation_spec lat lng r n :
  (valid_lat lat = true -> d_finite lat = true)
  /\ (valid_lng lng = true -> d_finite lng = true)
  /\ 1 <= clamp_limit n <= 100
  /\ (d_is_nan r = false ->
      d_le (d_of_Z 50) (clamp_radius r) = true
      /\ d_le (clamp_radius r) (d_of_Z 2000) = true)
  /\ clamp_radius S754_nan = S754_nan.
Proof.
  split; [apply valid_lat_finite|]. split; [apply valid_lng_finite|].
  split; [apply clamp_limit_range|]. split; [apply clamp_radius_range|]. reflexivity.
Qed.

(** ** Geometry (geo.cpp) *)

(** 3.14159265358979323846 rounds to this double. *)
Definition kPi : double := S754_finite false 7074237752028440 (-51).
Definition kEarthRadiusM : double := d_of_Z 6371000.

Definition to_rad (deg : double) : double := d_div (d_mul deg kPi) (d_of_Z 180).

Definition is_in_china (lat lng : double) : bool :=
  d_le (d_of_Z 18) lat && d_le lat (d_of_Z 54)
  && d_le (d_of_Z 73) lng && d_le lng (d_of_Z 135).

Section Geo.
Context `{Libm}.

Definition haversine_m (lat1 lng1 lat2 lng2 : double) : double :=
  let la1 := to_rad lat1 in
  let la2 := to_rad lat2 in
  let dla := to_rad (d_sub lat2 lat1) in
  let dlo := to_rad (d_sub lng2 lng1) in
  let two := d_of_Z 2 in
  let a := d_add (d_mul (m_sin (d_div dla two)) (m_sin (d_div dla two)))
                 (d_mul (d_mul (d_mul (m_cos la1) (m_cos la2)) (m_sin (d_div dlo two)))
                        (m_sin (d_div dlo two))) in
  let c := d_mul two (m_atan2 (d_sqrt a) (d_sqrt (d_sub (d_of_Z 1) a))) in
  d_mul kEarthRadiusM c.

Context `{!LibmLaws}.

Lemma haversine_core x :
  d_finite x = true ->
  d_add (d_mul d_zero d_zero) (d_mul (d_mul x d_zero) d_zero) = d_zero.
Proof.
  intros Hx. destruct (d_mul_zero_r false x Hx) as [s E]. change d_zero with (S754_zero false).
  rewrite E. by destruct s.
Qed.

Lemma haversine_self lat lng :
  d_finite lat = true -> d_finite lng = true ->
  d_finite (d_mul (m_cos (to_rad lat)) (m_cos (to_rad lat))) = true ->
  haversine_m lat lng lat lng = d_zero.
Proof.
  intros Hl Hg Hc. unfold haversine_m. rewrite !d_sub_self by done.
  replace (to_rad d_zero) with d_zero by reflexivity.
  replace (d_div d_zero (d_of_Z 2)) with d_zero by reflexivity.
  rewrite (sin_zero false : m_sin d_zero = d_zero), haversine_core by done.
  replace (d_sqrt d_zero) with d_zero by reflexivity.
  replace (d_sqrt (d_sub (d_of_Z 1) d_zero))
    with (S754_finite false 4503599627370496 (-52)) by reflexivity.
  rewrite atan2_zero. reflexivity.
Qed.
End Geo.
