(* ===== verification/FrameCut.v ===== *)
(** * Cutting a byte stream into frames

    [cut_frames] of the gateway (server/src/gateway/frame_cut.cpp) and
    [consume_frames] of the client (client/src/net/tcp_worker.cpp) over the
    shared three-state decoder, with the reference relation [cuts] both
    implement and the reassembly of a stream that arrives in pieces. *)

From S2P Require Import Prelude Protocol.

(** ** The gateway's loop *)

Record CutResult : Type := mkCut {
  cut_bad : bool;
  cut_leftover : list byte   (* [leftover, leftover + leftover_len) *)
}.

(** The [while (off < n)] loop on the buffer [p]; the result is the bad flag,
    the final offset and [out].  Each iteration consumes at least a header, so
    [S (length p)] iterations are enough ([cut_loop_cuts]). *)
Fixpoint cut_loop (fuel : nat) (p : list byte) (off : nat) (out : list Frame)
  : bool * nat * list Frame :=
  match fuel with
  | O => (false, off, out)
  | S fuel =>
      if (off <? length p)%nat then
        let res := decode_frame (drop off p) in
        match o_status res with
        | NeedMore => (false, off, out)
        | BadFrame => (true, off, out)
        | DecOk => cut_loop fuel p (off + Z.to_nat (o_consumed res)) (out ++ [o_frame res])
        end
      else (false, off, out)
  end.

Definition cut_frames (p : list byte) (out : list Frame) : CutResult * list Frame :=
  let '(bad, off, out) := cut_loop (S (length p)) p 0 out in
  (mkCut bad (drop off p), out).

(** ** The client's loop *)

(** Returns the verdict, the buffer left in [buf] and the frames handed to the
    callback, in order. *)
Fixpoint consume_loop (fuel : nat) (buf : list byte) (seen : list Frame)
  : bool * list byte * list Frame :=
  match fuel with
  | O => (true, buf, seen)
  | S fuel =>
      let out := decode_frame buf in
      match o_status out with
      | NeedMore => (true, buf, seen)
      | BadFrame => (false, buf, seen)
      | DecOk => consume_loop fuel (drop (Z.to_nat (o_consumed out)) buf) (seen ++ [o_frame out])
      end
  end.

Definition consume_frames (buf : list byte) : bool * list byte * list Frame :=
  consume_loop (S (length buf)) buf [].

(** ** Reference semantics *)

(** [cuts buf fs rest bad]: reading [buf] frame by frame yields [fs] and stops
    at [rest], on a partial frame or (with [bad]) on a malformed one. *)
Inductive cuts : list byte -> list Frame -> list byte -> bool -> Prop :=
| cuts_more buf :
    o_status (decode_frame buf) = NeedMore -> cuts buf [] buf false
| cuts_bad buf :
    o_status (decode_frame buf) = BadFrame -> cuts buf [] buf true
| cuts_ok buf f c fs rest bad :
    decode_frame buf = mkOutcome DecOk f c ->
    cuts (drop (Z.to_nat c) buf) fs rest bad ->
    cuts buf (f :: fs) rest bad.
#[export] Hint Constructors cuts : bike.

Lemma decode_nil : decode_frame [] = mkOutcome NeedMore Frame0 0.
Proof. reflexivity. Qed.

(** Progress of one decoding step. *)
Lemma decode_progress buf f c :
  decode_frame buf = mkOutcome DecOk f c ->
  (14 <= Z.to_nat c <= length buf)%nat /\ (length (drop (Z.to_nat c) buf) < length buf)%nat.
Proof.
  intros (_ & Hc & _)%decode_canonical. rewrite length_drop.
  unfold size_of, kHeaderLen in Hc. lia.
Qed.

Lemma cut_loop_cuts fuel : forall p off out,
  (off <= length p)%nat -> (length p - off < fuel)%nat ->
  exists bad off' fs,
    cut_loop fuel p off out = (bad, off', out ++ fs)
    /\ cuts (drop off p) fs (drop off' p) bad.
Proof.
  induction fuel as [|fuel IH]; intros p off out Ho Hf; [lia|]. simpl.
  destruct (off <? length p)%nat eqn:E.
  - destruct (decode_frame (drop off p)) as [st f c] eqn:D; simpl. destruct st.
    + exists false, off, []. rewrite app_nil_r. split; [done|]. constructor. by rewrite D.
    + exists true, off, []. rewrite app_nil_r. split; [done|]. constructor. by rewrite D.
    + pose proof (decode_progress _ _ _ D) as [Hp1 Hp2]. rewrite length_drop in *.
      destruct (IH p (off + Z.to_nat c)%nat (out ++ [f])) as (bad & off' & fs & -> & Hc);
        [lia | lia |].
      exists bad, off', (f :: fs). rewrite <- app_assoc. split; [done|].
      econstructor; [exact D|]. by rewrite drop_drop.
  - exists false, off, []. rewrite app_nil_r. split; [done|].
    apply Nat.ltb_ge in E. rewrite drop_ge by lia. constructor. by rewrite decode_nil.
Qed.

Lemma consume_loop_cuts fuel : forall buf seen,
  (length buf < fuel)%nat ->
  exists bad rest fs,
    consume_loop fuel buf seen = (negb bad, rest, seen ++ fs) /\ cuts buf fs rest bad.
Proof.
  induction fuel as [|fuel IH]; intros buf seen Hf; [lia|]. simpl.
  destruct (decode_frame buf) as [st f c] eqn:D; simpl. destruct st.
  - exists false, buf, []. rewrite app_nil_r. split; [done|]. constructor. by rewrite D.
  - exists true, buf, []. rewrite app_nil_r. split; [done|]. constructor. by rewrite D.
  - pose proof (decode_progress _ _ _ D) as [_ Hp].
    destruct (IH (drop (Z.to_nat c) buf) (seen ++ [f])) as (bad & rest & fs & -> & Hc); [lia|].
    exists bad, rest, (f :: fs). rewrite <- app_assoc. split; [done|]. by econstructor.
Qed.

(** [cuts] is a function of the buffer. *)
Lemma cuts_det buf fs rest bad :
  cuts buf fs rest bad ->
  forall fs' rest' bad', cuts buf fs' rest' bad' -> fs' = fs /\ rest' = rest /\ bad' = bad.
Proof.
  induction 1 as [buf H|buf H|buf f c fs rest bad D Hc IH]; intros fs' rest' bad' H';
    destruct H' as [buf H'|buf H'|buf f' c' fs' rest' bad' D' Hc'];
    rewrite ?D, ?D' in *; simplify_eq/=; auto; try congruence.
  destruct (IH _ _ _ Hc') as (-> & -> & ->). auto.
Qed.

Lemma cut_frames_cuts p out :
  exists fs, cuts p fs (cut_leftover (fst (cut_frames p out))) (cut_bad (fst (cut_frames p out)))
    /\ snd (cut_frames p out) = out ++ fs.
Proof.
  unfold cut_frames.
  destruct (cut_loop_cuts (S (length p)) p 0 out) as (bad & off & fs & -> & Hc); [lia | lia |].
  exists fs. simpl. auto.
Qed.

Lemma cut_frames_eq p out fs rest bad :
  cuts p fs rest bad -> cut_frames p out = (mkCut bad rest, out ++ fs).
Proof.
  intros H. destruct (cut_frames_cuts p out) as (fs' & H' & E).
  destruct (cuts_det _ _ _ _ H _ _ _ H') as (-> & E1 & E2).
  destruct (cut_frames p out) as [[b l] o]. simpl in *. by subst.
Qed.

(** ** Reassembly *)

(** A verdict is not changed by bytes that arrive later: cutting [a ++ b] is
    cutting [a] and then its leftover with [b] appended. *)
Lemma cuts_app a fs rest b fs' rest' bad' :
  cuts a fs rest false -> cuts (rest ++ b) fs' rest' bad' -> cuts (a ++ b) (fs ++ fs') rest' bad'.
Proof.
  intros Ha. remember false as ff. induction Ha as [buf H|buf H|buf f c fs rest bad D Hc IH];
    intros Hb; [done | discriminate |]. simpl.
  apply cuts_ok with (c := c).
  - rewrite decode_stable; [done|]. by rewrite D.
  - pose proof (decode_progress _ _ _ D). rewrite drop_app_le by lia. auto.
Qed.

Lemma cuts_app_bad a fs rest b :
  cuts a fs rest true -> cuts (a ++ b) fs (rest ++ b) true.
Proof.
  intros Ha. remember true as tt. induction Ha as [buf H|buf H|buf f c fs rest bad D Hc IH];
    [discriminate | |].
  - constructor. by rewrite decode_stable, H by (rewrite H; done).
  - apply cuts_ok with (c := c).
    + rewrite decode_stable; [done|]. by rewrite D.
    + pose proof (decode_progress _ _ _ D). rewrite drop_app_le by lia. auto.
Qed.

(** The whole stream is the encodings of the frames followed by the leftover. *)
Lemma cuts_bytes buf fs rest bad :
  cuts buf fs rest bad ->
  exists encs, Forall2 (fun f e => encode f = Ok e) fs encs /\ buf = concat encs ++ rest
    /\ Forall frame_wf fs.
Proof.
  induction 1 as [buf H|buf H|buf f c fs rest bad D Hc (encs & Hf & E & W)].
  - exists []. repeat constructor.
  - exists []. repeat constructor.
  - apply decode_canonical in D as (Hwf & Hcs & He).
    exists (take (Z.to_nat c) buf :: encs). split; [by constructor|]. simpl.
    rewrite <- app_assoc, <- E, take_drop. auto.
Qed.

Lemma cuts_encoded fs encs tail_ :
  Forall frame_wf fs -> Forall2 (fun f e => encode f = Ok e) fs encs ->
  o_status (decode_frame tail_) = NeedMore ->
  cuts (concat encs ++ tail_) fs tail_ false.
Proof.
  intros W F Ht. revert W. induction F as [|f e fs encs He F IH]; intros W; simpl.
  - by constructor.
  - inv W. rewrite <- app_assoc.
    apply cuts_ok with (c := size_of e); [by apply decode_encode|].
    unfold size_of. rewrite Nat2Z.id, drop_app_length. auto.
Qed.

(** A partial frame is shorter than the largest frame. *)
Lemma needmore_bound buf :
  o_status (decode_frame buf) = NeedMore -> size_of buf < kHeaderLen + kMaxMessageLen.
Proof.
  unfold decode_frame, kHeaderLen, kMaxMessageLen.
  destruct (size_of buf <? 14) eqn:E1; [blia|]. destruct (negb _); [done|].
  destruct (_ || _) eqn:E2; [done|]. case_if; [|discriminate]. intros _. pose proof (i32_range (get_u32_le (drop 10 buf))) as Hr.
  rewrite <- get_i32_u32 in Hr. bool_to_prop. rewrite u32_small in *; lia.
Qed.

Lemma cuts_leftover_bound buf fs rest :
  cuts buf fs rest false -> size_of rest < kHeaderLen + kMaxMessageLen.
Proof.
  intros H. remember false as ff. induction H; [by apply needmore_bound | discriminate | auto].
Qed.

(** ** The two loops agree with the reference *)

(** the gateway's [cut_frames] and the client's [consume_frames] cut every
    buffer the same way: same frames in the same order, same leftover bytes,
    and one reports a bad frame exactly when the other does.  Both loops run to
    completion: the result satisfies the reference relation [cuts]. *)
Theorem cut_frames_consume_frames p :
  exists fs rest bad,
    cuts p fs rest bad
    /\ cut_frames p [] = (mkCut bad rest, fs)
    /\ consume_frames p = (negb bad, rest, fs).
Proof.
  destruct (cut_frames_cuts p []) as (fs & H & _).
  exists fs, (cut_leftover (fst (cut_frames p []))), (cut_bad (fst (cut_frames p []))).
  split; [done|]. split; [by apply (cut_frames_eq p [] fs)|].
  destruct (consume_loop_cuts (S (length p)) p []) as (bad & rest & fs' & E & H'); [lia|].
  destruct (cuts_det _ _ _ _ H _ _ _ H') as (-> & -> & ->). exact E.
Qed.

(** The path of the bytes of one connection through the gateway: each received
    chunk is appended to the leftover the previous cut handed back
    (RearmRecv + rx_feed), the whole is cut, and a bad frame ends the
    connection. *)
Fixpoint cut_chunks (left : list byte) (chunks : list (list byte)) (out : list Frame)
  : CutResult * list Frame :=
  match chunks with
  | [] => (mkCut false left, out)
  | c :: chunks =>
      let '(r, out) := cut_frames (left ++ c) out in
      if cut_bad r then (mkCut true (cut_leftover r), out)
      else cut_chunks (cut_leftover r) chunks out
  end.

Lemma cuts_rest buf fs rest : cuts buf fs rest false -> o_status (decode_frame rest) = NeedMore.
Proof. intros H. remember false as ff. induction H; [done | discriminate | auto]. Qed.

(** The frames of a stream are those of a first part, then those of what it
    leaves over with the second part. *)
Lemma cuts_split a b fs rest :
  cuts (a ++ b) fs rest false ->
  exists fs1 left fs2, cuts a fs1 left false /\ cuts (left ++ b) fs2 rest false /\ fs = fs1 ++ fs2.
Proof.
  intros H. destruct (cut_frames_cuts a []) as (fs1 & H1 & _).
  destruct (cut_frames a []) as [[b1 l1] o1]; simpl in *. destruct b1.
  - apply (cuts_app_bad _ _ _ b) in H1. by destruct (cuts_det _ _ _ _ H1 _ _ _ H) as (_ & _ & ?).
  - destruct (cut_frames_cuts (l1 ++ b) []) as (fs2 & H2 & _).
    destruct (cuts_det _ _ _ _ (cuts_app _ _ _ _ _ _ _ H1 H2) _ _ _ H) as (-> & E1 & E2).
    rewrite <- E1, <- E2 in H2. by exists fs1, l1, fs2.
Qed.

Lemma cut_chunks_cuts chunks : forall left out fs rest bad,
  o_status (decode_frame left) = NeedMore ->
  cuts (left ++ concat chunks) fs rest bad ->
  exists rest', cut_chunks left chunks out = (mkCut bad rest', out ++ fs)
    /\ (bad = false -> rest' = rest).
Proof.
  induction chunks as [|c chunks IH]; intros left out fs rest bad Hl H; simpl in *.
  - rewrite app_nil_r in H. destruct (cuts_det _ _ _ _ (cuts_more left Hl) _ _ _ H)
      as (-> & -> & ->). rewrite app_nil_r. eauto.
  - destruct (cut_frames_cuts (left ++ c) out) as (fs1 & H1 & E1).
    rewrite (cut_frames_eq _ _ _ _ _ H1). rewrite app_assoc in H.
    destruct (cut_frames (left ++ c) out) as [[b1 l1] o1]; simpl in *.
    destruct b1.
    + apply (cuts_app_bad _ _ _ (concat chunks)) in H1.
      destruct (cuts_det _ _ _ _ H1 _ _ _ H) as (-> & -> & ->).
      eexists. split; [reflexivity | discriminate].
    + pose proof (cuts_rest _ _ _ H1) as Hl1.
      destruct (cut_frames_cuts (l1 ++ concat chunks) []) as (fs2 & H2 & _).
      pose proof (cuts_app _ _ _ _ _ _ _ H1 H2) as H3.
      destruct (cuts_det _ _ _ _ H3 _ _ _ H) as (-> & -> & ->).
      destruct (IH l1 (out ++ fs1) _ _ _ Hl1 H2) as (rest' & -> & Hr).
      rewrite app_assoc. eauto.
Qed.

(** C6: stream reassembly. However the network splits the byte stream of a
    connection into received chunks, the frames the gateway cuts, and whether
    it reports a bad frame, are those of cutting the whole stream at once. *)
Theorem cut_chunks_stream chunks :
  let '(r, fs) := cut_chunks [] chunks [] in
  let '(r', fs') := cut_frames (concat chunks) [] in
  fs = fs' /\ cut_bad r = cut_bad r'
  /\ (cut_bad r' = false -> cut_leftover r = cut_leftover r').
Proof.
  destruct (cut_frames_cuts (concat chunks) []) as (fs & H & E).
  destruct (cut_chunks_cuts chunks [] [] fs _ _ eq_refl H) as (rest' & -> & Hr).
  destruct (cut_frames (concat chunks) []) as [r' fs'] eqn:C. simpl in *. subst. auto.
Qed.

(** a stream of encoded frames followed by a partial frame is cut into
    exactly those frames, and the partial frame, which is shorter than the
    largest frame, is what remains; conversely whatever is cut without a bad
    verdict re-encodes to the bytes consumed. *)
Theorem cut_frames_encoded fs encs tail_ :
  Forall frame_wf fs -> Forall2 (fun f e => encode f = Ok e) fs encs ->
  o_status (decode_frame tail_) = NeedMore ->
  cut_frames (concat encs ++ tail_) [] = (mkCut false tail_, fs)
  /\ size_of tail_ < kHeaderLen + kMaxMessageLen
  /\ forall p r out, cut_frames p [] = (r, out) ->
       exists encs', Forall2 (fun f e => encode f = Ok e) out encs'
         /\ p = concat encs' ++ cut_leftover r.
Proof.
  intros W F Ht. split; [apply (cut_frames_eq _ [] fs); by apply cuts_encoded|].
  split; [by apply needmore_bound|].
  intros p r out E. destruct (cut_frames_cuts p []) as (fs' & H & E').
  rewrite E in *. simpl in *. subst.
  destruct (cuts_bytes _ _ _ _ H) as (encs' & F' & E' & _). eauto.
Qed.

Lemma cut_frames_encoded_witness :
  cut_frames (concat [[x46; x42; x45; x42; x07; x00; x02; x00; x00; x00; x00; x00; x00; x00];
                      [x46; x42; x45; x42; x09; x00; x03; x00; x00; x00; x01; x00; x00; x00; x5a]]
              ++ [x46; x42]) []
  = (mkCut false [x46; x42], [mkFrame 7 2 []; mkFrame 9 3 [x5a]]).
Proof.
  apply (cut_frames_encoded [mkFrame 7 2 []; mkFrame 9 3 [x5a]]).
  - repeat constructor; simpl; lia.
  - repeat constructor.
  - reflexivity.
Defined.
