(* ===== verification/ShmLayout.v ===== *)
(** * Shared-memory layout (ipc_packet.hpp, shm_layout.hpp, the attach functions
      of shm_region.cpp)

    The 32-byte packet header, the slot and header sizes, and the placement of
    the ring headers and slot areas inside a shm file.  Offsets are [size_t]
    values: every sum and product wraps at 64 bits. *)

From S2P Require Import Prelude.

(** ** Packets *)

Definition kFlagOneWay : Z := 0x1.

Record IpcPacket : Type := mkPacket {
  pkt_conn_id : Z;       (* std::uint64_t *)
  pkt_event_id : Z;      (* std::uint16_t *)
  pkt_flags : Z;         (* std::uint16_t *)
  pkt_seq : Z;           (* std::uint32_t *)
  pkt_payload_len : Z;   (* std::uint32_t *)
  pkt_reserved0 : Z;
  pkt_reserved1 : Z
}.

Definition IpcPacket0 : IpcPacket := mkPacket 0 0 0 0 0 0 0.

#[export] Instance IpcPacket_eq_dec : EqDecision IpcPacket.
Proof. solve_decision. Defined.

(** ** Sizes (fixed by the static_asserts of the headers) *)

Definition sizeof_IpcPacket : Z := 32.
Definition sizeof_ShmFileHeader : Z := 128.
Definition sizeof_RingHeader : Z := 128.

Definition kShmMagic : Z := 0x454B4942.
Definition kShmVersion : Z := 1.
Definition kCacheLine : Z := 64.
Definition kPageAlign : Z := 4096.

Definition kReqSlotSize : Z := 4096.
Definition kRspSlotSize : Z := 401408.
Definition kReqPayloadMax : Z := kReqSlotSize - sizeof_IpcPacket.
Definition kRspPayloadMax : Z := kRspSlotSize - sizeof_IpcPacket.

(** ** Headers *)

Record ShmFileHeader : Type := mkFileHeader {
  fh_magic : Z; fh_version : Z; fh_ring_count : Z; fh_slot_count : Z;
  fh_slot_size : Z; fh_reserved0 : Z; fh_total_bytes : Z; fh_created_ns : Z
}.
Definition ShmFileHeader0 : ShmFileHeader := mkFileHeader 0 0 0 0 0 0 0 0.

Record RingHeader : Type := mkRingHeader {
  rh_head : Z; rh_producer_pid : Z; rh_producer_heartbeat_ns : Z;
  rh_tail : Z; rh_consumer_pid : Z; rh_consumer_heartbeat_ns : Z
}.
Definition RingHeader0 : RingHeader := mkRingHeader 0 0 0 0 0 0.

(** ** Placement *)

Definition align_up (v align : Z) : Z := u64 (u64 (u64 (v + align) - 1) / align * align).

Record RingFileLayout : Type := mkLayout {
  headers_offset : Z; slots_offset : Z; ring_stride : Z; total_bytes : Z
}.

Definition compute_file_layout (ring_count bytes_per_ring : Z) : RingFileLayout :=
  let so := align_up (u64 (sizeof_ShmFileHeader + u64 (ring_count * sizeof_RingHeader)))
                     kPageAlign in
  mkLayout sizeof_ShmFileHeader so bytes_per_ring
           (u64 (so + u64 (ring_count * bytes_per_ring))).

(** Byte offsets the attach functions compute for ring [i] of a file: its
    header [&hdrs[i]] and slot [j] of [slots + i * kSlotCount]. *)
Definition header_offset (l : RingFileLayout) (i : Z) : Z :=
  headers_offset l + i * sizeof_RingHeader.
Definition slot_offset (l : RingFileLayout) (slot_count slot_size i j : Z) : Z :=
  slots_offset l + (i * slot_count + j) * slot_size.

(** ** Properties *)

Lemma align_up_spec v a :
  0 <= v -> 0 < a -> v + a < 2 ^ 64 ->
  (a | align_up v a) /\ v <= align_up v a < v + a.
Proof.
  intros Hv Ha Hb. unfold align_up.
  rewrite (u64_small (v + a)), (u64_small (v + a - 1)) by lia.
  pose proof (Z.div_mod (v + a - 1) a ltac:(lia)) as E.
  pose proof (Z.mod_pos_bound (v + a - 1) a Ha) as M.
  assert (v <= (v + a - 1) / a * a < v + a) by lia.
  rewrite u64_small by lia. split; [apply Z.divide_factor_r | lia].
Qed.

(** The layout of a file whose size is far from the 64-bit bound, as closed
    formulas: no wrap-around happens. *)
Lemma compute_file_layout_spec n b :
  0 <= n < 2 ^ 16 -> 0 <= b < 2 ^ 40 ->
  let l := compute_file_layout n b in
  headers_offset l = 128 /\ ring_stride l = b
  /\ total_bytes l = slots_offset l + n * b
  /\ (kPageAlign | slots_offset l)
  /\ 128 + n * 128 <= slots_offset l < 128 + n * 128 + 4096.
Proof.
  intros Hn Hb l. subst l. unfold compute_file_layout, sizeof_ShmFileHeader,
    sizeof_RingHeader, kPageAlign. cbn [headers_offset ring_stride total_bytes slots_offset].
  assert (0 <= n * b < 2 ^ 56) by nia.
  rewrite (u64_small (n * 128)), (u64_small (128 + n * 128)), (u64_small (n * b)) by lia.
  destruct (align_up_spec (128 + n * 128) 4096) as [D R]; [lia | lia | lia |].
  rewrite u64_small by lia. repeat split; try lia; done.
Qed.

Section Placement.
(** A file of [n] rings of [cnt] slots of [sz] bytes. *)
Context (n cnt sz : Z).
Hypothesis Hn : 0 < n < 2 ^ 16.
Hypothesis Hcnt : 0 < cnt <= 2 ^ 16.
Hypothesis Hsz : 0 < sz < 2 ^ 24.
Let l := compute_file_layout n (sz * cnt).

(** shared-memory placement. Inside a file of [n] rings, the ring headers
    lie between the file header and the slot areas, every slot of every ring
    lies inside the file, different (ring, slot) pairs and different headers
    occupy disjoint byte ranges, and the slot area starts on a page. *)
Theorem shm_placement :
  (kPageAlign | slots_offset l)
  /\ (forall i, 0 <= i < n ->
        sizeof_ShmFileHeader <= header_offset l i
        /\ header_offset l i + sizeof_RingHeader <= slots_offset l)
  /\ (forall i i', 0 <= i < i' -> header_offset l i + sizeof_RingHeader <= header_offset l i')
  /\ (forall i j, 0 <= i < n -> 0 <= j < cnt ->
        slots_offset l <= slot_offset l cnt sz i j
        /\ slot_offset l cnt sz i j + sz <= total_bytes l)
  /\ (forall i j i' j', 0 <= i < n -> 0 <= j < cnt -> 0 <= i' < n -> 0 <= j' < cnt ->
        (i, j) <> (i', j') ->
        slot_offset l cnt sz i j + sz <= slot_offset l cnt sz i' j'
        \/ slot_offset l cnt sz i' j' + sz <= slot_offset l cnt sz i j).
Proof.
  destruct (compute_file_layout_spec n (sz * cnt)) as (H1 & H2 & H3 & H4 & H5);
    [lia | nia |]. fold l in H1, H2, H3, H4, H5.
  unfold header_offset, slot_offset, sizeof_ShmFileHeader, sizeof_RingHeader.
  rewrite H1, H3. split; [done|]. split; [lia|]. split; [lia|].
  split.
  - intros i j Hi Hj. assert (0 <= i * cnt + j) by nia.
    assert (i * cnt + j + 1 <= n * cnt) by nia. split; nia.
  - intros i j i' j' Hi Hj Hi' Hj' Hne.
    assert (Hd : i * cnt + j < i' * cnt + j' \/ i' * cnt + j' < i * cnt + j).
    { destruct (Z.lt_trichotomy i i') as [|[->|]]; [left; nia | | right; nia].
      destruct (Z.lt_trichotomy j j') as [|[->|]]; [left; lia | congruence | right; lia]. }
    destruct Hd; [left | right]; nia.
Qed.
End Placement.

Lemma shm_placement_witness :
  (kPageAlign | slots_offset (compute_file_layout 8 (4096 * 512))).
Proof. apply (shm_placement 8 512 4096); lia. Defined.
