(* ===== verification/SpscRing.v ===== *)
(** * The single-producer single-consumer ring (spsc_ring.hpp)

    Part one is the code: the producer and consumer views and their operations
    on the shared header and slot array, with 32-bit wrapping counters.  Part
    two is the concurrent system: one producer and one consumer thread whose
    atomic accesses interleave arbitrarily and whose acquire loads may return
    any coherent (not necessarily the latest) value.  Part three is the
    invariant and the refinement to a bounded FIFO queue. *)

From S2P Require Import Prelude ShmLayout.

(** ** Slots *)

Record Slot : Type := mkSlot {
  slot_pkt : IpcPacket;
  slot_payload : list byte      (* std::uint8_t payload[SlotSize - 32] *)
}.

(** [Producer::fill]: the header is assigned, the payload bytes are copied over
    the start of the inline array; the rest of the array keeps stale bytes. *)
Definition fill (slot : Slot) (pkt : IpcPacket) (payload : list byte) : Slot :=
  if pkt_payload_len pkt >? 0
  then mkSlot pkt (take (Z.to_nat (pkt_payload_len pkt)) payload
                     ++ drop (Z.to_nat (pkt_payload_len pkt)) (slot_payload slot))
  else mkSlot pkt (slot_payload slot).

(** What a reader of the slot sees: the header and the first [payload_len]
    bytes. *)
Definition Msg : Type := IpcPacket * list byte.
Definition slot_msg (s : Slot) : Msg :=
  (slot_pkt s, take (Z.to_nat (pkt_payload_len (slot_pkt s))) (slot_payload s)).

(** ** Views *)

Record Producer : Type := mkProducer {
  head_local : Z;        (* reservation pointer *)
  head_published : Z;    (* mirror of the shared head *)
  unpublished : Z
}.

Record Consumer : Type := mkConsumer { tail_local : Z }.

Definition mk_producer (h : RingHeader) : Producer := mkProducer (rh_head h) (rh_head h) 0.
Definition mk_consumer (h : RingHeader) : Consumer := mkConsumer (rh_tail h).

Section Ring.
Context (SlotSize SlotCountBits : Z).

Definition kSlotCount : Z := Z.shiftl 1 SlotCountBits.
Definition kMask : Z := kSlotCount - 1.
Definition kPayloadMax : Z := SlotSize - sizeof_IpcPacket.

(** [begin_write] with the value [tail_snap] its acquire load returned:
    [None] is nullptr, otherwise the index of the reserved slot. *)
Definition begin_write (p : Producer) (tail_snap : Z) : option (nat * Producer) :=
  if u32 (head_local p - tail_snap) =? kSlotCount then None
  else Some (Z.to_nat (Z.land (head_local p) kMask),
             mkProducer (u32 (head_local p + 1)) (head_published p) (u32 (unpublished p + 1))).

(** The assertion in front of [publish] (active in debug builds). *)
Definition publish_assert (p : Producer) (n : Z) : bool := n =? unpublished p.

Definition publish (p : Producer) (h : RingHeader) (n : Z) : Producer * RingHeader :=
  let p' := mkProducer (head_local p) (u32 (head_published p + n)) (u32 (unpublished p - n)) in
  (p', mkRingHeader (head_published p') (rh_producer_pid h) (rh_producer_heartbeat_ns h)
                    (rh_tail h) (rh_consumer_pid h) (rh_consumer_heartbeat_ns h)).

Definition prod_full (p : Producer) (tail_snap : Z) : bool :=
  u32 (head_local p - tail_snap) =? kSlotCount.
Definition prod_size (p : Producer) (tail_snap : Z) : Z := u32 (head_local p - tail_snap).
Definition prod_empty (p : Producer) (tail_snap : Z) : bool := prod_size p tail_snap =? 0.

(** [push]: reserve, fill, publish one message. *)
Definition push (p : Producer) (h : RingHeader) (slots : list Slot) (tail_snap : Z)
    (pkt : IpcPacket) (payload : list byte) : bool * Producer * RingHeader * list Slot :=
  match begin_write p tail_snap with
  | None => (false, p, h, slots)
  | Some (i, p) =>
      let slots := alter (fun s => fill s pkt payload) i slots in
      let '(p, h) := publish p h 1 in
      (true, p, h, slots)
  end.

Definition prod_register_pid (h : RingHeader) (pid : Z) : RingHeader :=
  mkRingHeader (rh_head h) pid (rh_producer_heartbeat_ns h)
               (rh_tail h) (rh_consumer_pid h) (rh_consumer_heartbeat_ns h).
Definition prod_heartbeat (h : RingHeader) (now_ns : Z) : RingHeader :=
  mkRingHeader (rh_head h) (rh_producer_pid h) now_ns
               (rh_tail h) (rh_consumer_pid h) (rh_consumer_heartbeat_ns h).

(** [pop_batch] with the loaded [head_snap]: the number of readable slots and
    the index of the first one; the batch never crosses the array end. *)
Definition pop_batch (c : Consumer) (head_snap max : Z) : Z * nat :=
  let n := Z.min max (u32 (head_snap - tail_local c)) in
  let to_end := u32 (kSlotCount - Z.land (tail_local c) kMask) in
  let n := Z.min n to_end in
  (n, Z.to_nat (Z.land (tail_local c) kMask)).

Definition release (c : Consumer) (h : RingHeader) (n : Z) : Consumer * RingHeader :=
  let c' := mkConsumer (u32 (tail_local c + n)) in
  (c', mkRingHeader (rh_head h) (rh_producer_pid h) (rh_producer_heartbeat_ns h)
                    (tail_local c') (rh_consumer_pid h) (rh_consumer_heartbeat_ns h)).

Definition cons_empty (c : Consumer) (head_snap : Z) : bool := head_snap =? tail_local c.
Definition cons_register_pid (h : RingHeader) (pid : Z) : RingHeader :=
  mkRingHeader (rh_head h) (rh_producer_pid h) (rh_producer_heartbeat_ns h)
               (rh_tail h) pid (rh_consumer_heartbeat_ns h).
Definition cons_heartbeat (h : RingHeader) (now_ns : Z) : RingHeader :=
  mkRingHeader (rh_head h) (rh_producer_pid h) (rh_producer_heartbeat_ns h)
               (rh_tail h) (rh_consumer_pid h) now_ns.

(** The messages of a batch, read from the array. *)
Definition read_batch (slots : list Slot) (start : nat) (n : Z) : list Msg :=
  map slot_msg (take (Z.to_nat n) (drop start slots)).

(** ** The concurrent system *)

(** [s_reserved] records what the producer has written into the slots it
    reserved and not yet published, [s_batch] how many slots the consumer was
    handed and has not released, [s_enq] and [s_deq] the messages published
    and released so far.  [s_seen_tail] and [s_seen_head] are the unwrapped
    counters of the latest values each side's acquire load returned. *)
Record Sys : Type := mkSys {
  s_hdr : RingHeader;
  s_slots : list Slot;
  s_prod : Producer;
  s_cons : Consumer;
  s_reserved : list (option Msg);
  s_batch : Z;
  s_enq : list Msg;
  s_deq : list Msg;
  s_seen_tail : Z;
  s_seen_head : Z
}.

Definition sys_init (slots : list Slot) : Sys :=
  mkSys RingHeader0 slots (mk_producer RingHeader0) (mk_consumer RingHeader0)
        [] 0 [] [] 0 0.

(** Index of the [i]-th reserved slot. *)
Definition reserved_index (s : Sys) (i : nat) : nat :=
  Z.to_nat (Z.land (u32 (head_published (s_prod s) + Z.of_nat i)) kMask).

Inductive step : Sys -> Sys -> Prop :=
| step_reserve s t i p' :
    (* the load returns a tail value stored at or after the last one seen *)
    s_seen_tail s <= t <= Z.of_nat (length (s_deq s)) ->
    begin_write (s_prod s) (u32 t) = Some (i, p') ->
    step s (mkSys (s_hdr s) (s_slots s) p' (s_cons s) (s_reserved s ++ [None])
                  (s_batch s) (s_enq s) (s_deq s) t (s_seen_head s))
| step_reserve_full s t :
    s_seen_tail s <= t <= Z.of_nat (length (s_deq s)) ->
    begin_write (s_prod s) (u32 t) = None ->
    step s (mkSys (s_hdr s) (s_slots s) (s_prod s) (s_cons s) (s_reserved s)
                  (s_batch s) (s_enq s) (s_deq s) t (s_seen_head s))
| step_fill s i old pkt payload :
    s_reserved s !! i = Some old ->
    pkt_payload_len pkt = Z.of_nat (length payload) ->
    pkt_payload_len pkt <= kPayloadMax ->
    step s (mkSys (s_hdr s)
                  (alter (fun sl => fill sl pkt payload) (reserved_index s i) (s_slots s))
                  (s_prod s) (s_cons s) (<[i := Some (pkt, payload)]> (s_reserved s))
                  (s_batch s) (s_enq s) (s_deq s) (s_seen_tail s) (s_seen_head s))
| step_publish s ms p' h' :
    s_reserved s = map Some ms ->
    publish (s_prod s) (s_hdr s) (Z.of_nat (length ms)) = (p', h') ->
    step s (mkSys h' (s_slots s) p' (s_cons s) []
                  (s_batch s) (s_enq s ++ ms) (s_deq s) (s_seen_tail s) (s_seen_head s))
| step_pop s h max n start :
    s_seen_head s <= h <= Z.of_nat (length (s_enq s)) ->
    0 <= max < 2 ^ 32 ->
    pop_batch (s_cons s) (u32 h) max = (n, start) ->
    step s (mkSys (s_hdr s) (s_slots s) (s_prod s) (s_cons s) (s_reserved s)
                  n (s_enq s) (s_deq s) (s_seen_tail s) h)
| step_release s c' h' :
    release (s_cons s) (s_hdr s) (s_batch s) = (c', h') ->
    step s (mkSys h' (s_slots s) (s_prod s) c' (s_reserved s) 0 (s_enq s)
                  (s_deq s ++ read_batch (s_slots s)
                     (Z.to_nat (Z.land (tail_local (s_cons s)) kMask)) (s_batch s))
                  (s_seen_tail s) (s_seen_head s))
| step_header s h' :
    (* pid registration and heartbeats of either side *)
    (exists x, h' = prod_register_pid (s_hdr s) x \/ h' = prod_heartbeat (s_hdr s) x
            \/ h' = cons_register_pid (s_hdr s) x \/ h' = cons_heartbeat (s_hdr s) x) ->
    step s (mkSys h' (s_slots s) (s_prod s) (s_cons s) (s_reserved s)
                  (s_batch s) (s_enq s) (s_deq s) (s_seen_tail s) (s_seen_head s)).

Inductive reachable (slots : list Slot) : Sys -> Prop :=
| reach_init : reachable slots (sys_init slots)
| reach_step s s' : reachable slots s -> step s s' -> reachable slots s'.

(** Messages published and not yet released. *)
Definition s_queue (s : Sys) : list Msg := drop (length (s_deq s)) (s_enq s).
End Ring.

(** The compiled instances. *)
Definition ReqRingBits : Z := 9.
Definition RspRingBits : Z := 8.
Definition ReqRing_kSlotCount : Z := kSlotCount ReqRingBits.
Definition RspRing_kSlotCount : Z := kSlotCount RspRingBits.
Definition ReqRing_kPayloadMax : Z := kPayloadMax kReqSlotSize.
Definition RspRing_kPayloadMax : Z := kPayloadMax kRspSlotSize.

(** ** Counter arithmetic *)

Lemma u32_diff a b : 0 <= a - b < 2 ^ 32 -> u32 (u32 a - u32 b) = a - b.
Proof. intros. rewrite u32_sub_l, u32_sub_r. by apply u32_small. Qed.

(** Two counters closer than the capacity occupy different slots. *)
Lemma mod_window N a b : 0 < N -> a < b < a + N -> a mod N <> b mod N.
Proof.
  intros HN Hab E. assert (Hd : (b - a) mod N = 0).
  { rewrite Zminus_mod, E, Z.sub_diag. apply Z.mod_0_l. lia. }
  rewrite Z.mod_small in Hd; lia.
Qed.

Section Proofs.
Context (SlotSize SlotCountBits : Z).
(** The static_asserts of the template. *)
Hypothesis Hbits : 1 <= SlotCountBits <= 16.
Hypothesis Hsize : SlotSize > sizeof_IpcPacket.

Abbreviation N := (kSlotCount SlotCountBits).
Abbreviation mask := (kMask SlotCountBits).
Abbreviation pmax := (kPayloadMax SlotSize).
Abbreviation Step := (step SlotSize SlotCountBits).

Lemma N_pow : N = 2 ^ SlotCountBits.
Proof using Hbits. unfold kSlotCount. rewrite Z.shiftl_mul_pow2 by lia. lia. Qed.

Lemma N_range : 2 <= N <= 2 ^ 16.
Proof using Hbits.
  rewrite N_pow. split.
  - change 2 with (2 ^ 1) at 1. apply Z.pow_le_mono_r; lia.
  - apply Z.pow_le_mono_r; lia.
Qed.

(** The slot index of a counter: the mask selects the residue, and wrapping at
    2^32 does not change it because the capacity divides 2^32. *)
Lemma slot_index x : Z.land (u32 x) mask = x mod N.
Proof using Hbits.
  unfold kMask. rewrite N_pow.
  replace (2 ^ SlotCountBits - 1) with (Z.ones SlotCountBits)
    by (rewrite Z.ones_equiv; lia).
  rewrite Z.land_ones by lia. unfold u32.
  apply Z.mod_mod_divide.
  exists (2 ^ (32 - SlotCountBits)). rewrite <- Z.pow_add_r by lia. f_equal. lia.
Qed.

Definition idx (x : Z) : nat := Z.to_nat (x mod N).

Lemma idx_lt x : (idx x < Z.to_nat N)%nat.
Proof using Hbits.
  pose proof N_range. pose proof (Z.mod_pos_bound x N). unfold idx. lia.
Qed.

Lemma idx_window a b : a < b < a + N -> idx a <> idx b.
Proof using Hbits.
  pose proof N_range. intros Hab E. apply (mod_window N a b); [lia | lia |].
  pose proof (Z.mod_pos_bound a N). pose proof (Z.mod_pos_bound b N).
  unfold idx in E. lia.
Qed.

(** ** The invariant *)

(** Slot [x] of the (unwrapped) counter line holds message [m]. *)
Definition holds (slots : list Slot) (x : Z) (m : Msg) : Prop :=
  exists sl, slots !! idx x = Some sl /\ slot_msg sl = m.

Definition tl (s : Sys) : Z := Z.of_nat (length (s_deq s)).
Definition hp (s : Sys) : Z := Z.of_nat (length (s_enq s)).
Definition nres (s : Sys) : Z := Z.of_nat (length (s_reserved s)).

Record inv (s : Sys) : Prop := mkInv {
  inv_prod : s_prod s = mkProducer (u32 (hp s + nres s)) (u32 (hp s)) (nres s);
  inv_cons : s_cons s = mkConsumer (u32 (tl s));
  inv_head : rh_head (s_hdr s) = u32 (hp s);
  inv_tail : rh_tail (s_hdr s) = u32 (tl s);
  inv_seen_tail : 0 <= s_seen_tail s <= tl s;
  inv_cap : hp s + nres s <= s_seen_tail s + N;
  inv_seen_head : tl s + s_batch s <= s_seen_head s <= hp s;
  inv_batch : 0 <= s_batch s /\ tl s mod N + s_batch s <= N;
  inv_len : length (s_slots s) = Z.to_nat N;
  inv_pay : Forall (fun sl => Z.of_nat (length (slot_payload sl)) = pmax) (s_slots s);
  inv_queue : forall j m, tl s <= Z.of_nat j -> s_enq s !! j = Some m ->
              holds (s_slots s) (Z.of_nat j) m;
  inv_res : forall i m, s_reserved s !! i = Some (Some m) ->
            holds (s_slots s) (hp s + Z.of_nat i) m;
  inv_fifo : s_deq s = take (length (s_deq s)) (s_enq s)
}.

Lemma inv_init slots :
  length slots = Z.to_nat N ->
  Forall (fun sl => Z.of_nat (length (slot_payload sl)) = pmax) slots ->
  inv (sys_init slots).
Proof using Hbits.
  intros Hl Hp. pose proof N_range.
  constructor; unfold tl, hp, nres; simpl; try reflexivity; try done; try lia.
  rewrite Z.mod_0_l by lia. lia.
Qed.

Lemma fill_msg sl pkt payload :
  pkt_payload_len pkt = Z.of_nat (length payload) ->
  slot_msg (fill sl pkt payload) = (pkt, payload).
Proof.
  intros E. unfold slot_msg, fill. destruct (pkt_payload_len pkt >? 0) eqn:C; simpl.
  - rewrite E, Nat2Z.id. by rewrite firstn_all, take_app_length.
  - rewrite E, Nat2Z.id. rewrite E in C. destruct payload; [done|]. simpl in C. blia.
Qed.

Lemma fill_payload_len sl pkt payload :
  pkt_payload_len pkt = Z.of_nat (length payload) -> pkt_payload_len pkt <= pmax ->
  Z.of_nat (length (slot_payload sl)) = pmax ->
  Z.of_nat (length (slot_payload (fill sl pkt payload))) = pmax.
Proof.
  intros E Hle Hl. unfold fill. destruct (pkt_payload_len pkt >? 0) eqn:C; simpl; [|done].
  rewrite length_app, length_take, length_drop. lia.
Qed.

Lemma holds_alter_ne slots f i x m :
  idx x <> i -> holds slots x m -> holds (alter f i slots) x m.
Proof. intros Hne (sl & E & Em). exists sl. by rewrite list_lookup_alter_ne. Qed.

(** ** Preservation, one lemma per kind of step *)

Lemma inv_order s : inv s -> 0 <= tl s <= hp s /\ 0 <= nres s /\ hp s + nres s <= tl s + N.
Proof using Hbits.
  intros [_ _ _ _ Hst Hcap Hsh Hb _ _ _ _ _]. unfold tl, hp, nres in *. lia.
Qed.

Lemma begin_write_some s t i p' :
  inv s -> s_seen_tail s <= t <= tl s ->
  begin_write SlotCountBits (s_prod s) (u32 t) = Some (i, p') ->
  hp s + nres s < t + N /\ i = idx (hp s + nres s)
  /\ p' = mkProducer (u32 (hp s + nres s + 1)) (u32 (hp s)) (nres s + 1).
Proof using Hbits.
  intros I Ht. pose proof (inv_order _ I). destruct I as [Hp _ _ _ Hst Hcap Hsh Hb _ _ _ _ _].
  pose proof N_range as HN. unfold begin_write. rewrite Hp. cbn [head_local head_published unpublished].
  rewrite u32_diff by lia. destruct (_ =? N) eqn:E; [discriminate|].
  intros [= <- <-]. bool_to_prop. rewrite slot_index, u32_add_l.
  split; [lia|]. split; [done|]. f_equal. apply u32_small. lia.
Qed.

Lemma begin_write_none s t :
  inv s -> s_seen_tail s <= t <= tl s ->
  begin_write SlotCountBits (s_prod s) (u32 t) = None -> hp s + nres s = t + N.
Proof using Hbits.
  intros I Ht. pose proof (inv_order _ I). destruct I as [Hp _ _ _ Hst Hcap Hsh Hb _ _ _ _ _].
  pose proof N_range as HN. unfold begin_write. rewrite Hp. cbn [head_local].
  rewrite u32_diff by lia. destruct (_ =? N) eqn:E; [|discriminate]. intros _. blia.
Qed.

Lemma inv_reserve s t i p' :
  inv s -> s_seen_tail s <= t <= tl s ->
  begin_write SlotCountBits (s_prod s) (u32 t) = Some (i, p') ->
  inv (mkSys (s_hdr s) (s_slots s) p' (s_cons s) (s_reserved s ++ [None])
             (s_batch s) (s_enq s) (s_deq s) t (s_seen_head s)).
Proof using Hbits.
  intros I Ht B. destruct (begin_write_some _ _ _ _ I Ht B) as (Hc & _ & ->).
  destruct I as [Hp Hc' Hh Htl Hst Hcap Hsh Hb Hl Hpay Hq Hr Hf].
  unfold tl, hp, nres in *.
  constructor; unfold tl, hp, nres; cbn [s_hdr s_slots s_prod s_cons s_reserved s_batch s_enq
    s_deq s_seen_tail s_seen_head]; rewrite ?length_app; cbn [length]; try done; try lia.
  - f_equal; [f_equal; lia | lia].
  - intros i' m [E|[_ E]]%lookup_app_Some; [by apply Hr|].
    destruct (i' - length (s_reserved s))%nat as [|[]]; discriminate.
Qed.

Lemma inv_reserve_full s t :
  inv s -> s_seen_tail s <= t <= tl s ->
  begin_write SlotCountBits (s_prod s) (u32 t) = None ->
  inv (mkSys (s_hdr s) (s_slots s) (s_prod s) (s_cons s) (s_reserved s)
             (s_batch s) (s_enq s) (s_deq s) t (s_seen_head s)).
Proof using Hbits.
  intros I Ht B. pose proof (begin_write_none _ _ I Ht B) as Hc.
  destruct I as [Hp Hc' Hh Htl Hst Hcap Hsh Hb Hl Hpay Hq Hr Hf].
  constructor; unfold tl, hp, nres in *; simpl; try done; lia.
Qed.

Lemma reserved_index_idx s i : inv s -> reserved_index SlotCountBits s i = idx (hp s + Z.of_nat i).
Proof using Hbits.
  intros I. unfold reserved_index. rewrite (inv_prod _ I). cbn [head_published].
  by rewrite u32_add_l, slot_index.
Qed.

(** A reserved slot is none of the slots the consumer may be reading, nor
    another reserved slot: writes and reads never meet. *)
Lemma reserved_disjoint s i x :
  inv s -> (i < length (s_reserved s))%nat ->
  tl s <= x < hp s + nres s -> x <> hp s + Z.of_nat i ->
  idx x <> idx (hp s + Z.of_nat i).
Proof using Hbits.
  intros I Hi Hx Hne. destruct I as [_ _ _ _ Hst Hcap Hsh Hb _ _ _ _ _].
  unfold nres in *. destruct (Z.lt_total x (hp s + Z.of_nat i)) as [?|[?|?]]; [|lia|].
  - apply idx_window. lia.
  - apply not_eq_sym, idx_window. lia.
Qed.

Lemma inv_fill s i old pkt payload :
  inv s -> s_reserved s !! i = Some old ->
  pkt_payload_len pkt = Z.of_nat (length payload) -> pkt_payload_len pkt <= pmax ->
  inv (mkSys (s_hdr s)
         (alter (fun sl => fill sl pkt payload) (reserved_index SlotCountBits s i) (s_slots s))
         (s_prod s) (s_cons s) (<[i := Some (pkt, payload)]> (s_reserved s))
         (s_batch s) (s_enq s) (s_deq s) (s_seen_tail s) (s_seen_head s)).
Proof using Hbits.
  intros I Ei El Hle. pose proof (lookup_lt_Some _ _ _ Ei) as Hi.
  rewrite (reserved_index_idx _ _ I).
  pose proof (reserved_disjoint s i) as Hdis. specialize (fun x => Hdis x I Hi).
  destruct I as [Hp Hc' Hh Htl Hst Hcap Hsh Hb Hl Hpay Hq Hr Hf].
  constructor; unfold tl, hp, nres in *; cbn [s_hdr s_slots s_prod s_cons s_reserved s_batch
    s_enq s_deq s_seen_tail s_seen_head]; rewrite ?length_insert; try done.
  - by rewrite length_alter.
  - apply Forall_alter; [done|]. intros. by apply fill_payload_len.
  - intros j m Hj Ej. pose proof (lookup_lt_Some _ _ _ Ej).
    apply holds_alter_ne; [apply Hdis; lia | by apply Hq].
  - intros i' m Ei'. destruct (decide (i' = i)) as [->|Hne].
    + rewrite list_lookup_insert_eq in Ei' by done. injection Ei' as <-.
      destruct (lookup_lt_is_Some_2 (s_slots s)
                  (idx (Z.of_nat (length (s_enq s)) + Z.of_nat i))) as [sl Esl].
      { rewrite Hl. apply idx_lt. }
      eexists. rewrite list_lookup_alter_eq, Esl. split; [reflexivity | by apply fill_msg].
    + rewrite list_lookup_insert_ne in Ei' by done. pose proof (lookup_lt_Some _ _ _ Ei').
      apply holds_alter_ne; [apply Hdis; lia | by apply Hr].
Qed.

Lemma inv_publish s ms p' h' :
  inv s -> s_reserved s = map Some ms ->
  publish (s_prod s) (s_hdr s) (Z.of_nat (length ms)) = (p', h') ->
  inv (mkSys h' (s_slots s) p' (s_cons s) []
             (s_batch s) (s_enq s ++ ms) (s_deq s) (s_seen_tail s) (s_seen_head s)).
Proof using Hbits.
  intros I Er Ep. pose proof N_range as HN.
  assert (Hn : nres s = Z.of_nat (length ms)) by (unfold nres; by rewrite Er, length_map).
  destruct I as [Hp Hc' Hh Htl Hst Hcap Hsh Hb Hl Hpay Hq Hr Hf].
  unfold publish in Ep. rewrite Hp in Ep.
  cbn [head_local head_published unpublished] in Ep. injection Ep as <- <-.
  assert (Ez : u32 (nres s - Z.of_nat (length ms)) = 0) by (rewrite Hn, Z.sub_diag; done).
  constructor; unfold tl, hp in *; cbn [s_hdr s_slots s_prod s_cons s_reserved s_batch
    s_enq s_deq s_seen_tail s_seen_head rh_head rh_tail]; rewrite ?length_app; try done; try lia.
  - rewrite Ez. unfold nres at 2; cbn [s_reserved length]. rewrite u32_add_l.
    f_equal; f_equal; lia.
  - rewrite u32_add_l. f_equal. lia.
  - unfold nres; cbn [s_reserved length]. lia.
  - intros j m Hj [E|[Hge E]]%lookup_app_Some; [by apply Hq|].
    pose proof (lookup_lt_Some _ _ _ E).
    replace (Z.of_nat j) with (Z.of_nat (length (s_enq s))
      + Z.of_nat (j - length (s_enq s))) by lia.
    apply Hr. by rewrite Er, list_lookup_fmap, E.
  - by rewrite take_app_le by lia.
Qed.

Lemma pop_batch_spec s h max n start :
  inv s -> s_seen_head s <= h <= hp s -> 0 <= max ->
  pop_batch SlotCountBits (s_cons s) (u32 h) max = (n, start) ->
  start = idx (tl s) /\ n = Z.min (Z.min max (h - tl s)) (N - tl s mod N).
Proof using Hbits.
  intros I Hh Hmax. pose proof N_range as HN. pose proof (inv_order _ I).
  destruct I as [Hp Hc' _ Htl Hst Hcap Hsh Hb _ _ _ _ _].
  unfold pop_batch. rewrite Hc'. cbn [tail_local]. rewrite slot_index, u32_diff by lia.
  pose proof (Z.mod_pos_bound (tl s) N). rewrite (u32_small (N - _)) by lia.
  intros [= <- <-]. done.
Qed.

Lemma inv_pop s h max n start :
  inv s -> s_seen_head s <= h <= hp s -> 0 <= max ->
  pop_batch SlotCountBits (s_cons s) (u32 h) max = (n, start) ->
  inv (mkSys (s_hdr s) (s_slots s) (s_prod s) (s_cons s) (s_reserved s)
             n (s_enq s) (s_deq s) (s_seen_tail s) h).
Proof using Hbits.
  intros I Hh Hmax E. destruct (pop_batch_spec _ _ _ _ _ I Hh Hmax E) as [-> ->].
  pose proof N_range as HN. destruct I as [Hp Hc' Hhd Htl Hst Hcap Hsh Hb Hl Hpay Hq Hr Hf].
  pose proof (Z.mod_pos_bound (tl s) N).
  constructor; unfold tl, hp, nres in *; cbn [s_hdr s_slots s_prod s_cons s_reserved s_batch
    s_enq s_deq s_seen_tail s_seen_head]; try done; lia.
Qed.

(** The slots from [tl] on hold the queue, as long as the array does not wrap. *)
Lemma read_batch_queue s n :
  inv s -> 0 <= n -> tl s + n <= hp s -> tl s mod N + n <= N ->
  read_batch (s_slots s) (idx (tl s)) n
  = take (Z.to_nat n) (drop (length (s_deq s)) (s_enq s)).
Proof using Hbits.
  intros I Hn Hle Hw. pose proof N_range as HN.
  destruct I as [_ _ _ _ Hst Hcap Hsh Hb Hl _ Hq _ _].
  pose proof (Z.mod_pos_bound (tl s) N) as Hm. unfold read_batch.
  apply list_eq. intros k. rewrite list_lookup_fmap.
  destruct (decide (k < Z.to_nat n)%nat) as [Hk|Hk].
  - rewrite !lookup_take_lt by done. rewrite !lookup_drop. unfold tl, hp in *.
    destruct (lookup_lt_is_Some_2 (s_enq s) (length (s_deq s) + k)) as [m Em]; [lia|].
    assert (Hj : Z.of_nat (length (s_deq s)) <= Z.of_nat (length (s_deq s) + k)) by lia.
    destruct (Hq _ _ Hj Em) as (sl & Es & Esm).
    replace (idx (Z.of_nat (length (s_deq s) + k)))
      with (idx (Z.of_nat (length (s_deq s))) + k)%nat in Es.
    + rewrite Es, Em. simpl. by rewrite Esm.
    + unfold idx. rewrite Nat2Z.inj_add.
      pose proof (Z.div_mod (Z.of_nat (length (s_deq s))) N ltac:(lia)) as Hdm.
      rewrite <- (Z.mod_unique (Z.of_nat (length (s_deq s)) + Z.of_nat k) N
        (Z.of_nat (length (s_deq s)) / N) (Z.of_nat (length (s_deq s)) mod N + Z.of_nat k)); lia.
  - rewrite !lookup_take_ge by lia. done.
Qed.

Lemma inv_release s c' h' :
  inv s -> release (s_cons s) (s_hdr s) (s_batch s) = (c', h') ->
  inv (mkSys h' (s_slots s) (s_prod s) c' (s_reserved s) 0 (s_enq s)
         (s_deq s ++ read_batch (s_slots s)
            (Z.to_nat (Z.land (tail_local (s_cons s)) mask)) (s_batch s))
         (s_seen_tail s) (s_seen_head s)).
Proof using Hbits.
  intros I Er. pose proof N_range as HN. pose proof (read_batch_queue s (s_batch s) I) as HB.
  destruct I as [Hp Hc' Hhd Htl Hst Hcap Hsh Hb Hl Hpay Hq Hr Hf].
  unfold release in Er. rewrite Hc' in *. cbn [tail_local] in *.
  rewrite slot_index. fold (idx (tl s)). rewrite HB by lia. injection Er as <- <-.
  set (b := Z.to_nat (s_batch s)). set (d := length (s_deq s)).
  assert (Hlen : length (s_deq s ++ take b (drop d (s_enq s))) = (d + b)%nat).
  { rewrite length_app, length_take, length_drop. unfold tl, hp in *. lia. }
  assert (Htl' : Z.of_nat (d + b) = tl s + s_batch s) by (unfold tl; lia).
  constructor; unfold tl, hp, nres in *; cbn [s_hdr s_slots s_prod s_cons s_reserved s_batch
    s_enq s_deq s_seen_tail s_seen_head rh_head rh_tail]; rewrite ?Hlen; try done; try lia.
  - rewrite u32_add_l. f_equal. f_equal. lia.
  - cbn [tail_local]. rewrite u32_add_l. f_equal. lia.
  - pose proof (Z.mod_pos_bound (Z.of_nat (d + b)) N). lia.
  - intros j m Hj. apply Hq. lia.
  - rewrite <- take_take_drop. f_equal. exact Hf.
Qed.

Lemma inv_header s h' :
  inv s -> rh_head h' = rh_head (s_hdr s) -> rh_tail h' = rh_tail (s_hdr s) ->
  inv (mkSys h' (s_slots s) (s_prod s) (s_cons s) (s_reserved s)
             (s_batch s) (s_enq s) (s_deq s) (s_seen_tail s) (s_seen_head s)).
Proof.
  intros [] Eh Et. constructor; unfold tl, hp, nres in *; simpl; try done; congruence.
Qed.

Lemma inv_step s s' : inv s -> Step s s' -> inv s'.
Proof using Hbits.
  intros I H. destruct H.
  - by eapply inv_reserve.
  - by eapply inv_reserve_full.
  - by eapply inv_fill.
  - by eapply inv_publish.
  - eapply inv_pop; [done | done | | done]; lia.
  - by eapply inv_release.
  - destruct H as [x [->|[->|[->| ->]]]]; by apply inv_header.
Qed.

Section Reachable.
Context (slots : list Slot).
Hypothesis Hslots : length slots = Z.to_nat N.
Hypothesis Hpayload : Forall (fun sl => Z.of_nat (length (slot_payload sl)) = pmax) slots.

Lemma inv_reachable s : reachable SlotSize SlotCountBits slots s -> inv s.
Proof using Hbits Hslots Hpayload.
  induction 1 as [|s s' H IH Hs]; [by apply inv_init | by eapply inv_step].
Qed.
End Reachable.

(** ** Abstract specification: a bounded FIFO queue *)

Inductive fifo_step : list Msg -> list Msg -> Prop :=
| fifo_enq q ms : Z.of_nat (length (q ++ ms)) <= N -> fifo_step q (q ++ ms)
| fifo_deq q ms : fifo_step (ms ++ q) q
| fifo_idle q : fifo_step q q.

Lemma queue_length s : inv s -> Z.of_nat (length (s_queue s)) = hp s - tl s.
Proof using Hbits.
  intros I%inv_order. unfold s_queue. rewrite length_drop. unfold hp, tl in *. lia.
Qed.

Lemma queue_fifo s : inv s -> s_enq s = s_deq s ++ s_queue s.
Proof.
  intros I. unfold s_queue. pose proof (take_drop (length (s_deq s)) (s_enq s)) as E.
  rewrite <- (inv_fifo _ I) in E. by symmetry.
Qed.

Lemma step_fifo s s' : inv s -> Step s s' -> fifo_step (s_queue s) (s_queue s').
Proof using Hbits.
  intros I H. pose proof (inv_step _ _ I H) as I'.
  pose proof (queue_length _ I') as L'. pose proof (inv_order _ I') as O'.
  pose proof (inv_order _ I) as O. destruct H; try apply fifo_idle.
  - revert L' O'. unfold s_queue, hp, tl, nres in *; simpl. rewrite drop_app_le by lia.
    intros L' O'. apply fifo_enq. unfold Msg in *. lia.
  - pose proof (queue_fifo _ I) as E. pose proof (queue_fifo _ I') as E'.
    cbn [s_deq s_enq] in E'. rewrite <- app_assoc in E'.
    rewrite E' in E at 1. apply app_inv_head in E. rewrite <- E. apply fifo_deq.
Qed.

(** ** The sequential calls as steps *)

Inductive steps : Sys -> Sys -> Prop :=
| steps_refl s : steps s s
| steps_cons s s1 s2 : Step s s1 -> steps s1 s2 -> steps s s2.

Lemma inv_steps s s' : inv s -> steps s s' -> inv s'.
Proof using Hbits. intros I H. induction H; [done|]. apply IHsteps. by eapply inv_step. Qed.

(** [push] is reserve, fill, publish: it appends its message to the queue, or
    fails on a full ring and changes nothing. *)
Lemma push_steps s t pkt payload :
  inv s -> s_reserved s = [] -> s_seen_tail s <= t <= tl s ->
  pkt_payload_len pkt = Z.of_nat (length payload) -> pkt_payload_len pkt <= pmax ->
  match push SlotCountBits (s_prod s) (s_hdr s) (s_slots s) (u32 t) pkt payload with
  | (true, p', h', slots') =>
      steps s (mkSys h' slots' p' (s_cons s) [] (s_batch s) (s_enq s ++ [(pkt, payload)])
                     (s_deq s) t (s_seen_head s))
  | (false, p', h', slots') =>
      p' = s_prod s /\ h' = s_hdr s /\ slots' = s_slots s /\ hp s = t + N
  end.
Proof using Hbits.
  intros I Er Ht El Hle. unfold push.
  destruct (begin_write SlotCountBits (s_prod s) (u32 t)) as [[i p1]|] eqn:B.
  - pose proof (begin_write_some _ _ _ _ I Ht B) as (_ & -> & E1).
    pose proof (step_reserve SlotSize _ _ _ _ _ Ht B) as S1. rewrite Er in S1.
    set (s1 := mkSys _ _ _ _ _ _ _ _ _ _) in S1.
    assert (I1 : inv s1) by (by eapply inv_step).
    pose proof (step_fill SlotSize SlotCountBits s1 0 None pkt payload eq_refl El Hle) as S2.
    rewrite (reserved_index_idx _ _ I1) in S2.
    replace (hp s1 + Z.of_nat 0) with (hp s + nres s) in S2
      by (unfold hp, nres, s1; simpl; rewrite Er; simpl; lia).
    destruct (publish p1 (s_hdr s) 1) as [p2 h2] eqn:P.
    eapply steps_cons; [exact S1|]. eapply steps_cons; [exact S2|].
    eapply steps_cons; [|apply steps_refl]. simpl.
    by apply (step_publish SlotSize SlotCountBits (mkSys _ _ _ _ _ _ _ _ _ _) [(pkt, payload)]).
  - pose proof (begin_write_none _ _ I Ht B) as E. unfold nres in E. rewrite Er in E.
    simpl in E. repeat split; lia.
Qed.
End Proofs.

(** ** Properties of every run *)

Section Runs.
Context (SlotSize SlotCountBits : Z) (slots : list Slot) (s : Sys).
Abbreviation N := (kSlotCount SlotCountBits).

(** C1: the ring refines a bounded FIFO queue. In every state the producer
    and consumer threads can reach, under any interleaving and with stale
    acquire loads, the messages published are exactly those released followed
    by those still queued, never more than the capacity, and every step is an
    enqueue at the back, a dequeue at the front or no change of the queue. *)
Theorem spsc_refines_fifo :
  1 <= SlotCountBits <= 16 -> length slots = Z.to_nat N ->
  Forall (fun sl => Z.of_nat (length (slot_payload sl)) = kPayloadMax SlotSize) slots ->
  reachable SlotSize SlotCountBits slots s ->
  s_enq s = s_deq s ++ s_queue s
  /\ Z.of_nat (length (s_queue s)) + Z.of_nat (length (s_reserved s)) <= N
  /\ forall s', step SlotSize SlotCountBits s s' ->
       fifo_step SlotCountBits (s_queue s) (s_queue s').
Proof.
  intros Hb Hl Hp R. pose proof (inv_reachable _ _ Hb slots Hl Hp s R) as I.
  split; [by eapply queue_fifo|]. split.
  - rewrite (queue_length _ _ Hb _ I). pose proof (inv_order _ _ Hb _ I).
    unfold nres in *. lia.
  - intros s' Hs. by eapply step_fifo.
Qed.

(** C8: data-race freedom and batch stability. A slot the producer may write
    is never one of the slots that hold published messages; a batch returned
    by [pop_batch] lies inside the array and its slots are the oldest queued
    messages; and until the consumer releases the batch no step of either
    side changes what it reads there. *)
Theorem spsc_race_free :
  1 <= SlotCountBits <= 16 -> length slots = Z.to_nat N ->
  Forall (fun sl => Z.of_nat (length (slot_payload sl)) = kPayloadMax SlotSize) slots ->
  reachable SlotSize SlotCountBits slots s ->
  (forall i k, (i < length (s_reserved s))%nat -> (k < length (s_queue s))%nat ->
     reserved_index SlotCountBits s i <> idx SlotCountBits (tl s + Z.of_nat k))
  /\ (forall h max n start, s_seen_head s <= h <= hp s -> 0 <= max ->
        pop_batch SlotCountBits (s_cons s) (u32 h) max = (n, start) ->
        Z.of_nat start + n <= N
        /\ read_batch (s_slots s) start n = take (Z.to_nat n) (s_queue s))
  /\ (forall s', step SlotSize SlotCountBits s s' -> s_deq s' = s_deq s ->
        s_batch s' = s_batch s ->
        read_batch (s_slots s') (idx SlotCountBits (tl s)) (s_batch s)
        = read_batch (s_slots s) (idx SlotCountBits (tl s)) (s_batch s)).
Proof.
  intros Hb Hl Hp R. pose proof (inv_reachable _ _ Hb slots Hl Hp s R) as I.
  pose proof (queue_length _ _ Hb _ I) as Lq. pose proof (inv_order _ _ Hb _ I) as Ho.
  pose proof (N_range _ Hb) as HN. split; [|split].
  - intros i k Hi Hk. rewrite (reserved_index_idx _ _ Hb _ _ I).
    apply not_eq_sym, (reserved_disjoint _ _ Hb _ _ _ I Hi); unfold nres in *; lia.
  - intros h max n start Hh Hmax E.
    destruct (pop_batch_spec _ _ Hb _ _ _ _ _ I Hh Hmax E) as [-> ->].
    pose proof (Z.mod_pos_bound (tl s) N). pose proof (inv_seen_head _ _ _ I).
    pose proof (proj1 (inv_batch _ _ _ I)).
    split; [unfold idx; lia|]. apply (read_batch_queue SlotSize SlotCountBits Hb); [done | lia | lia | lia].
  - intros s' Hs Ed Eb. pose proof (inv_step _ _ Hb _ _ I Hs) as I'.
    destruct (inv_batch _ _ _ I) as [Hb0 Hbw]. pose proof (inv_seen_head _ _ _ I) as Hsh.
    assert (Et : tl s' = tl s) by (unfold tl; by rewrite Ed).
    assert (Hhp : hp s <= hp s').
    { destruct Hs; unfold hp; simpl; rewrite ?length_app; lia. }
    rewrite <- Et at 1.
    rewrite (read_batch_queue _ _ Hb _ _ I') by (rewrite ?Et; lia).
    rewrite (read_batch_queue _ _ Hb _ _ I) by lia.
    rewrite Ed. destruct Hs; try reflexivity. simpl.
    unfold tl, hp in *. rewrite drop_app_le, take_app_le; [done | rewrite length_drop; lia | lia].
Qed.

(** the capacity is exact. With an up-to-date tail, [begin_write] fails
    exactly when the queued and reserved slots fill the ring, although the
    test compares wrapped 32-bit counters for equality; and the assertion of
    [publish] holds for the outstanding reservations. *)
Theorem spsc_capacity_exact :
  1 <= SlotCountBits <= 16 -> length slots = Z.to_nat N ->
  Forall (fun sl => Z.of_nat (length (slot_payload sl)) = kPayloadMax SlotSize) slots ->
  reachable SlotSize SlotCountBits slots s ->
  (begin_write SlotCountBits (s_prod s) (rh_tail (s_hdr s)) = None
   <-> Z.of_nat (length (s_queue s)) + Z.of_nat (length (s_reserved s)) = N)
  /\ publish_assert (s_prod s) (Z.of_nat (length (s_reserved s))) = true.
Proof.
  intros Hb Hl Hp R. pose proof (inv_reachable _ _ Hb slots Hl Hp s R) as I.
  pose proof (queue_length _ _ Hb _ I) as Lq. pose proof (inv_order _ _ Hb _ I) as Ho.
  pose proof (N_range _ Hb) as HN. pose proof (inv_seen_tail _ _ _ I).
  rewrite (inv_tail _ _ _ I). split.
  - split.
    + intros E. apply (begin_write_none _ _ Hb _ _ I) in E; [|lia]. unfold nres in *. lia.
    + intros E. unfold begin_write. rewrite (inv_prod _ _ _ I). cbn [head_local].
      rewrite u32_diff by (unfold nres in *; lia).
      replace (hp s + nres s - tl s) with N by (unfold nres; lia). by rewrite Z.eqb_refl.
  - unfold publish_assert. rewrite (inv_prod _ _ _ I). apply Z.eqb_refl.
Qed.
End Runs.

(** A two-slot ring after one message was published and one slot reserved. *)
Definition ring2_slots : list Slot := replicate 2 (mkSlot IpcPacket0 (replicate 32 x00)).
Definition ring2_pkt : IpcPacket := mkPacket 7 0x13 0 1 2 0 0.

Lemma ring2_reachable :
  exists s, reachable 64 1 ring2_slots s /\ s_queue s = [(ring2_pkt, [x61; x62])]
    /\ length (s_reserved s) = 1%nat.
Proof.
  eexists. split.
  { eapply reach_step; [eapply reach_step; [eapply reach_step; [eapply reach_step;
      [apply reach_init|]|]|]|].
    - eapply (step_reserve _ _ _ 0); [simpl; lia | vm_compute; reflexivity].
    - apply (step_fill _ _ _ 0 None ring2_pkt [x61; x62]); [reflexivity | reflexivity |].
      vm_compute. discriminate.
    - eapply (step_publish _ _ _ [(ring2_pkt, [x61; x62])]); reflexivity.
    - eapply (step_reserve _ _ _ 0); [simpl; lia | vm_compute; reflexivity]. }
  split; reflexivity.
Qed.

Lemma ring2_static : length ring2_slots = Z.to_nat (kSlotCount 1)
  /\ Forall (fun sl => Z.of_nat (length (slot_payload sl)) = kPayloadMax 64) ring2_slots.
Proof. split; [reflexivity | repeat constructor]. Qed.

Lemma spsc_refines_fifo_witness :
  exists s, s_enq s = s_deq s ++ s_queue s /\ length (s_queue s) = 1%nat.
Proof.
  destruct ring2_reachable as (s & R & E & _). exists s. split; [|by rewrite E].
  apply (spsc_refines_fifo 64 1 ring2_slots s); try apply ring2_static; [lia | exact R].
Defined.

Lemma spsc_race_free_witness :
  exists s, reserved_index 1 s 0 <> idx 1 (tl s + Z.of_nat 0) /\ length (s_queue s) = 1%nat.
Proof.
  destruct ring2_reachable as (s & R & E & Er). exists s. split; [|by rewrite E].
  destruct (spsc_race_free 64 1 ring2_slots s ltac:(lia) (proj1 ring2_static)
              (proj2 ring2_static) R) as [H _].
  apply H; [rewrite Er; lia | rewrite E; simpl; lia].
Defined.

Lemma spsc_capacity_exact_witness :
  exists s, begin_write 1 (s_prod s) (rh_tail (s_hdr s)) = None.
Proof.
  destruct ring2_reachable as (s & R & E & Er). exists s.
  apply (spsc_capacity_exact 64 1 ring2_slots s); try apply ring2_static;
    [lia | exact R | rewrite E, Er; reflexivity].
Defined.
