(* ===== verification/Repo.v ===== *)
(** * Repositories and stores of the business process

    The data of server/include/server/repo/*.hpp, the interfaces IUserRepo,
    IAccountRepo, ISessionStore, IBikeRepo and IRideRepo as classes of state
    operations, the laws the handlers rely on, and RideSessionStore
    (ride_session_store.hpp).  The implementations that discharge the laws are
    in InMemory.v. *)

From S2P Require Import Prelude Double Common.

(** ** Data *)

Record User : Type := mkUser { u_id : Z; u_mobile : string }.

Inductive RecordType : Type := Recharge | Consume.
Definition record_type_code (t : RecordType) : Z :=
  match t with Recharge => 1 | Consume => 2 end.

Record AccountRecord : Type := mkAccountRecord {
  ar_type : Z; ar_amount : Z; ar_balance_after : Z; ar_timestamp : Z
}.

Inductive BikeStatus : Type := Idle | Rented | Damaged.
#[export] Instance BikeStatus_eq_dec : EqDecision BikeStatus.
Proof. solve_decision. Defined.
Definition bike_status_code (s : BikeStatus) : Z :=
  match s with Idle => 0 | Rented => 1 | Damaged => 2 end.

Record Bike : Type := mkBike {
  b_id : Z; b_no : string; b_lat : double; b_lng : double; b_status : BikeStatus
}.

Record RidePoint : Type := mkPoint {
  p_seq : Z; p_lat : double; p_lng : double; p_elapsed_sec : Z
}.

Record Ride : Type := mkRide {
  r_id : Z; r_no : string; r_user_id : Z; r_bike_id : Z;
  r_start_ts : Z; r_end_ts : Z;
  r_start_lat : double; r_start_lng : double; r_end_lat : double; r_end_lng : double;
  r_duration_sec : Z; r_distance_m : Z; r_amount_cent : Z; r_status : Z
}.

Record CreateRideInput : Type := mkCreateRide {
  ci_no : string; ci_user_id : Z; ci_bike_id : Z; ci_start_ts : Z; ci_end_ts : Z;
  ci_start_lat : double; ci_start_lng : double; ci_end_lat : double; ci_end_lng : double;
  ci_duration_sec : Z; ci_distance_m : Z; ci_amount_cent : Z; ci_points : list RidePoint
}.

Record RideSession : Type := mkSession {
  s_ride_no : string; s_user_id : Z; s_bike_id : Z;
  s_start_lat : double; s_start_lng : double; s_start_ts : Z;
  s_last_lat : double; s_last_lng : double; s_last_seq : Z;
  s_points : list RidePoint
}.

(** ** The outside world: clocks and random numbers

    Each reading advances its counter, so successive readings may differ; the
    functions are arbitrary. *)
Record World : Type := mkWorld {
  w_unix : nat -> Z;      (* system_clock / std::time, in seconds *)
  w_unix_n : nat;
  w_steady : nat -> Z;    (* steady_clock, in nanoseconds *)
  w_steady_n : nat;
  w_rand : nat -> Z;      (* the random engines *)
  w_rand_n : nat
}.

Definition read_unix (w : World) : Z * World :=
  (w_unix w (w_unix_n w),
   mkWorld (w_unix w) (S (w_unix_n w)) (w_steady w) (w_steady_n w) (w_rand w) (w_rand_n w)).
Definition read_steady (w : World) : Z * World :=
  (w_steady w (w_steady_n w),
   mkWorld (w_unix w) (w_unix_n w) (w_steady w) (S (w_steady_n w)) (w_rand w) (w_rand_n w)).
Definition read_rand (w : World) : Z * World :=
  (w_rand w (w_rand_n w),
   mkWorld (w_unix w) (w_unix_n w) (w_steady w) (w_steady_n w) (w_rand w) (S (w_rand_n w))).

(** [std::uniform_int_distribution<int>(lo, hi)] *)
Definition uniform_int (lo hi : Z) (w : World) : Z * World :=
  let '(d, w) := read_rand w in (lo + d mod (hi - lo + 1), w).
(** [std::uniform_real_distribution<double>(0.0, 1.0)] *)
Definition uniform_01 (w : World) : double * World :=
  let '(d, w) := read_rand w in (d_div (d_of_Z (d mod 2 ^ 53)) (d_of_Z (2 ^ 53)), w).

Lemma uniform_int_range lo hi w : lo <= hi -> lo <= fst (uniform_int lo hi w) <= hi.
Proof.
  intros. unfold uniform_int. simpl.
  pose proof (Z.mod_pos_bound (w_rand w (w_rand_n w)) (hi - lo + 1)). lia.
Qed.

(** ** Interfaces

    An operation takes the component's state and the world and returns a value
    or an exception together with both. *)
Definition op (St X : Type) : Type := St -> World -> result X * St * World.

Class IUserRepo (U : Type) : Type := {
  find_by_mobile : string -> op U (option User);
  find_or_create : string -> op U User
}.

Class IAccountRepo (A : Type) : Type := {
  get_balance : Z -> op A Z;
  add_balance : Z -> RecordType -> Z -> op A Z;
  list_records : Z -> Z -> op A (list AccountRecord)
}.

Class ISessionStore (S : Type) : Type := {
  set_code : string -> op S Z;
  get_code : string -> op S (option Z);
  delete_code : string -> op S unit;
  create_session : string -> op S string;
  lookup_session : string -> op S (option string);
  destroy_session : string -> op S unit
}.

Class IBikeRepo (B : Type) : Type := {
  get_for_update : string -> op B (option Bike);
  update_status : Z -> BikeStatus -> op B bool;
  update_location : Z -> double -> double -> op B bool;
  list_in_bounds : double -> double -> double -> double -> op B (list Bike);
  insert_bike : Bike -> op B (option Bike)
}.

Class IRideRepo (R : Type) : Type := {
  create_with_points : CreateRideInput -> op R Ride;
  find_by_no : string -> op R (option Ride);
  list_points : Z -> op R (list RidePoint);
  list_by_user : Z -> Z -> op R (list Ride)
}.

(** ** Laws of the interfaces

    What the handlers rely on.  Each class carries the implementation's own
    well-formedness predicate, which every operation keeps, and an abstraction
    function to a map.  [same_unix] says that an operation does not read the
    wall clock the handlers read. *)
Definition same_unix (w w' : World) : Prop :=
  w_unix w' = w_unix w /\ w_unix_n w' = w_unix_n w.

Lemma same_unix_read w w' : same_unix w w' -> fst (read_unix w') = fst (read_unix w).
Proof. intros [H1 H2]. unfold read_unix; simpl. by rewrite H1, H2. Qed.

#[export] Instance same_unix_equiv : Equivalence same_unix.
Proof.
  split.
  - by intros w.
  - intros a b [H1 H2]. split; congruence.
  - intros a b c [H1 H2] [H3 H4]. split; congruence.
Qed.

(** An operation keeps a predicate on its state, whatever it returns. *)
Definition keeps {St X} (P : St -> Prop) (o : op St X) : Prop :=
  forall s w r s' w', P s -> o s w = (r, s', w') -> P s'.

(** A user repository gives each mobile number one id for ever. *)
Class UserLaws (U : Type) `{IUserRepo U} : Type := {
  user_wf : U -> Prop;
  uid_of : U -> string -> option Z;
  uid_inj u m1 m2 i : user_wf u -> uid_of u m1 = Some i -> uid_of u m2 = Some i -> m1 = m2;
  find_known m i u w :
    user_wf u -> uid_of u m = Some i -> find_or_create m u w = (Ok (mkUser i m), u, w);
  find_or_create_keeps m : keeps user_wf (find_or_create m);
  find_or_create_uid m u w usr u' w' :
    user_wf u -> find_or_create m u w = (Ok usr, u', w') ->
    uid_of u' m = Some (u_id usr) /\ same_unix w w';
  find_or_create_stable m u w r u' w' m' i :
    user_wf u -> find_or_create m u w = (r, u', w') -> uid_of u m' = Some i -> uid_of u' m' = Some i
}.

(** An account repository is a total map of non-negative balances.  A
    withdrawal the balance does not cover returns -1 and changes nothing; a
    sum that exceeds [int] is outside the contract. *)
Class AccountLaws (A : Type) `{IAccountRepo A} : Type := {
  acct_wf : A -> Prop;
  bal : A -> Z -> Z;
  bal_range a uid : acct_wf a -> 0 <= bal a uid <= INT_MAX;
  get_balance_law uid a w : acct_wf a -> get_balance uid a w = (Ok (bal a uid), a, w);
  add_balance_refused uid ty amt a w :
    acct_wf a -> INT_MIN <= amt < 0 -> bal a uid + amt < 0 ->
    add_balance uid ty amt a w = (Ok (-1), a, w);
  add_balance_done uid ty amt a w :
    acct_wf a -> 0 <= bal a uid + amt <= INT_MAX -> INT_MIN <= amt <= INT_MAX ->
    exists a' w', add_balance uid ty amt a w = (Ok (bal a uid + amt), a', w')
      /\ forall v, bal a' v = if decide (v = uid) then bal a uid + amt else bal a v;
  add_balance_keeps uid ty amt : in_int amt = true -> keeps acct_wf (add_balance uid ty amt);
  list_records_law uid lim a w : exists recs, list_records uid lim a w = (Ok recs, a, w)
}.

(** A session store: verification codes by mobile number, sessions by token,
    both with an expiry that depends on the clock. *)
Class SessionLaws (S : Type) `{ISessionStore S} : Type := {
  code_of : S -> World -> string -> option Z;
  session_of : S -> World -> string -> option string;
  get_code_law m s w :
    exists s' w', get_code m s w = (Ok (code_of s w m), s', w') /\ same_unix w w'
      /\ (code_of s w m <> None -> s' = s);
  delete_code_law m s w :
    exists s', delete_code m s w = (Ok tt, s', w)
      /\ (forall w', code_of s' w' m = None)
      /\ (forall w' m', m' <> m -> code_of s' w' m' = code_of s w' m');
  create_session_law m s w :
    exists t s' w', create_session m s w = (Ok t, s', w') /\ same_unix w w'
      /\ (forall w'' m', code_of s' w'' m' = code_of s w'' m');
  lookup_session_law t s w :
    exists s' w', lookup_session t s w = (Ok (session_of s w t), s', w') /\ same_unix w w'
      /\ (session_of s w t <> None -> s' = s)
}.

(** A bike repository is a map from numbers to bikes in which ids are unique. *)
Definition set_status (st : BikeStatus) (b : Bike) : Bike :=
  mkBike (b_id b) (b_no b) (b_lat b) (b_lng b) st.
Definition set_location (la lo : double) (b : Bike) : Bike :=
  mkBike (b_id b) (b_no b) la lo (b_status b).
Definition on_id (id : Z) (f : Bike -> Bike) (b : Bike) : Bike :=
  if b_id b =? id then f b else b.

Class BikeLaws (B : Type) `{IBikeRepo B} : Type := {
  bike_wf : B -> Prop;
  bike_of : B -> string -> option Bike;
  bike_of_no b no bk : bike_wf b -> bike_of b no = Some bk -> b_no bk = no;
  bike_of_id b n1 n2 b1 b2 :
    bike_wf b -> bike_of b n1 = Some b1 -> bike_of b n2 = Some b2 -> b_id b1 = b_id b2 -> n1 = n2;
  get_for_update_law no b w : get_for_update no b w = (Ok (bike_of b no), b, w);
  update_status_law id st b w :
    bike_wf b ->
    exists ok b', update_status id st b w = (Ok ok, b', w) /\ bike_wf b'
      /\ forall no, bike_of b' no = on_id id (set_status st) <$> bike_of b no;
  update_location_law id la lo b w :
    bike_wf b ->
    exists ok b', update_location id la lo b w = (Ok ok, b', w) /\ bike_wf b'
      /\ forall no, bike_of b' no = on_id id (set_location la lo) <$> bike_of b no;
  list_in_bounds_law la1 la2 lo1 lo2 b w :
    exists l, list_in_bounds la1 la2 lo1 lo2 b w = (Ok l, b, w);
  insert_bike_keeps bk : keeps bike_wf (insert_bike bk);
  insert_bike_taken bk b w :
    bike_wf b -> bike_of b (b_no bk) <> None -> insert_bike bk b w = (Ok None, b, w);
  insert_bike_new bk b w r b' w' :
    bike_wf b -> insert_bike bk b w = (r, b', w') ->
    forall no old, bike_of b no = Some old -> bike_of b' no = Some old
}.

(** A ride repository: a created ride is the one found under its number and
    the others stay.  [ride_room] holds while row ids are left. *)
Class RideLaws (R : Type) `{IRideRepo R} : Type := {
  ride_wf : R -> Prop;
  ride_room : R -> Prop;
  ride_of : R -> string -> option Ride;
  find_by_no_law no r w : ride_wf r -> find_by_no no r w = (Ok (ride_of r no), r, w);
  create_keeps ci : keeps ride_wf (create_with_points ci);
  create_law ci r w :
    ride_wf r -> ride_room r ->
    exists i r', let rd := mkRide i (ci_no ci) (ci_user_id ci) (ci_bike_id ci)
         (ci_start_ts ci) (ci_end_ts ci) (ci_start_lat ci) (ci_start_lng ci)
         (ci_end_lat ci) (ci_end_lng ci) (ci_duration_sec ci) (ci_distance_m ci)
         (ci_amount_cent ci) 0 in
      create_with_points ci r w = (Ok rd, r', w)
      /\ ride_of r' (ci_no ci) = Some rd
      /\ (forall no, no <> ci_no ci -> ride_of r' no = ride_of r no)
      /\ forall w', list_points i r' w' = (Ok (ci_points ci), r', w');
  list_points_law i r w : exists l, list_points i r w = (Ok l, r, w);
  list_by_user_law uid lim r w :
    exists l, list_by_user uid lim r w = (Ok l, r, w) /\ Forall (fun rd => r_user_id rd = uid) l
}.

(** ** RideSessionStore *)

Definition kMaxPoints : nat := 3600.
Abbreviation RideSessions := (gmap string RideSession).

Definition rs_create (s : RideSession) (m : RideSessions) : RideSessions :=
  <[s_ride_no s := s]> m.

Definition rs_find (ride_no : string) (m : RideSessions) : option RideSession := m !! ride_no.

(** The update of one session by a position report. *)
Definition session_update (s : RideSession) (lat lng : double) (seq elapsed_sec : Z)
  : RideSession :=
  if (negb (s_last_seq s =? 0) || negb (bool_decide (length (s_points s) = 0%nat)))
     && (seq <=? s_last_seq s)
  then s
  else
    let points := s_points s ++ [mkPoint seq lat lng elapsed_sec] in
    let points := if (kMaxPoints <? length points)%nat then tail points else points in
    mkSession (s_ride_no s) (s_user_id s) (s_bike_id s) (s_start_lat s) (s_start_lng s)
              (s_start_ts s) lat lng seq points.

Definition update_pos (ride_no : string) (lat lng : double) (seq elapsed_sec : Z)
    (m : RideSessions) : bool * RideSessions :=
  match m !! ride_no with
  | None => (false, m)
  | Some s => (true, <[ride_no := session_update s lat lng seq elapsed_sec]> m)
  end.

Definition rs_remove (ride_no : string) (m : RideSessions) : bool * RideSessions :=
  (bool_decide (is_Some (m !! ride_no)), delete ride_no m).

(** ** What the session store guarantees *)

(** Sequence numbers of the recorded points increase strictly and end in
    [last_seq]; a session without points has [last_seq = 0]. *)
Definition session_ok (s : RideSession) : Prop :=
  StronglySorted Z.lt (p_seq <$> s_points s)
  /\ (length (s_points s) <= kMaxPoints)%nat
  /\ match last (s_points s) with Some p => p_seq p = s_last_seq s | None => s_last_seq s = 0 end.

Definition sessions_ok (m : RideSessions) : Prop :=
  forall k s, m !! k = Some s -> s_ride_no s = k /\ session_ok s.

Section RideSessionStore.
Lemma StronglySorted_snoc (l : list Z) (x : Z) :
  StronglySorted Z.lt l -> Forall (fun y => y < x) l -> StronglySorted Z.lt (l ++ [x]).
Proof.
  induction 1 as [|y l Hl IH Hy]; intros Hf; [by repeat constructor|].
  inversion_clear Hf. simpl. constructor; [by apply IH|].
  apply Forall_app. split; [done|]. by repeat constructor.
Qed.

Lemma StronglySorted_last (l : list Z) (x : Z) :
  StronglySorted Z.lt l -> last l = Some x -> Forall (fun y => y <= x) l.
Proof.
  induction 1 as [|y l Hl IH Hy]; intros Hx; [done|].
  destruct l as [|z l].
  - injection Hx as ->. by repeat constructor.
  - specialize (IH Hx). constructor; [|done].
    apply Forall_cons in Hy as [Hy _]. apply Forall_cons in IH as [IH _]. lia.
Qed.

Lemma StronglySorted_tail (l : list Z) : StronglySorted Z.lt l -> StronglySorted Z.lt (tail l).
Proof. destruct 1; [constructor | done]. Qed.

(** An accepted report's sequence number exceeds every recorded one. *)
Lemma session_accept_fresh s seq :
  session_ok s ->
  ((negb (s_last_seq s =? 0) || negb (bool_decide (length (s_points s) = 0%nat)))
   && (seq <=? s_last_seq s)) = false ->
  Forall (fun y => y < seq) (p_seq <$> s_points s).
Proof.
  intros (Hs & _ & Hl) E. destruct (last (s_points s)) as [p|] eqn:El.
  - assert (Hne : bool_decide (length (s_points s) = 0%nat) = false).
    { apply bool_decide_eq_false. intros H%nil_length_inv. by rewrite H in El. }
    rewrite Hne, orb_true_r in E. simpl in E.
    eapply Forall_impl; [apply (StronglySorted_last _ (p_seq p)); [done|]|].
    + by rewrite fmap_last, El.
    + simpl. intros y Hy. blia.
  - apply last_None in El. rewrite El. constructor.
Qed.

Lemma session_update_ok s lat lng seq el :
  session_ok s -> session_ok (session_update s lat lng seq el).
Proof.
  intros Hok. unfold session_update.
  destruct (_ && _) eqn:E; [done|].
  pose proof (session_accept_fresh s seq Hok E) as Hf.
  destruct Hok as (Hs & Hlen & _).
  assert (Hsnoc : StronglySorted Z.lt (p_seq <$> s_points s ++ [mkPoint seq lat lng el])).
  { rewrite fmap_app. by apply StronglySorted_snoc. }
  destruct (kMaxPoints <? length _)%nat eqn:El; unfold session_ok; simpl.
  - split; [|split].
    + replace (p_seq <$> tail (s_points s ++ [mkPoint seq lat lng el]))
        with (tail (p_seq <$> s_points s ++ [mkPoint seq lat lng el]))
        by (by destruct (s_points s)).
      by apply StronglySorted_tail.
    + destruct (s_points s) as [|p l]; simpl in *; [unfold kMaxPoints; lia|].
      rewrite length_app. simpl. lia.
    + destruct (s_points s) as [|p l]; [vm_compute in El; discriminate El|]. simpl. by rewrite last_snoc.
  - split; [done|]. split; [apply Nat.ltb_ge in El; exact El|]. by rewrite last_snoc.
Qed.

Lemma session_update_ride_no s lat lng seq el :
  s_ride_no (session_update s lat lng seq el) = s_ride_no s.
Proof. unfold session_update. by destruct (_ && _). Qed.

Lemma update_pos_keeps no lat lng seq el m :
  sessions_ok m -> sessions_ok (snd (update_pos no lat lng seq el m)).
Proof.
  intros Hm. unfold update_pos. destruct (m !! no) as [s|] eqn:E; [|done].
  intros k s'. simpl. destruct (Hm _ _ E) as [Hn Hs].
  rewrite lookup_insert_Some. intros [[<- <-]|[_ Hk]]; [|by apply Hm].
  split; [by rewrite session_update_ride_no | by apply session_update_ok].
Qed.

Lemma rs_create_keeps s m : session_ok s -> sessions_ok m -> sessions_ok (rs_create s m).
Proof.
  intros Hs Hm k s'. unfold rs_create.
  rewrite lookup_insert_Some. intros [[<- <-]|[_ Hk]]; [done|by apply Hm].
Qed.

Lemma rs_remove_keeps no m : sessions_ok m -> sessions_ok (snd (rs_remove no m)).
Proof.
  intros Hm k s'. simpl. rewrite lookup_delete_Some. intros [_ Hk]. by apply Hm.
Qed.

(** *** Replaying a sequence of reports

    The specification of deduplication: a report counts when its sequence
    number exceeds those of all earlier reports. *)
Fixpoint records_from (earlier rs : list RidePoint) : list RidePoint :=
  match rs with
  | [] => []
  | p :: rs =>
      (if forallb (fun q => p_seq q <? p_seq p) earlier then [p] else [])
      ++ records_from (earlier ++ [p]) rs
  end.
Definition new_maxima (rs : list RidePoint) : list RidePoint := records_from [] rs.

(** The last [kMaxPoints] elements. *)
Definition lastn (n : nat) (l : list RidePoint) : list RidePoint := drop (length l - n) l.

Definition report (s : RideSession) (p : RidePoint) : RideSession :=
  session_update s (p_lat p) (p_lng p) (p_seq p) (p_elapsed_sec p).

Lemma records_from_app a l k :
  records_from a (l ++ k) = records_from a l ++ records_from (a ++ l) k.
Proof.
  revert a. induction l as [|p l IH]; intros a; simpl.
  - by rewrite app_nil_r.
  - rewrite IH, <- !app_assoc. by simpl.
Qed.

Lemma new_maxima_snoc l p :
  new_maxima (l ++ [p])
  = new_maxima l ++ if forallb (fun q => p_seq q <? p_seq p) l then [p] else [].
Proof. unfold new_maxima. rewrite records_from_app. simpl. by rewrite app_nil_r. Qed.

(** The last new maximum is the maximum of what was reported. *)
Lemma new_maxima_last l :
  match last (new_maxima l) with
  | Some q => In q l /\ forall p, In p l -> p_seq p <= p_seq q
  | None => l = []
  end.
Proof.
  induction l as [|p l IH] using rev_ind; [done|].
  rewrite new_maxima_snoc. destruct (forallb _ l) eqn:E.
  - rewrite last_snoc. split; [apply in_app_iff; simpl; auto|].
    intros q [Hq|[->|[]]]%in_app_iff; [|lia].
    rewrite forallb_forall in E. apply E in Hq. lia.
  - rewrite app_nil_r. destruct (last (new_maxima l)) as [q|] eqn:El.
    + destruct IH as [Hq Hm]. split; [apply in_app_iff; auto|].
      intros x [Hx|[<-|[]]]%in_app_iff; [by apply Hm|].
      destruct (Z.le_gt_cases (p_seq p) (p_seq q)); [done|].
      exfalso. apply not_true_iff_false in E. apply E, forallb_forall.
      intros y Hy. apply Hm in Hy. lia.
    + by subst l.
Qed.

Lemma lastn_snoc n l p :
  (0 < n)%nat ->
  lastn n (l ++ [p])
  = let points := lastn n l ++ [p] in if (n <? length points)%nat then tail points else points.
Proof.
  intros Hn. unfold lastn. rewrite !length_app, length_drop. cbn [length].
  destruct (decide (n <= length l)%nat) as [H|H].
  - destruct (Nat.ltb_spec n (length l - (length l - n) + 1)); [|lia].
    replace (length l + 1 - n)%nat with (S (length l - n)) by lia.
    rewrite <- drop_app_le by lia.
    generalize (length l - n)%nat. intros k. generalize (l ++ [p]). intros l'.
    revert k. induction l' as [|x l' IH]; intros [|k]; simpl; try done.
  - replace (length l - n)%nat with 0%nat by lia.
    replace (length l + 1 - n)%nat with 0%nat by lia. rewrite !drop_0.
    destruct (Nat.ltb_spec n (length l - 0 + 1)); [lia|done].
Qed.

Definition fresh_session (s : RideSession) : Prop := s_last_seq s = 0 /\ s_points s = [].

Lemma reports_points s rs :
  fresh_session s ->
  s_points (fold_left report rs s) = lastn kMaxPoints (new_maxima rs)
  /\ match last (new_maxima rs) with
     | Some p => s_last_seq (fold_left report rs s) = p_seq p
                 /\ s_last_lat (fold_left report rs s) = p_lat p
                 /\ s_last_lng (fold_left report rs s) = p_lng p
     | None => s_last_seq (fold_left report rs s) = 0
     end.
Proof.
  intros [H0 Hp]. induction rs as [|p rs [IHp IHl]] using rev_ind; [done|].
  rewrite fold_left_app. cbn [fold_left]. set (s1 := fold_left report rs s) in *.
  rewrite new_maxima_snoc. pose proof (new_maxima_last rs) as Hmax.
  unfold report, session_update. rewrite IHp.
  destruct (last (new_maxima rs)) as [q|] eqn:El.
  - destruct Hmax as [Hq Hm]. destruct IHl as (IHl & IHla & IHlo).
    assert (Hne : bool_decide (length (lastn kMaxPoints (new_maxima rs)) = 0%nat) = false).
    { apply bool_decide_eq_false. unfold lastn. rewrite length_drop.
      destruct (new_maxima rs) as [|? ?]; [done|]. simpl. unfold kMaxPoints. lia. }
    rewrite Hne, orb_true_r, IHl. cbn [andb].
    assert (Hfb : forallb (fun q0 => p_seq q0 <? p_seq p) rs = negb (p_seq p <=? p_seq q)).
    { destruct (Z.leb_spec (p_seq p) (p_seq q)); simpl.
      - apply not_true_iff_false. rewrite forallb_forall. intros Hc. apply Hc in Hq. lia.
      - apply forallb_forall. intros x Hx%Hm. lia. }
    rewrite Hfb. destruct (p_seq p <=? p_seq q); cbn [negb].
    + rewrite app_nil_r, El. done.
    + rewrite last_snoc. cbn [s_points s_last_seq s_last_lat s_last_lng]. split; [|done].
      rewrite lastn_snoc by (unfold kMaxPoints; lia). by destruct p.
  - subst rs. rewrite IHl. cbn. by destruct p.
Qed.
End RideSessionStore.

(** C10: whatever duplicated or reordered position reports arrive for a ride,
    the session holds exactly the reports whose sequence number exceeded all
    earlier ones, the most recent 3600 of them, in order; the last position
    and [last_seq] are those of the newest accepted report. *)
Theorem reports_accumulate s rs :
  fresh_session s ->
  let s' := fold_left report rs s in
  s_points s' = lastn kMaxPoints (new_maxima rs)
  /\ (length (s_points s') <= kMaxPoints)%nat
  /\ StronglySorted Z.lt (p_seq <$> s_points s')
  /\ forall p, last (new_maxima rs) = Some p ->
       s_last_seq s' = p_seq p /\ s_last_lat s' = p_lat p /\ s_last_lng s' = p_lng p.
Proof.
  intros Hf. destruct (reports_points s rs Hf) as [H1 H2].
  assert (Hok : session_ok (fold_left report rs s)).
  { assert (H0 : session_ok s).
    { destruct Hf as [E1 E2]. unfold session_ok. rewrite E2. simpl.
      split; [constructor|]. split; [unfold kMaxPoints; lia | done]. }
    clear H1 H2 Hf. revert s H0. induction rs as [|p rs IH]; intros s H0; [done|].
    apply IH. by apply session_update_ok. }
  split; [done|]. destruct Hok as (Hs & Hl & _). split; [done|]. split; [done|].
  intros p Hp. by rewrite Hp in H2.
Qed.

Lemma reports_accumulate_witness :
  let pt n := mkPoint n d_zero d_zero n in
  let s := mkSession "R" 1 1 d_zero d_zero 0 d_zero d_zero 0 [] in
  s_points (fold_left report [pt 1; pt 3; pt 2; pt 3; pt 4] s) = [pt 1; pt 3; pt 4].
Proof.
  intros pt s.
  destruct (reports_accumulate s [pt 1; pt 3; pt 2; pt 3; pt 4]) as [H _];
    [split; reflexivity|].
  rewrite H. vm_compute. reflexivity.
Defined.

#[export] Hint Resolve update_pos_keeps rs_create_keeps rs_remove_keeps : bike.
