(* ===== verification/InMemory.v ===== *)
(** * The in-memory repositories (server/include/server/repo/in_memory.hpp)

    One Record per class, one Definition per method; every method runs under
    the object's mutex, so each is one atomic operation.  [std::map] is a
    finite map; a loop over it visits the entries in key order
    ([map_items]).  The second half proves that the classes implement the
    interfaces' laws of Repo.v. *)

From Stdlib Require Import Ascii.
From S2P Require Import Prelude Double Common Repo.

(** Entries of a [std::map] in iteration order. *)
Definition by_key {K V} (le : relation K) (a b : K * V) : Prop := le (fst a) (fst b).
#[export] Instance by_key_dec {K V} (le : relation K) `{!RelDecision le} :
  RelDecision (by_key (V := V) le).
Proof. intros a b. unfold by_key. apply _. Defined.
Definition map_items {K V} `{Countable K} (le : relation K) `{!RelDecision le}
    (m : gmap K V) : list (K * V) :=
  merge_sort (by_key le) (map_to_list m).

Lemma elem_of_map_items {K V} `{Countable K} (le : relation K) `{!RelDecision le}
    (m : gmap K V) k v : (k, v) ∈ map_items le m <-> m !! k = Some v.
Proof.
  unfold map_items. rewrite merge_sort_Permutation. apply elem_of_map_to_list.
Qed.

(** ** InMemoryUserRepo *)
Record InMemoryUserRepo : Type := mkUserRepo {
  by_mobile_ : gmap string User;
  u_next_id_ : Z
}.
Definition InMemoryUserRepo0 : InMemoryUserRepo := mkUserRepo ∅ 1.

Definition mem_find_by_mobile (m : string) : op InMemoryUserRepo (option User) :=
  fun s w => (Ok (by_mobile_ s !! m), s, w).

Definition mem_find_or_create (m : string) : op InMemoryUserRepo User :=
  fun s w =>
    match by_mobile_ s !! m with
    | Some u => (Ok u, s, w)
    | None =>
        let u := mkUser (u_next_id_ s) m in
        match int_add (u_next_id_ s) 1 with
        | Ok n => (Ok u, mkUserRepo (<[m := u]> (by_mobile_ s)) n, w)
        | Err e => (Err e, s, w)
        end
    end.

#[export] Instance InMemoryUserRepo_IUserRepo : IUserRepo InMemoryUserRepo := {
  find_by_mobile := mem_find_by_mobile; find_or_create := mem_find_or_create }.

(** ** InMemoryAccountRepo *)
Record InMemoryAccountRepo : Type := mkAccountRepo {
  bal_ : gmap Z Z;
  records_ : gmap Z (list AccountRecord)
}.
Definition InMemoryAccountRepo0 : InMemoryAccountRepo := mkAccountRepo ∅ ∅.

Definition mem_get_balance (uid : Z) : op InMemoryAccountRepo Z :=
  fun s w => (Ok (default 0 (bal_ s !! uid)), s, w).

Definition mem_add_balance (uid : Z) (type : RecordType) (amount : Z)
  : op InMemoryAccountRepo Z :=
  fun s w =>
    let cur := match bal_ s !! uid with Some b => b | None => 0 end in
    match int_add cur amount with
    | Err e => (Err e, s, w)
    | Ok sum =>
        if (amount <? 0) && (sum <? 0) then (Ok (-1), s, w)
        else
          let b := sum in
          let '(now, w) := read_unix w in
          let rec := mkAccountRecord (record_type_code type) amount b now in
          (Ok b,
           mkAccountRepo (<[uid := b]> (bal_ s))
                         (<[uid := default [] (records_ s !! uid) ++ [rec]]> (records_ s)), w)
    end.

Definition mem_list_records (uid limit : Z) : op InMemoryAccountRepo (list AccountRecord) :=
  fun s w =>
    match records_ s !! uid with
    | None => (Ok [], s, w)
    | Some v =>
        let n := Z.min (u64 limit) (Z.of_nat (length v)) in
        (Ok (take (Z.to_nat n) (reverse v)), s, w)
    end.

#[export] Instance InMemoryAccountRepo_IAccountRepo : IAccountRepo InMemoryAccountRepo := {
  get_balance := mem_get_balance; add_balance := mem_add_balance;
  list_records := mem_list_records }.

(** ** InMemorySessionStore *)
Record CodeEntry : Type := mkCodeEntry { ce_code : Z; ce_expiry : Z }.
Record Entry : Type := mkEntry { e_mobile : string; e_expiry : Z }.
Record InMemorySessionStore : Type := mkSessionStore {
  codes_ : gmap string CodeEntry;
  sessions_ : gmap string Entry
}.
Definition InMemorySessionStore0 : InMemorySessionStore := mkSessionStore ∅ ∅.

Definition ns_per_s : Z := 10 ^ 9.

Definition mem_set_code (m : string) : op InMemorySessionStore Z :=
  fun s w =>
    let '(c, w) := uniform_int 100000 999999 w in
    let '(now, w) := read_steady w in
    (Ok c, mkSessionStore (<[m := mkCodeEntry c (now + 300 * ns_per_s)]> (codes_ s)) (sessions_ s), w).

Definition mem_get_code (m : string) : op InMemorySessionStore (option Z) :=
  fun s w =>
    match codes_ s !! m with
    | None => (Ok None, s, w)
    | Some e =>
        let '(now, w) := read_steady w in
        if now >? ce_expiry e
        then (Ok None, mkSessionStore (delete m (codes_ s)) (sessions_ s), w)
        else (Ok (Some (ce_code e)), s, w)
    end.

Definition mem_delete_code (m : string) : op InMemorySessionStore unit :=
  fun s w => (Ok tt, mkSessionStore (delete m (codes_ s)) (sessions_ s), w).

(** [oss << std::hex << n]: at most 16 hexadecimal digits, no padding. *)
Definition hex_digit (d : Z) : ascii :=
  ascii_of_N (Z.to_N (if d <? 10 then 48 + d else 87 + d)).
Fixpoint hex (fuel : nat) (n : Z) (acc : list ascii) : list ascii :=
  match fuel with
  | O => acc
  | S fuel =>
      let acc := hex_digit (n mod 16) :: acc in
      if n / 16 =? 0 then acc else hex fuel (n / 16) acc
  end.
Definition to_hex (n : Z) : list ascii := hex 16 n [].

Definition mem_create_session (m : string) : op InMemorySessionStore string :=
  fun s w =>
    let '(a, w) := uniform_int 0 (2 ^ 64 - 1) w in
    let '(b, w) := uniform_int 0 (2 ^ 64 - 1) w in
    let token := string_of_chars (to_hex a ++ to_hex b) in
    let '(now, w) := read_steady w in
    (Ok token,
     mkSessionStore (codes_ s)
       (<[token := mkEntry m (now + 7 * 24 * 3600 * ns_per_s)]> (sessions_ s)), w).

Definition mem_lookup_session (t : string) : op InMemorySessionStore (option string) :=
  fun s w =>
    match sessions_ s !! t with
    | None => (Ok None, s, w)
    | Some e =>
        let '(now, w) := read_steady w in
        if now >? e_expiry e
        then (Ok None, mkSessionStore (codes_ s) (delete t (sessions_ s)), w)
        else (Ok (Some (e_mobile e)), s, w)
    end.

Definition mem_destroy_session (t : string) : op InMemorySessionStore unit :=
  fun s w => (Ok tt, mkSessionStore (codes_ s) (delete t (sessions_ s)), w).

#[export] Instance InMemorySessionStore_ISessionStore : ISessionStore InMemorySessionStore := {
  set_code := mem_set_code; get_code := mem_get_code; delete_code := mem_delete_code;
  create_session := mem_create_session; lookup_session := mem_lookup_session;
  destroy_session := mem_destroy_session }.

(** ** InMemoryBikeRepo *)
Record InMemoryBikeRepo : Type := mkBikeRepo {
  bikes_ : gmap string Bike;
  b_next_id_ : Z
}.
Definition InMemoryBikeRepo0 : InMemoryBikeRepo := mkBikeRepo ∅ 1000000.

Definition bike_items (s : InMemoryBikeRepo) : list (string * Bike) :=
  map_items String.le (bikes_ s).

(** The loop [for (auto& [_, b] : bikes_) if (b.id == id) { ...; return true; }]. *)
Definition mem_update_first (id : Z) (f : Bike -> Bike) : op InMemoryBikeRepo bool :=
  fun s w =>
    match List.find (fun kb => b_id (snd kb) =? id) (bike_items s) with
    | Some (k, b) => (Ok true, mkBikeRepo (<[k := f b]> (bikes_ s)) (b_next_id_ s), w)
    | None => (Ok false, s, w)
    end.

Definition mem_get_for_update (no : string) : op InMemoryBikeRepo (option Bike) :=
  fun s w => (Ok (bikes_ s !! no), s, w).

Definition mem_update_status (id : Z) (st : BikeStatus) : op InMemoryBikeRepo bool :=
  mem_update_first id (set_status st).

Definition mem_update_location (id : Z) (lat lng : double) : op InMemoryBikeRepo bool :=
  mem_update_first id (set_location lat lng).

Definition mem_list_in_bounds (la_min la_max lo_min lo_max : double)
  : op InMemoryBikeRepo (list Bike) :=
  fun s w =>
    (Ok (List.filter (fun b => d_le la_min (b_lat b) && d_le (b_lat b) la_max
                          && d_le lo_min (b_lng b) && d_le (b_lng b) lo_max)
           (snd <$> bike_items s)), s, w).

Definition mem_seed (b : Bike) (s : InMemoryBikeRepo) : InMemoryBikeRepo :=
  mkBikeRepo (<[b_no b := b]> (bikes_ s)) (b_next_id_ s).

Definition mem_insert (b : Bike) : op InMemoryBikeRepo (option Bike) :=
  fun s w =>
    match bikes_ s !! b_no b with
    | Some _ => (Ok None, s, w)
    | None =>
        match int_add (b_next_id_ s) 1 with
        | Err e => (Err e, s, w)
        | Ok n =>
            let nb := mkBike (b_next_id_ s) (b_no b) (b_lat b) (b_lng b) (b_status b) in
            (Ok (Some nb), mkBikeRepo (<[b_no nb := nb]> (bikes_ s)) n, w)
        end
    end.

#[export] Instance InMemoryBikeRepo_IBikeRepo : IBikeRepo InMemoryBikeRepo := {
  get_for_update := mem_get_for_update; update_status := mem_update_status;
  update_location := mem_update_location; list_in_bounds := mem_list_in_bounds;
  insert_bike := mem_insert }.

(** ** InMemoryRideRepo *)
Record InMemoryRideRepo : Type := mkRideRepo {
  rides_ : gmap Z Ride;
  points_ : gmap Z (list RidePoint);
  by_no_ : gmap string Z;
  r_next_id_ : Z
}.
Definition InMemoryRideRepo0 : InMemoryRideRepo := mkRideRepo ∅ ∅ ∅ 1.

(** A value-initialised [Ride]. *)
Definition Ride0 : Ride :=
  mkRide 0 "" 0 0 0 0 d_zero d_zero d_zero d_zero 0 0 0 0.

Definition mem_create_with_points (ci : CreateRideInput) : op InMemoryRideRepo Ride :=
  fun s w =>
    match int_add (r_next_id_ s) 1 with
    | Err e => (Err e, s, w)
    | Ok n =>
        let r := mkRide (r_next_id_ s) (ci_no ci) (ci_user_id ci) (ci_bike_id ci)
                   (ci_start_ts ci) (ci_end_ts ci) (ci_start_lat ci) (ci_start_lng ci)
                   (ci_end_lat ci) (ci_end_lng ci) (ci_duration_sec ci) (ci_distance_m ci)
                   (ci_amount_cent ci) 0 in
        (Ok r, mkRideRepo (<[r_id r := r]> (rides_ s)) (<[r_id r := ci_points ci]> (points_ s))
                 (<[r_no r := r_id r]> (by_no_ s)) n, w)
    end.

(** [rides_[it->second]] inserts a default ride when the id is absent. *)
Definition mem_find_by_no (no : string) : op InMemoryRideRepo (option Ride) :=
  fun s w =>
    match by_no_ s !! no with
    | None => (Ok None, s, w)
    | Some i =>
        match rides_ s !! i with
        | Some r => (Ok (Some r), s, w)
        | None => (Ok (Some Ride0),
                   mkRideRepo (<[i := Ride0]> (rides_ s)) (points_ s) (by_no_ s) (r_next_id_ s), w)
        end
    end.

Definition mem_list_points (ride_id : Z) : op InMemoryRideRepo (list RidePoint) :=
  fun s w => (Ok (default [] (points_ s !! ride_id)), s, w).

(** The loop of [list_by_user]; [(int)out.size() >= limit] is tested after
    each row. *)
Fixpoint list_by_user_loop (uid limit : Z) (rows : list (Z * Ride)) (out : list Ride) : list Ride :=
  match rows with
  | [] => out
  | (_, r) :: rows =>
      let out := if r_user_id r =? uid then out ++ [r] else out in
      if i32 (Z.of_nat (length out)) >=? limit then out
      else list_by_user_loop uid limit rows out
  end.

Definition mem_list_by_user (uid limit : Z) : op InMemoryRideRepo (list Ride) :=
  fun s w => (Ok (list_by_user_loop uid limit (map_items Z.le (rides_ s)) []), s, w).

#[export] Instance InMemoryRideRepo_IRideRepo : IRideRepo InMemoryRideRepo := {
  create_with_points := mem_create_with_points; find_by_no := mem_find_by_no;
  list_points := mem_list_points; list_by_user := mem_list_by_user }.

(** ** The user repository meets [UserLaws] *)

(** Ids are handed out once, below the counter, and rows are filed under their
    mobile number. *)
Definition mem_user_wf (s : InMemoryUserRepo) : Prop :=
  (forall m u, by_mobile_ s !! m = Some u -> u_mobile u = m /\ u_id u < u_next_id_ s)
  /\ (forall m1 m2 u1 u2, by_mobile_ s !! m1 = Some u1 -> by_mobile_ s !! m2 = Some u2 ->
        u_id u1 = u_id u2 -> m1 = m2).

Lemma mem_find_or_create_wf m : keeps mem_user_wf (mem_find_or_create m).
Proof.
  intros s w r s' w' [H1 H2]. unfold mem_find_or_create.
  destruct (by_mobile_ s !! m) as [u|] eqn:E; [by intros [= <- <- <-]|].
  unfold int_add, int_checked. destruct (in_int _); intros [= <- <- <-]; [|done].
  split; simpl.
  - intros m' u'. rewrite lookup_insert_Some. intros [[<- <-]|[_ Hk]]; simpl; [split; [done|lia]|].
    destruct (H1 _ _ Hk). split; [done|lia].
  - intros m1 m2 u1 u2. rewrite !lookup_insert_Some.
    intros [[<- <-]|[N1 K1]] [[<- <-]|[N2 K2]]; simpl; try done.
    + intros Hi. destruct (H1 _ _ K2). lia.
    + intros Hi. destruct (H1 _ _ K1). lia.
    + by eapply H2.
Qed.

#[export, refine] Instance InMemoryUserRepo_laws : UserLaws InMemoryUserRepo := {
  user_wf := mem_user_wf;
  uid_of s m := u_id <$> by_mobile_ s !! m }.
Proof.
  - intros u m1 m2 i [_ H] (u1 & E1 & ->)%fmap_Some (u2 & E2 & Hi)%fmap_Some.
    by eapply H.
  - intros m i u w [H _] (usr & E & ->)%fmap_Some. simpl. unfold mem_find_or_create. rewrite E.
    destruct (H _ _ E) as [<- _]. by destruct usr.
  - exact mem_find_or_create_wf.
  - intros m u w usr u' w' _. simpl. unfold mem_find_or_create.
    destruct (by_mobile_ u !! m) as [x|] eqn:E.
    + intros [= <- <- <-]. by rewrite E.
    + destruct (int_add _ _); intros [= <- <- <-]. simpl. by rewrite lookup_insert_eq.
  - intros m u w r u' w' m' i _. simpl. unfold mem_find_or_create.
    destruct (by_mobile_ u !! m) as [x|] eqn:E; [by intros [= <- <- <-]|].
    destruct (int_add _ _); intros [= <- <- <-]; [|done]. simpl.
    destruct (decide (m' = m)) as [->|]; [by rewrite E|]. by rewrite lookup_insert_ne.
Defined.

(** ** The account repository meets [AccountLaws] *)

(** A ledger is a chain: each record's balance is the previous one plus its
    amount, and none is negative. *)
Fixpoint ledger_chain (b : Z) (l : list AccountRecord) : Prop :=
  match l with
  | [] => True
  | r :: l => ar_balance_after r = b + ar_amount r /\ 0 <= ar_balance_after r <= INT_MAX
              /\ ledger_chain (ar_balance_after r) l
  end.
Definition ledger_total (l : list AccountRecord) : Z := foldr (fun r a => ar_amount r + a) 0 l.

Definition mem_acct_wf (s : InMemoryAccountRepo) : Prop :=
  (forall uid, default 0 (bal_ s !! uid) = ledger_total (default [] (records_ s !! uid))
     /\ ledger_chain 0 (default [] (records_ s !! uid)))
  /\ forall uid, 0 <= default 0 (bal_ s !! uid) <= INT_MAX.

Lemma ledger_chain_app b l k :
  ledger_chain b (l ++ k) <-> ledger_chain b l /\ ledger_chain (b + ledger_total l) k.
Proof.
  revert b. induction l as [|r l IH]; intros b; simpl.
  - rewrite Z.add_0_r. tauto.
  - rewrite IH. split.
    + intros (H1 & H2 & H3 & H4). rewrite H1 in H4. rewrite Z.add_assoc. tauto.
    + intros ((H1 & H2 & H3) & H4). rewrite H1 in *. rewrite Z.add_assoc in H4. tauto.
Qed.

Lemma ledger_total_app l k : ledger_total (l ++ k) = ledger_total l + ledger_total k.
Proof. induction l as [|r l IH]; simpl; [|rewrite IH]; lia. Qed.

Lemma mem_add_balance_eq uid ty amt s w :
  let cur := default 0 (bal_ s !! uid) in
  mem_add_balance uid ty amt s w =
    if in_int (cur + amt) then
      if (amt <? 0) && (cur + amt <? 0) then (Ok (-1), s, w)
      else (Ok (cur + amt),
            mkAccountRepo (<[uid := cur + amt]> (bal_ s))
              (<[uid := default [] (records_ s !! uid)
                   ++ [mkAccountRecord (record_type_code ty) amt (cur + amt) (fst (read_unix w))]]>
                 (records_ s)), snd (read_unix w))
    else (Err (UndefinedBehaviour "signed integer overflow"), s, w).
Proof.
  intros cur. unfold mem_add_balance, int_add, int_checked.
  change (match bal_ s !! uid with Some b => b | None => 0 end) with cur.
  destruct (in_int (cur + amt)); [|reflexivity].
  destruct ((amt <? 0) && _); reflexivity.
Qed.

Lemma mem_add_balance_wf uid ty amt : in_int amt = true -> keeps mem_acct_wf (mem_add_balance uid ty amt).
Proof.
  intros Ha s w r s' w' Hwf. pose proof Hwf as [H1 H2].
  rewrite mem_add_balance_eq.
  set (cur := default 0 (bal_ s !! uid)).
  destruct (in_int (cur + amt)) eqn:Ei; [|by intros [= <- <- <-]].
  destruct (_ && _) eqn:E; intros [= <- <- <-]; [done|].
  apply in_int_iff in Ei. pose proof (H2 uid) as Hc. fold cur in Hc.
  assert (0 <= cur + amt <= INT_MAX) by blia.
  split; intros v; simpl; destruct (decide (v = uid)) as [->|Hn].
  - rewrite !lookup_insert_eq. simpl. destruct (H1 uid) as [Ht Hch].
    fold cur in Ht. rewrite ledger_total_app, ledger_chain_app, <- Ht. simpl.
    repeat split; try done; lia.
  - rewrite !lookup_insert_ne by done. apply H1.
  - by rewrite lookup_insert_eq.
  - rewrite lookup_insert_ne by done. apply H2.
Qed.

#[export, refine] Instance InMemoryAccountRepo_laws : AccountLaws InMemoryAccountRepo := {
  acct_wf := mem_acct_wf;
  bal s uid := default 0 (bal_ s !! uid) }.
Proof.
  - intros a uid [_ H]. apply H.
  - done.
  - intros uid ty amt a w Hwf Ha Hlt. simpl.
    rewrite mem_add_balance_eq.
    pose proof (proj2 Hwf uid).
    rewrite (proj2 (in_int_iff _)) by (unfold INT_MAX, INT_MIN in *; lia).
    destruct (Z.ltb_spec amt 0); [|lia].
    destruct (Z.ltb_spec (default 0 (bal_ a !! uid) + amt) 0); [done|lia].
  - intros uid ty amt a w Hwf Hs Ha. simpl. rewrite mem_add_balance_eq.
    rewrite (proj2 (in_int_iff _)) by (unfold INT_MIN in *; lia).
    destruct (Z.ltb_spec (default 0 (bal_ a !! uid) + amt) 0); [lia|]. rewrite andb_false_r.
    do 2 eexists. split; [reflexivity|]. intros v. simpl.
    destruct (decide (v = uid)) as [->|]; [by rewrite lookup_insert_eq|].
    by rewrite lookup_insert_ne.
  - exact mem_add_balance_wf.
  - intros uid lim a w. simpl. unfold mem_list_records.
    destruct (records_ a !! uid); eauto.
Defined.

(** ** The session store meets [SessionLaws] *)

#[export, refine] Instance InMemorySessionStore_laws : SessionLaws InMemorySessionStore := {
  code_of s w m :=
    e ← codes_ s !! m; if fst (read_steady w) >? ce_expiry e then None else Some (ce_code e);
  session_of s w t :=
    e ← sessions_ s !! t; if fst (read_steady w) >? e_expiry e then None else Some (e_mobile e) }.
Proof.
  - intros m s w. simpl. unfold mem_get_code.
    destruct (codes_ s !! m) as [e|]; simpl; [|by repeat eexists].
    destruct (_ >? _); by repeat eexists.
  - intros m s w. simpl. unfold mem_delete_code. eexists. split; [reflexivity|].
    split; intros w'; simpl.
    + by rewrite lookup_delete_eq.
    + intros m' Hm. by rewrite lookup_delete_ne.
  - intros m s w. simpl. by repeat eexists.
  - intros t s w. simpl. unfold mem_lookup_session.
    destruct (sessions_ s !! t) as [e|]; simpl; [|by repeat eexists].
    destruct (_ >? _); by repeat eexists.
Defined.

(** A session made by [create_session] is found until its seven days are over,
    unless its token is destroyed or handed out again. *)
Lemma mem_create_session_lookup m s w t s' w' w'' :
  mem_create_session m s w = (Ok t, s', w') ->
  session_of s' w'' t =
    if fst (read_steady w'') >? fst (read_steady w) + 7 * 24 * 3600 * ns_per_s then None else Some m.
Proof.
  unfold mem_create_session. simpl. intros [= <- <- <-]. simpl. by rewrite lookup_insert_eq.
Qed.

(** ** The bike repository meets [BikeLaws] *)

Definition mem_bike_wf (s : InMemoryBikeRepo) : Prop :=
  (forall no b, bikes_ s !! no = Some b -> b_no b = no /\ b_id b < b_next_id_ s)
  /\ (forall n1 n2 b1 b2, bikes_ s !! n1 = Some b1 -> bikes_ s !! n2 = Some b2 ->
        b_id b1 = b_id b2 -> n1 = n2).

(** Functions that leave number and id alone. *)
Definition keeps_identity (f : Bike -> Bike) : Prop :=
  forall b, b_id (f b) = b_id b /\ b_no (f b) = b_no b.

Lemma mem_update_first_spec id f s w :
  keeps_identity f -> mem_bike_wf s ->
  exists ok s', mem_update_first id f s w = (Ok ok, s', w) /\ mem_bike_wf s'
    /\ forall no, bikes_ s' !! no = on_id id f <$> bikes_ s !! no.
Proof.
  intros Hf [H1 H2]. unfold mem_update_first.
  destruct (List.find _ _) as [[k b]|] eqn:E.
  - apply find_some in E as [Hin Hid]. simpl in Hid. apply Z.eqb_eq in Hid.
    apply list_elem_of_In, elem_of_map_items in Hin.
    assert (Hmap : forall no, <[k := f b]> (bikes_ s) !! no = on_id id f <$> bikes_ s !! no).
    { intros no. destruct (decide (no = k)) as [->|Hn].
      - rewrite lookup_insert_eq, Hin. simpl. unfold on_id. by rewrite (proj2 (Z.eqb_eq _ _)).
      - rewrite lookup_insert_ne by done. destruct (bikes_ s !! no) as [b'|] eqn:E'; [|done].
        simpl. unfold on_id. destruct (Z.eqb_spec (b_id b') id); [|done].
        exfalso. apply Hn. eapply H2; eauto. congruence. }
    do 2 eexists. split; [reflexivity|]. split; [|exact Hmap].
    assert (Hon : forall x, b_id (on_id id f x) = b_id x /\ b_no (on_id id f x) = b_no x).
    { intros x. unfold on_id. destruct (b_id x =? id); [apply Hf | done]. }
    split; simpl.
    + intros no x. rewrite Hmap. intros (y & Hy & ->)%fmap_Some.
      destruct (Hon y) as [-> ->]. by apply H1.
    + intros n1 n2 x1 x2. rewrite !Hmap.
      intros (y1 & Hy1 & ->)%fmap_Some (y2 & Hy2 & ->)%fmap_Some.
      destruct (Hon y1) as [-> _], (Hon y2) as [-> _]. by eapply H2.
  - do 2 eexists. split; [reflexivity|]. split; [done|]. intros no.
    destruct (bikes_ s !! no) as [b|] eqn:Eb; [|done]. simpl. unfold on_id.
    apply (elem_of_map_items String.le (bikes_ s)), list_elem_of_In in Eb.
    pose proof (find_none _ _ E _ Eb) as Hn. simpl in Hn. by rewrite Hn.
Qed.

Lemma mem_insert_wf bk : keeps mem_bike_wf (mem_insert bk).
Proof.
  intros s w r s' w' [H1 H2]. unfold mem_insert.
  destruct (bikes_ s !! b_no bk) eqn:E; [by intros [= <- <- <-]|].
  unfold int_add, int_checked. destruct (in_int _); intros [= <- <- <-]; [|done].
  split; simpl.
  - intros no b. rewrite lookup_insert_Some. intros [[<- <-]|[_ Hk]]; simpl; [split; [done|lia]|].
    destruct (H1 _ _ Hk). split; [done|lia].
  - intros n1 n2 b1 b2. rewrite !lookup_insert_Some.
    intros [[<- <-]|[N1 K1]] [[<- <-]|[N2 K2]]; simpl; try done.
    + intros Hi. destruct (H1 _ _ K2). lia.
    + intros Hi. destruct (H1 _ _ K1). lia.
    + by eapply H2.
Qed.

#[export, refine] Instance InMemoryBikeRepo_laws : BikeLaws InMemoryBikeRepo := {
  bike_wf := mem_bike_wf;
  bike_of s no := bikes_ s !! no }.
Proof.
  - intros b no bk [H _] E. by apply H.
  - intros b n1 n2 b1 b2 [_ H]. apply H.
  - done.
  - intros id st b w H. by apply mem_update_first_spec.
  - intros id la lo b w H. by apply mem_update_first_spec.
  - intros. simpl. by eexists.
  - exact mem_insert_wf.
  - intros bk b w _ H. simpl. unfold mem_insert. by destruct (bikes_ b !! b_no bk).
  - intros bk b w r b' w' _ H no old E. simpl in *. unfold mem_insert in H.
    destruct (bikes_ b !! b_no bk) eqn:E2; [by injection H as <- <- <-|].
    destruct (int_add _ _); injection H as <- <- <-; [|done]. simpl.
    rewrite lookup_insert_ne; [done|]. congruence.
Defined.

(** ** The ride repository meets [RideLaws] *)

Definition mem_ride_wf (s : InMemoryRideRepo) : Prop :=
  (forall no i, by_no_ s !! no = Some i -> exists r, rides_ s !! i = Some r /\ r_no r = no)
  /\ (forall i r, rides_ s !! i = Some r -> r_id r = i /\ i < r_next_id_ s
        /\ is_Some (points_ s !! i)).

Lemma mem_create_wf ci : keeps mem_ride_wf (mem_create_with_points ci).
Proof.
  intros s w r s' w' [H1 H2]. unfold mem_create_with_points, int_add, int_checked.
  destruct (in_int _); intros [= <- <- <-]; [|done]. split; simpl.
  - intros no i. rewrite lookup_insert_Some. intros [[<- <-]|[Hn Hk]].
    + eexists. by rewrite lookup_insert_eq.
    + destruct (H1 _ _ Hk) as (r & Hr & Hno). destruct (H2 _ _ Hr) as (_ & Hlt & _).
      exists r. by rewrite lookup_insert_ne by lia.
  - intros i r. rewrite lookup_insert_Some. intros [[<- <-]|[Hn Hk]]; simpl.
    + split; [done|]. split; [lia|]. by rewrite lookup_insert_eq.
    + destruct (H2 _ _ Hk) as (Hi & Hlt & Hp). split; [done|]. split; [lia|].
      by rewrite lookup_insert_ne.
Qed.

Lemma list_by_user_loop_all uid lim rows out :
  Forall (fun r => r_user_id r = uid) out ->
  Forall (fun r => r_user_id r = uid) (list_by_user_loop uid lim rows out).
Proof.
  revert out. induction rows as [|[i r] rows IH]; intros out Ho; simpl; [done|].
  assert (H : Forall (fun r => r_user_id r = uid) (if r_user_id r =? uid then out ++ [r] else out)).
  { destruct (Z.eqb_spec (r_user_id r) uid); [|done]. apply Forall_app. by repeat constructor. }
  destruct (_ >=? _); [done | by apply IH].
Qed.

#[export, refine] Instance InMemoryRideRepo_laws : RideLaws InMemoryRideRepo := {
  ride_wf := mem_ride_wf;
  ride_room s := in_int (r_next_id_ s + 1) = true;
  ride_of s no := i ← by_no_ s !! no; rides_ s !! i }.
Proof.
  - intros no r w [H _]. simpl. unfold mem_find_by_no.
    destruct (by_no_ r !! no) as [i|] eqn:E; [|done]. simpl.
    destruct (H _ _ E) as (rd & Hr & _). by rewrite Hr.
  - exact mem_create_wf.
  - intros ci r w [H1 H2] Hroom. simpl. unfold mem_create_with_points, int_add, int_checked.
    rewrite Hroom. do 2 eexists. split; [reflexivity|]. simpl.
    rewrite lookup_insert_eq. simpl. rewrite lookup_insert_eq. split; [done|]. split.
    + intros no Hno. rewrite lookup_insert_ne by done.
      destruct (by_no_ r !! no) as [i|] eqn:E; [|done]. simpl.
      destruct (H1 _ _ E) as (rd & Hr & _). destruct (H2 _ _ Hr) as (_ & Hlt & _).
      by rewrite lookup_insert_ne by lia.
    + intros w'. unfold mem_list_points. simpl. by rewrite lookup_insert_eq.
  - intros i r w. simpl. by eexists.
  - intros uid lim r w. simpl. eexists. split; [reflexivity|]. by apply list_by_user_loop_all.
Defined.

(** ** Histories of an account repository *)

(** Serve a sequence of [add_balance] calls, one after the other.  A signed
    overflow is undefined behaviour: it ends the history, nothing is said of
    what follows. *)
Fixpoint add_balance_all (calls : list (Z * RecordType * Z)) (s : InMemoryAccountRepo) (w : World)
  : result (InMemoryAccountRepo * World) :=
  match calls with
  | [] => Ok (s, w)
  | (uid, ty, amt) :: calls =>
      match mem_add_balance uid ty amt s w with
      | (Ok _, s, w) => add_balance_all calls s w
      | (Err e, _, _) => Err e
      end
  end.

(** The reference: from balance [b], the movements of user [uid] that are
    booked, those the balance covers. *)
Fixpoint booked_movements (uid b : Z) (calls : list (Z * RecordType * Z)) : list (Z * Z) :=
  match calls with
  | [] => []
  | (v, ty, amt) :: calls =>
      if (v =? uid) && (0 <=? b + amt)
      then (record_type_code ty, amt) :: booked_movements uid (b + amt) calls
      else booked_movements uid b calls
  end.

(** What is paid into the account of [uid]. *)
Definition deposits (uid : Z) (calls : list (Z * RecordType * Z)) : Z :=
  foldr (fun c a => (if fst (fst c) =? uid then Z.max 0 (snd c) else 0) + a) 0 calls.

Definition movement (r : AccountRecord) : Z * Z := (ar_type r, ar_amount r).

Lemma InMemoryAccountRepo0_wf : mem_acct_wf InMemoryAccountRepo0.
Proof.
  split; intros uid; simpl; rewrite !lookup_empty; simpl; [done|].
  unfold INT_MAX; lia.
Qed.

Lemma deposits_nonneg uid calls : 0 <= deposits uid calls.
Proof. induction calls as [|[[v ty] amt] calls IH]; simpl; [lia|]. destruct (v =? uid); lia. Qed.

(** A history that deposits at most [INT_MAX] cents with each user is defined. *)
Lemma add_balance_all_defined calls s w :
  Forall (fun c => in_int (snd c) = true) calls -> mem_acct_wf s ->
  (forall uid, default 0 (bal_ s !! uid) + deposits uid calls <= INT_MAX) ->
  exists s' w', add_balance_all calls s w = Ok (s', w').
Proof.
  intros Hc. revert s w. induction Hc as [|[[uid ty] amt] calls Ha Hc IH]; intros s w Hs Hd; [eauto|].
  simpl in *. destruct (mem_add_balance uid ty amt s w) as [[r s'] w'] eqn:E.
  pose proof (mem_add_balance_wf uid ty amt Ha s w r s' w' Hs E) as Hs'.
  pose proof (Hd uid) as Hu. rewrite Z.eqb_refl in Hu. pose proof (deposits_nonneg uid calls).
  pose proof (proj2 Hs uid). apply in_int_iff in Ha. rewrite mem_add_balance_eq in E.
  rewrite (proj2 (in_int_iff _)) in E by (unfold INT_MIN, INT_MAX in *; lia).
  destruct (_ && _) eqn:Eg; injection E as <- <- <-; apply IH; try done; intros v.
  - specialize (Hd v). destruct (uid =? v); lia.
  - simpl. specialize (Hd v). destruct (decide (v = uid)) as [->|Hn].
    + rewrite lookup_insert_eq. simpl. lia.
    + rewrite lookup_insert_ne by done. destruct (Z.eqb_spec uid v); [congruence|lia].
Qed.

(** A defined history keeps the invariant and books the reference's movements. *)
Lemma add_balance_all_spec calls s w s' w' uid :
  Forall (fun c => in_int (snd c) = true) calls -> mem_acct_wf s ->
  add_balance_all calls s w = Ok (s', w') ->
  mem_acct_wf s'
  /\ movement <$> default [] (records_ s' !! uid)
     = (movement <$> default [] (records_ s !! uid))
       ++ booked_movements uid (default 0 (bal_ s !! uid)) calls.
Proof.
  intros Hc. revert s w. induction Hc as [|[[v ty] amt] calls Ha Hc IH]; intros s w Hs; simpl in *.
  { intros [= <- <-]. by rewrite app_nil_r. }
  destruct (mem_add_balance v ty amt s w) as [[r s1] w1] eqn:E.
  pose proof (mem_add_balance_wf v ty amt Ha s w r s1 w1 Hs E) as Hs1.
  pose proof (proj2 Hs v) as Hv. destruct r as [b|e]; [|done]. intros Hr.
  destruct (IH _ _ Hs1 Hr) as [Hwf ->]. split; [done|].
  rewrite mem_add_balance_eq in E. destruct (in_int (_ + _)); [|done].
  destruct ((amt <? 0) && _) eqn:Eg; injection E as _ <- _; simpl.
  - destruct (Z.eqb_spec v uid) as [->|]; [|done]. simpl.
    destruct (Z.leb_spec 0 (default 0 (bal_ s !! uid) + amt)); [blia|done].
  - destruct (Z.eqb_spec v uid) as [->|]; simpl.
    + rewrite !lookup_insert_eq. simpl. rewrite fmap_app, <- app_assoc. simpl.
      destruct (Z.leb_spec 0 (default 0 (bal_ s !! uid) + amt)); [done|blia].
    + by rewrite !lookup_insert_ne by done.
Qed.

Lemma mem_list_records_newest uid limit s w :
  0 <= limit <= INT_MAX ->
  mem_list_records uid limit s w
  = (Ok (take (Z.to_nat limit) (reverse (default [] (records_ s !! uid)))), s, w).
Proof.
  intros Hl. unfold mem_list_records. destruct (records_ s !! uid) as [v|]; simpl.
  - rewrite u64_small by (unfold INT_MAX in Hl; lia).
    destruct (Z.le_gt_cases limit (Z.of_nat (length v))).
    + by rewrite Z.min_l by lia.
    + rewrite Z.min_r, Nat2Z.id by lia. rewrite !take_ge by (rewrite length_reverse; lia). done.
  - by destruct (Z.to_nat limit).
Qed.

(** C9: a sequence of deposits and withdrawals runs without signed overflow
    when it pays at most [INT_MAX] cents into each account; and after any
    sequence without signed overflow, the refused withdrawals included, the
    records of a user are exactly the movements the balance covered, in order,
    the balance is the sum of their amounts and is not negative, they form an
    unbroken chain of running balances, and [list_records] returns the newest
    [limit] of them, newest first. *)
Theorem account_ledger_consistent calls w uid limit :
  Forall (fun c => in_int (snd c) = true) calls -> 0 <= limit <= INT_MAX ->
  ((forall v, deposits v calls <= INT_MAX) ->
     exists s w', add_balance_all calls InMemoryAccountRepo0 w = Ok (s, w'))
  /\ forall s w', add_balance_all calls InMemoryAccountRepo0 w = Ok (s, w') ->
     let recs := default [] (records_ s !! uid) in
     movement <$> recs = booked_movements uid 0 calls
     /\ mem_get_balance uid s w = (Ok (ledger_total recs), s, w)
     /\ 0 <= ledger_total recs <= INT_MAX
     /\ ledger_chain 0 recs
     /\ mem_list_records uid limit s w = (Ok (take (Z.to_nat limit) (reverse recs)), s, w).
Proof.
  intros Hc Hl. pose proof InMemoryAccountRepo0_wf as H0. split.
  - intros Hd. apply add_balance_all_defined; [done|done|].
    intros v. simpl. rewrite lookup_empty. apply Hd.
  - intros s w' Hr recs.
    destruct (add_balance_all_spec calls _ w s w' uid Hc H0 Hr) as [[H1 H2] Hm].
    simpl in Hm. rewrite !lookup_empty in Hm. destruct (H1 uid) as [Hb Hch]. fold recs in Hb, Hch.
    split; [exact Hm|]. unfold mem_get_balance. rewrite Hb. split; [done|].
    split; [rewrite <- Hb; apply H2|]. split; [done|]. by apply mem_list_records_newest.
Qed.

Definition world0 : World := mkWorld (fun n => 1700000000 + Z.of_nat n) 0 Z.of_nat 0 Z.of_nat 0.

Lemma account_ledger_consistent_witness :
  exists s w', add_balance_all [(1, Recharge, 500); (1, Consume, -600); (1, Consume, -150)]
                 InMemoryAccountRepo0 world0 = Ok (s, w')
  /\ mem_get_balance 1 s world0 = (Ok 350, s, world0)
  /\ movement <$> default [] (records_ s !! 1) = [(1, 500); (2, -150)].
Proof.
  destruct (account_ledger_consistent
    [(1, Recharge, 500); (1, Consume, -600); (1, Consume, -150)] world0 1 10) as [Hd Hs].
  - repeat constructor.
  - vm_compute. split; discriminate.
  - assert (Hv : forall v, deposits v [(1, Recharge, 500); (1, Consume, -600); (1, Consume, -150)]
                 <= INT_MAX).
    { intros v. unfold deposits, INT_MAX. cbn [foldr fst snd]. destruct (1 =? v); lia. }
    destruct (Hd Hv) as (s & w' & E). pose proof (Hs s w' E) as (Hm & Hb & _).
    exists s, w'. split; [exact E|]. split; [|exact Hm].
    rewrite Hb. clear Hb E. revert Hm. generalize (default [] (records_ s !! 1)).
    intros [|[t1 a1 b1 c1] [|[t2 a2 b2 c2] [|r l]]] Hm; try done.
    injection Hm as -> -> -> ->. reflexivity.
Defined.
