(* ===== verification/Calendar.v ===== *)
(** * Calendar time

    What the handlers use of <ctime>: [gmtime], and [strftime] with the one
    format of [fmt_iso]; with it [today_yyyymmdd] (scan_unlock.cpp) and
    [fmt_iso] (get_ride_detail.cpp, list_rides.cpp).  [gmtime] counts days in
    400-year eras of the proleptic Gregorian calendar; [days_from_civil] is
    the textbook day count it is checked against. *)

From Stdlib Require Import Ascii.
From S2P Require Import Prelude Common.

Record tm : Type := mkTm {
  tm_year : Z;   (* years since 1900 *)
  tm_mon : Z;    (* 0..11 *)
  tm_mday : Z;   (* 1..31 *)
  tm_hour : Z; tm_min : Z; tm_sec : Z
}.

Definition leap (y : Z) : bool :=
  (y mod 4 =? 0) && (negb (y mod 100 =? 0) || (y mod 400 =? 0)).
Definition month_len (y m : Z) : Z :=
  if m =? 2 then if leap y then 29 else 28
  else if (m =? 4) || (m =? 6) || (m =? 9) || (m =? 11) then 30 else 31.

Definition year_len (y : Z) : Z := if leap y then 366 else 365.

(** Peel off whole years, then whole months. *)
Fixpoint find_year (fuel : nat) (y rest : Z) : Z * Z :=
  match fuel with
  | O => (y, rest)
  | S fuel => if rest <? year_len y then (y, rest) else find_year fuel (y + 1) (rest - year_len y)
  end.
Fixpoint find_month (fuel : nat) (y m rest : Z) : Z * Z :=
  match fuel with
  | O => (m, rest)
  | S fuel =>
      if rest <? month_len y m then (m, rest) else find_month fuel y (m + 1) (rest - month_len y m)
  end.

(** The date of a day counted from 1970-01-01; 719528 days precede it since
    1 January of year 0, and 400 years have 146097 days. *)
Definition civil_from_days (days : Z) : Z * Z * Z :=
  let z := days + 719528 in
  let '(y, yday) := find_year 400 0 (z mod 146097) in
  let '(m, mday) := find_month 12 y 1 yday in
  (y + 400 * (z / 146097), m, mday + 1).

(** [gmtime]: null when the year does not fit [tm_year]. *)
Definition gmtime (t : Z) : option tm :=
  let '(y, m, d) := civil_from_days (t / 86400) in
  let s := t mod 86400 in
  if in_int (y - 1900)
  then Some (mkTm (y - 1900) (m - 1) d (s / 3600) (s / 60 mod 60) (s mod 60))
  else None.

(** [*std::gmtime(&t)]: dereferencing the null result is undefined. *)
Definition gmtime_deref (t : Z) : result tm :=
  match gmtime t with
  | Some tm => Ok tm
  | None => Err (UndefinedBehaviour "null dereference")
  end.

Definition today_yyyymmdd (t : Z) : result Z :=
  try! tm := gmtime_deref t in
  try! y := int_add (tm_year tm) 1900 in
  try! y := int_mul y 10000 in
  try! m := int_add (tm_mon tm) 1 in
  try! m := int_mul m 100 in
  try! ym := int_add y m in
  int_add ym (tm_mday tm).

(** strftime's [%Y]: no padding; a minus sign for years before 0. *)
Definition fmt_Y (y : Z) : list ascii := fmt_0d 0 y.

Definition fmt_iso (unix_sec : Z) : result string :=
  try! tm := gmtime_deref unix_sec in
  let out := fmt_Y (tm_year tm + 1900) ++ "-"%char :: fmt_0d 2 (tm_mon tm + 1)
               ++ "-"%char :: fmt_0d 2 (tm_mday tm) ++ " "%char :: fmt_0d 2 (tm_hour tm)
               ++ ":"%char :: fmt_0d 2 (tm_min tm) ++ ":"%char :: fmt_0d 2 (tm_sec tm) in
  Ok (string_of_chars (snprintf 32 out)).

(** ** Correctness of the calendar *)

(** Days from 1 January of year 0 to the date, counted directly. *)
Fixpoint days_before_month (y : Z) (m : nat) : Z :=
  match m with
  | O => 0
  | S m => days_before_month y m + month_len y (Z.of_nat (S m))
  end.
Definition days_before_year (y : Z) : Z :=
  365 * y + (y + 3) / 4 - (y + 99) / 100 + (y + 399) / 400.
Definition days_from_civil (y m d : Z) : Z :=
  days_before_year y + days_before_month y (Z.to_nat (m - 1)) + d - 1 - 719528.

Definition civil_ok (ymd : Z * Z * Z) : bool :=
  let '(y, m, d) := ymd in
  (1 <=? m) && (m <=? 12) && (1 <=? d) && (d <=? month_len y m).

(** [days_before_year] adds up the lengths of the years. *)
Lemma days_before_year_succ y :
  days_before_year (y + 1) = days_before_year y + year_len y.
Proof.
  unfold days_before_year, year_len, leap.
  assert (Hq : forall k c, 0 < k -> c = k - 1 ->
    (y + 1 + c) / k = (y + c) / k + if y mod k =? 0 then 1 else 0).
  { intros k c Hk ->. replace (y + 1 + (k - 1)) with (y + 1 * k) by lia.
    rewrite Z.div_add by lia.
    pose proof (Z.div_mod y k ltac:(lia)) as Hy. pose proof (Z.mod_pos_bound y k Hk).
    destruct (Z.eqb_spec (y mod k) 0) as [E|E].
    - replace ((y + (k - 1)) / k) with (y / k); [lia|].
      apply (Z.div_unique _ _ _ (k - 1)); lia.
    - replace ((y + (k - 1)) / k) with (y / k + 1); [lia|].
      apply (Z.div_unique _ _ _ (y mod k - 1)); lia. }
  rewrite (Hq 4 3), (Hq 100 99), (Hq 400 399) by lia.
  assert (H400 : y mod 400 = 0 -> y mod 100 = 0).
  { intros E. apply Z.mod_divide; [lia|]. apply Z.mod_divide in E as [k ->]; [|lia].
    exists (4 * k). lia. }
  assert (H100 : y mod 100 = 0 -> y mod 4 = 0).
  { intros E. apply Z.mod_divide; [lia|]. apply Z.mod_divide in E as [k ->]; [|lia].
    exists (25 * k). lia. }
  destruct (Z.eqb_spec (y mod 4) 0), (Z.eqb_spec (y mod 100) 0), (Z.eqb_spec (y mod 400) 0);
    simpl; lia.
Qed.

Lemma year_len_pos y : 365 <= year_len y <= 366.
Proof. unfold year_len. destruct (leap y); lia. Qed.

Lemma month_len_pos y m : 28 <= month_len y m <= 31.
Proof. unfold month_len. repeat destruct (_ =? _); simpl; destruct (leap y); lia. Qed.

Lemma days_before_year_mono y n : days_before_year y <= days_before_year (y + Z.of_nat n).
Proof.
  induction n as [|n IH]; [rewrite Z.add_0_r; lia|].
  replace (y + Z.of_nat (S n)) with (y + Z.of_nat n + 1) by lia.
  rewrite days_before_year_succ. pose proof (year_len_pos (y + Z.of_nat n)). lia.
Qed.

Lemma days_before_year_le a b : a <= b -> days_before_year a <= days_before_year b.
Proof.
  intros H. pose proof (days_before_year_mono a (Z.to_nat (b - a))) as Hm.
  replace (a + Z.of_nat (Z.to_nat (b - a))) with b in Hm by lia. exact Hm.
Qed.

Lemma find_year_spec fuel : forall y rest,
  0 <= rest < days_before_year (y + Z.of_nat fuel) - days_before_year y ->
  let '(y', r) := find_year fuel y rest in
  y <= y' < y + Z.of_nat fuel /\ 0 <= r < year_len y' /\ days_before_year y' + r = days_before_year y + rest.
Proof.
  induction fuel as [|fuel IH]; intros y rest Hr; cbn [find_year].
  - rewrite Z.add_0_r in Hr. lia.
  - destruct (Z.ltb_spec rest (year_len y)); [lia|].
    specialize (IH (y + 1) (rest - year_len y)). rewrite days_before_year_succ in IH.
    replace (y + 1 + Z.of_nat fuel) with (y + Z.of_nat (S fuel)) in IH by lia.
    destruct (find_year fuel (y + 1) (rest - year_len y)) as [y' r]. lia.
Qed.

Lemma find_month_spec fuel : forall y m rest,
  1 <= m ->
  0 <= rest < days_before_month y (Z.to_nat (m - 1) + fuel) - days_before_month y (Z.to_nat (m - 1)) ->
  let '(m', r) := find_month fuel y m rest in
  m <= m' < m + Z.of_nat fuel /\ 0 <= r < month_len y m'
  /\ days_before_month y (Z.to_nat (m' - 1)) + r = days_before_month y (Z.to_nat (m - 1)) + rest.
Proof.
  induction fuel as [|fuel IH]; intros y m rest Hm Hr; cbn [find_month].
  - rewrite Nat.add_0_r in Hr. lia.
  - destruct (Z.ltb_spec rest (month_len y m)); [lia|].
    specialize (IH y (m + 1) (rest - month_len y m)).
    replace (Z.to_nat (m + 1 - 1)) with (S (Z.to_nat (m - 1))) in IH by lia.
    cbn [days_before_month] in IH.
    replace (Z.of_nat (S (Z.to_nat (m - 1)))) with m in IH by lia.
    replace (S (Z.to_nat (m - 1)) + fuel)%nat with (Z.to_nat (m - 1) + S fuel)%nat in IH by lia.
    destruct (find_month fuel y (m + 1) (rest - month_len y m)) as [m' r]. lia.
Qed.

Lemma days_in_year y : days_before_month y 12 = year_len y.
Proof. cbn. unfold month_len, year_len. simpl. destruct (leap y); reflexivity. Qed.

Lemma leap_shift y k : leap (y + 400 * k) = leap y.
Proof.
  unfold leap. replace (y + 400 * k) with (y + (100 * k) * 4) at 1 by lia.
  replace (y + 400 * k) with (y + (4 * k) * 100) at 1 by lia.
  replace (y + 400 * k) with (y + k * 400) at 1 by lia.
  by rewrite !Z.mod_add by lia.
Qed.

Lemma month_len_shift y k m : month_len (y + 400 * k) m = month_len y m.
Proof. unfold month_len. by rewrite leap_shift. Qed.

Lemma days_from_civil_shift y k m d :
  days_from_civil (y + 400 * k) m d = days_from_civil y m d + 146097 * k.
Proof.
  unfold days_from_civil.
  assert (Hm : forall n, days_before_month (y + 400 * k) n = days_before_month y n).
  { induction n as [|n IH]; [done|]. cbn [days_before_month]. by rewrite IH, month_len_shift. }
  rewrite Hm. unfold days_before_year.
  replace (y + 400 * k + 3) with (y + 3 + (100 * k) * 4) by lia.
  replace (y + 400 * k + 99) with (y + 99 + (4 * k) * 100) by lia.
  replace (y + 400 * k + 399) with (y + 399 + k * 400) by lia.
  rewrite !Z.div_add by lia. lia.
Qed.

Lemma civil_from_days_correct days :
  let '(y, m, d) := civil_from_days days in
  civil_ok (y, m, d) = true /\ days_from_civil y m d = days
  /\ (0 <= days < 2932897 -> 1970 <= y <= 9999).
Proof.
  unfold civil_from_days. set (z := days + 719528).
  pose proof (Z.mod_pos_bound z 146097 ltac:(lia)) as Hm.
  pose proof (find_year_spec 400 0 (z mod 146097)) as Hy.
  destruct (find_year 400 0 (z mod 146097)) as [y yd]. destruct Hy as (Hy & Hyd & Hys); [exact Hm|].
  pose proof (find_month_spec 12 y 1 yd ltac:(lia)) as Hmo.
  destruct (find_month 12 y 1 yd) as [m md]. change (Z.to_nat (1 - 1)) with O in Hmo.
  rewrite days_in_year in Hmo.
  change (days_before_month y 0) with 0 in Hmo. destruct Hmo as (Hm1 & Hm2 & Hm3); [lia|].
  change (days_before_year 0) with 0 in Hys.
  pose proof (Z.div_mod z 146097 ltac:(lia)) as Hz.
  assert (Hd : days_from_civil (y + 400 * (z / 146097)) m (md + 1) = days).
  { rewrite days_from_civil_shift. unfold days_from_civil. lia. }
  split; [|split; [exact Hd|]].
  - unfold civil_ok. rewrite month_len_shift. rewrite !andb_true_iff, !Z.leb_le. lia.
  - intros Hrange. set (Y := y + 400 * (z / 146097)).
    assert (HY : days_before_year Y + yd = z).
    { pose proof (days_from_civil_shift y (z / 146097) 1 1) as Hs. unfold days_from_civil in Hs.
      change (days_before_month _ (Z.to_nat (1 - 1))) with 0 in Hs. fold Y in Hs. lia. }
    assert (HyY : year_len Y = year_len y) by (unfold year_len, Y; by rewrite leap_shift).
    pose proof (days_before_year_succ Y) as Hsucc.
    change 719528 with (days_before_year 1970) in z.
    assert (days_before_year 10000 = 3652425) by reflexivity.
    assert (days_before_year 1970 = 719528) by reflexivity.
    destruct (Z.le_gt_cases Y 9999) as [H1|H1]; [destruct (Z.le_gt_cases 1970 Y) as [H2|H2]; [lia|]|].
    + pose proof (days_before_year_le (Y + 1) 1970 ltac:(lia)). unfold z in HY. lia.
    + pose proof (days_before_year_le 10000 Y ltac:(lia)). unfold z in HY. lia.
Qed.

(** Seconds from 1970 up to the end of the year 9999. *)
Definition unix_max : Z := 253402300800.

Lemma gmtime_correct t :
  0 <= t < unix_max ->
  exists tm, gmtime t = Some tm
    /\ 1970 <= tm_year tm + 1900 <= 9999
    /\ 0 <= tm_mon tm <= 11
    /\ 1 <= tm_mday tm <= month_len (tm_year tm + 1900) (tm_mon tm + 1)
    /\ 0 <= tm_hour tm < 24 /\ 0 <= tm_min tm < 60 /\ 0 <= tm_sec tm < 60
    /\ days_from_civil (tm_year tm + 1900) (tm_mon tm + 1) (tm_mday tm) * 86400
       + tm_hour tm * 3600 + tm_min tm * 60 + tm_sec tm = t.
Proof.
  intros Ht. unfold gmtime, unix_max in *.
  pose proof (civil_from_days_correct (t / 86400)) as Hc.
  destruct (civil_from_days (t / 86400)) as [[y m] d]. destruct Hc as (Hok & Hd & Hy).
  assert (Hq : 0 <= t / 86400 < 2932897).
  { split; [apply Z.div_pos; lia | apply Z.div_lt_upper_bound; lia]. }
  specialize (Hy Hq). rewrite (proj2 (in_int_iff _)) by (unfold INT_MIN, INT_MAX; lia).
  eexists. split; [reflexivity|]. cbn [tm_year tm_mon tm_mday tm_hour tm_min tm_sec].
  replace (y - 1900 + 1900) with y by lia. replace (m - 1 + 1) with m by lia.
  unfold civil_ok in Hok. rewrite !andb_true_iff, !Z.leb_le in Hok.
  pose proof (Z.mod_pos_bound t 86400 ltac:(lia)) as Hs. set (s := t mod 86400) in *.
  pose proof (Z.div_mod t 86400 ltac:(lia)) as Ht'. fold s in Ht'.
  pose proof (Z.div_mod s 3600 ltac:(lia)) as D1. pose proof (Z.mod_pos_bound s 3600 ltac:(lia)).
  pose proof (Z.div_mod s 60 ltac:(lia)) as D2. pose proof (Z.mod_pos_bound s 60 ltac:(lia)).
  pose proof (Z.mod_pos_bound (s / 60) 60 ltac:(lia)).
  assert (D3 : s / 60 / 60 = s / 3600) by (rewrite Z.div_div by lia; reflexivity).
  pose proof (Z.div_mod (s / 60) 60 ltac:(lia)) as D4. rewrite D3 in D4.
  rewrite Hd. repeat split; lia.
Qed.

Lemma today_yyyymmdd_ok t :
  0 <= t < unix_max ->
  exists d, today_yyyymmdd t = Ok d /\ 19700101 <= d <= 99991231.
Proof.
  intros Ht. destruct (gmtime_correct t Ht) as (tm & E & Hy & Hm & Hd & _).
  pose proof (month_len_pos (tm_year tm + 1900) (tm_mon tm + 1)).
  unfold today_yyyymmdd, gmtime_deref. rewrite E. cbn [rbind].
  unfold int_add, int_mul.
  repeat (rewrite int_checked_ok by (unfold INT_MIN, INT_MAX; lia); cbn [rbind]).
  eexists. split; [reflexivity|]. lia.
Qed.

(** for every instant from 1970 to 9999 [gmtime] succeeds and gives the
    civil date and time of day whose count of days and seconds is that
    instant, and [today_yyyymmdd] is the eight-digit number of that date,
    computed without overflow. *)
Theorem today_yyyymmdd_correct t :
  0 <= t < unix_max ->
  exists tm, gmtime t = Some tm
    /\ days_from_civil (tm_year tm + 1900) (tm_mon tm + 1) (tm_mday tm) * 86400
       + tm_hour tm * 3600 + tm_min tm * 60 + tm_sec tm = t
    /\ today_yyyymmdd t
       = Ok ((tm_year tm + 1900) * 10000 + (tm_mon tm + 1) * 100 + tm_mday tm)
    /\ 19700101 <= (tm_year tm + 1900) * 10000 + (tm_mon tm + 1) * 100 + tm_mday tm <= 99991231.
Proof.
  intros Ht. destruct (gmtime_correct t Ht) as (tm & E & Hy & Hm & Hd & _ & _ & _ & Hc).
  destruct (today_yyyymmdd_ok t Ht) as (d & Ed & Hr).
  exists tm. split; [done|]. split; [done|].
  assert (Hv : d = (tm_year tm + 1900) * 10000 + (tm_mon tm + 1) * 100 + tm_mday tm).
  { pose proof (month_len_pos (tm_year tm + 1900) (tm_mon tm + 1)).
    unfold today_yyyymmdd, gmtime_deref in Ed. rewrite E in Ed. cbn [rbind] in Ed.
    unfold int_add, int_mul in Ed.
    repeat (rewrite int_checked_ok in Ed by (unfold INT_MIN, INT_MAX; lia); cbn [rbind] in Ed).
    by injection Ed as <-. }
  rewrite Ed, <- Hv. done.
Qed.

Lemma today_yyyymmdd_correct_witness : today_yyyymmdd 1709210096 = Ok 20240229.
Proof.
  destruct (today_yyyymmdd_correct 1709210096) as (tm & E & _ & H & _); [vm_compute; split; [discriminate|reflexivity]|].
  rewrite H. vm_compute in E. injection E as <-. reflexivity.
Defined.

Example fmt_iso_ex : fmt_iso 1709210096 = Ok "2024-02-29 12:34:56".
Proof. vm_compute. reflexivity. Qed.
