(* ===== verification/Messages.v ===== *)
(** * Protobuf messages (proto/bike.proto)

    One Record per message, with the schema's fields.  Parsing and
    serialisation are generated code: they are the fields of the class
    [Pb]; [PbLaws] states the range of the parsed int32 fields. *)

From S2P Require Import Prelude Double.

Record mobile_request := mk_mobile_request { mreq_mobile : string }.
Record mobile_response := mk_mobile_response { mrsp_code : Z; mrsp_icode : Z; mrsp_data : string }.

Record login_request := mk_login_request { lreq_mobile : string; lreq_icode : Z }.
Record login_response := mk_login_response {
  lrsp_code : Z; lrsp_desc : string; lrsp_session_token : string }.

Record recharge_request := mk_recharge_request { rreq_session_token : string; rreq_amount : Z }.
Record recharge_response := mk_recharge_response {
  rrsp_code : Z; rrsp_balance : Z; rrsp_desc : string }.

Record account_balance_request := mk_account_balance_request { abreq_session_token : string }.
Record account_balance_response := mk_account_balance_response {
  abrsp_code : Z; abrsp_balance : Z }.

Record list_account_records_request := mk_list_account_records_request {
  larq_session_token : string }.
Record account_record := mk_account_record {
  pr_type : Z; pr_amount : Z; pr_timestamp : Z }.
Record list_account_records_response := mk_list_account_records_response {
  lars_code : Z; lars_records : list account_record }.

Record list_nearby_bikes_request := mk_list_nearby_bikes_request {
  nbreq_session_token : string; nbreq_lat : double; nbreq_lng : double; nbreq_radius_m : double }.
Record bike_info := mk_bike_info {
  bi_bike_no : string; bi_lat : double; bi_lng : double; bi_status : Z }.
Record list_nearby_bikes_response := mk_list_nearby_bikes_response {
  nbrsp_code : Z; nbrsp_bikes : list bike_info }.

Record scan_unlock_request := mk_scan_unlock_request {
  sureq_session_token : string; sureq_bike_no : string; sureq_lat : double; sureq_lng : double }.
Record scan_unlock_response := mk_scan_unlock_response {
  sursp_code : Z; sursp_desc : string; sursp_ride_no : string; sursp_start_ts : Z }.

Record ride_position_report := mk_ride_position_report {
  rpr_ride_no : string; rpr_seq : Z; rpr_lat : double; rpr_lng : double; rpr_elapsed_sec : Z }.

Record end_ride_request := mk_end_ride_request {
  erreq_session_token : string; erreq_ride_no : string;
  erreq_end_lat : double; erreq_end_lng : double }.
Record end_ride_response := mk_end_ride_response {
  errsp_code : Z; errsp_desc : string; errsp_duration_sec : Z; errsp_distance_m : Z;
  errsp_amount_cent : Z; errsp_balance_after : Z }.

Record report_damage_request := mk_report_damage_request {
  rdreq_session_token : string; rdreq_bike_no : string; rdreq_note : string }.
Record report_damage_response := mk_report_damage_response { rdrsp_code : Z; rdrsp_desc : string }.

Record get_ride_detail_request := mk_get_ride_detail_request {
  gdreq_session_token : string; gdreq_ride_no : string }.
Record ride_point := mk_ride_point { pp_lat : double; pp_lng : double; pp_elapsed_sec : Z }.
Record get_ride_detail_response := mk_get_ride_detail_response {
  gdrsp_code : Z; gdrsp_ride_no : string; gdrsp_duration_sec : Z; gdrsp_distance_m : Z;
  gdrsp_amount_cent : Z; gdrsp_start_tm : string; gdrsp_end_tm : string;
  gdrsp_points : list ride_point }.

Record list_rides_request := mk_list_rides_request { lrreq_session_token : string; lrreq_limit : Z }.
Record ride_summary := mk_ride_summary {
  rs_ride_no : string; rs_start_tm : string; rs_duration_sec : Z; rs_distance_m : Z;
  rs_amount_cent : Z }.
Record list_rides_response := mk_list_rides_response {
  lrrsp_code : Z; lrrsp_rides : list ride_summary }.

(** ** The generated code *)

(** [ParseFromArray] on a request, [SerializeAsString] and [ParseFromArray] on
    a response. *)
Class PbRequest (M : Type) : Type := { pb_parse : list byte -> option M }.
Class PbResponse (M : Type) : Type := {
  pb_serialize : M -> list byte;
  pb_parse_response : list byte -> option M }.

Class Pb : Type := {
  #[global] pb_mobile_request :: PbRequest mobile_request;
  #[global] pb_login_request :: PbRequest login_request;
  #[global] pb_recharge_request :: PbRequest recharge_request;
  #[global] pb_account_balance_request :: PbRequest account_balance_request;
  #[global] pb_list_account_records_request :: PbRequest list_account_records_request;
  #[global] pb_list_nearby_bikes_request :: PbRequest list_nearby_bikes_request;
  #[global] pb_scan_unlock_request :: PbRequest scan_unlock_request;
  #[global] pb_ride_position_report :: PbRequest ride_position_report;
  #[global] pb_end_ride_request :: PbRequest end_ride_request;
  #[global] pb_report_damage_request :: PbRequest report_damage_request;
  #[global] pb_get_ride_detail_request :: PbRequest get_ride_detail_request;
  #[global] pb_list_rides_request :: PbRequest list_rides_request;
  #[global] pb_mobile_response :: PbResponse mobile_response;
  #[global] pb_login_response :: PbResponse login_response;
  #[global] pb_recharge_response :: PbResponse recharge_response;
  #[global] pb_account_balance_response :: PbResponse account_balance_response;
  #[global] pb_list_account_records_response :: PbResponse list_account_records_response;
  #[global] pb_list_nearby_bikes_response :: PbResponse list_nearby_bikes_response;
  #[global] pb_scan_unlock_response :: PbResponse scan_unlock_response;
  #[global] pb_end_ride_response :: PbResponse end_ride_response;
  #[global] pb_report_damage_response :: PbResponse report_damage_response;
  #[global] pb_get_ride_detail_response :: PbResponse get_ride_detail_response;
  #[global] pb_list_rides_response :: PbResponse list_rides_response
}.

(** The fields declared [int32] hold 32-bit values. *)
Class PbLaws `{!Pb} : Prop := {
  parsed_amount bs (r : recharge_request) : pb_parse bs = Some r -> in_int (rreq_amount r) = true;
  parsed_seq bs (r : ride_position_report) : pb_parse bs = Some r -> in_int (rpr_seq r) = true
}.

(** A set of messages of which every request parses to the same value, enough
    to run handlers on concrete requests. *)
Definition constant_request {M} (m : option M) : PbRequest M := {| pb_parse := fun _ => m |}.
Definition constant_response {M} (bs : list byte) : PbResponse M :=
  {| pb_serialize := fun _ => bs; pb_parse_response := fun _ => None |}.
