(* ===== verification/Prog.v ===== *)
(** * Programs over shared state

    A handler is a sequence of atomic operations on shared objects (each
    repository method holds that object's mutex).  [prog] is such a sequence
    with its continuation; [run] executes it alone, [pool_step] interleaves
    the operations of several threads in any order. *)

From S2P Require Import Prelude Repo.

Inductive prog (St X : Type) : Type :=
| Ret (x : X)
| Throw (e : exn)
| Act {Y : Type} (a : op St Y) (k : Y -> prog St X).
Arguments Ret {St X}.
Arguments Throw {St X}.
Arguments Act {St X Y}.

Fixpoint pbind {St X Y} (p : prog St X) (f : X -> prog St Y) : prog St Y :=
  match p with
  | Ret x => f x
  | Throw e => Throw e
  | Act a k => Act a (fun y => pbind (k y) f)
  end.

Declare Scope prog_scope.
Delimit Scope prog_scope with prog.
Notation "'do!' x := a 'in' k" := (Act a (fun x => k))
  (at level 10, x pattern, a at level 100, k at level 200) : prog_scope.
Notation "'let!' x := p 'in' k" := (pbind p (fun x => k))
  (at level 10, x pattern, p at level 100, k at level 200, only parsing) : prog_scope.

(** A pure computation that may throw. *)
Definition lift {St X} (r : result X) : prog St X :=
  match r with Ok x => Ret x | Err e => Throw e end.

(** What follows an operation: its continuation, or the exception it threw. *)
Definition resume {St X Y} (k : Y -> prog St X) (r : result Y) : prog St X :=
  match r with Ok y => k y | Err e => Throw e end.

(** Execution without interference. *)
Fixpoint run {St X} (p : prog St X) : op St X :=
  fun s w =>
    match p with
    | Ret x => (Ok x, s, w)
    | Throw e => (Err e, s, w)
    | Act a k =>
        match a s w with
        | (Ok y, s, w) => run (k y) s w
        | (Err e, s, w) => (Err e, s, w)
        end
    end.

Lemma run_bind {St X Y} (p : prog St X) (f : X -> prog St Y) s w :
  run (pbind p f) s w =
    match run p s w with
    | (Ok x, s, w) => run (f x) s w
    | (Err e, s, w) => (Err e, s, w)
    end.
Proof.
  revert s w. induction p as [x|e|Z a k IH]; intros s w; simpl; try done.
  destruct (a s w) as [[[y|e] s'] w']; [apply IH | done].
Qed.

Lemma run_lift {St X} (r : result X) (s : St) w : run (lift r) s w = (r, s, w).
Proof. by destruct r. Qed.

(** ** Interleaving *)

Record Pool (St X : Type) : Type := mkPool {
  p_threads : list (prog St X); p_state : St; p_world : World }.
Arguments mkPool {St X}.
Arguments p_threads {St X}.
Arguments p_state {St X}.
Arguments p_world {St X}.

(** Thread [i] performs its next operation. *)
Inductive pool_step {St X} : Pool St X -> Pool St X -> Prop :=
| pool_act ts (i : nat) Y (a : op St Y) (k : Y -> prog St X) s w r s' w' :
    ts !! i = Some (Act a k) -> a s w = (r, s', w') ->
    pool_step (mkPool ts s w)
              (mkPool (<[i := resume k r]> ts) s' w').

Abbreviation pool_steps := (rtc pool_step).

(** A concrete schedule: the thread numbers in the order they act. *)
Fixpoint schedule {St X} (sched : list nat) (p : Pool St X) : Pool St X :=
  match sched with
  | [] => p
  | i :: sched =>
      match p_threads p !! i with
      | Some (Act a k) =>
          let '(r, s, w) := a (p_state p) (p_world p) in
          schedule sched
            (mkPool (<[i := resume k r]> (p_threads p)) s w)
      | _ => schedule sched p
      end
  end.

Lemma schedule_steps {St X} sched (p : Pool St X) : pool_steps p (schedule sched p).
Proof.
  revert p. induction sched as [|i sched IH]; intros p; [apply rtc_refl|]. simpl.
  destruct (p_threads p !! i) as [[x|e|Y a k]|] eqn:E; try apply IH.
  destruct (a (p_state p) (p_world p)) as [[r s'] w'] eqn:Ea.
  eapply rtc_l; [|apply IH]. destruct p as [ts s w]. simpl in *. by eapply pool_act.
Qed.

(** Running one thread to its end while the others wait is one of the
    interleavings. *)
Lemma run_steps {St X} (p : prog St X) : forall ts i s w r s' w',
  ts !! i = Some p -> run p s w = (r, s', w') ->
  pool_steps (mkPool ts s w)
             (mkPool (<[i := lift r]> ts) s' w').
Proof.
  induction p as [x|e|Y a k IH]; intros ts i s w r s' w' Hi; simpl.
  - intros [= <- <- <-]. rewrite list_insert_id by done. apply rtc_refl.
  - intros [= <- <- <-]. rewrite list_insert_id by done. apply rtc_refl.
  - destruct (a s w) as [[[y|e] s1] w1] eqn:Ea.
    + intros Hr. eapply rtc_l; [by eapply pool_act|].
      pose proof (IH y (<[i := k y]> ts) i s1 w1 r s' w') as Hk.
      rewrite list_insert_insert_eq in Hk. apply Hk; [|done].
      apply list_lookup_insert_eq. by eapply lookup_lt_Some.
    + intros [= <- <- <-]. eapply rtc_l; [by eapply pool_act|]. apply rtc_refl.
Qed.

(** ** Defined behaviour

    A thread that runs into undefined behaviour stops with that exception and
    keeps it: a run is defined as long as no thread has done so, and nothing is
    claimed of a run that is not. *)
Definition defined {St X} (p : prog St X) : bool :=
  match p with Throw (UndefinedBehaviour _) => false | _ => true end.
Definition pool_defined {St X} (p : Pool St X) : bool := forallb defined (p_threads p).

Lemma pool_defined_before {St X} (p p' : Pool St X) :
  pool_steps p p' -> pool_defined p' = true -> pool_defined p = true.
Proof.
  unfold pool_defined. rewrite !forallb_forall. setoid_rewrite <- list_elem_of_In.
  induction 1 as [|x y z [ts i Y a k s w r s' w' Hi Ha] _ IH]; [done|].
  intros Hz t [j Hj]%list_elem_of_lookup. simpl in *. specialize (IH Hz).
  destruct (decide (j = i)) as [->|Hn].
  - rewrite Hi in Hj. by injection Hj as <-.
  - apply IH, list_elem_of_lookup. exists j. by rewrite list_lookup_insert_ne.
Qed.

(** ** Invariants of interleaved programs *)

(** Every operation the program may perform keeps [P]. *)
Fixpoint safe {St X} (P : St -> Prop) (p : prog St X) : Prop :=
  match p with
  | Ret _ | Throw _ => True
  | Act a k => keeps P a /\ forall y, safe P (k y)
  end.

Lemma safe_bind {St X Y} (P : St -> Prop) (p : prog St X) (f : X -> prog St Y) :
  safe P p -> (forall x, safe P (f x)) -> safe P (pbind p f).
Proof.
  intros Hp Hf. induction p as [x|e|Z a k IH]; simpl in *; [apply Hf | done|].
  destruct Hp as [Ha Hk]. split; [done|]. intros y. by apply IH.
Qed.

Lemma safe_lift {St X} (P : St -> Prop) (r : result X) : safe P (lift r).
Proof. by destruct r. Qed.

Lemma safe_lift_bind {St X Y} (P : St -> Prop) (r : result X) (f : X -> prog St Y) :
  (forall x, r = Ok x -> safe P (f x)) -> safe P (pbind (lift r) f).
Proof. destruct r as [x|e]; simpl; [by intros H; apply H | done]. Qed.

Lemma pool_step_safe {St X} (P : St -> Prop) (p p' : Pool St X) :
  pool_step p p' -> Forall (safe P) (p_threads p) /\ P (p_state p) ->
  Forall (safe P) (p_threads p') /\ P (p_state p').
Proof.
  destruct 1 as [ts i Y a k s w r s' w' Hi Ha]; simpl. intros [Ht Hs].
  pose proof (proj1 (Forall_lookup _ _) Ht _ _ Hi) as [Hk Hkk].
  split; [|by eapply Hk].
  apply Forall_insert; [done|]. destruct r; [apply Hkk | done].
Qed.

Lemma pool_safe {St X} (P : St -> Prop) (p p' : Pool St X) :
  pool_steps p p' -> Forall (safe P) (p_threads p) -> P (p_state p) -> P (p_state p').
Proof.
  intros Hst Ht Hs. assert (H : Forall (safe P) (p_threads p) /\ P (p_state p)) by done.
  clear Ht Hs. induction Hst as [|? ? ? H1 _ IH]; [apply H|].
  apply IH. by eapply pool_step_safe.
Qed.

#[export] Hint Resolve safe_lift : bike.
