(* ===== verification/Handlers.v ===== *)
(** * Request handlers, authentication and the router

    server/src/handlers/*.cpp, auth.cpp, router.cpp and the registration of
    app/ctx_factory.cpp, one Definition per function.  Each handler is a
    [prog] over the shared context: a call of a repository method is one
    atomic operation, everything between is pure.  Log calls have no effect on
    the state and are left out. *)

From Stdlib Require Import Ascii.
From S2P Require Import Prelude Protocol Double Common Calendar Repo Messages Prog.
Open Scope prog_scope.

(** The objects a handler reaches through [Ctx&]. *)
Record Ctx (U A S B R : Type) : Type := mkCtx {
  users : U; accounts : A; sessions : S; bikes : B; rides : R;
  ride_sessions : RideSessions
}.
Arguments mkCtx {U A S B R}.
Arguments users {U A S B R}.
Arguments accounts {U A S B R}.
Arguments sessions {U A S B R}.
Arguments bikes {U A S B R}.
Arguments rides {U A S B R}.
Arguments ride_sessions {U A S B R}.

(** [std::sort] with [a.elapsed_sec < b.elapsed_sec]: some permutation sorted
    by elapsed time; the order of equal elements is unspecified. *)
Class StdSort : Type := {
  sort_points : list RidePoint -> list RidePoint;
  sort_points_perm l : sort_points l ≡ₚ l;
  sort_points_sorted l : StronglySorted (fun a b => p_elapsed_sec a <= p_elapsed_sec b) (sort_points l)
}.

Section Handlers.
Context {U A T B R : Type}.
Context `{!IUserRepo U, !IAccountRepo A, !ISessionStore T, !IBikeRepo B, !IRideRepo R}.
Context `{!Pb, !Libm, !StdSort}.
Abbreviation C := (Ctx U A T B R).
Abbreviation bytes := (list byte).
Abbreviation handler := (bytes -> prog C bytes).

(** ** Method calls on the members of [Ctx] *)
Definition on_users {X} (o : op U X) : op C X := fun c w =>
  let '(r, u, w) := o (users c) w in
  (r, mkCtx u (accounts c) (sessions c) (bikes c) (rides c) (ride_sessions c), w).
Definition on_accounts {X} (o : op A X) : op C X := fun c w =>
  let '(r, a, w) := o (accounts c) w in
  (r, mkCtx (users c) a (sessions c) (bikes c) (rides c) (ride_sessions c), w).
Definition on_sessions {X} (o : op T X) : op C X := fun c w =>
  let '(r, s, w) := o (sessions c) w in
  (r, mkCtx (users c) (accounts c) s (bikes c) (rides c) (ride_sessions c), w).
Definition on_bikes {X} (o : op B X) : op C X := fun c w =>
  let '(r, b, w) := o (bikes c) w in
  (r, mkCtx (users c) (accounts c) (sessions c) b (rides c) (ride_sessions c), w).
Definition on_rides {X} (o : op R X) : op C X := fun c w =>
  let '(r, d, w) := o (rides c) w in
  (r, mkCtx (users c) (accounts c) (sessions c) (bikes c) d (ride_sessions c), w).
Definition on_ride_sessions {X} (o : RideSessions -> X * RideSessions) : op C X := fun c w =>
  let '(x, m) := o (ride_sessions c) in
  (Ok x, mkCtx (users c) (accounts c) (sessions c) (bikes c) (rides c) m, w).
Definition on_world {X} (f : World -> X * World) : op C X := fun c w =>
  let '(x, w) := f w in (Ok x, c, w).

(** [now_unix()] and [std::time(nullptr)] *)
Definition now_unix : op C Z := on_world read_unix.

(** [Frame f{.event_id = ev, .payload = rsp.SerializeAsString()}; return encode(f);] *)
Definition reply {M} `{!PbResponse M} (ev : Event) (rsp : M) : prog C bytes :=
  lift (encode (mkFrame (event_id ev) 0 (pb_serialize rsp))).

(** ** auth.cpp *)
Definition require_user (token : string) : prog C (option Z) :=
  do! mobile := on_sessions (lookup_session token) in
  match mobile with
  | None => Ret None
  | Some m =>
      do! u := on_users (find_or_create m) in
      Ret (Some (u_id u))
  end.

(** ** mobile_code.cpp *)
Definition mobile_code : handler := fun payload =>
  let finish (ec : ErrCode) (icode : Z) :=
    reply MobileResponse (mk_mobile_response (code ec) icode (to_string ec)) in
  match pb_parse payload with
  | None => finish InvalidMsg 0
  | Some req =>
      do! icode := on_sessions (set_code (mreq_mobile req)) in
      finish ErrOk icode
  end.

(** ** login.cpp *)
Definition login : handler := fun payload =>
  let fail (ec : ErrCode) :=
    reply LoginResponse (mk_login_response (code ec) (to_string ec) "") in
  match pb_parse payload with
  | None => fail InvalidMsg
  | Some req =>
      do! stored := on_sessions (get_code (lreq_mobile req)) in
      match stored with
      | None => fail InvalidData
      | Some c =>
          if negb (c =? lreq_icode req) then fail InvalidData
          else
            do! _ := on_sessions (delete_code (lreq_mobile req)) in
            do! u := on_users (find_or_create (lreq_mobile req)) in
            do! _ := on_accounts (get_balance (u_id u)) in
            do! token := on_sessions (create_session (lreq_mobile req)) in
            reply LoginResponse (mk_login_response (code ErrOk) (to_string ErrOk) token)
      end
  end.

(** ** recharge.cpp *)
Definition recharge : handler := fun payload =>
  let fail (ec : ErrCode) :=
    reply RechargeResponse (mk_recharge_response (code ec) 0 (to_string ec)) in
  match pb_parse payload with
  | None => fail InvalidMsg
  | Some req =>
      if rreq_amount req <=? 0 then fail InvalidData
      else
        do! mobile := on_sessions (lookup_session (rreq_session_token req)) in
        match mobile with
        | None => fail Unauthorized
        | Some m =>
            do! u := on_users (find_or_create m) in
            do! new_bal := on_accounts (add_balance (u_id u) Recharge (rreq_amount req)) in
            reply RechargeResponse (mk_recharge_response (code ErrOk) new_bal (to_string ErrOk))
        end
  end.

(** ** account_balance.cpp *)
Definition account_balance : handler := fun payload =>
  let fail (ec : ErrCode) :=
    reply AccountBalanceResponse (mk_account_balance_response (code ec) 0) in
  match pb_parse payload with
  | None => fail InvalidMsg
  | Some req =>
      do! mobile := on_sessions (lookup_session (abreq_session_token req)) in
      match mobile with
      | None => fail Unauthorized
      | Some m =>
          do! u := on_users (find_or_create m) in
          do! b := on_accounts (get_balance (u_id u)) in
          reply AccountBalanceResponse (mk_account_balance_response (code ErrOk) b)
      end
  end.

(** ** list_records.cpp *)
Definition list_records : handler := fun payload =>
  let fail (ec : ErrCode) :=
    reply ListAccountRecordsResponse (mk_list_account_records_response (code ec) []) in
  match pb_parse payload with
  | None => fail InvalidMsg
  | Some req =>
      do! mobile := on_sessions (lookup_session (larq_session_token req)) in
      match mobile with
      | None => fail Unauthorized
      | Some m =>
          do! u := on_users (find_or_create m) in
          do! recs := on_accounts (Repo.list_records (u_id u) 100) in
          reply ListAccountRecordsResponse
            (mk_list_account_records_response (code ErrOk)
               ((fun r => mk_account_record (ar_type r) (ar_amount r) (ar_timestamp r)) <$> recs))
      end
  end.

(** ** list_nearby_bikes.cpp *)
Definition kSpawnThreshold : Z := 5.
Definition kSpawnTarget : Z := 12.
Definition kSpawnRadiusFactor : double := d_lit 8 1.
Definition kMaxNoRetry : nat := 4.

Definition kAlphabet : list ascii := chars_of_string "23456789ABCDEFGHJKMNPQRSTUVWXYZ".

Fixpoint pick_chars (n : nat) (w : World) : list ascii * World :=
  match n with
  | O => ([], w)
  | S n =>
      let '(i, w) := uniform_int 0 30 w in
      let '(cs, w) := pick_chars n w in
      (nth (Z.to_nat i) kAlphabet zero :: cs, w)
  end.
Definition make_dyn_bike_no (w : World) : string * World :=
  let '(cs, w) := pick_chars 6 w in
  (string_of_chars (chars_of_string "DY-" ++ cs), w).

(** 3.14159265358979, one ulp-scale off kPi. *)
Definition pi_short : double := d_lit 314159265358979 14.

Definition random_offset (center_lat center_lng radius_m : double) (w : World)
  : (double * double) * World :=
  let '(u1, w) := uniform_01 w in
  let rr := d_mul (d_mul radius_m kSpawnRadiusFactor) (d_sqrt u1) in
  let '(u2, w) := uniform_01 w in
  let theta := d_mul (d_mul (d_of_Z 2) pi_short) u2 in
  let d_east := d_mul rr (m_cos theta) in
  let d_north := d_mul rr (m_sin theta) in
  let lat := d_add center_lat (d_div d_north (d_of_Z 111000)) in
  let cos_lat := m_cos (d_div (d_mul center_lat pi_short) (d_of_Z 180)) in
  let lng := d_add center_lng
    (d_div d_east (d_mul (d_of_Z 111000)
       (if d_lt cos_lat (d_lit 1 2) then d_lit 1 2 else cos_lat))) in
  ((lat, lng), w).

(** The retry loop of one bike. *)
Fixpoint insert_retry (attempts : nat) (plat plng : double) : prog C (option Bike) :=
  match attempts with
  | O => Ret None
  | S attempts =>
      do! no := on_world make_dyn_bike_no in
      do! ok := on_bikes (insert_bike (mkBike 0 no plat plng Idle)) in
      match ok with
      | Some b => Ret (Some b)
      | None => insert_retry attempts plat plng
      end
  end.

Fixpoint spawn_bikes (lat lng r : double) (need : nat) : prog C (list Bike) :=
  match need with
  | O => Ret []
  | S need =>
      do! p := on_world (random_offset lat lng r) in
      let! ok := insert_retry kMaxNoRetry (fst p) (snd p) in
      let! rest := spawn_bikes lat lng r need in
      Ret (match ok with Some b => b :: rest | None => rest end)
  end.

Definition list_nearby_bikes : handler := fun payload =>
  let fail (ec : ErrCode) :=
    reply ListNearbyBikesResponse (mk_list_nearby_bikes_response (code ec) []) in
  match pb_parse payload with
  | None => fail InvalidMsg
  | Some req =>
      let! uid := require_user (nbreq_session_token req) in
      match uid with
      | None => fail Unauthorized
      | Some _ =>
          let lat := nbreq_lat req in
          let lng := nbreq_lng req in
          if negb (valid_lat lat) || negb (valid_lng lng) then fail InvalidData
          else
            let r := clamp_radius (nbreq_radius_m req) in
            let dlat := d_div r (d_of_Z 111000) in
            let dlng := d_div r (d_mul (d_of_Z 111000)
                          (m_cos (d_div (d_mul lat pi_short) (d_of_Z 180)))) in
            do! bikes := on_bikes (list_in_bounds (d_sub lat dlat) (d_add lat dlat)
                                     (d_sub lng dlng) (d_add lng dlng)) in
            let near := List.filter
              (fun b => d_le (haversine_m lat lng (b_lat b) (b_lng b)) r) bikes in
            let n := i32 (Z.of_nat (length near)) in
            let! near :=
              (if n <? kSpawnThreshold
               then let! spawned := spawn_bikes lat lng r (Z.to_nat (kSpawnTarget - n)) in
                    Ret (near ++ spawned)
               else Ret near) in
            reply ListNearbyBikesResponse
              (mk_list_nearby_bikes_response (code ErrOk)
                 ((fun b => mk_bike_info (b_no b) (b_lat b) (b_lng b)
                              (bike_status_code (b_status b))) <$> near))
      end
  end.

(** ** scan_unlock.cpp *)
Definition desc_or (ec : ErrCode) (desc : string) : string :=
  if bool_decide (desc = "") then to_string ec else desc.

Definition scan_unlock : handler := fun payload =>
  let fail (ec : ErrCode) (desc : string) :=
    reply ScanUnlockResponse (mk_scan_unlock_response (code ec) (desc_or ec desc) "" 0) in
  match pb_parse payload with
  | None => fail InvalidMsg ""
  | Some req =>
      let! uid := require_user (sureq_session_token req) in
      match uid with
      | None => fail Unauthorized ""
      | Some uid =>
          if negb (valid_bike_no (sureq_bike_no req)) || negb (valid_lat (sureq_lat req))
             || negb (valid_lng (sureq_lng req))
          then fail InvalidData ""
          else
            do! bike := on_bikes (get_for_update (sureq_bike_no req)) in
            match bike with
            | None => fail InvalidData "车辆不存在"
            | Some bike =>
                if bool_decide (b_status bike = Damaged) then fail BikeIsDamaged ""
                else if bool_decide (b_status bike = Rented) then fail BikeIsRunning ""
                else
                  do! b := on_accounts (get_balance uid) in
                  if b <? 100 then fail ProcessFailed "余额不足"
                  else
                    do! now := now_unix in
                    let seq := i32 (Z.rem now 999999 + 1) in
                    do! t := now_unix in
                    let! today := lift (today_yyyymmdd t) in
                    let! ride_no := lift (make_ride_no today seq) in
                    do! start_ts := now_unix in
                    let s := mkSession ride_no uid (b_id bike)
                               (sureq_lat req) (sureq_lng req) start_ts
                               (sureq_lat req) (sureq_lng req) 0 [] in
                    do! _ := on_ride_sessions (fun m => (tt, rs_create s m)) in
                    do! _ := on_bikes (update_status (b_id bike) Rented) in
                    reply ScanUnlockResponse
                      (mk_scan_unlock_response (code ErrOk) (to_string ErrOk) ride_no start_ts)
            end
      end
  end.

(** ** position_report.cpp *)
Definition position_report : handler := fun payload =>
  match pb_parse payload with
  | None => Ret []
  | Some req =>
      do! _ := on_ride_sessions (update_pos (rpr_ride_no req) (rpr_lat req) (rpr_lng req)
                                   (rpr_seq req) (rpr_elapsed_sec req)) in
      Ret []
  end.

(** ** end_ride.cpp *)

(** The distance loop: [for i in 1..: dist_m += haversine_m(points[i-1], points[i])]. *)
Fixpoint path_m (acc : double) (points : list RidePoint) : double :=
  match points with
  | p :: ((q :: _) as rest) =>
      path_m (d_add acc (haversine_m (p_lat p) (p_lng p) (p_lat q) (p_lng q))) rest
  | _ => acc
  end.

(** Start point, reported points and end point, sorted by elapsed time;
    [last_seq + 1] is computed in [int]. *)
Definition ride_points (s : RideSession) (end_lat end_lng : double) (duration_sec : Z)
  : result (list RidePoint) :=
  try! last := int_add (s_last_seq s) 1 in
  Ok (sort_points (mkPoint 0 (s_start_lat s) (s_start_lng s) 0
                   :: s_points s ++ [mkPoint last end_lat end_lng duration_sec])).

(** [static_cast<int>(end_ts - start_ts)], negative durations cut to 0. *)
Definition ride_duration (start_ts end_ts : Z) : Z :=
  let d := i32 (end_ts - start_ts) in if d <? 0 then 0 else d.

Definition end_ride : handler := fun payload =>
  let fail (ec : ErrCode) (desc : string) :=
    reply EndRideResponse (mk_end_ride_response (code ec) (desc_or ec desc) 0 0 0 0) in
  match pb_parse payload with
  | None => fail InvalidMsg ""
  | Some req =>
      let! uid := require_user (erreq_session_token req) in
      match uid with
      | None => fail Unauthorized ""
      | Some uid =>
          if negb (valid_lat (erreq_end_lat req)) || negb (valid_lng (erreq_end_lng req))
          then fail InvalidData ""
          else
            do! sess := on_ride_sessions (fun m => (rs_find (erreq_ride_no req) m, m)) in
            match sess with
            | None =>
                do! row := on_rides (find_by_no (erreq_ride_no req)) in
                match row with
                | None => fail InvalidData "订单不存在"
                | Some row =>
                    if negb (r_user_id row =? uid) then fail Unauthorized ""
                    else
                      do! b := on_accounts (get_balance uid) in
                      reply EndRideResponse
                        (mk_end_ride_response (code ErrOk) (to_string ErrOk)
                           (r_duration_sec row) (r_distance_m row) (r_amount_cent row) b)
                end
            | Some sess =>
                if negb (s_user_id sess =? uid) then fail Unauthorized ""
                else
                  do! end_ts := now_unix in
                  let duration_sec := ride_duration (s_start_ts sess) end_ts in
                  let! amount := lift (compute_fee duration_sec) in
                  let! points := lift (ride_points sess (erreq_end_lat req) (erreq_end_lng req)
                                         duration_sec) in
                  let dist_m := path_m d_zero points in
                  let! neg := lift (int_neg amount) in
                  do! new_bal := on_accounts (add_balance uid Consume neg) in
                  if new_bal <? 0 then fail ProcessFailed "余额不足"
                  else
                    let! distance := lift (d_to_int dist_m) in
                    let ci := mkCreateRide (s_ride_no sess) uid (s_bike_id sess)
                                (s_start_ts sess) end_ts (s_start_lat sess) (s_start_lng sess)
                                (erreq_end_lat req) (erreq_end_lng req)
                                duration_sec distance amount points in
                    do! _ := on_rides (create_with_points ci) in
                    do! _ := on_bikes (update_location (s_bike_id sess)
                                         (erreq_end_lat req) (erreq_end_lng req)) in
                    do! _ := on_bikes (update_status (s_bike_id sess) Idle) in
                    do! _ := on_ride_sessions (rs_remove (s_ride_no sess)) in
                    reply EndRideResponse
                      (mk_end_ride_response (code ErrOk) (to_string ErrOk)
                         duration_sec distance amount new_bal)
            end
      end
  end.

(** ** report_damage.cpp *)
Definition report_damage : handler := fun payload =>
  let fail (ec : ErrCode) (desc : string) :=
    reply ReportDamageResponse (mk_report_damage_response (code ec) (desc_or ec desc)) in
  match pb_parse payload with
  | None => fail InvalidMsg ""
  | Some req =>
      let! uid := require_user (rdreq_session_token req) in
      match uid with
      | None => fail Unauthorized ""
      | Some _ =>
          if negb (valid_bike_no (rdreq_bike_no req)) then fail InvalidData ""
          else
            do! bike := on_bikes (get_for_update (rdreq_bike_no req)) in
            match bike with
            | None => fail InvalidData "车辆不存在"
            | Some bike =>
                do! _ := on_bikes (update_status (b_id bike) Damaged) in
                reply ReportDamageResponse
                  (mk_report_damage_response (code ErrOk) (to_string ErrOk))
            end
      end
  end.

(** ** get_ride_detail.cpp *)
Definition get_ride_detail : handler := fun payload =>
  let fail (ec : ErrCode) :=
    reply GetRideDetailResponse (mk_get_ride_detail_response (code ec) "" 0 0 0 "" "" []) in
  match pb_parse payload with
  | None => fail InvalidMsg
  | Some req =>
      let! uid := require_user (gdreq_session_token req) in
      match uid with
      | None => fail Unauthorized
      | Some uid =>
          do! ride := on_rides (find_by_no (gdreq_ride_no req)) in
          match ride with
          | None => fail InvalidData
          | Some ride =>
              if negb (r_user_id ride =? uid) then fail Unauthorized
              else
                let! start_tm := lift (fmt_iso (r_start_ts ride)) in
                let! end_tm := lift (fmt_iso (r_end_ts ride)) in
                do! points := on_rides (list_points (r_id ride)) in
                reply GetRideDetailResponse
                  (mk_get_ride_detail_response (code ErrOk) (r_no ride) (r_duration_sec ride)
                     (r_distance_m ride) (r_amount_cent ride) start_tm end_tm
                     ((fun p => mk_ride_point (p_lat p) (p_lng p) (p_elapsed_sec p)) <$> points))
          end
      end
  end.

(** ** list_rides.cpp *)
Fixpoint summaries (rides : list Ride) : result (list ride_summary) :=
  match rides with
  | [] => Ok []
  | r :: rides =>
      try! tm := fmt_iso (r_start_ts r) in
      try! rest := summaries rides in
      Ok (mk_ride_summary (r_no r) tm (r_duration_sec r) (r_distance_m r) (r_amount_cent r)
          :: rest)
  end.

Definition list_rides : handler := fun payload =>
  let fail (ec : ErrCode) :=
    reply ListRidesResponse (mk_list_rides_response (code ec) []) in
  match pb_parse payload with
  | None => fail InvalidMsg
  | Some req =>
      let! uid := require_user (lrreq_session_token req) in
      match uid with
      | None => fail Unauthorized
      | Some uid =>
          do! rides := on_rides (list_by_user uid (clamp_limit (lrreq_limit req))) in
          let! out := lift (summaries rides) in
          reply ListRidesResponse (mk_list_rides_response (code ErrOk) out)
      end
  end.

(** ** router.cpp and register_all_handlers (ctx_factory.cpp) *)
Abbreviation Router := (gmap Z handler).

Definition register_handler (eid : Z) (fn : handler) (r : Router) : Router := <[eid := fn]> r.

Definition dispatch (r : Router) (eid : Z) (payload : bytes) : prog C bytes :=
  match r !! eid with
  | None => Ret []
  | Some h => h payload
  end.

Definition register_all_handlers (r : Router) : Router :=
  let r := register_handler (event_id MobileRequest) mobile_code r in
  let r := register_handler (event_id LoginRequest) login r in
  let r := register_handler (event_id RechargeRequest) recharge r in
  let r := register_handler (event_id AccountBalanceRequest) account_balance r in
  let r := register_handler (event_id ListAccountRecordsRequest) list_records r in
  let r := register_handler (event_id ListNearbyBikesRequest) list_nearby_bikes r in
  let r := register_handler (event_id ScanUnlockRequest) scan_unlock r in
  let r := register_handler (event_id RidePositionReport) position_report r in
  let r := register_handler (event_id EndRideRequest) end_ride r in
  let r := register_handler (event_id ReportDamageRequest) report_damage r in
  let r := register_handler (event_id GetRideDetailRequest) get_ride_detail r in
  register_handler (event_id ListRidesRequest) list_rides r.
End Handlers.
