(* ===== verification/Scenario.v ===== *)
(** * A concrete server

    One instance of everything the handlers are parametric in: the in-memory
    repositories, a mathematical library, a sort and a message codec.  The
    concrete runs of the development are evaluated on it. *)

From Stdlib Require Import Sorting.
From S2P Require Import Prelude Protocol Double Common Repo Messages Prog Handlers InMemory.

(** A coarse mathematical library: sine and arc tangent vanish on every number
    and pass NaN on. *)
#[export] Instance libm0 : Libm := {
  m_sin x := match x with S754_zero s => S754_zero s | S754_nan => S754_nan | _ => d_zero end;
  m_cos x := match x with S754_nan => S754_nan | _ => d_of_Z 1 end;
  m_atan2 y x := if d_is_nan y || d_is_nan x then S754_nan else d_zero
}.
#[export] Instance libm0_laws : LibmLaws.
Proof.
  split.
  - done.
  - by intros [].
  - done.
Qed.

Definition elapsed_le (a b : RidePoint) : Prop := p_elapsed_sec a <= p_elapsed_sec b.
#[export] Instance elapsed_le_dec : RelDecision elapsed_le.
Proof. intros a b. unfold elapsed_le. apply _. Defined.
#[export] Instance elapsed_le_total : Total elapsed_le.
Proof. intros a b. unfold elapsed_le. lia. Qed.
#[export] Instance elapsed_le_trans : Transitive elapsed_le.
Proof. intros a b c. unfold elapsed_le. lia. Qed.

#[export, refine] Instance merge_sort_points : StdSort := { sort_points := merge_sort elapsed_le }.
Proof.
  - intros l. apply merge_sort_Permutation.
  - intros l. apply (StronglySorted_merge_sort elapsed_le).
Defined.

(** The codec: the first payload byte names the session token, responses are
    one byte, the low half of their code. *)
Definition token_of (bs : list byte) : string :=
  match bs with x01 :: _ => "t1" | x02 :: _ => "t2" | _ => "t3" end.
Definition code_byte (c : Z) : list byte := [byte_of_Z c].
Definition req0 {M} (f : list byte -> option M) : PbRequest M := {| pb_parse := f |}.
Definition rsp0 {M} (f : M -> list byte) : PbResponse M :=
  {| pb_serialize := f; pb_parse_response := fun _ => None |}.

Definition lat0 : double := d_of_Z 30.
Definition lng0 : double := d_of_Z 120.
(** The ride number of an unlock at 1700000000 (2023-11-14). *)
Definition ride0 : string := "R20231114001701".

#[export] Instance pb0 : Pb := {
  pb_mobile_request := req0 (fun _ => Some (mk_mobile_request "13800000001"));
  pb_login_request := req0 (fun _ => Some (mk_login_request "13800000001" 100000));
  pb_recharge_request := req0 (fun bs => Some (mk_recharge_request (token_of bs) 500));
  pb_account_balance_request := req0 (fun bs => Some (mk_account_balance_request (token_of bs)));
  pb_list_account_records_request :=
    req0 (fun bs => Some (mk_list_account_records_request (token_of bs)));
  pb_list_nearby_bikes_request :=
    req0 (fun bs => Some (mk_list_nearby_bikes_request (token_of bs) lat0 lng0 (d_of_Z 500)));
  pb_scan_unlock_request :=
    req0 (fun bs => Some (mk_scan_unlock_request (token_of bs)
                            (if bool_decide (length bs = 1%nat) then "B1" else "B2") lat0 lng0));
  pb_ride_position_report :=
    req0 (fun bs => Some (mk_ride_position_report ride0 1 S754_nan lng0 10));
  pb_end_ride_request :=
    req0 (fun bs => Some (mk_end_ride_request (token_of bs) ride0 lat0 lng0));
  pb_report_damage_request := req0 (fun bs => Some (mk_report_damage_request (token_of bs) "B1" ""));
  pb_get_ride_detail_request := req0 (fun bs => Some (mk_get_ride_detail_request (token_of bs) ride0));
  pb_list_rides_request := req0 (fun bs => Some (mk_list_rides_request (token_of bs) 20));
  pb_mobile_response := rsp0 (fun m => code_byte (mrsp_code m));
  pb_login_response := rsp0 (fun m => code_byte (lrsp_code m));
  pb_recharge_response := rsp0 (fun m => code_byte (rrsp_code m));
  pb_account_balance_response := rsp0 (fun m => code_byte (abrsp_code m));
  pb_list_account_records_response := rsp0 (fun m => code_byte (lars_code m));
  pb_list_nearby_bikes_response := rsp0 (fun m => code_byte (nbrsp_code m));
  pb_scan_unlock_response := rsp0 (fun m => code_byte (sursp_code m));
  pb_end_ride_response := rsp0 (fun m => code_byte (errsp_code m));
  pb_report_damage_response := rsp0 (fun m => code_byte (rdrsp_code m));
  pb_get_ride_detail_response := rsp0 (fun m => code_byte (gdrsp_code m));
  pb_list_rides_response := rsp0 (fun m => code_byte (lrrsp_code m))
}.
#[export] Instance pb0_laws : PbLaws.
Proof. split; intros bs r [= <-]; reflexivity. Qed.

(** Two users with 5 yuan each and a session each; two idle bikes. *)
Abbreviation MemCtx :=
  (Ctx InMemoryUserRepo InMemoryAccountRepo InMemorySessionStore InMemoryBikeRepo InMemoryRideRepo).
Definition mem_ctx0 : MemCtx :=
  mkCtx InMemoryUserRepo0 InMemoryAccountRepo0 InMemorySessionStore0 InMemoryBikeRepo0
        InMemoryRideRepo0 ∅.
Definition far : Z := 10 ^ 18.
Definition ctx0 : MemCtx := mkCtx
  (mkUserRepo {[ "13800000001" := mkUser 1 "13800000001"; "13800000002" := mkUser 2 "13800000002" ]} 3)
  (mkAccountRepo {[ 1 := 500; 2 := 500 ]}
     {[ 1 := [mkAccountRecord 1 500 500 0]; 2 := [mkAccountRecord 1 500 500 0] ]})
  (mkSessionStore {[ "13800000001" := mkCodeEntry 100000 far ]}
     {[ "t1" := mkEntry "13800000001" far; "t2" := mkEntry "13800000002" far ]})
  (mkBikeRepo {[ "B1" := mkBike 1 "B1" lat0 lng0 Idle; "B2" := mkBike 2 "B2" lat0 lng0 Idle ]} 1000000)
  InMemoryRideRepo0 ∅.

(** The clock stands at 1700000000 s. *)
Definition world1 : World := mkWorld (fun _ => 1700000000) 0 Z.of_nat 0 Z.of_nat 0.

Definition frame_of (ev : Event) (ec : ErrCode) : list byte :=
  match encode (mkFrame (event_id ev) 0 (code_byte (code ec))) with Ok bs => bs | Err _ => [] end.
