(* ===== verification/ServerSafety.v ===== *)
(** * Invariants of the business process under concurrency

    The handlers run on a thread pool: their repository calls interleave
    freely.  Whatever the interleaving, the repositories keep their
    invariants.  What the locking does not give is shown by two concrete
    schedules at the end of the file. *)

From S2P Require Import Prelude Protocol Double Common Calendar Repo Messages Prog Handlers InMemory Scenario.
Open Scope prog_scope.

Create HintDb safety.

Section Safety.
Context {U A T B R : Type}.
Context `{!IUserRepo U, !IAccountRepo A, !ISessionStore T, !IBikeRepo B, !IRideRepo R}.
Context `{!UserLaws U, !AccountLaws A, !BikeLaws B, !RideLaws R}.
Context {pb : Pb} {pb_laws : PbLaws} {libm : Libm} {std_sort : StdSort}.
Abbreviation C := (Ctx U A T B R).

(** The invariants of all shared objects. *)
Record ctx_ok (c : C) : Prop := mk_ctx_ok {
  ok_users : user_wf (users c);
  ok_accounts : acct_wf (accounts c);
  ok_bikes : bike_wf (bikes c);
  ok_rides : ride_wf (rides c);
  ok_ride_sessions : sessions_ok (ride_sessions c)
}.

(** A server that keeps books: [AI] and [RI] are further predicates on the
    account and ride repositories that hold as long as the handlers call them
    only with positive recharges, with fees of the tariff and with rides billed
    by it. *)
Section Books.
Context (AI : A -> Prop) (RI : R -> Prop).
Abbreviation AJ := (fun a => acct_wf a /\ AI a).
Abbreviation RJ := (fun r => ride_wf r /\ RI r).
Context (recharge_keeps : forall uid amt,
  0 < amt <= INT_MAX -> keeps AJ (add_balance uid Recharge amt)).
Context (charge_keeps : forall uid d fee,
  compute_fee d = Ok fee -> in_int (- fee) = true -> keeps AJ (add_balance uid Consume (- fee))).
Context (bill_keeps : forall ci,
  ci_duration_sec ci = ride_duration (ci_start_ts ci) (ci_end_ts ci) ->
  compute_fee (ci_duration_sec ci) = Ok (ci_amount_cent ci) -> keeps RJ (create_with_points ci)).

Record ctx_books (c : C) : Prop := mk_ctx_books {
  cb_ok : ctx_ok c; cb_accounts : AI (accounts c); cb_rides : RI (rides c) }.

(** An operation on one member keeps the whole when it keeps its part. *)
Lemma on_users_ok {X} (o : op U X) : keeps user_wf o -> keeps ctx_books (on_users o).
Proof.
  intros Ho c w r c' w' [[] ? ?] E. unfold on_users in E.
  destruct (o (users c) w) as [[r1 u1] w1] eqn:E1. injection E as <- <- <-.
  do 2 (split; simpl; try done). by eapply Ho.
Qed.
Lemma on_accounts_ok {X} (o : op A X) : keeps AJ o -> keeps ctx_books (on_accounts o).
Proof.
  intros Ho c w r c' w' [[] Ha ?] E. unfold on_accounts in E.
  destruct (o (accounts c) w) as [[r1 u1] w1] eqn:E1. injection E as <- <- <-.
  destruct (Ho _ _ _ _ _ (conj ok_accounts0 Ha) E1). by split; [split|..].
Qed.
Lemma on_sessions_ok {X} (o : op T X) : keeps ctx_books (on_sessions o).
Proof.
  intros c w r c' w' [[] ? ?] E. unfold on_sessions in E.
  destruct (o (sessions c) w) as [[r1 u1] w1]. injection E as <- <- <-. by split; [split|..].
Qed.
Lemma on_bikes_ok {X} (o : op B X) : keeps bike_wf o -> keeps ctx_books (on_bikes o).
Proof.
  intros Ho c w r c' w' [[] ? ?] E. unfold on_bikes in E.
  destruct (o (bikes c) w) as [[r1 u1] w1] eqn:E1. injection E as <- <- <-.
  do 2 (split; simpl; try done). by eapply Ho.
Qed.
Lemma on_rides_ok {X} (o : op R X) : keeps RJ o -> keeps ctx_books (on_rides o).
Proof.
  intros Ho c w r c' w' [[] ? Hr] E. unfold on_rides in E.
  destruct (o (rides c) w) as [[r1 u1] w1] eqn:E1. injection E as <- <- <-.
  destruct (Ho _ _ _ _ _ (conj ok_rides0 Hr) E1). by split; [split|..].
Qed.
Lemma on_ride_sessions_ok {X} (o : RideSessions -> X * RideSessions) :
  (forall m, sessions_ok m -> sessions_ok (snd (o m))) -> keeps ctx_books (on_ride_sessions o).
Proof.
  intros Ho c w r c' w' [[] ? ?] E. unfold on_ride_sessions in E.
  specialize (Ho (ride_sessions c)). destruct (o (ride_sessions c)) as [x m].
  injection E as <- <- <-. do 2 (split; simpl; auto).
Qed.
Lemma on_world_ok {X} (f : World -> X * World) : keeps ctx_books (on_world f).
Proof.
  intros c w r c' w' Hwf E. unfold on_world in E. destruct (f w). by injection E as <- <- <-.
Qed.

(** The operations that only read. *)
Lemma get_balance_keeps uid : keeps AJ (get_balance uid).
Proof. intros a w r a' w' [Hwf ?]. rewrite get_balance_law by done. by intros [= <- <- <-]. Qed.
Lemma list_records_keeps uid n : keeps AJ (Repo.list_records uid n).
Proof.
  intros a w r a' w' Hwf. destruct (list_records_law uid n a w) as [l ->]. by intros [= <- <- <-].
Qed.
Lemma get_for_update_keeps no : keeps bike_wf (get_for_update no).
Proof. intros b w r b' w' Hwf. rewrite get_for_update_law. by intros [= <- <- <-]. Qed.
Lemma list_in_bounds_keeps a1 a2 o1 o2 : keeps bike_wf (list_in_bounds a1 a2 o1 o2).
Proof.
  intros b w r b' w' Hwf. destruct (list_in_bounds_law a1 a2 o1 o2 b w) as [l ->].
  by intros [= <- <- <-].
Qed.
Lemma update_status_keeps i st : keeps bike_wf (update_status i st).
Proof.
  intros b w r b' w' Hwf. destruct (update_status_law i st b w Hwf) as (ok & b1 & -> & Hwf' & _).
  by intros [= <- <- <-].
Qed.
Lemma update_location_keeps i la lo : keeps bike_wf (update_location i la lo).
Proof.
  intros b w r b' w' Hwf. destruct (update_location_law i la lo b w Hwf) as (ok & b1 & -> & Hwf' & _).
  by intros [= <- <- <-].
Qed.
Lemma find_by_no_keeps no : keeps RJ (find_by_no no).
Proof. intros r w x r' w' [Hwf ?]. rewrite find_by_no_law by done. by intros [= <- <- <-]. Qed.
Lemma list_points_keeps i : keeps RJ (list_points i).
Proof.
  intros r w x r' w' Hwf. destruct (list_points_law i r w) as [l ->]. by intros [= <- <- <-].
Qed.
Lemma list_by_user_keeps u n : keeps RJ (list_by_user u n).
Proof.
  intros r w x r' w' Hwf. destruct (list_by_user_law u n r w) as (l & -> & _).
  by intros [= <- <- <-].
Qed.

Lemma now_unix_ok : keeps ctx_books now_unix.
Proof. apply on_world_ok. Qed.

#[local] Hint Resolve now_unix_ok find_or_create_keeps get_balance_keeps list_records_keeps
  get_for_update_keeps list_in_bounds_keeps update_status_keeps update_location_keeps
  insert_bike_keeps find_by_no_keeps list_points_keeps list_by_user_keeps
  on_users_ok on_accounts_ok on_sessions_ok on_bikes_ok on_rides_ok on_world_ok
  safe_lift : safety.

(** Walk through a handler: one goal per operation and branch. *)
Ltac walk :=
  repeat first
    [ progress cbn [safe]
    | match goal with
      | |- forall _, _ => intro
      | |- _ /\ _ => split
      | |- True => exact I
      | |- safe _ (reply _ _) => apply safe_lift
      | |- safe _ (lift _) => apply safe_lift
      | |- safe _ (pbind (lift _) _) => apply safe_lift_bind
      | |- safe _ (pbind _ _) => apply safe_bind
      | |- safe _ (match ?x with _ => _ end) => destruct x eqn:?
      | |- safe _ (let _ := _ in _) => cbv zeta
      | |- keeps _ _ => solve [auto with safety]
      end ].

Lemma require_user_safe t : safe ctx_books (require_user t).
Proof. unfold require_user. walk. Qed.
#[local] Hint Resolve require_user_safe : safety.

Lemma insert_retry_safe n la lo : safe ctx_books (insert_retry n la lo).
Proof. induction n as [|n IH]; cbn [insert_retry]; walk; apply IH. Qed.

Lemma spawn_bikes_safe la lo r n : safe ctx_books (spawn_bikes la lo r n).
Proof.
  induction n as [|n IH]; cbn [spawn_bikes]; walk; try apply insert_retry_safe; apply IH.
Qed.

Lemma mobile_code_safe p : safe ctx_books (mobile_code p).
Proof. unfold mobile_code. walk. Qed.
Lemma login_safe p : safe ctx_books (login p).
Proof. unfold login. walk. Qed.
Lemma account_balance_safe p : safe ctx_books (account_balance p).
Proof. unfold account_balance. walk. Qed.
Lemma list_records_safe p : safe ctx_books (list_records p).
Proof. unfold list_records. walk. Qed.
Lemma report_damage_safe p : safe ctx_books (report_damage p).
Proof. unfold report_damage. walk; apply require_user_safe. Qed.
Lemma get_ride_detail_safe p : safe ctx_books (get_ride_detail p).
Proof. unfold get_ride_detail. walk; apply require_user_safe. Qed.
Lemma list_rides_safe p : safe ctx_books (list_rides p).
Proof. unfold list_rides. walk; apply require_user_safe. Qed.
Lemma list_nearby_bikes_safe p : safe ctx_books (list_nearby_bikes p).
Proof.
  unfold list_nearby_bikes. walk; first [apply require_user_safe | apply spawn_bikes_safe].
Qed.

Lemma recharge_safe p : safe ctx_books (recharge p).
Proof.
  unfold recharge. walk. apply on_accounts_ok, recharge_keeps.
  match goal with H : pb_parse p = Some _ |- _ => apply parsed_amount, in_int_iff in H end. blia.
Qed.

Lemma position_report_safe p : safe ctx_books (position_report p).
Proof.
  unfold position_report. walk. apply on_ride_sessions_ok. intros m. apply update_pos_keeps.
Qed.

Lemma scan_unlock_safe p : safe ctx_books (scan_unlock p).
Proof.
  unfold scan_unlock. walk; try apply require_user_safe.
  apply on_ride_sessions_ok. intros m Hm. apply rs_create_keeps; [|done].
  split; [constructor|]. split; [simpl; unfold kMaxPoints; lia | done].
Qed.

Lemma end_ride_safe p : safe ctx_books (end_ride p).
Proof.
  unfold end_ride. walk; try apply require_user_safe.
  - apply on_ride_sessions_ok. by intros m.
  - match goal with H : int_neg _ = Ok _ |- _ => unfold int_neg, int_checked in H end.
    destruct (in_int _) eqn:Hn; [|done]. simplify_eq.
    apply on_accounts_ok. by eapply charge_keeps.
  - apply on_ride_sessions_ok. intros m. apply rs_remove_keeps.
Qed.

(** ** The router *)

(** The handler of a request event; responses have none. *)
Definition handler_of (e : Event) : option (list byte -> prog C (list byte)) :=
  match e with
  | MobileRequest => Some mobile_code
  | LoginRequest => Some login
  | RechargeRequest => Some recharge
  | AccountBalanceRequest => Some account_balance
  | ListAccountRecordsRequest => Some list_records
  | ListNearbyBikesRequest => Some list_nearby_bikes
  | ScanUnlockRequest => Some scan_unlock
  | RidePositionReport => Some position_report
  | EndRideRequest => Some end_ride
  | ReportDamageRequest => Some report_damage
  | GetRideDetailRequest => Some get_ride_detail
  | ListRidesRequest => Some list_rides
  | _ => None
  end.

Definition router : gmap Z (list byte -> prog C (list byte)) := register_all_handlers ∅.

Lemma router_lookup e : router !! event_id e = handler_of e.
Proof. by destruct e. Qed.

Lemma router_lookup_inv eid h :
  router !! eid = Some h -> exists e, eid = event_id e /\ handler_of e = Some h.
Proof.
  unfold router, register_all_handlers, register_handler.
  repeat (rewrite lookup_insert_Some; intros [[<- <-]|[_ Hl]]; [eexists; split; reflexivity | revert Hl]).
  by rewrite lookup_empty.
Qed.

Lemma dispatch_safe eid p : safe ctx_books (dispatch router eid p).
Proof.
  unfold dispatch. destruct (router !! eid) as [h|] eqn:E; [|exact I].
  apply router_lookup_inv in E as (e & _ & He).
  destruct e; simplify_eq He; intros <-; first
    [ apply mobile_code_safe | apply login_safe | apply recharge_safe | apply account_balance_safe
    | apply list_records_safe | apply list_nearby_bikes_safe | apply scan_unlock_safe
    | apply position_report_safe | apply end_ride_safe | apply report_damage_safe
    | apply get_ride_detail_safe | apply list_rides_safe ].
Qed.

(** The pool of business threads serving a list of requests. *)
Definition serve (reqs : list (Z * list byte)) : list (prog C (list byte)) :=
  (fun q => dispatch router (fst q) (snd q)) <$> reqs.

Lemma serve_keeps_books reqs c w p :
  ctx_books c -> pool_steps (mkPool (serve reqs) c w) p -> ctx_books (p_state p).
Proof.
  intros Hc Hst. eapply pool_safe; [exact Hst | | exact Hc].
  apply Forall_fmap, Forall_forall. intros [eid pl] _. apply dispatch_safe.
Qed.
End Books.

(** the router registered by [register_all_handlers] sends each of the
    twelve request events to its own handler; any other event id, a response
    id included, gets an empty reply and touches nothing. *)
Theorem router_dispatch :
  (forall e h payload, handler_of e = Some h -> dispatch router (event_id e) payload = h payload)
  /\ (forall eid payload c w, (forall e, handler_of e <> None -> eid <> event_id e) ->
       run (dispatch router eid payload) c w = (Ok [], c, w)).
Proof.
  unfold dispatch. split.
  - intros e h payload He. by rewrite router_lookup, He.
  - intros eid payload c w Hn. destruct (router !! eid) as [h|] eqn:E; [|done].
    apply router_lookup_inv in E as (e & -> & He). exfalso. apply (Hn e); congruence.
Qed.
End Safety.

Lemma ctx0_ok : ctx_ok ctx0.
Proof.
  split; simpl.
  - split; simpl.
    + intros m u. rewrite lookup_insert_Some. intros [[<- <-]|[_ H]]; [simpl; split; [done|lia]|].
      apply lookup_singleton_Some in H as [<- <-]. simpl. split; [done|lia].
    + intros m1 m2 u1 u2. rewrite !lookup_insert_Some, !lookup_singleton_Some.
      by intros [[<- <-]|[_ [<- <-]]] [[<- <-]|[_ [<- <-]]].
  - split; intros uid.
    + destruct (decide (uid = 1)) as [->|]; [by vm_compute|].
      destruct (decide (uid = 2)) as [->|]; [by vm_compute|].
      simpl. rewrite !lookup_insert_ne, !lookup_singleton_ne by done. done.
    + destruct (decide (uid = 1)) as [->|]; [by vm_compute|].
      destruct (decide (uid = 2)) as [->|]; [by vm_compute|].
      simpl. rewrite !lookup_insert_ne, !lookup_singleton_ne by done. by vm_compute.
  - split; simpl.
    + intros no b. rewrite lookup_insert_Some. intros [[<- <-]|[_ H]]; [simpl; split; [done|lia]|].
      apply lookup_singleton_Some in H as [<- <-]. simpl. split; [done|lia].
    + intros n1 n2 b1 b2. rewrite !lookup_insert_Some, !lookup_singleton_Some.
      by intros [[<- <-]|[_ [<- <-]]] [[<- <-]|[_ [<- <-]]].
  - split; simpl; intros *; by rewrite lookup_empty.
  - intros k s. simpl. by rewrite lookup_empty.
Qed.

(** ** The books of the in-memory server *)

(** A recorded movement is a positive recharge or a fee of the tariff. *)
Definition lawful (r : AccountRecord) : Prop :=
  (ar_type r = record_type_code Recharge /\ 0 < ar_amount r)
  \/ (ar_type r = record_type_code Consume /\ exists d, compute_fee d = Ok (- ar_amount r)).
(** A stored ride lasts from its start to its end and costs the tariff's fee. *)
Definition billed (r : Ride) : Prop :=
  r_duration_sec r = ride_duration (r_start_ts r) (r_end_ts r)
  /\ compute_fee (r_duration_sec r) = Ok (r_amount_cent r).

Definition ledger (a : InMemoryAccountRepo) (uid : Z) : list AccountRecord :=
  default [] (records_ a !! uid).

(** The ledgers hold lawful movements only and have grown from those of [a0]. *)
Definition acct_books (a0 a : InMemoryAccountRepo) : Prop :=
  forall uid, Forall lawful (ledger a uid) /\ ledger a0 uid `prefix_of` ledger a uid.
(** The stored rides are billed, and those of [r0] are still there. *)
Definition ride_books (r0 r : InMemoryRideRepo) : Prop :=
  map_Forall (fun _ => billed) (rides_ r) /\ rides_ r0 ⊆ rides_ r.

Lemma mem_add_balance_books a0 uid ty amt :
  in_int amt = true ->
  (forall b t, lawful (mkAccountRecord (record_type_code ty) amt b t)) ->
  keeps (fun a => mem_acct_wf a /\ acct_books a0 a) (mem_add_balance uid ty amt).
Proof.
  intros Hi Hl a w r a' w' [Hwf Hb] E. split; [by eapply mem_add_balance_wf|].
  rewrite mem_add_balance_eq in E. destruct (in_int (_ + _)); [|by injection E as <- <- <-].
  destruct (_ && _); injection E as <- <- <-; [done|]. intros v. unfold ledger. simpl.
  destruct (decide (v = uid)) as [->|]; [|rewrite lookup_insert_ne by done; apply Hb].
  rewrite lookup_insert_eq. simpl. destruct (Hb uid) as [H1 H2]. split.
  - apply Forall_app. split; [exact H1|]. apply Forall_singleton, Hl.
  - by apply prefix_app_r.
Qed.

Lemma mem_create_books r0 ci :
  ci_duration_sec ci = ride_duration (ci_start_ts ci) (ci_end_ts ci) ->
  compute_fee (ci_duration_sec ci) = Ok (ci_amount_cent ci) ->
  keeps (fun r => mem_ride_wf r /\ ride_books r0 r) (mem_create_with_points ci).
Proof.
  intros Hd Hf r w x r' w' [Hwf [Hb Hs]] E. split; [by eapply mem_create_wf|].
  unfold mem_create_with_points, int_add, int_checked in E.
  destruct (in_int _); injection E as <- <- <-; [|done]. simpl.
  assert (Hfresh : rides_ r !! r_next_id_ r = None).
  { destruct (rides_ r !! r_next_id_ r) as [rd|] eqn:Er; [|done].
    apply Hwf in Er as (_ & Hlt & _). lia. }
  split.
  - by apply map_Forall_insert_2.
  - etrans; [exact Hs | by apply insert_subseteq].
Qed.

(** Everything the server's objects hold. *)
Definition server_books (c : MemCtx) : Prop :=
  ctx_ok c /\ (forall uid, Forall lawful (ledger (accounts c) uid))
  /\ map_Forall (fun _ => billed) (rides_ (rides c)).

Section MemorySafety.
Context {pb : Pb} {pb_laws : PbLaws} {libm : Libm} {std_sort : StdSort}.

(** C3: on the in-memory repositories, whatever requests arrive and however
    their handlers interleave, as long as no thread has run into undefined
    behaviour: ids stay unique and every ride session holds strictly increasing
    sequence numbers and at most 3600 points; a ledger is only ever appended
    to, and every movement in it is a positive recharge or a fee of the tariff;
    every balance is the sum of its ledger, not negative and at most INT_MAX; a
    stored ride never changes and its price is the tariff's fee for its
    duration. *)
Theorem server_invariant reqs (c : MemCtx) w p :
  server_books c -> pool_steps (mkPool (serve reqs) c w) p -> pool_defined p = true ->
  let c' := p_state p in
  server_books c'
  /\ (forall uid, let b := default 0 (bal_ (accounts c') !! uid) in
        b = ledger_total (ledger (accounts c') uid) /\ 0 <= b <= INT_MAX
        /\ ledger (accounts c) uid `prefix_of` ledger (accounts c') uid)
  /\ rides_ (rides c) ⊆ rides_ (rides c').
Proof.
  intros (Hc & Ha & Hr) Hst _ c'.
  assert (Hb : ctx_books (acct_books (accounts c)) (ride_books (rides c)) c').
  { eapply serve_keeps_books; [..|exact Hst].
    - intros uid amt Hamt. apply mem_add_balance_books; [apply in_int_iff; unfold INT_MIN; lia|].
      intros b t. left. split; [done|]. simpl. lia.
    - intros uid d fee Hf Hi. apply mem_add_balance_books; [done|]. intros b t. right.
      split; [done|]. exists d. simpl. by rewrite Z.opp_involutive.
    - intros ci. apply mem_create_books.
    - split; [done | by split | by split]. }
  destruct Hb as [Hok Hab [Hrb Hrs]].
  split; [split; [done|]; split; [|done]; intros uid; apply Hab|]. split; [|done].
  intros uid b. pose proof (ok_accounts _ Hok) as [H1 H2].
  split; [apply H1|]. split; [apply H2 | apply Hab].
Qed.
End MemorySafety.

Lemma ctx0_books : server_books ctx0.
Proof.
  split; [apply ctx0_ok|]. split; [|intros i r; simpl; by rewrite lookup_empty].
  assert (H : Forall lawful [mkAccountRecord 1 500 500 0]).
  { apply Forall_singleton. left. split; [done|]. simpl. lia. }
  intros uid. unfold ledger. simpl.
  destruct (decide (uid = 1)) as [->|]; [exact H|].
  destruct (decide (uid = 2)) as [->|]; [exact H|].
  rewrite lookup_insert_ne, lookup_singleton_ne by done. constructor.
Qed.

Lemma server_invariant_witness :
  let p := schedule [1; 0; 0; 1; 0; 1; 0]%nat
       (mkPool (serve [(event_id ScanUnlockRequest, [x01]); (event_id RechargeRequest, [x02])])
          ctx0 world1) in
  default 0 (bal_ (accounts (p_state p)) !! 2) = 1000
  /\ ledger (accounts ctx0) 2 `prefix_of` ledger (accounts (p_state p)) 2.
Proof.
  intros p. destruct (server_invariant
    [(event_id ScanUnlockRequest, [x01]); (event_id RechargeRequest, [x02])] ctx0 world1 p)
    as (_ & Hb & _).
  - exact ctx0_books.
  - apply schedule_steps.
  - vm_compute. reflexivity.
  - split; [vm_compute; reflexivity | apply (Hb 2)].
Defined.

Lemma router_dispatch_witness :
  dispatch (router (U := InMemoryUserRepo) (A := InMemoryAccountRepo) (T := InMemorySessionStore)
              (B := InMemoryBikeRepo) (R := InMemoryRideRepo)) (event_id LoginRequest) [x01]
  = login [x01].
Proof. apply (proj1 router_dispatch LoginRequest login [x01]). reflexivity. Defined.

(** ** What the locking does not give

    A handler takes several locks one after the other, so its check and its
    update are separate steps. *)

(** Thread 0 and thread 1 both pass the status check before either marks the
    bike as rented. *)
Definition unlock_race : Pool MemCtx (list byte) :=
  schedule [0; 0; 1; 1; 0; 1; 0; 0; 0; 0; 0; 0; 0; 1; 1; 1; 1; 1; 1; 1]%nat
    (mkPool [scan_unlock [x01]; scan_unlock [x02]] ctx0 world1).

(** two users who scan the same idle bike at the same time can both be
    told that they unlocked it: there is an interleaving of two [scan_unlock]
    requests after which both replies are Ok and only one ride session exists
    (run one after the other, the second is refused with BikeIsRunning). *)
Theorem scan_unlock_race :
  (pool_steps (mkPool [scan_unlock [x01]; scan_unlock [x02]] ctx0 world1) unlock_race
    /\ p_threads unlock_race
       = [Ret (frame_of ScanUnlockResponse ErrOk); Ret (frame_of ScanUnlockResponse ErrOk)]
    /\ size (ride_sessions (p_state unlock_race)) = 1%nat)
  /\ let '(r1, c1, w1) := run (scan_unlock [x01]) ctx0 world1 in
     let '(r2, _, _) := run (scan_unlock [x02]) c1 w1 in
     r1 = Ok (frame_of ScanUnlockResponse ErrOk) /\ r2 = Ok (frame_of ScanUnlockResponse BikeIsRunning).
Proof.
  split.
  - split; [apply schedule_steps|]. split; vm_compute; reflexivity.
  - vm_compute. split; reflexivity.
Qed.

(** The state after user 1 has unlocked bike B1. *)
Definition riding : MemCtx := snd (fst (run (scan_unlock [x01]) ctx0 world1)).

(** two simultaneous [end_ride] requests for the same ride can both be
    charged: in one interleaving both replies are Ok and the rider pays the
    fee of 100 cents twice; one after the other, the second reply is the
    recorded result and nothing more is paid. *)
Theorem end_ride_race :
  (exists p, pool_steps (mkPool [end_ride [x01]; end_ride [x01]] riding world1) p
    /\ p_threads p = [Ret (frame_of EndRideResponse ErrOk); Ret (frame_of EndRideResponse ErrOk)]
    /\ bal (accounts riding) 1 = 500 /\ bal (accounts (p_state p)) 1 = 300)
  /\ let '(r1, c1, w1) := run (end_ride [x01]) riding world1 in
     let '(r2, c2, _) := run (end_ride [x01]) c1 w1 in
     r1 = Ok (frame_of EndRideResponse ErrOk) /\ r2 = Ok (frame_of EndRideResponse ErrOk)
     /\ bal (accounts c1) 1 = 400 /\ bal (accounts c2) 1 = 400.
Proof.
  split.
  - exists (schedule [0; 0; 1; 1; 0; 1; 0; 0; 0; 0; 0; 0; 0; 0; 1; 1; 1; 1; 1; 1; 1; 1]%nat
              (mkPool [end_ride [x01]; end_ride [x01]] riding world1)).
    split; [apply schedule_steps|]. split; [vm_compute; reflexivity|].
    split; vm_compute; reflexivity.
  - vm_compute. repeat split; reflexivity.
Qed.
