(* ===== verification/HandlerSteps.v ===== *)
(** * Running a handler step by step

    Lemmas and tactics that follow one request through its handler, for any
    repositories: authentication needs the laws of the user repository and the
    session store only.  [end_ride_to_charge] runs end_ride up to the charge,
    whatever the account repository does then. *)

From S2P Require Import Prelude Protocol Double Common Calendar Repo Messages Prog Handlers.
Open Scope prog_scope.

Section Stepping.
Context {St : Type}.
Implicit Types (c : St) (w : World).

Lemma run_act {X Y} (a : op St Y) (k : Y -> prog St X) c w y c' w' :
  a c w = (Ok y, c', w') -> run (Act a k) c w = run (k y) c' w'.
Proof. intros E. simpl. by rewrite E. Qed.

Lemma run_let {X Y} (p : prog St Y) (k : Y -> prog St X) c w y c' w' :
  run p c w = (Ok y, c', w') -> run (pbind p k) c w = run (k y) c' w'.
Proof. intros E. by rewrite run_bind, E. Qed.

Lemma run_let_lift {X Y} (r : result Y) (k : Y -> prog St X) c w y :
  r = Ok y -> run (pbind (lift r) k) c w = run (k y) c w.
Proof. by intros ->. Qed.

End Stepping.

(** Perform the next operation, whose effect [t] proves. *)
Tactic Notation "act" tactic3(t) := erewrite run_act by t; cbv beta iota.
Tactic Notation "bind" tactic3(t) := erewrite run_let by t; cbv beta iota.
Tactic Notation "pure" tactic3(t) := erewrite run_let_lift by t; cbv beta iota.

Section Steps.
Context {U A T B R : Type}.
Context `{!IUserRepo U, !IAccountRepo A, !ISessionStore T, !IBikeRepo B, !IRideRepo R}.
Context `{!UserLaws U, !SessionLaws T}.
Context {pb : Pb} {libm : Libm} {std_sort : StdSort}.
Abbreviation C := (Ctx U A T B R).
Implicit Types (c : C) (w : World).

Definition with_users u (c : C) : C :=
  mkCtx u (accounts c) (sessions c) (bikes c) (rides c) (ride_sessions c).
Definition with_accounts a (c : C) : C :=
  mkCtx (users c) a (sessions c) (bikes c) (rides c) (ride_sessions c).
Definition with_sessions s (c : C) : C :=
  mkCtx (users c) (accounts c) s (bikes c) (rides c) (ride_sessions c).
Definition with_bikes b (c : C) : C :=
  mkCtx (users c) (accounts c) (sessions c) b (rides c) (ride_sessions c).
Definition with_rides r (c : C) : C :=
  mkCtx (users c) (accounts c) (sessions c) (bikes c) r (ride_sessions c).
Definition with_ride_sessions m (c : C) : C :=
  mkCtx (users c) (accounts c) (sessions c) (bikes c) (rides c) m.

Lemma on_users_eq {X} (o : op U X) c w r u w' :
  o (users c) w = (r, u, w') -> on_users o c w = (r, with_users u c, w').
Proof. intros E. unfold on_users. by rewrite E. Qed.
Lemma on_accounts_eq {X} (o : op A X) c w r a w' :
  o (accounts c) w = (r, a, w') -> on_accounts o c w = (r, with_accounts a c, w').
Proof. intros E. unfold on_accounts. by rewrite E. Qed.
Lemma on_sessions_eq {X} (o : op T X) c w r s w' :
  o (sessions c) w = (r, s, w') -> on_sessions o c w = (r, with_sessions s c, w').
Proof. intros E. unfold on_sessions. by rewrite E. Qed.
Lemma on_bikes_eq {X} (o : op B X) c w r b w' :
  o (bikes c) w = (r, b, w') -> on_bikes o c w = (r, with_bikes b c, w').
Proof. intros E. unfold on_bikes. by rewrite E. Qed.
Lemma on_rides_eq {X} (o : op R X) c w r d w' :
  o (rides c) w = (r, d, w') -> on_rides o c w = (r, with_rides d c, w').
Proof. intros E. unfold on_rides. by rewrite E. Qed.

Lemma with_users_id c : with_users (users c) c = c.
Proof. by destruct c. Qed.
Lemma with_accounts_id c : with_accounts (accounts c) c = c.
Proof. by destruct c. Qed.
Lemma with_sessions_id c : with_sessions (sessions c) c = c.
Proof. by destruct c. Qed.
Lemma with_bikes_id c : with_bikes (bikes c) c = c.
Proof. by destruct c. Qed.
Lemma with_rides_id c : with_rides (rides c) c = c.
Proof. by destruct c. Qed.
Lemma with_ride_sessions_id c : with_ride_sessions (ride_sessions c) c = c.
Proof. by destruct c. Qed.

Lemma rs_find_at no c w :
  on_ride_sessions (fun m => (rs_find no m, m)) c w = (Ok (ride_sessions c !! no), c, w).
Proof. unfold on_ride_sessions. by destruct c. Qed.
Lemma now_unix_at c w :
  now_unix c w = (Ok (fst (read_unix w)), c, snd (read_unix w)).
Proof. done. Qed.

(** The reply of a handler, as bytes or as the exception [encode] throws on
    an oversized message. *)
Definition frame {M} `{!PbResponse M} (ev : Event) (rsp : M) : result (list byte) :=
  encode (mkFrame (event_id ev) 0 (pb_serialize rsp)).

Lemma run_reply {M} `{!PbResponse M} ev (rsp : M) (c : C) w :
  run (reply ev rsp) c w = (frame ev rsp, c, w).
Proof. apply run_lift. Qed.

(** ** Authentication *)

(** The token belongs to a live session of user [uid]. *)
Definition authenticated (c : C) (w : World) (token : string) (uid : Z) : Prop :=
  exists m, session_of (sessions c) w token = Some m /\ uid_of (users c) m = Some uid.

Lemma lookup_session_found t m c w :
  session_of (sessions c) w t = Some m ->
  exists w', on_sessions (lookup_session t) c w = (Ok (Some m), c, w') /\ same_unix w w'.
Proof.
  intros Hs. destruct (lookup_session_law t (sessions c) w) as (s' & w' & E & Hu & Hsame).
  rewrite Hs in *. exists w'. split; [|done].
  erewrite on_sessions_eq by exact E. rewrite Hsame by done. by rewrite with_sessions_id.
Qed.

Lemma lookup_session_gone t c w :
  session_of (sessions c) w t = None ->
  exists s' w', on_sessions (lookup_session t) c w = (Ok None, with_sessions s' c, w').
Proof.
  intros Hs. destruct (lookup_session_law t (sessions c) w) as (s' & w' & E & _).
  rewrite Hs in E. exists s', w'. by erewrite on_sessions_eq by exact E.
Qed.

Lemma require_user_known t uid c w :
  user_wf (users c) -> authenticated c w t uid ->
  exists w', run (require_user t) c w = (Ok (Some uid), c, w') /\ same_unix w w'.
Proof.
  intros Hc (m & Hs & Hm). destruct (lookup_session_found t m c w Hs) as (w' & E & Hu).
  exists w'. split; [|done]. unfold require_user. act (exact E).
  act (erewrite on_users_eq by (apply find_known; [exact Hc | exact Hm]); by rewrite with_users_id).
  done.
Qed.

Lemma require_user_none t c w :
  session_of (sessions c) w t = None ->
  exists s' w', run (require_user t) c w = (Ok None, with_sessions s' c, w').
Proof.
  intros Hs. destruct (lookup_session_gone t c w Hs) as (s' & w' & E).
  exists s', w'. unfold require_user. act (exact E). done.
Qed.

(** ** The charge *)

Lemma ride_duration_range a b : 0 <= ride_duration a b <= INT_MAX.
Proof.
  unfold ride_duration, INT_MAX. pose proof (i32_range (b - a)).
  destruct (Z.ltb_spec (i32 (b - a)) 0); lia.
Qed.

(** The figures of a ride ended now: duration, fee, track and distance. *)
Definition fee (s : RideSession) (t : Z) : Z := tariff (ride_duration (s_start_ts s) t).

Lemma fee_range s t : 100 <= fee s t <= INT_MAX.
Proof.
  unfold fee. split; [apply tariff_pos | apply tariff_int, ride_duration_range].
Qed.

Lemma fee_computed s t : compute_fee (ride_duration (s_start_ts s) t) = Ok (fee s t).
Proof. apply compute_fee_tariff, ride_duration_range. Qed.

Lemma fee_neg s t : int_neg (fee s t) = Ok (- fee s t).
Proof.
  apply int_checked_ok. pose proof (fee_range s t). unfold INT_MIN, INT_MAX in *. lia.
Qed.

Definition coords_ok (req : end_ride_request) : bool :=
  valid_lat (erreq_end_lat req) && valid_lng (erreq_end_lng req).

Lemma coords_guard req :
  coords_ok req = true ->
  negb (valid_lat (erreq_end_lat req)) || negb (valid_lng (erreq_end_lng req)) = false.
Proof. unfold coords_ok. by intros [-> ->]%andb_true_iff. Qed.

(** The second half of [end_ride], once the charge went through: the ride is
    recorded, the bike parked and the session closed. *)
Definition settle (req : end_ride_request) (s : RideSession) (t : Z) (pts : list RidePoint)
    (new_bal : Z) : prog C (list byte) :=
  let! distance := lift (d_to_int (path_m d_zero pts)) in
  let dur := ride_duration (s_start_ts s) t in
  do! _ := on_rides (create_with_points
             (mkCreateRide (s_ride_no s) (s_user_id s) (s_bike_id s) (s_start_ts s) t
                (s_start_lat s) (s_start_lng s) (erreq_end_lat req) (erreq_end_lng req)
                dur distance (fee s t) pts)) in
  do! _ := on_bikes (update_location (s_bike_id s) (erreq_end_lat req) (erreq_end_lng req)) in
  do! _ := on_bikes (update_status (s_bike_id s) Idle) in
  do! _ := on_ride_sessions (rs_remove (s_ride_no s)) in
  reply EndRideResponse (mk_end_ride_response 200 (to_string ErrOk) dur distance
                           (fee s t) new_bal).

(** The first half of [end_ride], up to the charge. *)
Lemma end_ride_to_charge p req c w uid s pts :
  user_wf (users c) -> pb_parse p = Some req -> authenticated c w (erreq_session_token req) uid ->
  coords_ok req = true ->
  ride_sessions c !! erreq_ride_no req = Some s -> s_user_id s = uid ->
  let t := w_unix w (w_unix_n w) in
  let dur := ride_duration (s_start_ts s) t in
  ride_points s (erreq_end_lat req) (erreq_end_lng req) dur = Ok pts ->
  exists w1, same_unix (snd (read_unix w)) w1 /\
    run (end_ride p) c w =
    run (do! new_bal := on_accounts (add_balance uid Consume (- fee s t)) in
         if new_bal <? 0
         then reply EndRideResponse (mk_end_ride_response 406 "余额不足" 0 0 0 0)
         else settle req s t pts new_bal) c w1.
Proof.
  intros Hc Hp Ha Hin Hs Hu t dur Hpts.
  destruct (require_user_known _ _ _ _ Hc Ha) as (w1 & E1 & Huw).
  exists (snd (read_unix w1)). split.
  { destruct Huw as [H1 H2]. split; simpl; by rewrite ?H1, ?H2. }
  unfold end_ride. rewrite Hp. cbv zeta. bind (exact E1). rewrite coords_guard by done.
  act (apply rs_find_at). rewrite Hs, <- Hu, Z.eqb_refl. cbv beta iota delta [negb].
  act (apply now_unix_at). rewrite (same_unix_read _ _ Huw). fold t. fold t dur.
  pure (apply fee_computed). pure (exact Hpts). pure (apply fee_neg). reflexivity.
Qed.

(** What [settle] leaves of the rides and the bikes. *)
Record settled `{!BikeLaws B, !RideLaws R} (req : end_ride_request) (s : RideSession) (t dist : Z)
    (pts : list RidePoint) (r : R) (b : B) (r' : R) (b' : B) : Prop := {
  sd_recorded : exists rd, ride_of r' (erreq_ride_no req) = Some rd
    /\ r_no rd = erreq_ride_no req
    /\ r_user_id rd = s_user_id s /\ r_bike_id rd = s_bike_id s
    /\ r_start_ts rd = s_start_ts s /\ r_end_ts rd = t
    /\ r_duration_sec rd = ride_duration (s_start_ts s) t
    /\ r_amount_cent rd = fee s t /\ r_distance_m rd = dist
    /\ forall w, list_points (r_id rd) r' w = (Ok pts, r', w);
  sd_others no : no <> erreq_ride_no req -> ride_of r' no = ride_of r no;
  sd_bikes no : bike_of b' no
    = on_id (s_bike_id s)
        (fun b => set_status Idle (set_location (erreq_end_lat req) (erreq_end_lng req) b))
      <$> bike_of b no;
  sd_rides_wf : ride_wf r';
  sd_bikes_wf : bike_wf b'
}.

Lemma bikes_parked `{!BikeLaws B} i la lo c w :
  bike_wf (bikes c) ->
  exists ok1 ok2 b1 b2,
    on_bikes (update_location i la lo) c w = (Ok ok1, with_bikes b1 c, w)
    /\ on_bikes (update_status i Idle) (with_bikes b1 c) w = (Ok ok2, with_bikes b2 c, w)
    /\ bike_wf b2
    /\ forall no, bike_of b2 no
         = on_id i (fun bk => set_status Idle (set_location la lo bk)) <$> bike_of (bikes c) no.
Proof.
  intros Hc. destruct (update_location_law i la lo (bikes c) w Hc) as (ok1 & b1 & E1 & W1 & M1).
  destruct (update_status_law i Idle b1 w W1) as (ok2 & b2 & E2 & W2 & M2).
  exists ok1, ok2, b1, b2. split; [by apply on_bikes_eq|].
  split; [by apply (on_bikes_eq _ (with_bikes b1 c))|].
  split; [done|]. intros no. rewrite M2, M1.
  destruct (bike_of (bikes c) no) as [bk|]; [|done]. simpl. unfold on_id.
  destruct (b_id bk =? i) eqn:E; simpl; by rewrite E.
Qed.

Lemma settle_done `{!BikeLaws B, !RideLaws R} req s t pts nb dist c w :
  bike_wf (bikes c) -> ride_wf (rides c) -> ride_room (rides c) ->
  s_ride_no s = erreq_ride_no req -> d_to_int (path_m d_zero pts) = Ok dist ->
  exists r' b',
    run (settle req s t pts nb) c w
    = (frame EndRideResponse (mk_end_ride_response 200 (to_string ErrOk)
         (ride_duration (s_start_ts s) t) dist (fee s t) nb),
       with_ride_sessions (delete (erreq_ride_no req) (ride_sessions c))
         (with_bikes b' (with_rides r' c)), w)
    /\ settled req s t dist pts (rides c) (bikes c) r' b'.
Proof.
  intros Hb Hr Hroom Hno Hdist. unfold settle. pure (exact Hdist). rewrite Hno.
  match goal with |- context [create_with_points ?ci] => set (input := ci) end.
  destruct (create_law input (rides c) w Hr Hroom) as (i & r' & Er & Hr1 & Hr2 & Hr3).
  act (apply on_rides_eq, Er).
  destruct (bikes_parked (s_bike_id s) (erreq_end_lat req) (erreq_end_lng req) (with_rides r' c) w Hb)
    as (ok1 & ok2 & b1 & b2 & E1 & E2 & Hwf & Hbm).
  act (exact E1). act (exact E2). erewrite run_act by reflexivity. cbv beta iota.
  exists r', b2. split; [apply run_reply|]. split; try done.
  - eexists. split; [exact Hr1|]. cbn [input r_no r_user_id r_bike_id r_start_ts r_end_ts
      r_duration_sec r_amount_cent r_distance_m r_id]. repeat split; done.
  - eapply create_keeps; [exact Hr | exact Er].
Qed.

End Steps.
