(* ===== verification/HandlerProps.v ===== *)
(** * What each request does

    The functional behaviour of the handlers, proved against the interface
    laws of Repo.v, so for every repository that meets them.  A request runs
    alone here; ServerSafety.v treats interleaving. *)

From S2P Require Import Prelude Protocol Double Common Calendar Repo Messages Prog Handlers.
From S2P Require Import InMemory Scenario ServerSafety HandlerSteps.
Open Scope prog_scope.

Section Behaviour.
Context {U A T B R : Type}.
Context `{!IUserRepo U, !IAccountRepo A, !ISessionStore T, !IBikeRepo B, !IRideRepo R}.
Context `{!UserLaws U, !AccountLaws A, !SessionLaws T, !BikeLaws B, !RideLaws R}.
Context {pb : Pb} {pb_laws : PbLaws} {libm : Libm} {std_sort : StdSort}.
Abbreviation C := (Ctx U A T B R).
Implicit Types (c : C) (w : World).

(** Reading operations at the level of the context. *)
Lemma get_balance_at uid c w :
  ctx_ok c -> on_accounts (get_balance uid) c w = (Ok (bal (accounts c) uid), c, w).
Proof.
  intros Hc. erewrite on_accounts_eq by (apply get_balance_law, Hc). by rewrite with_accounts_id.
Qed.
Lemma get_for_update_at no c w :
  on_bikes (get_for_update no) c w = (Ok (bike_of (bikes c) no), c, w).
Proof. erewrite on_bikes_eq by apply get_for_update_law. by rewrite with_bikes_id. Qed.
Lemma find_by_no_at no c w :
  ctx_ok c -> on_rides (find_by_no no) c w = (Ok (ride_of (rides c) no), c, w).
Proof.
  intros Hc. erewrite on_rides_eq by (apply find_by_no_law, Hc). by rewrite with_rides_id.
Qed.
Lemma find_known_at m i c w :
  ctx_ok c -> uid_of (users c) m = Some i ->
  on_users (find_or_create m) c w = (Ok (mkUser i m), c, w).
Proof.
  intros Hc Hm. erewrite on_users_eq by (apply find_known; [apply Hc | exact Hm]).
  by rewrite with_users_id.
Qed.

Lemma require_user_ok t uid c w :
  ctx_ok c -> authenticated c w t uid ->
  exists w', run (require_user t) c w = (Ok (Some uid), c, w') /\ same_unix w w'.
Proof. intros Hc. by apply require_user_known, Hc. Qed.

(** *** Without a session *)

Ltac refuse_login :=
  intros; match goal with
  | Hp : pb_parse _ = Some _, Hs : session_of _ _ _ = None |- _ =>
      rewrite Hp; cbv zeta;
      first [ destruct (require_user_none _ _ _ Hs) as (s' & w' & E); exists s', w';
              bind (exact E)
            | destruct (lookup_session_gone _ _ _ Hs) as (s' & w' & E); exists s', w';
              act (exact E) ];
      apply run_reply
  end.

Lemma account_balance_401 p req c w :
  pb_parse p = Some req -> session_of (sessions c) w (abreq_session_token req) = None ->
  exists s w', run (account_balance p) c w
    = (frame AccountBalanceResponse (mk_account_balance_response 401 0), with_sessions s c, w').
Proof. unfold account_balance. refuse_login. Qed.
Lemma list_records_401 p req c w :
  pb_parse p = Some req -> session_of (sessions c) w (larq_session_token req) = None ->
  exists s w', run (list_records p) c w
    = (frame ListAccountRecordsResponse (mk_list_account_records_response 401 []),
       with_sessions s c, w').
Proof. unfold list_records. refuse_login. Qed.
Lemma list_nearby_bikes_401 p req c w :
  pb_parse p = Some req -> session_of (sessions c) w (nbreq_session_token req) = None ->
  exists s w', run (list_nearby_bikes p) c w
    = (frame ListNearbyBikesResponse (mk_list_nearby_bikes_response 401 []), with_sessions s c, w').
Proof. unfold list_nearby_bikes. refuse_login. Qed.
Lemma scan_unlock_401 p req c w :
  pb_parse p = Some req -> session_of (sessions c) w (sureq_session_token req) = None ->
  exists s w', run (scan_unlock p) c w
    = (frame ScanUnlockResponse (mk_scan_unlock_response 401 (to_string Unauthorized) "" 0),
       with_sessions s c, w').
Proof. unfold scan_unlock. refuse_login. Qed.
Lemma end_ride_401 p req c w :
  pb_parse p = Some req -> session_of (sessions c) w (erreq_session_token req) = None ->
  exists s w', run (end_ride p) c w
    = (frame EndRideResponse (mk_end_ride_response 401 (to_string Unauthorized) 0 0 0 0),
       with_sessions s c, w').
Proof. unfold end_ride. refuse_login. Qed.
Lemma report_damage_401 p req c w :
  pb_parse p = Some req -> session_of (sessions c) w (rdreq_session_token req) = None ->
  exists s w', run (report_damage p) c w
    = (frame ReportDamageResponse (mk_report_damage_response 401 (to_string Unauthorized)),
       with_sessions s c, w').
Proof. unfold report_damage. refuse_login. Qed.
Lemma get_ride_detail_401 p req c w :
  pb_parse p = Some req -> session_of (sessions c) w (gdreq_session_token req) = None ->
  exists s w', run (get_ride_detail p) c w
    = (frame GetRideDetailResponse (mk_get_ride_detail_response 401 "" 0 0 0 "" "" []),
       with_sessions s c, w').
Proof. unfold get_ride_detail. refuse_login. Qed.
Lemma list_rides_401 p req c w :
  pb_parse p = Some req -> session_of (sessions c) w (lrreq_session_token req) = None ->
  exists s w', run (list_rides p) c w
    = (frame ListRidesResponse (mk_list_rides_response 401 []), with_sessions s c, w').
Proof. unfold list_rides. refuse_login. Qed.
Lemma recharge_401 p req c w :
  pb_parse p = Some req -> session_of (sessions c) w (rreq_session_token req) = None ->
  0 < rreq_amount req ->
  exists s w', run (recharge p) c w
    = (frame RechargeResponse (mk_recharge_response 401 0 (to_string Unauthorized)),
       with_sessions s c, w').
Proof.
  intros Hp Hs Ha. unfold recharge. rewrite Hp. cbv zeta.
  destruct (Z.leb_spec (rreq_amount req) 0); [lia|].
  destruct (lookup_session_gone _ _ _ Hs) as (s' & w' & E). exists s', w'.
  act (exact E). apply run_reply.
Qed.

(** C40: every handler that acts for a user answers a request whose token has
    no live session with code 401 and touches nothing but the session store
    (which may forget an expired session): no balance, bike, ride or ride
    session changes, whatever else the request says. *)
Theorem unauthorized_refused c w t :
  session_of (sessions c) w t = None ->
  (forall p n, 0 < n -> pb_parse p = Some (mk_recharge_request t n) ->
     exists s w', run (recharge p) c w
       = (frame RechargeResponse (mk_recharge_response 401 0 (to_string Unauthorized)),
          with_sessions s c, w'))
  /\ (forall p, pb_parse p = Some (mk_account_balance_request t) ->
     exists s w', run (account_balance p) c w
       = (frame AccountBalanceResponse (mk_account_balance_response 401 0), with_sessions s c, w'))
  /\ (forall p, pb_parse p = Some (mk_list_account_records_request t) ->
     exists s w', run (list_records p) c w
       = (frame ListAccountRecordsResponse (mk_list_account_records_response 401 []),
          with_sessions s c, w'))
  /\ (forall p la lo r, pb_parse p = Some (mk_list_nearby_bikes_request t la lo r) ->
     exists s w', run (list_nearby_bikes p) c w
       = (frame ListNearbyBikesResponse (mk_list_nearby_bikes_response 401 []),
          with_sessions s c, w'))
  /\ (forall p no la lo, pb_parse p = Some (mk_scan_unlock_request t no la lo) ->
     exists s w', run (scan_unlock p) c w
       = (frame ScanUnlockResponse (mk_scan_unlock_response 401 (to_string Unauthorized) "" 0),
          with_sessions s c, w'))
  /\ (forall p no la lo, pb_parse p = Some (mk_end_ride_request t no la lo) ->
     exists s w', run (end_ride p) c w
       = (frame EndRideResponse (mk_end_ride_response 401 (to_string Unauthorized) 0 0 0 0),
          with_sessions s c, w'))
  /\ (forall p no note, pb_parse p = Some (mk_report_damage_request t no note) ->
     exists s w', run (report_damage p) c w
       = (frame ReportDamageResponse (mk_report_damage_response 401 (to_string Unauthorized)),
          with_sessions s c, w'))
  /\ (forall p no, pb_parse p = Some (mk_get_ride_detail_request t no) ->
     exists s w', run (get_ride_detail p) c w
       = (frame GetRideDetailResponse (mk_get_ride_detail_response 401 "" 0 0 0 "" "" []),
          with_sessions s c, w'))
  /\ (forall p n, pb_parse p = Some (mk_list_rides_request t n) ->
     exists s w', run (list_rides p) c w
       = (frame ListRidesResponse (mk_list_rides_response 401 []), with_sessions s c, w')).
Proof.
  intros Hs. repeat split; intros.
  - by eapply recharge_401.
  - by eapply account_balance_401.
  - by eapply list_records_401.
  - by eapply list_nearby_bikes_401.
  - by eapply scan_unlock_401.
  - by eapply end_ride_401.
  - by eapply report_damage_401.
  - by eapply get_ride_detail_401.
  - by eapply list_rides_401.
Qed.

(** ** Unlocking *)

(** A status change by id is a change of the one bike with that number. *)
Lemma update_status_at st no bk c w :
  ctx_ok c -> bike_of (bikes c) no = Some bk ->
  exists ok b', on_bikes (update_status (b_id bk) st) c w = (Ok ok, with_bikes b' c, w)
    /\ ctx_ok (with_bikes b' c)
    /\ bike_of b' no = Some (set_status st bk)
    /\ forall no', no' <> no -> bike_of b' no' = bike_of (bikes c) no'.
Proof.
  intros Hc Hb. destruct (update_status_law (b_id bk) st (bikes c) w) as (ok & b' & E & Hwf & Hm);
    [apply Hc|].
  exists ok, b'. split; [by apply on_bikes_eq|]. split; [by destruct Hc; split|]. split.
  - rewrite Hm, Hb. simpl. unfold on_id. by rewrite Z.eqb_refl.
  - intros no' Hn. rewrite Hm. destruct (bike_of (bikes c) no') as [bk'|] eqn:E'; [|done].
    simpl. unfold on_id. destruct (Z.eqb_spec (b_id bk') (b_id bk)); [|done].
    exfalso. apply Hn. eapply bike_of_id; [apply Hc | exact E' | exact Hb | done].
Qed.

Definition unlock_input_ok (req : scan_unlock_request) : bool :=
  valid_bike_no (sureq_bike_no req) && valid_lat (sureq_lat req) && valid_lng (sureq_lng req).

Lemma unlock_input_guard req :
  unlock_input_ok req = true ->
  negb (valid_bike_no (sureq_bike_no req)) || negb (valid_lat (sureq_lat req))
  || negb (valid_lng (sureq_lng req)) = false.
Proof.
  unfold unlock_input_ok. intros [[-> ->]%andb_true_iff ->]%andb_true_iff. reflexivity.
Qed.

(** The clock stays between 1970 and 9999. *)
Definition clock_ok w : Prop := forall k, 0 <= w_unix w k < unix_max.

Lemma clock_ok_same w w' : same_unix w w' -> clock_ok w -> clock_ok w'.
Proof. intros [Hu _] Hc k. rewrite Hu. apply Hc. Qed.

Lemma unlock_ride_no t1 t2 :
  0 <= t1 < unix_max -> 0 <= t2 < unix_max ->
  exists d no, today_yyyymmdd t2 = Ok d /\ make_ride_no d (i32 (Z.rem t1 999999 + 1)) = Ok no
    /\ String.length no = 15%nat.
Proof.
  intros H1 H2. destruct (today_yyyymmdd_ok t2 H2) as (d & Ed & Hd).
  pose proof (Z.rem_bound_pos t1 999999 ltac:(lia) ltac:(lia)) as Hr.
  destruct (make_ride_no_ok d (i32 (Z.rem t1 999999 + 1))) as (no & En & Hl & _).
  - lia.
  - rewrite i32_small; lia.
  - eauto.
Qed.

(** The state and reply of a successful unlock. *)
Definition new_session (req : scan_unlock_request) (uid : Z) (bk : Bike) (no : string) (ts : Z)
  : RideSession :=
  mkSession no uid (b_id bk) (sureq_lat req) (sureq_lng req) ts (sureq_lat req) (sureq_lng req) 0 [].

Lemma scan_unlock_done p req c w uid bk :
  ctx_ok c -> clock_ok w -> pb_parse p = Some req ->
  authenticated c w (sureq_session_token req) uid -> unlock_input_ok req = true ->
  bike_of (bikes c) (sureq_bike_no req) = Some bk -> b_status bk = Idle ->
  100 <= bal (accounts c) uid ->
  exists no b' w',
    let ts := w_unix w (2 + w_unix_n w)%nat in
    let c' := with_bikes b' (with_ride_sessions
                (<[no := new_session req uid bk no ts]> (ride_sessions c)) c) in
    run (scan_unlock p) c w
      = (frame ScanUnlockResponse (mk_scan_unlock_response 200 (to_string ErrOk) no ts), c', w')
    /\ ctx_ok c' /\ String.length no = 15%nat
    /\ bike_of b' (sureq_bike_no req) = Some (set_status Rented bk)
    /\ forall no', no' <> sureq_bike_no req -> bike_of b' no' = bike_of (bikes c) no'.
Proof.
  intros Hc Hclk Hp Ha Hin Hb Hst Hbal.
  destruct (require_user_ok _ _ _ _ Hc Ha) as (w1 & E1 & Hu).
  pose proof (clock_ok_same _ _ Hu Hclk) as Hclk1.
  destruct (unlock_ride_no (fst (read_unix w1)) (fst (read_unix (snd (read_unix w1)))))
    as (d & no & Ed & En & Hl); [apply Hclk1 | apply Hclk1 |].
  set (ts := w_unix w (2 + w_unix_n w)%nat).
  set (c1 := with_ride_sessions (<[no := new_session req uid bk no ts]> (ride_sessions c)) c).
  assert (Hc1 : ctx_ok c1).
  { destruct Hc. split; try done. apply (rs_create_keeps (new_session req uid bk no ts)); [|done].
    split; [constructor|]. split; [simpl; unfold kMaxPoints; lia | done]. }
  unfold scan_unlock. rewrite Hp. cbv zeta. bind (exact E1).
  rewrite unlock_input_guard by done. act (apply get_for_update_at). rewrite Hb, Hst.
  rewrite (bool_decide_eq_false_2 (Idle = Damaged)), (bool_decide_eq_false_2 (Idle = Rented)) by done.
  act (by apply get_balance_at). destruct (Z.ltb_spec (bal (accounts c) uid) 100); [lia|].
  act (apply now_unix_at). act (apply now_unix_at). pure (exact Ed). pure (exact En).
  act (apply now_unix_at).
  replace (fst (read_unix (snd (read_unix (snd (read_unix w1)))))) with ts
    by (destruct Hu as [H1' H2']; unfold ts; simpl; by rewrite H1', H2').
  fold (new_session req uid bk no ts).
  erewrite run_act by reflexivity. cbv beta iota.
  change (mkCtx _ _ _ _ _ _) with c1 at 1.
  destruct (update_status_at Rented (sureq_bike_no req) bk c1 (snd (read_unix (snd (read_unix (snd (read_unix w1)))))) Hc1 Hb)
    as (ok & b' & E2 & Hc2 & Hb1 & Hb2).
  act (exact E2). exists no, b'. eexists. cbv zeta. split; [apply run_reply|]. done.
Qed.

(** Why a well-formed unlock request is refused, in the handler's order. *)
Definition unlock_verdict (bike : option Bike) (balance : Z) : option (ErrCode * string) :=
  match bike with
  | None => Some (InvalidData, "车辆不存在")
  | Some bk =>
      match b_status bk with
      | Damaged => Some (BikeIsDamaged, to_string BikeIsDamaged)
      | Rented => Some (BikeIsRunning, to_string BikeIsRunning)
      | Idle => if balance <? 100 then Some (ProcessFailed, "余额不足") else None
      end
  end.

Lemma scan_unlock_refused p req c w uid ec desc :
  ctx_ok c -> pb_parse p = Some req -> authenticated c w (sureq_session_token req) uid ->
  (if unlock_input_ok req
   then unlock_verdict (bike_of (bikes c) (sureq_bike_no req)) (bal (accounts c) uid)
   else Some (InvalidData, to_string InvalidData)) = Some (ec, desc) ->
  exists w', run (scan_unlock p) c w
    = (frame ScanUnlockResponse (mk_scan_unlock_response (code ec) desc "" 0), c, w').
Proof.
  intros Hc Hp Ha Hv. destruct (require_user_ok _ _ _ _ Hc Ha) as (w1 & E1 & _).
  exists w1. unfold scan_unlock. rewrite Hp. cbv zeta. bind (exact E1).
  destruct (unlock_input_ok req) eqn:Hin.
  - rewrite unlock_input_guard by done. act (apply get_for_update_at). unfold unlock_verdict in Hv.
    destruct (bike_of (bikes c) (sureq_bike_no req)) as [bk|].
    + destruct (b_status bk); simpl in Hv.
      * rewrite (bool_decide_eq_false_2 (Idle = Damaged)), (bool_decide_eq_false_2 (Idle = Rented))
          by done.
        act (by apply get_balance_at).
        destruct (bal (accounts c) uid <? 100); [|done]. injection Hv as <- <-. apply run_reply.
      * injection Hv as <- <-. apply run_reply.
      * injection Hv as <- <-. apply run_reply.
    + injection Hv as <- <-. apply run_reply.
  - injection Hv as <- <-. unfold unlock_input_ok in Hin.
    rewrite <- !negb_andb, Hin. apply run_reply.
Qed.

(** C7: a well-formed unlock of an idle bike by a user with at least one yuan
    creates one ride session under a fresh 15-character number, marks exactly
    that bike as rented and reports the number and start time; balances,
    rides, users and all other bikes stay as they were. *)
Theorem scan_unlock_unlocks p req c w uid bk :
  ctx_ok c -> clock_ok w -> pb_parse p = Some req ->
  authenticated c w (sureq_session_token req) uid -> unlock_input_ok req = true ->
  bike_of (bikes c) (sureq_bike_no req) = Some bk ->
  unlock_verdict (Some bk) (bal (accounts c) uid) = None ->
  exists no c' w',
    let ts := w_unix w (2 + w_unix_n w)%nat in
    run (scan_unlock p) c w
      = (frame ScanUnlockResponse (mk_scan_unlock_response 200 (to_string ErrOk) no ts), c', w')
    /\ String.length no = 15%nat
    /\ ride_sessions c' = <[no := new_session req uid bk no ts]> (ride_sessions c)
    /\ bike_of (bikes c') (sureq_bike_no req) = Some (set_status Rented bk)
    /\ (forall no', no' <> sureq_bike_no req -> bike_of (bikes c') no' = bike_of (bikes c) no')
    /\ accounts c' = accounts c /\ rides c' = rides c /\ users c' = users c
    /\ unlock_verdict (bike_of (bikes c') (sureq_bike_no req)) (bal (accounts c') uid)
       = Some (BikeIsRunning, to_string BikeIsRunning).
Proof.
  intros Hc Hclk Hp Ha Hin Hb Hv. unfold unlock_verdict in Hv.
  destruct (b_status bk) eqn:Hst; try discriminate.
  destruct (Z.ltb_spec (bal (accounts c) uid) 100); [discriminate|].
  destruct (scan_unlock_done p req c w uid bk) as (no & b' & w' & E & _ & Hl & Hb1 & Hb2); try done.
  exists no. do 2 eexists. cbv zeta in *. split; [exact E|].
  split; [done|]. split; [done|]. split; [done|]. split; [done|].
  split; [done|]. split; [done|]. split; [done|]. simpl. by rewrite Hb1.
Qed.

(** an unlock request of an authenticated user that is malformed, names
    an unknown, damaged or rented bike, or comes from a user with less than
    one yuan, is answered with the corresponding code and changes nothing. *)
Theorem scan_unlock_refusals p req c w uid ec desc :
  ctx_ok c -> pb_parse p = Some req -> authenticated c w (sureq_session_token req) uid ->
  (if unlock_input_ok req
   then unlock_verdict (bike_of (bikes c) (sureq_bike_no req)) (bal (accounts c) uid)
   else Some (InvalidData, to_string InvalidData)) = Some (ec, desc) ->
  exists w', run (scan_unlock p) c w
    = (frame ScanUnlockResponse (mk_scan_unlock_response (code ec) desc "" 0), c, w').
Proof. apply scan_unlock_refused. Qed.

(** ** Ending a ride *)

(** What a completed ride leaves behind. *)
Record ride_ended (req : end_ride_request) (s : RideSession) (t dist : Z) (pts : list RidePoint)
    (c c' : C) : Prop := {
  re_ok : ctx_ok c';
  re_paid v : bal (accounts c') v
    = if decide (v = s_user_id s) then bal (accounts c) v - fee s t else bal (accounts c) v;
  re_closed : ride_sessions c' = delete (erreq_ride_no req) (ride_sessions c);
  re_recorded : exists rd, ride_of (rides c') (erreq_ride_no req) = Some rd
    /\ r_no rd = erreq_ride_no req
    /\ r_user_id rd = s_user_id s /\ r_bike_id rd = s_bike_id s
    /\ r_start_ts rd = s_start_ts s /\ r_end_ts rd = t
    /\ r_duration_sec rd = ride_duration (s_start_ts s) t
    /\ r_amount_cent rd = fee s t /\ r_distance_m rd = dist
    /\ forall w, list_points (r_id rd) (rides c') w = (Ok pts, rides c', w);
  re_others no : no <> erreq_ride_no req -> ride_of (rides c') no = ride_of (rides c) no;
  re_bikes no : bike_of (bikes c') no
    = on_id (s_bike_id s)
        (fun b => set_status Idle (set_location (erreq_end_lat req) (erreq_end_lng req) b))
      <$> bike_of (bikes c) no;
  re_users : users c' = users c;
  re_sessions : sessions c' = sessions c
}.

Lemma end_ride_done p req c w uid s pts dist :
  ctx_ok c -> pb_parse p = Some req -> authenticated c w (erreq_session_token req) uid ->
  coords_ok req = true ->
  ride_sessions c !! erreq_ride_no req = Some s -> s_user_id s = uid ->
  ride_room (rides c) ->
  let t := w_unix w (w_unix_n w) in
  let dur := ride_duration (s_start_ts s) t in
  ride_points s (erreq_end_lat req) (erreq_end_lng req) dur = Ok pts ->
  d_to_int (path_m d_zero pts) = Ok dist ->
  fee s t <= bal (accounts c) uid ->
  exists c' w', run (end_ride p) c w
    = (frame EndRideResponse (mk_end_ride_response 200 (to_string ErrOk) dur dist (fee s t)
                                (bal (accounts c) uid - fee s t)), c', w')
    /\ ride_ended req s t dist pts c c'.
Proof.
  intros Hc Hp Ha Hin Hs Hu Hroom t dur Hpts Hdist Hbal.
  destruct (end_ride_to_charge p req c w uid s pts) as (w1 & Hw1 & ->); try done; [apply Hc|].
  fold t dur. pose proof (fee_range s t) as Hfee.
  pose proof (bal_range (accounts c) uid (ok_accounts _ Hc)) as Hb.
  assert (Hno : s_ride_no s = erreq_ride_no req) by (by apply (ok_ride_sessions _ Hc)).
  destruct (add_balance_done uid Consume (- fee s t) (accounts c) w1) as (a' & w2 & Ea & Hbal');
    [apply Hc | lia | unfold INT_MIN, INT_MAX in *; lia |].
  act (apply on_accounts_eq, Ea).
  destruct (Z.ltb_spec (bal (accounts c) uid + - fee s t) 0); [lia|].
  destruct (settle_done req s t pts (bal (accounts c) uid + - fee s t) dist (with_accounts a' c) w2)
    as (r' & b' & E & [S1 S2 S3 S4 S5]); [apply Hc | apply Hc | done | done | done |].
  replace (bal (accounts c) uid + - fee s t) with (bal (accounts c) uid - fee s t) in * by lia.
  do 2 eexists. split; [exact E|]. split; simpl; try done.
  - destruct Hc as [H1 H2 H3 H4 H5]. split; try done; [|by apply rs_remove_keeps].
    eapply add_balance_keeps; [|exact H2|exact Ea].
    apply in_int_iff. unfold INT_MIN, INT_MAX in *. lia.
  - intros v. rewrite Hbal', Hu. destruct (decide (v = uid)) as [->|]; [lia|done].
Qed.

(** A ride that is no longer open is looked up. *)
Lemma end_ride_closed p req c w uid :
  ctx_ok c -> pb_parse p = Some req -> authenticated c w (erreq_session_token req) uid ->
  coords_ok req = true -> ride_sessions c !! erreq_ride_no req = None ->
  exists w', run (end_ride p) c w
    = (match ride_of (rides c) (erreq_ride_no req) with
       | None => frame EndRideResponse (mk_end_ride_response 404 "订单不存在" 0 0 0 0)
       | Some rd =>
           if r_user_id rd =? uid
           then frame EndRideResponse
                  (mk_end_ride_response 200 (to_string ErrOk) (r_duration_sec rd)
                     (r_distance_m rd) (r_amount_cent rd) (bal (accounts c) uid))
           else frame EndRideResponse (mk_end_ride_response 401 (to_string Unauthorized) 0 0 0 0)
       end, c, w').
Proof.
  intros Hc Hp Ha Hin Hs. destruct (require_user_ok _ _ _ _ Hc Ha) as (w1 & E1 & _).
  exists w1. unfold end_ride. rewrite Hp. cbv zeta. bind (exact E1). rewrite coords_guard by done.
  act (apply rs_find_at). rewrite Hs. act (by apply find_by_no_at).
  destruct (ride_of (rides c) (erreq_ride_no req)) as [rd|]; [|apply run_reply].
  destruct (r_user_id rd =? uid); simpl negb; cbv iota; [|apply run_reply].
  act (by apply get_balance_at). apply run_reply.
Qed.

Lemma end_ride_poor p req c w uid s pts :
  ctx_ok c -> pb_parse p = Some req -> authenticated c w (erreq_session_token req) uid ->
  coords_ok req = true ->
  ride_sessions c !! erreq_ride_no req = Some s -> s_user_id s = uid ->
  let t := w_unix w (w_unix_n w) in
  ride_points s (erreq_end_lat req) (erreq_end_lng req) (ride_duration (s_start_ts s) t) = Ok pts ->
  bal (accounts c) uid < fee s t ->
  exists w', run (end_ride p) c w
    = (frame EndRideResponse (mk_end_ride_response 406 "余额不足" 0 0 0 0), c, w').
Proof.
  intros Hc Hp Ha Hin Hs Hu t Hpts Hbal.
  destruct (end_ride_to_charge p req c w uid s pts) as (w1 & Hw1 & ->); try done; [apply Hc|].
  pose proof (fee_range s t). pose proof (bal_range (accounts c) uid (ok_accounts _ Hc)).
  assert (Ea : add_balance uid Consume (- fee s t) (accounts c) w1 = (Ok (-1), accounts c, w1)).
  { apply add_balance_refused; [apply Hc | unfold INT_MIN, INT_MAX in *; lia | lia]. }
  fold t. act (apply on_accounts_eq, Ea). rewrite with_accounts_id. exists w1. apply run_reply.
Qed.

Lemma end_ride_not_owner p req c w uid s :
  ctx_ok c -> pb_parse p = Some req -> authenticated c w (erreq_session_token req) uid ->
  coords_ok req = true ->
  ride_sessions c !! erreq_ride_no req = Some s -> s_user_id s <> uid ->
  exists w', run (end_ride p) c w
    = (frame EndRideResponse (mk_end_ride_response 401 (to_string Unauthorized) 0 0 0 0), c, w').
Proof.
  intros Hc Hp Ha Hin Hs Hu. destruct (require_user_ok _ _ _ _ Hc Ha) as (w1 & E1 & _).
  exists w1. unfold end_ride. rewrite Hp. cbv zeta. bind (exact E1). rewrite coords_guard by done.
  act (apply rs_find_at). rewrite Hs. rewrite (proj2 (Z.eqb_neq _ _) Hu). apply run_reply.
Qed.

(** The track is computed without overflow as long as the sequence number of
    the last report can still be incremented. *)
Lemma ride_points_ok s la lo d :
  INT_MIN <= s_last_seq s < INT_MAX ->
  exists pts, ride_points s la lo d = Ok pts
    /\ pts ≡ₚ mkPoint 0 (s_start_lat s) (s_start_lng s) 0
             :: s_points s ++ [mkPoint (s_last_seq s + 1) la lo d]
    /\ StronglySorted (fun a b => p_elapsed_sec a <= p_elapsed_sec b) pts.
Proof.
  intros H. unfold ride_points, int_add. rewrite int_checked_ok by lia. simpl.
  eexists. split; [reflexivity|]. split; [apply sort_points_perm | apply sort_points_sorted].
Qed.

(** C2: ending one's own open ride with enough money charges the tariff of
    the elapsed time exactly once: the balance drops by the fee and no other
    balance moves, the ride is recorded with duration, fee, distance and
    track, the bike is parked idle at the reported place, the session is
    closed, and every later [end_ride] for the same ride number returns the
    recorded figures and changes nothing. *)
Theorem end_ride_charges_once p req c w uid s dist :
  ctx_ok c -> pb_parse p = Some req -> authenticated c w (erreq_session_token req) uid ->
  coords_ok req = true ->
  ride_sessions c !! erreq_ride_no req = Some s -> s_user_id s = uid ->
  ride_room (rides c) -> INT_MIN <= s_last_seq s < INT_MAX ->
  let t := w_unix w (w_unix_n w) in
  let dur := ride_duration (s_start_ts s) t in
  (forall pts, ride_points s (erreq_end_lat req) (erreq_end_lng req) dur = Ok pts ->
     d_to_int (path_m d_zero pts) = Ok dist) ->
  fee s t <= bal (accounts c) uid ->
  exists pts c' w',
    pts ≡ₚ mkPoint 0 (s_start_lat s) (s_start_lng s) 0
           :: s_points s ++ [mkPoint (s_last_seq s + 1) (erreq_end_lat req) (erreq_end_lng req) dur]
    /\ StronglySorted (fun a b => p_elapsed_sec a <= p_elapsed_sec b) pts
    /\ run (end_ride p) c w
       = (frame EndRideResponse (mk_end_ride_response 200 (to_string ErrOk) dur dist (fee s t)
                                   (bal (accounts c) uid - fee s t)), c', w')
    /\ ride_ended req s t dist pts c c'
    /\ forall p2 w2, pb_parse p2 = Some req ->
         authenticated c' w2 (erreq_session_token req) uid ->
         exists w2', run (end_ride p2) c' w2
           = (frame EndRideResponse (mk_end_ride_response 200 (to_string ErrOk) dur dist (fee s t)
                                       (bal (accounts c) uid - fee s t)), c', w2').
Proof.
  intros Hc Hp Ha Hin Hs Hu Hroom Hseq t dur Hdist Hbal.
  destruct (ride_points_ok s (erreq_end_lat req) (erreq_end_lng req) dur Hseq)
    as (pts & Hpts & Hperm & Hsorted).
  destruct (end_ride_done p req c w uid s pts dist) as (c' & w' & E & He); auto.
  exists pts, c', w'. do 4 (split; [done|]).
  intros p2 w2 Hp2 Ha2. destruct (re_recorded _ _ _ _ _ _ _ He)
    as (rd & Hrd & _ & Hru & _ & _ & _ & Hd & Hamt & Hdi & _).
  destruct (end_ride_closed p2 req c' w2 uid) as (w2' & E2); try done.
  { apply He. }
  { rewrite (re_closed _ _ _ _ _ _ _ He). apply lookup_delete_eq. }
  exists w2'. rewrite E2, Hrd, Hru, Hu, Z.eqb_refl, Hd, Hamt, Hdi.
  rewrite (re_paid _ _ _ _ _ _ _ He uid), Hu, decide_True by done. reflexivity.
Qed.

(** an [end_ride] the balance does not cover is answered with 406 and one
    for somebody else's open ride with 401; neither changes anything: the
    ride stays open and nothing is charged. *)
Theorem end_ride_refusals p req c w uid s :
  ctx_ok c -> pb_parse p = Some req -> authenticated c w (erreq_session_token req) uid ->
  coords_ok req = true -> ride_sessions c !! erreq_ride_no req = Some s ->
  INT_MIN <= s_last_seq s < INT_MAX ->
  (s_user_id s = uid -> bal (accounts c) uid < fee s (w_unix w (w_unix_n w)) ->
     exists w', run (end_ride p) c w
       = (frame EndRideResponse (mk_end_ride_response 406 "余额不足" 0 0 0 0), c, w'))
  /\ (s_user_id s <> uid ->
     exists w', run (end_ride p) c w
       = (frame EndRideResponse (mk_end_ride_response 401 (to_string Unauthorized) 0 0 0 0), c, w')).
Proof.
  intros Hc Hp Ha Hin Hs Hseq. split.
  - intros Hu Hb.
    destruct (ride_points_ok s (erreq_end_lat req) (erreq_end_lng req)
                (ride_duration (s_start_ts s) (w_unix w (w_unix_n w))) Hseq) as (pts & Hpts & _).
    by eapply end_ride_poor.
  - intros Hu. by eapply end_ride_not_owner.
Qed.

(** ** Money in *)

Lemma recharge_done p req c w uid :
  ctx_ok c -> pb_parse p = Some req -> authenticated c w (rreq_session_token req) uid ->
  0 < rreq_amount req -> bal (accounts c) uid + rreq_amount req <= INT_MAX ->
  exists a' w', run (recharge p) c w
      = (frame RechargeResponse (mk_recharge_response 200
           (bal (accounts c) uid + rreq_amount req) (to_string ErrOk)), with_accounts a' c, w')
    /\ forall v, bal a' v = if decide (v = uid) then bal (accounts c) uid + rreq_amount req
                           else bal (accounts c) v.
Proof.
  intros Hc Hp (m & Hs & Hm) Hpos Hmax.
  destruct (lookup_session_found _ m c w Hs) as (w1 & E1 & _).
  pose proof (bal_range (accounts c) uid (ok_accounts _ Hc)).
  destruct (add_balance_done uid Recharge (rreq_amount req) (accounts c) w1) as (a' & w2 & Ea & Hb);
    [apply Hc | lia | unfold INT_MIN in *; lia |].
  exists a', w2. split; [|done]. unfold recharge. rewrite Hp. cbv zeta.
  destruct (Z.leb_spec (rreq_amount req) 0); [lia|].
  act (exact E1). act (by apply find_known_at). cbn [u_id].
  act (apply on_accounts_eq, Ea). apply run_reply.
Qed.

Lemma recharge_not_positive p req c w :
  pb_parse p = Some req -> rreq_amount req <= 0 ->
  run (recharge p) c w
    = (frame RechargeResponse (mk_recharge_response 404 0 (to_string InvalidData)), c, w).
Proof.
  intros Hp Hle. unfold recharge. rewrite Hp. cbv zeta.
  destruct (Z.leb_spec (rreq_amount req) 0); [|lia]. apply run_reply.
Qed.

(** a recharge by an authenticated user adds exactly the requested amount
    to that user's balance and reports the new balance, provided the sum fits
    an [int]; an amount that is not positive is refused with 404 and nothing
    changes, so a recharge can never lower a balance. *)
Theorem recharge_adds p req c w uid :
  ctx_ok c -> pb_parse p = Some req -> authenticated c w (rreq_session_token req) uid ->
  (0 < rreq_amount req -> bal (accounts c) uid + rreq_amount req <= INT_MAX ->
   exists a' w', run (recharge p) c w
      = (frame RechargeResponse (mk_recharge_response 200
           (bal (accounts c) uid + rreq_amount req) (to_string ErrOk)), with_accounts a' c, w')
     /\ forall v, bal a' v = if decide (v = uid) then bal (accounts c) uid + rreq_amount req
                            else bal (accounts c) v)
  /\ (rreq_amount req <= 0 ->
      run (recharge p) c w
        = (frame RechargeResponse (mk_recharge_response 404 0 (to_string InvalidData)), c, w)).
Proof.
  intros Hc Hp Ha. split; [by apply recharge_done | by apply recharge_not_positive].
Qed.

(** ** Logging in *)

Lemma login_bad_code p req c w :
  pb_parse p = Some req ->
  code_of (sessions c) w (lreq_mobile req) <> Some (lreq_icode req) ->
  exists s' w', run (login p) c w
    = (frame LoginResponse (mk_login_response 404 (to_string InvalidData) ""), with_sessions s' c, w').
Proof.
  intros Hp Hne. destruct (get_code_law (lreq_mobile req) (sessions c) w) as (s' & w' & E & _).
  exists s', w'. unfold login. rewrite Hp. cbv zeta. act (apply on_sessions_eq, E).
  destruct (code_of (sessions c) w (lreq_mobile req)) as [k|]; [|apply run_reply].
  destruct (Z.eqb_spec k (lreq_icode req)) as [->|]; [done|]. apply run_reply.
Qed.

Lemma login_good_code p req c w uid :
  ctx_ok c -> pb_parse p = Some req -> uid_of (users c) (lreq_mobile req) = Some uid ->
  code_of (sessions c) w (lreq_mobile req) = Some (lreq_icode req) ->
  exists token s' w', run (login p) c w
      = (frame LoginResponse (mk_login_response 200 (to_string ErrOk) token), with_sessions s' c, w')
    /\ forall w'', code_of s' w'' (lreq_mobile req) = None.
Proof.
  intros Hc Hp Hm Hcode.
  destruct (get_code_law (lreq_mobile req) (sessions c) w) as (s1 & w1 & E1 & _ & Hsame).
  rewrite Hcode in *. specialize (Hsame ltac:(done)). subst s1.
  destruct (delete_code_law (lreq_mobile req) (sessions c) w1) as (s2 & E2 & Hnone & _).
  destruct (create_session_law (lreq_mobile req) s2 w1) as (tok & s3 & w3 & E3 & _ & Hkeep).
  exists tok, s3, w3. split; [|intros w''; by rewrite Hkeep].
  unfold login. rewrite Hp. cbv zeta. act (apply on_sessions_eq, E1). rewrite with_sessions_id.
  rewrite Z.eqb_refl. cbv beta iota delta [negb].
  act (apply on_sessions_eq, E2).
  assert (Hc2 : ctx_ok (with_sessions s2 c)) by (destruct Hc; by split).
  act (by apply find_known_at). act (by apply get_balance_at).
  act (by apply (on_sessions_eq _ (with_sessions s2 c))). apply run_reply.
Qed.

(** a verification code opens exactly one session: a login with the code
    on file succeeds and deletes it, so the same login repeated at any later
    time is refused with 404 until a new code is requested; a login with any
    other code is refused, and a refused login changes nothing outside the
    session store. *)
Theorem login_code_single_use p req c w uid :
  ctx_ok c -> pb_parse p = Some req -> uid_of (users c) (lreq_mobile req) = Some uid ->
  (code_of (sessions c) w (lreq_mobile req) = Some (lreq_icode req) ->
   exists token s' w', run (login p) c w
      = (frame LoginResponse (mk_login_response 200 (to_string ErrOk) token), with_sessions s' c, w')
     /\ forall w2, exists s2 w2', run (login p) (with_sessions s' c) w2
      = (frame LoginResponse (mk_login_response 404 (to_string InvalidData) ""),
         with_sessions s2 c, w2'))
  /\ (code_of (sessions c) w (lreq_mobile req) <> Some (lreq_icode req) ->
   exists s' w', run (login p) c w
      = (frame LoginResponse (mk_login_response 404 (to_string InvalidData) ""),
         with_sessions s' c, w')).
Proof.
  intros Hc Hp Hm. split.
  - intros Hcode. destruct (login_good_code p req c w uid) as (tok & s' & w' & E & Hnone); try done.
    exists tok, s', w'. split; [done|]. intros w2.
    destruct (login_bad_code p req (with_sessions s' c) w2 Hp) as (s2 & w2' & E2).
    { simpl. by rewrite Hnone. }
    by exists s2, w2'.
  - intros Hne. by apply (login_bad_code p req).
Qed.

(** ** Damage reports *)

Lemma report_damage_done p req c w uid bk :
  ctx_ok c -> pb_parse p = Some req -> authenticated c w (rdreq_session_token req) uid ->
  valid_bike_no (rdreq_bike_no req) = true ->
  bike_of (bikes c) (rdreq_bike_no req) = Some bk ->
  exists b' w', run (report_damage p) c w
      = (frame ReportDamageResponse (mk_report_damage_response 200 (to_string ErrOk)),
         with_bikes b' c, w')
    /\ ctx_ok (with_bikes b' c)
    /\ bike_of b' (rdreq_bike_no req) = Some (set_status Damaged bk)
    /\ forall no, no <> rdreq_bike_no req -> bike_of b' no = bike_of (bikes c) no.
Proof.
  intros Hc Hp Ha Hno Hb. destruct (require_user_ok _ _ _ _ Hc Ha) as (w1 & E1 & _).
  destruct (update_status_at Damaged (rdreq_bike_no req) bk c w1 Hc Hb)
    as (ok & b' & E2 & Hc2 & Hb1 & Hb2).
  exists b', w1. split; [|done]. unfold report_damage. rewrite Hp. cbv zeta. bind (exact E1).
  rewrite Hno. cbv beta iota delta [negb].
  act (apply get_for_update_at). rewrite Hb. act (exact E2). apply run_reply.
Qed.

(** a damage report marks exactly the named bike as damaged, and from
    then on every unlock of it by any authenticated user is refused with
    BikeIsDamaged and changes nothing. *)
Theorem damaged_bike_locked p req c w uid bk p2 req2 w2 uid2 :
  ctx_ok c -> pb_parse p = Some req -> authenticated c w (rdreq_session_token req) uid ->
  bike_of (bikes c) (rdreq_bike_no req) = Some bk ->
  pb_parse p2 = Some req2 -> sureq_bike_no req2 = rdreq_bike_no req ->
  unlock_input_ok req2 = true -> authenticated c w2 (sureq_session_token req2) uid2 ->
  exists b' w' w2',
    let c' := with_bikes b' c in
    run (report_damage p) c w
      = (frame ReportDamageResponse (mk_report_damage_response 200 (to_string ErrOk)), c', w')
    /\ bike_of b' (rdreq_bike_no req) = Some (set_status Damaged bk)
    /\ (forall no, no <> rdreq_bike_no req -> bike_of b' no = bike_of (bikes c) no)
    /\ run (scan_unlock p2) c' w2
      = (frame ScanUnlockResponse (mk_scan_unlock_response 409 (to_string BikeIsDamaged) "" 0),
         c', w2').
Proof.
  intros Hc Hp Ha Hb Hp2 Hno Hin Ha2.
  assert (Hv : valid_bike_no (rdreq_bike_no req) = true).
  { rewrite <- Hno. unfold unlock_input_ok in Hin.
    by apply andb_true_iff in Hin as [[? _]%andb_true_iff _]. }
  destruct (report_damage_done p req c w uid bk) as (b' & w' & E & Hc' & Hb1 & Hb2); try done.
  destruct (scan_unlock_refused p2 req2 (with_bikes b' c) w2 uid2 BikeIsDamaged
              (to_string BikeIsDamaged)) as (w2' & E2); try done.
  { rewrite Hin, Hno. simpl. by rewrite Hb1. }
  by exists b', w', w2'.
Qed.

(** ** Reading rides *)

Lemma get_ride_detail_foreign p req c w uid rd :
  ctx_ok c -> pb_parse p = Some req -> authenticated c w (gdreq_session_token req) uid ->
  ride_of (rides c) (gdreq_ride_no req) = Some rd -> r_user_id rd <> uid ->
  exists w', run (get_ride_detail p) c w
    = (frame GetRideDetailResponse (mk_get_ride_detail_response 401 "" 0 0 0 "" "" []), c, w').
Proof.
  intros Hc Hp Ha Hr Hne. destruct (require_user_ok _ _ _ _ Hc Ha) as (w1 & E1 & _).
  exists w1. unfold get_ride_detail. rewrite Hp. cbv zeta. bind (exact E1).
  act (by apply find_by_no_at). rewrite Hr, (proj2 (Z.eqb_neq _ _) Hne). apply run_reply.
Qed.

Lemma list_rides_own p req c w uid :
  ctx_ok c -> pb_parse p = Some req -> authenticated c w (lrreq_session_token req) uid ->
  exists l w', Forall (fun rd => r_user_id rd = uid) l /\
    run (list_rides p) c w
    = (match summaries l with
       | Ok out => frame ListRidesResponse (mk_list_rides_response 200 out)
       | Err e => Err e
       end, c, w').
Proof.
  intros Hc Hp Ha. destruct (require_user_ok _ _ _ _ Hc Ha) as (w1 & E1 & _).
  destruct (list_by_user_law uid (clamp_limit (lrreq_limit req)) (rides c) w1) as (l & El & Hl).
  exists l, w1. split; [done|]. unfold list_rides. rewrite Hp. cbv zeta. bind (exact E1).
  act (apply on_rides_eq, El). rewrite with_rides_id, run_bind, run_lift.
  destruct (summaries l); [apply run_reply | done].
Qed.

(** rides are private: [get_ride_detail] answers a request for another
    user's ride with 401 and an empty body, and [list_rides] summarises only
    rides of the caller; neither changes anything. *)
Theorem rides_private c w uid :
  ctx_ok c ->
  (forall p t no rd, pb_parse p = Some (mk_get_ride_detail_request t no) ->
     authenticated c w t uid -> ride_of (rides c) no = Some rd -> r_user_id rd <> uid ->
     exists w', run (get_ride_detail p) c w
       = (frame GetRideDetailResponse (mk_get_ride_detail_response 401 "" 0 0 0 "" "" []), c, w'))
  /\ (forall p t n, pb_parse p = Some (mk_list_rides_request t n) -> authenticated c w t uid ->
     exists l w', Forall (fun rd => r_user_id rd = uid) l /\
       run (list_rides p) c w
       = (match summaries l with
          | Ok out => frame ListRidesResponse (mk_list_rides_response 200 out)
          | Err e => Err e
          end, c, w')).
Proof.
  intros Hc. split; intros.
  - by eapply (get_ride_detail_foreign p (mk_get_ride_detail_request t no)).
  - by eapply (list_rides_own p (mk_list_rides_request t n)).
Qed.

(** ** Nearby bikes *)

(** The repository only gained bikes. *)
Definition bikes_grow (b b' : B) : Prop :=
  forall no old, bike_of b no = Some old -> bike_of b' no = Some old.

Lemma insert_retry_spec n la lo : forall c w r c' w',
  ctx_ok c -> run (insert_retry n la lo) c w = (r, c', w') ->
  exists b', c' = with_bikes b' c /\ ctx_ok c' /\ bikes_grow (bikes c) b'.
Proof.
  induction n as [|n IH]; intros c w r c' w' Hc; cbn [insert_retry].
  - intros [= <- <- <-]. exists (bikes c). rewrite with_bikes_id.
    split; [done|]. split; [done|]. by intros no old.
  - cbn [run]. unfold on_world at 1. destruct (make_dyn_bike_no w) as [no w1].
    destruct (insert_bike (mkBike 0 no la lo Idle) (bikes c) w1) as [[r1 b1] w2] eqn:E1.
    rewrite (on_bikes_eq _ _ _ _ _ _ E1).
    assert (Hc1 : ctx_ok (with_bikes b1 c)).
    { destruct Hc as [H1 H2 H3 H4 H5]. split; try done. by eapply insert_bike_keeps. }
    assert (Hg : bikes_grow (bikes c) b1).
    { intros no' old. eapply insert_bike_new; [apply Hc | exact E1]. }
    destruct r1 as [[b|]|e].
    + intros [= <- <- <-]. by exists b1.
    + intros Er. destruct (IH _ _ _ _ _ Hc1 Er) as (b2 & -> & Hc2 & Hg2).
      exists b2. split; [done|]. split; [done|]. intros no' old Ho. by apply Hg2, Hg.
    + intros [= <- <- <-]. by exists b1.
Qed.

Lemma spawn_bikes_spec n la lo rad : forall c w r c' w',
  ctx_ok c -> run (spawn_bikes la lo rad n) c w = (r, c', w') ->
  (exists b', c' = with_bikes b' c /\ ctx_ok c' /\ bikes_grow (bikes c) b')
  /\ forall l, r = Ok l -> (length l <= n)%nat.
Proof.
  induction n as [|n IH]; intros c w r c' w' Hc; cbn [spawn_bikes].
  - intros [= <- <- <-]. split; [|by intros l [= <-]].
    exists (bikes c). rewrite with_bikes_id.
    split; [done|]. split; [done|]. by intros no old.
  - cbn [run]. unfold on_world at 1. destruct (random_offset la lo rad w) as [pos w1].
    rewrite run_bind.
    destruct (run (insert_retry kMaxNoRetry _ _) c w1) as [[r1 c1] w2] eqn:E1.
    destruct (insert_retry_spec _ _ _ _ _ _ _ _ Hc E1) as (b1 & -> & Hc1 & Hg1).
    destruct r1 as [ob|e]; [|intros [= <- <- <-]; split; [by exists b1 | done]].
    rewrite run_bind. destruct (run (spawn_bikes la lo rad n) _ w2) as [[r2 c2] w3] eqn:E2.
    destruct (IH _ _ _ _ _ Hc1 E2) as ((b2 & -> & Hc2 & Hg2) & Hl).
    assert (Hgrow : bikes_grow (bikes c) b2) by (intros no old Ho; by apply Hg2, Hg1).
    destruct r2 as [l2|e]; cbn [run]; intros [= <- <- <-].
    + split; [by exists b2|]. intros l [= <-]. specialize (Hl l2 eq_refl).
      destruct ob; simpl; lia.
    + split; [by exists b2 | done].
Qed.

Definition near_bikes (req : list_nearby_bikes_request) (l : list Bike) : list Bike :=
  List.filter (fun b => d_le (haversine_m (nbreq_lat req) (nbreq_lng req) (b_lat b) (b_lng b))
                          (clamp_radius (nbreq_radius_m req))) l.
(** The bounding box query for a request. *)
Definition box_query (req : list_nearby_bikes_request) : op B (list Bike) :=
  let r := clamp_radius (nbreq_radius_m req) in
  let dlat := d_div r (d_of_Z 111000) in
  let dlng := d_div r (d_mul (d_of_Z 111000)
                (m_cos (d_div (d_mul (nbreq_lat req) pi_short) (d_of_Z 180)))) in
  list_in_bounds (d_sub (nbreq_lat req) dlat) (d_add (nbreq_lat req) dlat)
                 (d_sub (nbreq_lng req) dlng) (d_add (nbreq_lng req) dlng).
Definition nearby_reply (l : list Bike) : list_nearby_bikes_response :=
  mk_list_nearby_bikes_response 200
    ((fun b => mk_bike_info (b_no b) (b_lat b) (b_lng b) (bike_status_code (b_status b))) <$> l).

Lemma list_nearby_spec p req c w uid :
  ctx_ok c -> pb_parse p = Some req -> authenticated c w (nbreq_session_token req) uid ->
  valid_lat (nbreq_lat req) = true -> valid_lng (nbreq_lng req) = true ->
  exists l w1, box_query req (bikes c) w1 = (Ok l, bikes c, w1) /\ (Z.of_nat (length (near_bikes req l)) <= INT_MAX ->
    exists b' w' r, run (list_nearby_bikes p) c w = (r, with_bikes b' c, w')
      /\ bikes_grow (bikes c) b'
      /\ if (5 <=? length (near_bikes req l))%nat
         then b' = bikes c /\ r = frame ListNearbyBikesResponse (nearby_reply (near_bikes req l))
         else (exists e, r = Err e)
              \/ exists spawned, (length (near_bikes req l ++ spawned) <= 12)%nat
                 /\ r = frame ListNearbyBikesResponse (nearby_reply (near_bikes req l ++ spawned))).
Proof.
  intros Hc Hp Ha Hla Hlo. destruct (require_user_ok _ _ _ _ Hc Ha) as (w1 & E1 & Hu).
  unfold list_nearby_bikes. rewrite Hp. cbv zeta. rewrite Hla, Hlo. cbv beta iota delta [negb orb].
  match goal with |- context [on_bikes ?o] => change o with (box_query req) end.
  assert (exists l, box_query req (bikes c) w1 = (Ok l, bikes c, w1)) as [l El]
    by apply list_in_bounds_law.
  exists l, w1. split; [done|]. intros Hlen. bind (exact E1).
  act (apply on_bikes_eq, El). rewrite with_bikes_id. fold (near_bikes req l).
  rewrite i32_small by (unfold INT_MAX in Hlen; lia).
  change kSpawnThreshold with 5. change kSpawnTarget with 12.
  destruct (Nat.leb_spec 5 (length (near_bikes req l))) as [H5|H5].
  - destruct (Z.ltb_spec (Z.of_nat (length (near_bikes req l))) 5); [lia|].
    exists (bikes c), w1. eexists. rewrite with_bikes_id. split; [apply run_reply|].
    split; [by intros no old | done].
  - destruct (Z.ltb_spec (Z.of_nat (length (near_bikes req l))) 5); [|lia].
    rewrite run_bind, run_bind.
    destruct (run (spawn_bikes _ _ _ _) c w1) as [[r2 c2] w2] eqn:E2.
    destruct (spawn_bikes_spec _ _ _ _ _ _ _ _ _ Hc E2) as ((b2 & -> & _ & Hg) & Hl).
    exists b2, w2. destruct r2 as [sp|e]; cbn [run].
    + rewrite run_reply. eexists. split; [reflexivity|]. split; [done|]. right. exists sp.
      specialize (Hl sp eq_refl). rewrite length_app. split; [lia|done].
    + eexists. split; [reflexivity|]. split; [done|]. by left; exists e.
Qed.

(** [list_nearby_bikes] never removes or alters a bike.  With five or
    more bikes within the radius it lists exactly those and changes nothing;
    with fewer it puts new idle bikes on the street, at most as many as bring
    the list to twelve, and lists old and new ones. *)
Theorem list_nearby_tops_up p req c w uid :
  ctx_ok c -> pb_parse p = Some req -> authenticated c w (nbreq_session_token req) uid ->
  valid_lat (nbreq_lat req) = true -> valid_lng (nbreq_lng req) = true ->
  exists l w1, box_query req (bikes c) w1 = (Ok l, bikes c, w1) /\ (Z.of_nat (length (near_bikes req l)) <= INT_MAX ->
    exists b' w' r, run (list_nearby_bikes p) c w = (r, with_bikes b' c, w')
      /\ bikes_grow (bikes c) b'
      /\ if (5 <=? length (near_bikes req l))%nat
         then b' = bikes c /\ r = frame ListNearbyBikesResponse (nearby_reply (near_bikes req l))
         else (exists e, r = Err e)
              \/ exists spawned, (length (near_bikes req l ++ spawned) <= 12)%nat
                 /\ r = frame ListNearbyBikesResponse (nearby_reply (near_bikes req l ++ spawned))).
Proof. apply list_nearby_spec. Qed.

End Behaviour.

(** ** The theorems on a concrete server *)

Lemma auth_t1 : authenticated ctx0 world1 "t1" 1.
Proof. exists "13800000001". split; reflexivity. Qed.

Lemma unauthorized_refused_witness :
  exists s w', run (end_ride [x07]) ctx0 world1
    = (frame EndRideResponse (mk_end_ride_response 401 (to_string Unauthorized) 0 0 0 0),
       with_sessions s ctx0, w').
Proof.
  destruct (unauthorized_refused ctx0 world1 "t3") as (_ & _ & _ & _ & _ & H & _);
    [vm_compute; reflexivity|].
  exact (H [x07] ride0 lat0 lng0 eq_refl).
Defined.

Lemma scan_unlock_unlocks_witness :
  exists no c' w', run (scan_unlock [x01]) ctx0 world1
    = (frame ScanUnlockResponse (mk_scan_unlock_response 200 (to_string ErrOk) no 1700000000), c', w')
    /\ String.length no = 15%nat.
Proof.
  destruct (scan_unlock_unlocks [x01] (mk_scan_unlock_request "t1" "B1" lat0 lng0) ctx0 world1 1
              (mkBike 1 "B1" lat0 lng0 Idle)) as (no & c' & w' & H & Hl & _).
  - apply ctx0_ok.
  - intros k. vm_compute. split; [discriminate | reflexivity].
  - reflexivity.
  - apply auth_t1.
  - vm_compute. reflexivity.
  - reflexivity.
  - reflexivity.
  - exists no, c', w'. split; [exact H | exact Hl].
Defined.

(** A bike somebody is riding. *)
Definition ctx_rented : MemCtx :=
  with_bikes (mkBikeRepo {[ "B1" := mkBike 1 "B1" lat0 lng0 Rented ]} 1000000) ctx0.
Lemma ctx_rented_ok : ctx_ok ctx_rented.
Proof.
  pose proof ctx0_ok as [H1 H2 _ H4 H5]. split; try done. split; simpl.
  - intros no b. rewrite lookup_singleton_Some. intros [<- <-]. simpl. split; [done|lia].
  - intros n1 n2 b1 b2. rewrite !lookup_singleton_Some. by intros [<- _] [<- _].
Qed.

Lemma scan_unlock_refusals_witness :
  exists w', run (scan_unlock [x01]) ctx_rented world1
    = (frame ScanUnlockResponse (mk_scan_unlock_response 408 (to_string BikeIsRunning) "" 0),
       ctx_rented, w').
Proof.
  apply (scan_unlock_refusals [x01] (mk_scan_unlock_request "t1" "B1" lat0 lng0) ctx_rented world1 1
           BikeIsRunning (to_string BikeIsRunning)).
  - apply ctx_rented_ok.
  - reflexivity.
  - apply auth_t1.
  - vm_compute. reflexivity.
Defined.

(** User 1 has been riding bike B1 for 20 minutes. *)
Definition session1 : RideSession :=
  mkSession ride0 1 1 lat0 lng0 1699998800 lat0 lng0 0 [].
Definition ctx_riding : MemCtx := with_ride_sessions {[ ride0 := session1 ]} ctx0.
Lemma ctx_riding_ok : ctx_ok ctx_riding.
Proof.
  pose proof ctx0_ok as [H1 H2 H3 H4 _]. split; try done. intros k s. simpl.
  rewrite lookup_singleton_Some. intros [<- <-]. split; [done|].
  split; [constructor|]. split; [simpl; unfold kMaxPoints; lia | done].
Qed.

Lemma end_ride_charges_once_witness :
  exists c' w', run (end_ride [x01]) ctx_riding world1
    = (frame EndRideResponse (mk_end_ride_response 200 (to_string ErrOk) 1200 0 150 350), c', w')
    /\ bal (accounts c') 1 = 350.
Proof.
  destruct (end_ride_charges_once [x01] (mk_end_ride_request "t1" ride0 lat0 lng0) ctx_riding world1
              1 session1 0) as (pts & c' & w' & _ & _ & H & He & _).
  - apply ctx_riding_ok.
  - reflexivity.
  - apply auth_t1.
  - vm_compute. reflexivity.
  - reflexivity.
  - reflexivity.
  - reflexivity.
  - vm_compute. split; [discriminate | reflexivity].
  - intros pts Hp. vm_compute in Hp. injection Hp as <-. vm_compute. reflexivity.
  - vm_compute. discriminate.
  - exists c', w'. split; [exact H|]. rewrite (re_paid _ _ _ _ _ _ _ He). vm_compute. reflexivity.
Defined.

(** The same ride, but user 1 has only one yuan left. *)
Definition ctx_poor : MemCtx :=
  with_accounts (mkAccountRepo {[ 1 := 100 ]} {[ 1 := [mkAccountRecord 1 100 100 0] ]}) ctx_riding.
Lemma ctx_poor_ok : ctx_ok ctx_poor.
Proof.
  pose proof ctx_riding_ok as [H1 _ H3 H4 H5]. split; try done.
  split; intros uid; (destruct (decide (uid = 1)) as [->|]; [by vm_compute|]);
    simpl; rewrite !lookup_singleton_ne by done; by vm_compute.
Qed.

Lemma end_ride_refusals_witness :
  exists w', run (end_ride [x01]) ctx_poor world1
    = (frame EndRideResponse (mk_end_ride_response 406 "余额不足" 0 0 0 0), ctx_poor, w').
Proof.
  apply (end_ride_refusals [x01] (mk_end_ride_request "t1" ride0 lat0 lng0) ctx_poor world1
           1 session1).
  - apply ctx_poor_ok.
  - reflexivity.
  - apply auth_t1.
  - vm_compute. reflexivity.
  - reflexivity.
  - vm_compute. split; [discriminate | reflexivity].
  - reflexivity.
  - vm_compute. reflexivity.
Defined.

Lemma recharge_adds_witness :
  exists a' w', run (recharge [x01]) ctx0 world1
    = (frame RechargeResponse (mk_recharge_response 200 1000 (to_string ErrOk)),
       with_accounts a' ctx0, w') /\ bal a' 1 = 1000.
Proof.
  destruct (recharge_adds [x01] (mk_recharge_request "t1" 500) ctx0 world1 1) as [H _].
  - apply ctx0_ok.
  - reflexivity.
  - apply auth_t1.
  - destruct H as (a' & w' & E & Hb); [vm_compute; reflexivity | vm_compute; discriminate |].
    exists a', w'. split; [exact E | exact (Hb 1)].
Defined.

Lemma login_code_single_use_witness :
  exists token s' w', run (login [x01]) ctx0 world1
    = (frame LoginResponse (mk_login_response 200 (to_string ErrOk) token), with_sessions s' ctx0, w').
Proof.
  destruct (login_code_single_use [x01] (mk_login_request "13800000001" 100000) ctx0 world1 1) as [H _].
  - apply ctx0_ok.
  - reflexivity.
  - reflexivity.
  - destruct (H eq_refl) as (tok & s' & w' & E & _). exists tok, s', w'. exact E.
Defined.

Lemma damaged_bike_locked_witness :
  exists b' w' w2',
    run (report_damage [x01]) ctx0 world1
      = (frame ReportDamageResponse (mk_report_damage_response 200 (to_string ErrOk)),
         with_bikes b' ctx0, w')
    /\ run (scan_unlock [x01]) (with_bikes b' ctx0) world1
      = (frame ScanUnlockResponse (mk_scan_unlock_response 409 (to_string BikeIsDamaged) "" 0),
         with_bikes b' ctx0, w2').
Proof.
  destruct (damaged_bike_locked [x01] (mk_report_damage_request "t1" "B1" "") ctx0 world1 1
              (mkBike 1 "B1" lat0 lng0 Idle) [x01] (mk_scan_unlock_request "t1" "B1" lat0 lng0)
              world1 1) as (b' & w' & w2' & H1 & _ & _ & H2).
  - apply ctx0_ok.
  - reflexivity.
  - apply auth_t1.
  - reflexivity.
  - reflexivity.
  - reflexivity.
  - vm_compute. reflexivity.
  - apply auth_t1.
  - exists b', w', w2'. split; [exact H1 | exact H2].
Defined.

Lemma rides_private_witness :
  exists l w', Forall (fun rd => r_user_id rd = 1) l /\
    run (list_rides [x01]) ctx0 world1
    = (match summaries l with
       | Ok out => frame ListRidesResponse (mk_list_rides_response 200 out)
       | Err e => Err e
       end, ctx0, w').
Proof.
  destruct (rides_private ctx0 world1 1 ctx0_ok) as [_ H].
  apply (H [x01] "t1" 20 eq_refl). apply auth_t1.
Defined.

Lemma list_nearby_tops_up_witness :
  exists l w1, box_query (mk_list_nearby_bikes_request "t1" lat0 lng0 (d_of_Z 500)) (bikes ctx0) w1
    = (Ok l, bikes ctx0, w1).
Proof.
  destruct (list_nearby_tops_up [x01] (mk_list_nearby_bikes_request "t1" lat0 lng0 (d_of_Z 500))
              ctx0 world1 1) as (l & w1 & H & _).
  - apply ctx0_ok.
  - reflexivity.
  - apply auth_t1.
  - vm_compute. reflexivity.
  - vm_compute. reflexivity.
  - exists l, w1. exact H.
Defined.

(** ** Behaviours worth knowing *)

Definition state_of {X} (r : result X * MemCtx * World) : MemCtx := snd (fst r).
Definition value_of {X} (r : result X * MemCtx * World) : result X := fst (fst r).

(** positions are not validated: after a position report whose latitude is
    NaN, [end_ride] deducts the fee and then converts a NaN distance to [int],
    which is undefined; the ride is neither recorded nor closed. *)
Theorem end_ride_nan_position :
  let c1 := state_of (run (position_report [x01]) ctx_riding world1) in
  let r2 := run (end_ride [x01]) c1 world1 in
  value_of r2 = Err (UndefinedBehaviour "float to int conversion")
  /\ bal (accounts c1) 1 = 500 /\ bal (accounts (state_of r2)) 1 = 350
  /\ ride_of (rides (state_of r2)) ride0 = None
  /\ is_Some (ride_sessions (state_of r2) !! ride0).
Proof.
  vm_compute. repeat split; try reflexivity. by eexists.
Qed.

(** a damage report made while the bike is on a ride is lost: [end_ride]
    sets the status to idle whatever it was, so the bike can be rented again. *)
Theorem damage_report_lost :
  let c1 := state_of (run (scan_unlock [x01]) ctx0 world1) in
  let c2 := state_of (run (report_damage [x02]) c1 world1) in
  let c3 := state_of (run (end_ride [x01]) c2 world1) in
  b_status <$> bike_of (bikes c1) "B1" = Some Rented
  /\ b_status <$> bike_of (bikes c2) "B1" = Some Damaged
  /\ b_status <$> bike_of (bikes c3) "B1" = Some Idle
  /\ value_of (run (scan_unlock [x02]) c3 world1) = Ok (frame_of ScanUnlockResponse ErrOk).
Proof. vm_compute. repeat split; reflexivity. Qed.

(** ride numbers are made from the clock alone: two users who unlock two
    different bikes within the same second get the same ride number, the
    second session replaces the first, and the first rider is afterwards
    refused (401) when ending the ride. *)
Theorem ride_no_collision :
  let r1 := run (scan_unlock [x01]) ctx0 world1 in
  let r2 := run (scan_unlock [x02; x00]) (state_of r1) world1 in
  value_of r1 = Ok (frame_of ScanUnlockResponse ErrOk)
  /\ value_of r2 = Ok (frame_of ScanUnlockResponse ErrOk)
  /\ s_user_id <$> ride_sessions (state_of r1) !! ride0 = Some 1
  /\ s_user_id <$> ride_sessions (state_of r2) !! ride0 = Some 2
  /\ value_of (run (end_ride [x01]) (state_of r2) world1) = Ok (frame_of EndRideResponse Unauthorized).
Proof. vm_compute. repeat split; reflexivity. Qed.
