(* ===== verification/Connection.v ===== *)
(** * Per-connection state of the gateway

    server/include/server/gateway/conn_context.hpp (class Connection),
    outbox_queue.hpp (OutboxQueue) and bike/ipc/reply_queue.hpp (ReplyQueue).
    The receive area is a storage vector of which the first [rx_len_] bytes
    are valid; the kernel writes behind them.  [rx_alloc_] stands for the
    address of the storage: growing the vector may move it and swapping it away
    replaces it, so both number a new allocation.  The theorems relate it to the
    byte string it stands for, and the send queue to the bytes still to be
    written. *)

From S2P Require Import Prelude Protocol.

Inductive ConnState : Type := Active | Parsing | Closing.
#[export] Instance ConnState_eq_dec : EqDecision ConnState.
Proof. solve_decision. Defined.

Record Connection : Type := mkConn {
  fd_ : Z;
  conn_id_ : Z;
  rx_alloc_ : nat;                (* which allocation holds the storage *)
  pending_ : list byte;           (* storage, fully allocated *)
  rx_len_ : nat;                  (* valid bytes at its front *)
  send_q_ : list (list byte);
  send_bytes_ : Z;                (* std::size_t *)
  send_active_ : bool;
  state : ConnState;
  pending_ops : Z;
  recv_op : option Z;             (* in-flight operations, by address *)
  send_op : option Z;
  last_active : Z
}.

(** [v.resize(n)]: truncate or extend with zero bytes. *)
Definition resize (v : list byte) (n : nat) : list byte :=
  take n v ++ replicate (n - length v) x00.

Definition new_conn (fd conn_id : Z) (rx_buf_bytes : nat) (now : Z) : Connection :=
  mkConn fd conn_id 0 (resize [] rx_buf_bytes) 0 [] 0 false Active 0 None None now.

Definition set_rx (c : Connection) (a : nat) (p : list byte) (n : nat) : Connection :=
  mkConn (fd_ c) (conn_id_ c) a p n (send_q_ c) (send_bytes_ c) (send_active_ c) (state c)
         (pending_ops c) (recv_op c) (send_op c) (last_active c).
Definition set_send (c : Connection) (q : list (list byte)) (n : Z) : Connection :=
  mkConn (fd_ c) (conn_id_ c) (rx_alloc_ c) (pending_ c) (rx_len_ c) q n (send_active_ c) (state c)
         (pending_ops c) (recv_op c) (send_op c) (last_active c).
Definition set_send_active (c : Connection) (v : bool) : Connection :=
  mkConn (fd_ c) (conn_id_ c) (rx_alloc_ c) (pending_ c) (rx_len_ c) (send_q_ c) (send_bytes_ c) v (state c)
         (pending_ops c) (recv_op c) (send_op c) (last_active c).
Definition set_state (c : Connection) (s : ConnState) : Connection :=
  mkConn (fd_ c) (conn_id_ c) (rx_alloc_ c) (pending_ c) (rx_len_ c) (send_q_ c) (send_bytes_ c) (send_active_ c)
         s (pending_ops c) (recv_op c) (send_op c) (last_active c).
Definition set_ops (c : Connection) (n : Z) (r s : option Z) : Connection :=
  mkConn (fd_ c) (conn_id_ c) (rx_alloc_ c) (pending_ c) (rx_len_ c) (send_q_ c) (send_bytes_ c) (send_active_ c)
         (state c) n r s (last_active c).
Definition set_last_active (c : Connection) (t : Z) : Connection :=
  mkConn (fd_ c) (conn_id_ c) (rx_alloc_ c) (pending_ c) (rx_len_ c) (send_q_ c) (send_bytes_ c) (send_active_ c)
         (state c) (pending_ops c) (recv_op c) (send_op c) t.

(** ** The receive area *)

Definition rx_prepare (spare : nat) (c : Connection) : Connection :=
  if (length (pending_ c) <? rx_len_ c + spare)%nat
  then set_rx c (S (rx_alloc_ c)) (resize (pending_ c) (rx_len_ c + spare)) (rx_len_ c)
  else c.

(** Length of the span [rx_writable()]. *)
Definition rx_writable_len (c : Connection) : nat := length (pending_ c) - rx_len_ c.

Definition rx_commit (n : nat) (c : Connection) : Connection :=
  set_rx c (rx_alloc_ c) (pending_ c) (rx_len_ c + n).

Definition rx_take (reserve_cap : nat) (c : Connection) : list byte * Connection :=
  (resize (pending_ c) (rx_len_ c), set_rx c (S (rx_alloc_ c)) (resize [] reserve_cap) 0).

Definition rx_feed (leftover : list byte) (c : Connection) : Connection :=
  let grow := (length (pending_ c) <? rx_len_ c + length leftover)%nat in
  let p := if grow then resize (pending_ c) (rx_len_ c + length leftover) else pending_ c in
  set_rx c (if grow then S (rx_alloc_ c) else rx_alloc_ c) (take (rx_len_ c) p ++ leftover ++ drop (rx_len_ c + length leftover) p)
         (rx_len_ c + length leftover).

(** The kernel stores [bs] at the start of the writable span. *)
Definition kernel_write (bs : list byte) (c : Connection) : Connection :=
  set_rx c (rx_alloc_ c) (take (rx_len_ c) (pending_ c) ++ bs ++ drop (rx_len_ c + length bs) (pending_ c))
         (rx_len_ c).

(** ** The send queue *)

Definition send_push (bytes : list byte) (c : Connection) : Connection :=
  set_send c (send_q_ c ++ [bytes]) (u64 (send_bytes_ c + size_of bytes)).
Definition send_pending (c : Connection) : bool :=
  match send_q_ c with [] => false | _ => true end.

(** [q] with its first [n] bytes removed, and the byte counter. *)
Fixpoint pop_loop (q : list (list byte)) (n : nat) (bytes : Z) : list (list byte) * Z :=
  match q with
  | [] => ([], bytes)
  | head :: q' =>
      if (0 <? n)%nat then
        if (n <? length head)%nat then (drop n head :: q', u64 (bytes - Z.of_nat n))
        else pop_loop q' (n - length head) (u64 (bytes - size_of head))
      else (q, bytes)
  end.
Definition send_pop (n : nat) (c : Connection) : Connection :=
  let '(q, b) := pop_loop (send_q_ c) n (send_bytes_ c) in set_send c q b.

(** ** What they stand for *)

(** Received bytes not yet handed to a worker, and bytes still to be sent. *)
Definition rx_content (c : Connection) : list byte := take (rx_len_ c) (pending_ c).
Definition send_content (c : Connection) : list byte := concat (send_q_ c).

(** The receive length is within the storage, the counter is the queue's size
    and queued blocks are not empty. *)
Record conn_wf (c : Connection) : Prop := mk_conn_wf {
  wf_rx : (rx_len_ c <= length (pending_ c))%nat;
  wf_bytes : send_bytes_ c = size_of (send_content c);
  wf_small : send_bytes_ c < 2 ^ 64
}.

Lemma length_resize v n : length (resize v n) = n.
Proof. unfold resize. rewrite length_app, length_take, length_replicate. lia. Qed.

Lemma take_resize v n m : (m <= n)%nat -> (m <= length v)%nat -> take m (resize v n) = take m v.
Proof.
  intros H1 H2. unfold resize. rewrite take_app_le by (rewrite length_take; lia).
  rewrite take_take. f_equal. lia.
Qed.

Lemma resize_shrink v n : (n <= length v)%nat -> resize v n = take n v.
Proof.
  intros H. unfold resize. replace (n - length v)%nat with 0%nat by lia. simpl.
  by rewrite app_nil_r.
Qed.

Lemma rx_prepare_spec spare c :
  (rx_len_ c <= length (pending_ c))%nat ->
  rx_content (rx_prepare spare c) = rx_content c
  /\ (rx_len_ (rx_prepare spare c) <= length (pending_ (rx_prepare spare c)))%nat
  /\ (spare <= rx_writable_len (rx_prepare spare c))%nat.
Proof.
  intros H. unfold rx_prepare, rx_content, rx_writable_len.
  destruct (Nat.ltb_spec (length (pending_ c)) (rx_len_ c + spare)); simpl.
  - rewrite length_resize, take_resize by lia. split; [done|]. lia.
  - split; [done|]. lia.
Qed.

(** A completed receive appends what the kernel wrote. *)
Lemma recv_appends bs c :
  (rx_len_ c <= length (pending_ c))%nat -> (length bs <= rx_writable_len c)%nat ->
  let c' := rx_commit (length bs) (kernel_write bs c) in
  rx_content c' = rx_content c ++ bs /\ (rx_len_ c' <= length (pending_ c'))%nat.
Proof.
  unfold rx_content, rx_writable_len. intros H1 H2. simpl. split.
  - rewrite app_assoc. apply take_app_exact.
    rewrite length_app, length_take. lia.
  - rewrite !length_app, length_take, length_drop. lia.
Qed.

Lemma rx_take_spec cap c :
  (rx_len_ c <= length (pending_ c))%nat ->
  fst (rx_take cap c) = rx_content c /\ rx_content (snd (rx_take cap c)) = []
  /\ (rx_len_ (snd (rx_take cap c)) <= length (pending_ (snd (rx_take cap c))))%nat.
Proof.
  intros H. unfold rx_take, rx_content. simpl. rewrite resize_shrink by done.
  split; [done|]. split; [done | lia].
Qed.

Lemma rx_feed_spec (l : list byte) c :
  (rx_len_ c <= length (pending_ c))%nat ->
  rx_content (rx_feed l c) = rx_content c ++ l
  /\ (rx_len_ (rx_feed l c) <= length (pending_ (rx_feed l c)))%nat.
Proof.
  intros H. unfold rx_feed, rx_content. simpl.
  set (p := if (length (pending_ c) <? rx_len_ c + length l)%nat
            then resize (pending_ c) (rx_len_ c + length l) else pending_ c).
  assert (Hp : (rx_len_ c + length l <= length p)%nat /\ take (rx_len_ c) p = take (rx_len_ c) (pending_ c)).
  { unfold p. destruct (Nat.ltb_spec (length (pending_ c)) (rx_len_ c + length l)).
    - rewrite length_resize, take_resize by lia. done.
    - done. }
  destruct Hp as [Hl Ht]. rewrite Ht. split.
  - rewrite app_assoc. apply take_app_exact. rewrite length_app, length_take. lia.
  - rewrite !length_app, length_take, length_drop. lia.
Qed.

Lemma pop_loop_spec q : forall (n : nat) (b : Z),
  (n <= length (concat q))%nat -> b = size_of (concat q) -> b < 2 ^ 64 ->
  concat (fst (pop_loop q n b)) = drop n (concat q)
  /\ snd (pop_loop q n b) = size_of (drop n (concat q)).
Proof.
  induction q as [|h q IH]; intros n b Hn Hb Hs; cbn [pop_loop].
  - simpl in *. rewrite drop_nil. by replace n with 0%nat by lia.
  - simpl concat in *. rewrite length_app in Hn.
    destruct (Nat.ltb_spec 0 n); [|replace n with 0%nat by lia; by rewrite drop_0].
    assert (Hsz : size_of (h ++ concat q) = size_of h + size_of (concat q)) by apply size_of_app.
    destruct (Nat.ltb_spec n (length h)) as [H1|H1]; simpl.
    + rewrite drop_app_le by lia. split; [done|].
      rewrite u64_small by (unfold size_of in *; rewrite length_app in *; lia).
      unfold size_of in *. rewrite length_app, length_drop. rewrite length_app in Hb. lia.
    + rewrite drop_app_ge by lia. unfold size_of in *. rewrite length_app in Hb.
      apply IH; [lia | |]; rewrite u64_small by lia; lia.
Qed.

(** Removing what the kernel sent leaves the rest, in order. *)
Lemma send_pop_spec n c :
  conn_wf c -> (n <= length (send_content c))%nat ->
  send_content (send_pop n c) = drop n (send_content c) /\ conn_wf (send_pop n c).
Proof.
  intros [H1 H2 H3] Hn. unfold send_pop, send_content in *.
  destruct (pop_loop_spec (send_q_ c) n (send_bytes_ c)) as [E1 E2]; [done|done|done|].
  destruct (pop_loop (send_q_ c) n (send_bytes_ c)) as [q b] eqn:E. simpl in *.
  split; [done|]. split; simpl; [done | |].
  - unfold send_content. simpl. by rewrite E1.
  - rewrite E2. unfold size_of in *. rewrite length_drop. lia.
Qed.

Lemma send_push_spec bs c :
  conn_wf c -> send_bytes_ c + size_of bs < 2 ^ 64 ->
  send_content (send_push bs c) = send_content c ++ bs /\ conn_wf (send_push bs c)
  /\ send_bytes_ (send_push bs c) = send_bytes_ c + size_of bs.
Proof.
  intros [H1 H2 H3] Hs. unfold send_push, send_content in *. simpl.
  pose proof (size_of_nonneg bs). pose proof (size_of_nonneg (concat (send_q_ c))).
  rewrite u64_small by lia.
  rewrite concat_app. simpl. rewrite app_nil_r. split; [done|]. split; [|done].
  split; simpl; [done | | done]. unfold send_content. simpl.
  rewrite concat_app. simpl. rewrite app_nil_r, size_of_app. lia.
Qed.

(** ** Multi-producer queues

    OutboxQueue and ReplyQueue: a deque behind a mutex. *)
Definition q_push {X} (x : X) (q : list X) : list X := q ++ [x].
Definition q_drain {X} (out q : list X) : nat * list X * list X :=
  (length q, if (0 <? length q)%nat then out ++ q else out,
             if (0 <? length q)%nat then [] else q).
Definition q_size {X} (q : list X) : nat := length q.

(** C14: the receive area is a byte queue.  Whatever sequence of receives (each
    writing at most the offered span), hand-overs to a worker and returns of a
    half frame takes place, the bytes handed over are exactly the bytes fed
    back and received since the last hand-over, in order. *)
Theorem rx_area_is_queue (spare : nat) (left : list byte) (recvs : list (list byte)) c :
  rx_len_ c = 0%nat ->
  Forall (fun bs => (length bs <= spare)%nat) recvs ->
  let c0 := rx_feed left c in
  let c1 := fold_left (fun c bs => rx_commit (length bs) (kernel_write bs (rx_prepare spare c))) recvs c0 in
  rx_content c1 = left ++ concat recvs
  /\ fst (rx_take spare c1) = left ++ concat recvs
  /\ rx_content (snd (rx_take spare c1)) = []
  /\ (spare <= rx_writable_len (snd (rx_take spare c1)))%nat.
Proof.
  intros H0 Hr c0 c1.
  assert (Hc0 : rx_content c0 = left /\ (rx_len_ c0 <= length (pending_ c0))%nat).
  { destruct (rx_feed_spec left c) as [E Hl]; [lia|]. split; [|done].
    unfold c0. rewrite E. unfold rx_content. by rewrite H0. }
  assert (H : rx_content c1 = left ++ concat recvs /\ (rx_len_ c1 <= length (pending_ c1))%nat).
  { unfold c1. clear c1. revert Hc0. generalize c0 as k. generalize left as l. clear c0 left H0.
    induction Hr as [|bs recvs Hb Hr IH]; intros l k [Ek Hk]; simpl.
    - by rewrite app_nil_r.
    - rewrite app_assoc. apply IH.
      destruct (rx_prepare_spec spare k Hk) as (Ec & Hl & Hw).
      destruct (recv_appends bs (rx_prepare spare k) Hl) as [E' Hl']; [lia|].
      split; [|done]. by rewrite E', Ec, Ek. }
  destruct H as [E Hl]. destruct (rx_take_spec spare c1 Hl) as (T1 & T2 & _).
  rewrite T1, E. repeat split; try done.
  unfold rx_writable_len, rx_take. simpl. rewrite length_resize. lia.
Qed.

Lemma rx_area_is_queue_witness :
  let c := new_conn 5 1 4 0 in
  let c1 := rx_commit 2 (kernel_write [x02; x03] (rx_prepare 4 (rx_feed [x01] c))) in
  rx_content c1 = [x01; x02; x03].
Proof.
  intros c c1. destruct (rx_area_is_queue 4 [x01] [[x02; x03]] c) as [H _].
  - reflexivity.
  - repeat constructor.
  - exact H.
Defined.
