(* ===== verification/Engine.v ===== *)
(** * The io_uring gateway engine

    server/src/gateway/uring_engine.cpp with uring_engine.hpp, uring_op.hpp,
    outbox_queue.hpp and worker_outbox.cpp.  The main thread owns all
    connections; an operation submitted to the ring is an allocated [UringOp]
    whose address comes back with its completion, and its connection is
    reached through a raw pointer.  Addresses are the keys of [ops] and
    [conns_]; following a pointer to a deleted object, closing a descriptor
    twice or calling [front] on an empty queue is undefined behaviour and
    makes the handler return [Err].

    The kernel and the worker threads are the environment: [enabled] says
    which events can happen in a state, [handle] is what the main thread (or a
    worker) does then.  liburing is a parameter: whether a submission slot is
    available is read from the stream [sq_ok]. *)

From S2P Require Import Prelude Protocol FrameCut Connection.

(** ** Data *)

Record GatewayOptions : Type := mkOptions {
  listen : string; port : Z; sq_depth : Z; cq_depth : Z; workers : Z;
  rx_buf_bytes : nat; send_backlog_limit : Z;
  idle_timeout : Z;   (* nanoseconds *)
  accept_backlog : Z
}.

Inductive OpKind : Type := Accept | Recv | Send | Wakeup | Stop | RspNotify.
#[export] Instance OpKind_eq_dec : EqDecision OpKind.
Proof. solve_decision. Defined.

Record UringOp : Type := mkOp { op_kind : OpKind; op_conn : option Z; op_event_val : Z }.

Inductive OutboxKind : Type := Respond | RearmRecv | Close.
#[export] Instance OutboxKind_eq_dec : EqDecision OutboxKind.
Proof. solve_decision. Defined.
Record OutboxItem : Type := mkItem { it_kind : OutboxKind; it_conn : Z; it_bytes : list byte }.

(** What a worker thread still has to do: enqueue an item, then write the
    eventfd ([WorkerOutbox::push]). *)
Inductive wact : Type := WPush (it : OutboxItem) | WWrite.

(** io_uring and clocks. *)
Record Ring : Type := mkRing {
  ops : gmap Z UringOp;        (* allocated operations in flight *)
  next_op : Z;                 (* the next address [new UringOp] returns *)
  sq_ok : nat -> bool;         (* io_uring_get_sqe() != nullptr, call by call *)
  sq_n : nat;
  clock : nat -> Z;            (* steady_clock, call by call *)
  clock_n : nat
}.

Record Flags : Type := mkFlags {
  stopping_ : bool; draining_ : bool; accepting_ : bool; sq_fail_logged_ : bool;
  accept_fail_streak_ : Z; rsp_notify_fail_streak_ : Z;
  drain_deadline_ : Z; listen_open : bool; last_rsp_hb_ : Z
}.

Record Net : Type := mkNet {
  conns_ : gmap Z Connection;
  next_conn_id_ : Z;
  fds : gset Z                 (* open connection sockets *)
}.

Record Chan : Type := mkChan {
  outbox_ : list OutboxItem;
  efd_ : Z;                    (* eventfd counter *)
  jobs : list (Z * list byte); (* posted to the thread pool *)
  running : list (list wact)   (* what the busy workers still have to do *)
}.

Record Engine : Type := mkEngine {
  opt_ : GatewayOptions; ring : Ring; flags : Flags; net : Net; chan : Chan
}.

Definition kDrainDeadline : Z := 5 * 10 ^ 9.
Definition kExhaustDrainLimit : Z := 10 * 10 ^ 9.
Definition EINTR : Z := 4.
Definition ECANCELED : Z := 125.

(** ** Computations of the main thread *)

Definition eng (X : Type) : Type := Engine -> result (X * Engine).
Definition eret {X} (x : X) : eng X := fun e => Ok (x, e).
Definition ebind {X Y} (m : eng X) (k : X -> eng Y) : eng Y := fun e =>
  match m e with Ok (x, e) => k x e | Err x => Err x end.
Declare Scope eng_scope.
Delimit Scope eng_scope with eng.
Notation "'eng!' x := m 'in' k" := (ebind m (fun x => k))
  (at level 10, x pattern, m at level 100, k at level 200) : eng_scope.
Notation "m ';;;' k" := (ebind m (fun _ => k)) (at level 100, right associativity) : eng_scope.
Open Scope eng_scope.

Definition ub {X} (what : string) : eng X := fun _ => Err (UndefinedBehaviour what).

Definition upd_ring (f : Ring -> Ring) : eng unit := fun e =>
  Ok (tt, mkEngine (opt_ e) (f (ring e)) (flags e) (net e) (chan e)).
Definition upd_flags (f : Flags -> Flags) : eng unit := fun e =>
  Ok (tt, mkEngine (opt_ e) (ring e) (f (flags e)) (net e) (chan e)).
Definition upd_net (f : Net -> Net) : eng unit := fun e =>
  Ok (tt, mkEngine (opt_ e) (ring e) (flags e) (f (net e)) (chan e)).
Definition upd_chan (f : Chan -> Chan) : eng unit := fun e =>
  Ok (tt, mkEngine (opt_ e) (ring e) (flags e) (net e) (f (chan e))).
Definition get {X} (f : Engine -> X) : eng X := fun e => Ok (f e, e).

Definition steady_now : eng Z := fun e =>
  Ok (clock (ring e) (clock_n (ring e)),
      mkEngine (opt_ e)
        (mkRing (ops (ring e)) (next_op (ring e)) (sq_ok (ring e)) (sq_n (ring e))
           (clock (ring e)) (S (clock_n (ring e))))
        (flags e) (net e) (chan e)).

Definition set_stopping (v : bool) (f : Flags) : Flags :=
  mkFlags v (draining_ f) (accepting_ f) (sq_fail_logged_ f) (accept_fail_streak_ f)
    (rsp_notify_fail_streak_ f) (drain_deadline_ f) (listen_open f) (last_rsp_hb_ f).
Definition set_draining (f : Flags) : Flags :=
  mkFlags (stopping_ f) true (accepting_ f) (sq_fail_logged_ f) (accept_fail_streak_ f)
    (rsp_notify_fail_streak_ f) (drain_deadline_ f) (listen_open f) (last_rsp_hb_ f).
Definition set_accept_streak (n : Z) (f : Flags) : Flags :=
  mkFlags (stopping_ f) (draining_ f) (accepting_ f) (sq_fail_logged_ f) n
    (rsp_notify_fail_streak_ f) (drain_deadline_ f) (listen_open f) (last_rsp_hb_ f).
Definition set_rsp_streak (n : Z) (f : Flags) : Flags :=
  mkFlags (stopping_ f) (draining_ f) (accepting_ f) (sq_fail_logged_ f) (accept_fail_streak_ f)
    n (drain_deadline_ f) (listen_open f) (last_rsp_hb_ f).
Definition set_exhausted (deadline : Z) (f : Flags) : Flags :=
  mkFlags (stopping_ f) (draining_ f) (accepting_ f) true (accept_fail_streak_ f)
    (rsp_notify_fail_streak_ f) deadline (listen_open f) (last_rsp_hb_ f).
Definition set_last_rsp_hb (t : Z) (f : Flags) : Flags :=
  mkFlags (stopping_ f) (draining_ f) (accepting_ f) (sq_fail_logged_ f) (accept_fail_streak_ f)
    (rsp_notify_fail_streak_ f) (drain_deadline_ f) (listen_open f) t.

(** [*ptr] for a connection pointer, and writing it back. *)
Definition deref (id : Z) : eng Connection := fun e =>
  match conns_ (net e) !! id with
  | Some c => Ok (c, e)
  | None => Err (UndefinedBehaviour "dangling Connection pointer")
  end.
Definition put_conn (id : Z) (c : Connection) : eng unit :=
  upd_net (fun n => mkNet (<[id := c]> (conns_ n)) (next_conn_id_ n) (fds n)).
Definition erase_conn (id : Z) : eng unit :=
  upd_net (fun n => mkNet (delete id (conns_ n)) (next_conn_id_ n) (fds n)).

(** [::close(fd)] *)
Definition close_fd (fd : Z) : eng unit := fun e =>
  if bool_decide (fd ∈ fds (net e))
  then upd_net (fun n => mkNet (conns_ n) (next_conn_id_ n) (fds n ∖ {[fd]})) e
  else Err (UndefinedBehaviour "close of a descriptor that is not open").

(** [new UringOp] and [delete &op] *)
Definition new_op (o : UringOp) : eng Z := fun e =>
  let r := ring e in
  Ok (next_op r, mkEngine (opt_ e)
        (mkRing (<[next_op r := o]> (ops r)) (next_op r + 1) (sq_ok r) (sq_n r) (clock r) (clock_n r))
        (flags e) (net e) (chan e)).
Definition delete_op (a : Z) : eng unit :=
  upd_ring (fun r => mkRing (delete a (ops r)) (next_op r) (sq_ok r) (sq_n r) (clock r) (clock_n r)).

(** ** Submission (main thread only) *)

Definition io_uring_get_sqe : eng bool := fun e =>
  let r := ring e in
  Ok (sq_ok r (sq_n r), mkEngine (opt_ e)
        (mkRing (ops r) (next_op r) (sq_ok r) (S (sq_n r)) (clock r) (clock_n r))
        (flags e) (net e) (chan e)).

Definition get_sqe : eng bool :=
  eng! ok := io_uring_get_sqe in
  if ok : bool then eret true
  else
    eng! ok := io_uring_get_sqe in
    if ok : bool then eret true
    else
      eng! logged := get (fun e => sq_fail_logged_ (flags e)) in
      (if logged : bool then eret tt
       else eng! now := steady_now in upd_flags (set_exhausted (now + kExhaustDrainLimit))) ;;;
      upd_flags set_draining ;;;
      eret false.

Definition submit_simple (k : OpKind) : eng unit :=
  eng! ok := get_sqe in
  if ok : bool then (new_op (mkOp k None 0) ;;; eret tt) else eret tt.

Definition submit_accept : eng unit := submit_simple Accept.
Definition submit_eventfd_read : eng unit := submit_simple Wakeup.
Definition submit_stop_read : eng unit := submit_simple Stop.
Definition submit_rsp_notify_read : eng unit := submit_simple RspNotify.

Definition submit_recv (id : Z) : eng bool :=
  eng! c := deref id in
  eng! rx := get (fun e => rx_buf_bytes (opt_ e)) in
  let c := rx_prepare rx c in
  put_conn id c ;;;
  eng! ok := get_sqe in
  if ok : bool then
    eng! op := new_op (mkOp Recv (Some id) 0) in
    put_conn id (set_ops c (pending_ops c + 1) (Some op) (send_op c)) ;;;
    eret true
  else eret false.

Definition submit_send (id : Z) : eng bool :=
  eng! c := deref id in
  match send_q_ c with
  | [] => ub "front() of an empty deque"
  | _ =>
      eng! ok := get_sqe in
      if ok : bool then
        eng! op := new_op (mkOp Send (Some id) 0) in
        put_conn id (set_send_active (set_ops c (pending_ops c + 1) (recv_op c) (Some op)) true) ;;;
        eret true
      else eret false
  end.

(** The cancel request itself completes anonymously and is ignored. *)
Definition submit_cancel (target : Z) : eng bool := get_sqe.

(** ** Connections *)

(** The id counter is 64 bits wide; it is not expected to wrap. *)
Definition make_conn (fd : Z) : eng Z :=
  eng! id := get (fun e => next_conn_id_ (net e)) in
  eng! rx := get (fun e => rx_buf_bytes (opt_ e)) in
  eng! now := steady_now in
  eng! taken := get (fun e => conns_ (net e) !! id) in
  match taken with
  | None => upd_net (fun n => mkNet (<[id := new_conn fd id rx now]> (conns_ n)) (id + 1) (fds n))
  | Some _ =>   (* emplace keeps the old entry and drops the new object *)
      upd_net (fun n => mkNet (conns_ n) (id + 1) (fds n)) ;;; close_fd fd
  end ;;;
  eret id.

Definition maybe_finalize (id : Z) : eng unit :=
  eng! c := deref id in
  if negb (bool_decide (state c = Closing)) || (pending_ops c >? 0) then eret tt
  else close_fd (fd_ c) ;;; erase_conn id.

Definition cancel_opt (o : option Z) : eng unit :=
  match o with Some op => submit_cancel op ;;; eret tt | None => eret tt end.

Definition close_conn (id : Z) : eng unit :=
  eng! c := deref id in
  if bool_decide (state c = Closing) then eret tt
  else
    put_conn id (set_state c Closing) ;;;
    cancel_opt (recv_op c) ;;;
    cancel_opt (send_op c) ;;;
    maybe_finalize id.

(** The sum of two object sizes does not wrap. *)
Definition push_response (id : Z) (frame : list byte) : eng bool :=
  eng! c := deref id in
  eng! limit := get (fun e => send_backlog_limit (opt_ e)) in
  if send_bytes_ c + size_of frame >? limit then close_conn id ;;; eret false
  else
    put_conn id (send_push frame c) ;;;
    (if send_active_ c : bool then eret tt else (submit_send id ;;; eret tt)) ;;;
    eret true.

(** ** Completions *)

Definition complete_accept (op res : Z) : eng unit :=
  delete_op op ;;;
  eng! accepting := get (fun e => accepting_ (flags e)) in
  if negb accepting then (if 0 <=? res then close_fd res else eret tt)
  else if res <? 0 then
    if negb (res =? - EINTR) then
      eng! streak := get (fun e => accept_fail_streak_ (flags e)) in
      upd_flags (set_accept_streak (streak + 1)) ;;;
      (if streak + 1 >=? 8 then upd_flags (set_accept_streak 0)
       else submit_accept)
    else submit_accept
  else
    upd_flags (set_accept_streak 0) ;;;
    eng! id := make_conn res in
    eng! ok := submit_recv id in
    (if ok : bool then eret tt
     else (eng! c := deref id in erase_conn id ;;; close_fd (fd_ c))) ;;;
    submit_accept.

Definition post (id : Z) (raw : list byte) : eng unit :=
  upd_chan (fun c => mkChan (outbox_ c) (efd_ c) (jobs c ++ [(id, raw)]) (running c)).

(** [res > 0] bytes were written by the kernel before the completion. *)
Definition complete_recv (op id res : Z) : eng unit :=
  eng! c := deref id in
  let c := set_ops c (pending_ops c - 1) None (send_op c) in
  put_conn id c ;;;
  delete_op op ;;;
  if bool_decide (state c = Closing) then maybe_finalize id
  else if res <? 0 then close_conn id
  else if res =? 0 then close_conn id
  else
    eng! now := steady_now in
    let c := set_last_active (rx_commit (Z.to_nat res) c) now in
    put_conn id c ;;;
    eng! rx := get (fun e => rx_buf_bytes (opt_ e)) in
    if Z.of_nat (rx_len_ c) >? kHeaderLen + kMaxMessageLen + Z.of_nat rx then close_conn id
    else
      let '(raw, c) := rx_take rx c in
      put_conn id (set_state c Parsing) ;;;
      post id raw.

Definition complete_send (op id res : Z) : eng unit :=
  eng! c := deref id in
  let c := set_send_active (set_ops c (pending_ops c - 1) (recv_op c) None) false in
  put_conn id c ;;;
  delete_op op ;;;
  if bool_decide (state c = Closing) then maybe_finalize id
  else if res <? 0 then close_conn id
  else
    let c := send_pop (Z.to_nat res) c in
    eng! now := steady_now in
    let c := set_last_active c now in
    put_conn id c ;;;
    if send_pending c then (submit_send id ;;; eret tt) else eret tt.

Definition on_item (it : OutboxItem) : eng unit :=
  eng! found := get (fun e => conns_ (net e) !! it_conn it) in
  match found with
  | None => eret tt
  | Some c =>
      if bool_decide (state c = Closing) then eret tt
      else
        match it_kind it with
        | Respond => push_response (it_conn it) (it_bytes it) ;;; eret tt
        | RearmRecv =>
            eng! draining := get (fun e => draining_ (flags e)) in
            if draining : bool then close_conn (it_conn it)
            else if negb (bool_decide (state c = Parsing)) then eret tt
            else
              put_conn (it_conn it) (set_state (rx_feed (it_bytes it) c) Active) ;;;
              eng! ok := submit_recv (it_conn it) in
              if ok : bool then eret tt else close_conn (it_conn it)
        | Close => close_conn (it_conn it)
        end
  end.

Fixpoint each_item (its : list OutboxItem) : eng unit :=
  match its with
  | [] => eret tt
  | it :: its => on_item it ;;; each_item its
  end.

Definition drain_outbox : eng unit :=
  eng! its := get (fun e => outbox_ (chan e)) in
  upd_chan (fun c => mkChan [] (efd_ c) (jobs c) (running c)) ;;;
  each_item its.

Definition complete_wakeup (op : Z) : eng unit :=
  delete_op op ;;; submit_eventfd_read ;;; drain_outbox.

Definition complete_stop (op : Z) : eng unit :=
  delete_op op ;;; upd_flags (set_stopping true).

(** One response slot of the ring: connection and payload; [len] is the
    packet's payload_len, the payload the slot's bytes. *)
Record RspSlot : Type := mkRsp { rsp_conn : Z; rsp_len : Z; rsp_bytes : list byte }.
Definition kRspMax : Z := 401376.

(** What the response ring and the peer process show in one call: the
    producer's pid and heartbeat, the errno of [kill(pid, 0)] if it fails, the
    clock read after them, and the published slots. *)
Record RspView : Type := mkView {
  rv_pid : Z; rv_kill : option Z; rv_hb : Z; rv_now : Z; rv_timeout_ms : Z;
  rv_slots : list RspSlot
}.
Definition EPERM : Z := 1.

Definition peer_dead (v : RspView) : bool :=
  let limit := u64 (rv_timeout_ms v * 1000000) in
  if negb (rv_pid v =? 0) && (match rv_kill v with Some err => negb (err =? EPERM) | None => false end)
  then true
  else negb (rv_hb v =? 0) && (u64 (rv_now v - rv_hb v) >? limit).

Definition on_rsp (s : RspSlot) : eng unit :=
  if rsp_len s =? 0 then eret tt
  else if rsp_len s >? kRspMax then eret tt
  else
    eng! found := get (fun e => conns_ (net e) !! rsp_conn s) in
    match found with
    | None => eret tt
    | Some c =>
        if bool_decide (state c = Closing) then eret tt
        else push_response (rsp_conn s) (take (Z.to_nat (rsp_len s)) (rsp_bytes s)) ;;; eret tt
    end.
Fixpoint each_rsp (l : list RspSlot) : eng unit :=
  match l with [] => eret tt | s :: l => on_rsp s ;;; each_rsp l end.

Definition request_stop : eng unit := upd_flags (set_stopping true).

(** The once-a-second heartbeat and liveness check, then the slots; [None]
    when no ring is attached (in-process mode). *)
Definition drain_response_ring (rsp : option RspView) : eng unit :=
  match rsp with
  | None => eret tt
  | Some v =>
      eng! now := steady_now in
      eng! last := get (fun e => last_rsp_hb_ (flags e)) in
      (if now - last >=? 10 ^ 9 then
         upd_flags (set_last_rsp_hb now) ;;;
         eng! stopping := get (fun e => stopping_ (flags e)) in
         (if negb stopping && peer_dead v then request_stop else eret tt)
       else eret tt) ;;;
      each_rsp (rv_slots v)
  end.

Definition complete_rsp_notify (op res : Z) (rsp : option RspView) : eng unit :=
  delete_op op ;;;
  if res =? - ECANCELED then eret tt
  else if res <? 0 then
    eng! streak := get (fun e => rsp_notify_fail_streak_ (flags e)) in
    upd_flags (set_rsp_streak (streak + 1)) ;;;
    (if streak + 1 >=? 8 then upd_flags (set_rsp_streak 0) else submit_rsp_notify_read)
  else
    upd_flags (set_rsp_streak 0) ;;;
    submit_rsp_notify_read ;;;
    drain_response_ring rsp.

(** ** The rest of the main loop *)

Fixpoint close_ids (ids : list Z) : eng unit :=
  match ids with
  | [] => eret tt
  | id :: ids =>
      eng! found := get (fun e => conns_ (net e) !! id) in
      (match found with Some _ => close_conn id | None => eret tt end) ;;;
      close_ids ids
  end.

Definition idle_victims (now limit : Z) (conns : gmap Z Connection) : list Z :=
  fst <$> List.filter (fun ic => negb (bool_decide (state (snd ic) = Closing))
                                 && (now - last_active (snd ic) >? limit)) (map_to_list conns).

Definition sweep_idle : eng unit :=
  eng! limit := get (fun e => idle_timeout (opt_ e)) in
  if limit <=? 0 then eret tt
  else
    eng! now := steady_now in
    eng! conns := get (fun e => conns_ (net e)) in
    close_ids (idle_victims now limit conns).

(** Entering the drain phase: [if (stopping_ && !draining_) { ... }]. *)
Definition enter_drain : eng unit :=
  eng! f := get flags in
  if stopping_ f && negb (draining_ f) then
    eng! deadline := (if drain_deadline_ f =? 0
                      then (eng! now := steady_now in eret (now + kDrainDeadline))
                      else eret (drain_deadline_ f)) in
    upd_flags (fun f => mkFlags (stopping_ f) true false (sq_fail_logged_ f) (accept_fail_streak_ f)
                 (rsp_notify_fail_streak_ f) deadline false (last_rsp_hb_ f))
  else eret tt.

Definition drain_complete : eng bool :=
  eng! conns := get (fun e => conns_ (net e)) in
  if bool_decide (conns = ∅) then eret true
  else
    eng! now := steady_now in
    eng! d := get (fun e => drain_deadline_ (flags e)) in
    eret (now >? d).

(** One pass of the reap loop: at most 64 connections are closed per round. *)
Definition reap_round : eng unit :=
  eng! conns := get (fun e => conns_ (net e)) in
  close_ids (take 64 (fst <$> map_to_list conns)).

(** The last resort of [run]: close what is left and drop it. *)
Fixpoint close_fds (cs : list Connection) : eng unit :=
  match cs with
  | [] => eret tt
  | c :: cs => (if 0 <=? fd_ c then close_fd (fd_ c) else eret tt) ;;; close_fds cs
  end.
Definition force_close : eng unit :=
  eng! conns := get (fun e => conns_ (net e)) in
  close_fds (snd <$> map_to_list conns) ;;;
  upd_net (fun n => mkNet ∅ (next_conn_id_ n) (fds n)).

Definition validate_sq_capacity (o : GatewayOptions) : result unit :=
  if sq_depth o <? 128 then Err (RuntimeError "[uring] sq_depth too small") else Ok tt.

(** ** Worker side *)

Record Request : Type := mkRequest {
  req_conn_id : Z; req_event_id : Z; req_seq : Z; req_payload : list byte
}.

(** One frame: the sink's answer becomes at most one response item; [None]
    ends the batch (the ring is full or the request malformed). *)
Definition worker_reply (conn_id : Z) (req : Request) (r : result (list byte))
  : option (list OutboxItem) :=
  match r with
  | Err SinkOverload | Err MalformedIpcRequest => None
  | Err _ => Some []
  | Ok [] => Some []
  | Ok reply =>
      let '(ok, stamped) := stamp_seq reply (req_seq req) in
      Some (if ok : bool then [mkItem Respond conn_id stamped] else [])
  end.

(** [sink i req] is what [sink_->handle] does for the i-th frame. *)
Fixpoint worker_frames (sink : nat -> Request -> result (list byte)) (i : nat) (conn_id : Z)
    (fs : list Frame) : list OutboxItem * bool :=
  match fs with
  | [] => ([], true)
  | f :: fs =>
      let req := mkRequest conn_id (f_event_id f) (f_seq f) (f_payload f) in
      match worker_reply conn_id req (sink i req) with
      | None => ([mkItem Close conn_id []], false)
      | Some its =>
          let '(rest, go) := worker_frames sink (S i) conn_id fs in (its ++ rest, go)
      end
  end.

Definition worker_batch (sink : nat -> Request -> result (list byte)) (conn_id : Z)
    (raw : list byte) : list OutboxItem :=
  let '(cut, fs) := cut_frames raw [] in
  let '(its, go) := worker_frames sink 0 conn_id fs in
  if go : bool then
    its ++ [if cut_bad cut then mkItem Close conn_id []
            else mkItem RearmRecv conn_id (cut_leftover cut)]
  else its.

Definition worker_acts (its : list OutboxItem) : list wact :=
  flat_map (fun it => [WPush it; WWrite]) its.

(** ** Events *)

Inductive event : Type :=
| EvAccept (op res : Z)
| EvRecv (op : Z) (bs : list byte)          (* the kernel stored [bs] *)
| EvRecvFail (op res : Z)                   (* end of stream, error or cancelled *)
| EvSend (op : Z) (n : nat)
| EvSendFail (op res : Z)
| EvEventfd (op : Z)                        (* the kernel serves the eventfd read *)
| EvWakeup (op : Z)
| EvWakeupFail (op : Z)                     (* the eventfd read failed or was cancelled *)
| EvStop (op : Z)
| EvRspNotify (op res : Z) (rsp : option RspView)
| EvLoop (rsp : option RspView)               (* the end of a loop iteration *)
| EvSignal                                      (* request_stop() from a signal *)
| EvReap
| EvJob (i : nat) (sink : nat -> Request -> result (list byte))
| EvWorker (i : nat).

Definition op_is (e : Engine) (a : Z) (k : OpKind) : Prop :=
  exists o, ops (ring e) !! a = Some o /\ op_kind o = k.

(** Which events the kernel and the workers can produce. *)
Definition enabled (e : Engine) (ev : event) : Prop :=
  match ev with
  | EvAccept op res =>
      op_is e op Accept /\ (0 <= res -> res ∉ fds (net e))
  | EvRecv op bs =>
      exists id v, ops (ring e) !! op = Some (mkOp Recv (Some id) v) /\ bs <> []
        /\ forall c, conns_ (net e) !! id = Some c -> (length bs <= rx_writable_len c)%nat
  | EvRecvFail op res => op_is e op Recv /\ res <= 0
  | EvSend op n =>
      exists id v, ops (ring e) !! op = Some (mkOp Send (Some id) v)
        /\ forall c b q, conns_ (net e) !! id = Some c -> send_q_ c = b :: q -> (n <= length b)%nat
  | EvSendFail op res => op_is e op Send /\ res < 0
  | EvEventfd op =>
      exists o, ops (ring e) !! op = Some o /\ op_kind o = Wakeup /\ op_event_val o = 0
        /\ 0 < efd_ (chan e)
  | EvWakeup op =>
      exists o, ops (ring e) !! op = Some o /\ op_kind o = Wakeup /\ op_event_val o <> 0
  | EvWakeupFail op =>
      exists o, ops (ring e) !! op = Some o /\ op_kind o = Wakeup /\ op_event_val o = 0
  | EvStop op => op_is e op Stop
  | EvRspNotify op _ _ => op_is e op RspNotify
  | EvLoop _ | EvSignal | EvReap => True
  | EvJob i _ => (i < length (jobs (chan e)))%nat
  | EvWorker i => exists a l, running (chan e) !! i = Some (a :: l)
  end.

(** The connection an operation points to. *)
Definition op_target (op : Z) : eng Z := fun e =>
  match ops (ring e) !! op with
  | Some (mkOp _ (Some id) _) => Ok (id, e)
  | _ => Err (UndefinedBehaviour "null Connection pointer")
  end.

Definition remove_at {X} (i : nat) (l : list X) : list X := take i l ++ drop (S i) l.

(** A worker takes a job: from here on it only pushes to the outbox. *)
Definition start_job (i : nat) (sink : nat -> Request -> result (list byte)) : eng unit := fun e =>
  match jobs (chan e) !! i with
  | None => eret tt e
  | Some (id, raw) =>
      upd_chan (fun c => mkChan (outbox_ c) (efd_ c) (remove_at i (jobs c))
                           (running c ++ [worker_acts (worker_batch sink id raw)])) e
  end.

(** Its next action; the eventfd counter saturates far away from any real
    count. *)
Definition worker_act (i : nat) : eng unit := fun e =>
  match running (chan e) !! i with
  | Some (WPush it :: l) =>
      upd_chan (fun c => mkChan (q_push it (outbox_ c)) (efd_ c) (jobs c) (<[i := l]> (running c))) e
  | Some (WWrite :: l) =>
      upd_chan (fun c => mkChan (outbox_ c) (efd_ c + 1) (jobs c) (<[i := l]> (running c))) e
  | _ => eret tt e
  end.

Definition serve_eventfd (op : Z) : eng unit := fun e =>
  match ops (ring e) !! op with
  | None => eret tt e
  | Some o =>
      (upd_ring (fun r => mkRing (<[op := mkOp (op_kind o) (op_conn o) (efd_ (chan e))]> (ops r))
                  (next_op r) (sq_ok r) (sq_n r) (clock r) (clock_n r)) ;;;
       upd_chan (fun c => mkChan (outbox_ c) 0 (jobs c) (running c))) e
  end.

(** An accepted descriptor is open before its completion is seen. *)
Definition open_fd (res : Z) : eng unit :=
  if 0 <=? res then upd_net (fun n => mkNet (conns_ n) (next_conn_id_ n) (fds n ∪ {[res]}))
  else eret tt.

Definition handle (ev : event) : eng unit :=
  match ev with
  | EvAccept op res => open_fd res ;;; complete_accept op res
  | EvRecv op bs =>
      eng! id := op_target op in
      eng! c := deref id in
      put_conn id (kernel_write bs c) ;;;
      complete_recv op id (size_of bs)
  | EvRecvFail op res => eng! id := op_target op in complete_recv op id res
  | EvSend op n => eng! id := op_target op in complete_send op id (Z.of_nat n)
  | EvSendFail op res => eng! id := op_target op in complete_send op id res
  | EvEventfd op => serve_eventfd op
  | EvWakeup op | EvWakeupFail op => complete_wakeup op
  | EvStop op => complete_stop op
  | EvRspNotify op res rsp => complete_rsp_notify op res rsp
  | EvLoop rsp =>
      drain_response_ring rsp ;;;
      eng! draining := get (fun e => draining_ (flags e)) in
      (if draining : bool then eret tt else sweep_idle) ;;;
      enter_drain
  | EvSignal => request_stop
  | EvReap => reap_round
  | EvJob i sink => start_job i sink
  | EvWorker i => worker_act i
  end.

(** [run()] up to the loop. *)
Definition flags0 : Flags := mkFlags false false true false 0 0 0 true 0.
Definition engine0 (o : GatewayOptions) (sq : nat -> bool) (clk : nat -> Z) : Engine :=
  mkEngine o (mkRing ∅ 0 sq 0 clk 0) flags0 (mkNet ∅ 1 ∅) (mkChan [] 0 [] []).
Definition startup (ipc : bool) : eng unit :=
  submit_accept ;;; submit_eventfd_read ;;; submit_stop_read ;;;
  (if ipc : bool then submit_rsp_notify_read else eret tt).

Inductive engine_step : Engine -> Engine -> Prop :=
| engine_event e ev e' : enabled e ev -> handle ev e = Ok (tt, e') -> engine_step e e'.

Inductive engine_reachable (o : GatewayOptions) : Engine -> Prop :=
| er_start sq clk ipc e :
    startup ipc (engine0 o sq clk) = Ok (tt, e) -> engine_reachable o e
| er_step e e' : engine_reachable o e -> engine_step e e' -> engine_reachable o e'.
