(* ===== verification/EngineProps.v ===== *)
(** * Invariants of the gateway engine

    [Inv] ties the connections to the operations in flight, to the open
    descriptors and to the work handed to the pool.  Every event keeps it and
    no handler reaches undefined behaviour.  Proofs go through a weakest
    precondition for the engine's computations; [Inv (Some id)] is the
    invariant with connection [id] in the middle of being updated. *)

From S2P Require Import Prelude Protocol FrameCut Connection Engine.

(** ** Weakest preconditions *)

Definition wp {X} (m : eng X) (Q : X -> Engine -> Prop) (e : Engine) : Prop :=
  match m e with Ok (x, e') => Q x e' | Err _ => False end.

Lemma wp_bind {X Y} (m : eng X) (k : X -> eng Y) Q e :
  wp m (fun x e' => wp (k x) Q e') e -> wp (ebind m k) Q e.
Proof. unfold wp, ebind. by destruct (m e) as [[x e']|]. Qed.

Lemma wp_mono {X} (m : eng X) (Q Q' : X -> Engine -> Prop) e :
  wp m Q e -> (forall x e', Q x e' -> Q' x e') -> wp m Q' e.
Proof. unfold wp. destruct (m e) as [[x e']|]; auto. Qed.

Lemma wp_ret {X} (x : X) Q e : Q x e -> wp (eret x) Q e.
Proof. done. Qed.
Lemma wp_get {X} (f : Engine -> X) Q e : Q (f e) e -> wp (get f) Q e.
Proof. done. Qed.

(** States that differ only in flags and in the environment's counters. *)
Record same_core (e e' : Engine) : Prop := mk_same {
  sc_opt : opt_ e' = opt_ e; sc_ops : ops (ring e') = ops (ring e);
  sc_next : next_op (ring e') = next_op (ring e); sc_net : net e' = net e; sc_chan : chan e' = chan e
}.
#[export] Instance same_core_equiv : Equivalence same_core.
Proof.
  split.
  - by intros e.
  - intros a b []. by split.
  - intros a b c [] []. split; congruence.
Qed.

Lemma wp_now (Q : Z -> Engine -> Prop) e :
  (forall t e', same_core e e' -> Q t e') -> wp steady_now Q e.
Proof. intros H. by apply H. Qed.
Lemma wp_flags f (Q : unit -> Engine -> Prop) e :
  (forall e', same_core e e' -> Q tt e') -> wp (upd_flags f) Q e.
Proof. intros H. by apply H. Qed.
Lemma wp_sqe (Q : bool -> Engine -> Prop) e :
  (forall b e', same_core e e' -> Q b e') -> wp io_uring_get_sqe Q e.
Proof. intros H. by apply H. Qed.

Lemma wp_get_sqe (Q : bool -> Engine -> Prop) e :
  (forall b e', same_core e e' -> Q b e') -> wp get_sqe Q e.
Proof.
  intros H. unfold get_sqe. apply wp_bind, wp_sqe. intros b1 e1 H1. destruct b1; [by apply H|].
  apply wp_bind, wp_sqe. intros b2 e2 H2.
  destruct b2; [apply H; by transitivity e1|].
  apply wp_bind, wp_get, wp_bind.
  assert (Hk : forall e3, same_core e2 e3 -> wp (upd_flags set_draining ;;; eret false) Q e3).
  { intros e3 H3. apply wp_bind, wp_flags. intros e4 H4. apply wp_ret, H.
    transitivity e1; [done|]. transitivity e2; [done|]. by transitivity e3. }
  destruct (sq_fail_logged_ (flags e2)); [apply wp_ret; by apply Hk|].
  apply wp_bind, wp_now. intros t e3 H3. apply wp_flags. intros e4 H4.
  apply Hk. by transitivity e3.
Qed.

Lemma wp_cancel o (Q : unit -> Engine -> Prop) e :
  (forall e', same_core e e' -> Q tt e') -> wp (cancel_opt o) Q e.
Proof.
  intros H. destruct o; simpl; [|by apply H].
  apply wp_bind, wp_get_sqe. intros b e' H'. by apply H.
Qed.

(** ** State updates *)

Definition e_put (id : Z) (c : Connection) (e : Engine) : Engine :=
  mkEngine (opt_ e) (ring e) (flags e)
    (mkNet (<[id := c]> (conns_ (net e))) (next_conn_id_ (net e)) (fds (net e))) (chan e).
Definition e_del (a : Z) (e : Engine) : Engine :=
  mkEngine (opt_ e)
    (mkRing (delete a (ops (ring e))) (next_op (ring e)) (sq_ok (ring e)) (sq_n (ring e))
       (clock (ring e)) (clock_n (ring e))) (flags e) (net e) (chan e).
Definition e_new (o : UringOp) (e : Engine) : Engine :=
  mkEngine (opt_ e)
    (mkRing (<[next_op (ring e) := o]> (ops (ring e))) (next_op (ring e) + 1) (sq_ok (ring e))
       (sq_n (ring e)) (clock (ring e)) (clock_n (ring e))) (flags e) (net e) (chan e).
Definition e_drop (id fd : Z) (e : Engine) : Engine :=
  mkEngine (opt_ e) (ring e) (flags e)
    (mkNet (delete id (conns_ (net e))) (next_conn_id_ (net e)) (fds (net e) ∖ {[fd]})) (chan e).

Lemma wp_put id c (Q : unit -> Engine -> Prop) e : Q tt (e_put id c e) -> wp (put_conn id c) Q e.
Proof. done. Qed.
Lemma wp_del a (Q : unit -> Engine -> Prop) e : Q tt (e_del a e) -> wp (delete_op a) Q e.
Proof. done. Qed.
Lemma wp_new o (Q : Z -> Engine -> Prop) e : Q (next_op (ring e)) (e_new o e) -> wp (new_op o) Q e.
Proof. done. Qed.
Lemma wp_deref id c (Q : Connection -> Engine -> Prop) e :
  conns_ (net e) !! id = Some c -> Q c e -> wp (deref id) Q e.
Proof. intros E H. unfold wp, deref. by rewrite E. Qed.
Lemma wp_close_fd fd (Q : unit -> Engine -> Prop) e :
  fd ∈ fds (net e) ->
  Q tt (mkEngine (opt_ e) (ring e) (flags e)
          (mkNet (conns_ (net e)) (next_conn_id_ (net e)) (fds (net e) ∖ {[fd]})) (chan e)) ->
  wp (close_fd fd) Q e.
Proof. intros Hf H. unfold wp, close_fd. by rewrite bool_decide_eq_true_2. Qed.

(** ** The invariant *)

Definition is_term (id : Z) (it : OutboxItem) : bool :=
  (it_conn it =? id) && negb (bool_decide (it_kind it = Respond)).
Definition count_term (id : Z) (its : list OutboxItem) : nat := length (List.filter (is_term id) its).
Definition pushes (acts : list wact) : list OutboxItem :=
  flat_map (fun a => match a with WPush it => [it] | WWrite => [] end) acts.

(** Work under way for a connection: its raw bytes wait in the pool, or the
    item that ends the batch is still to come; [hand] are items taken from the
    outbox and not yet processed. *)
Definition tokens (ch : Chan) (hand : list OutboxItem) (id : Z) : nat :=
  (length (List.filter (fun j => (fst j =? id)%Z) (jobs ch))
   + count_term id (flat_map pushes (running ch)) + count_term id (outbox_ ch)
   + count_term id hand)%nat.

Definition b2z (o : option Z) : Z := match o with Some _ => 1 | None => 0 end.
Definition is_some (o : option Z) : bool := match o with Some _ => true | None => false end.

Record conn_core (o : GatewayOptions) (ops : gmap Z UringOp) (id : Z) (c : Connection) : Prop :=
  mk_core {
    cc_id : conn_id_ c = id;
    cc_wf : conn_wf c;
    cc_limit : send_bytes_ c <= send_backlog_limit o;
    cc_count : pending_ops c = b2z (recv_op c) + b2z (send_op c);
    cc_recv a : recv_op c = Some a -> exists v, ops !! a = Some (mkOp Recv (Some id) v);
    cc_send a : send_op c = Some a -> exists v, ops !! a = Some (mkOp Send (Some id) v);
    cc_active : send_active_ c = is_some (send_op c);
    cc_queue : send_op c <> None -> send_q_ c <> []
  }.

(** The state machine: a receive is in flight exactly in Active, exactly one
    piece of work is under way in Parsing and none in Active, and a Closing
    connection still waits for a completion. *)
Definition conn_good (c : Connection) (n : nat) : Prop :=
  match state c with
  | Active => recv_op c <> None /\ n = 0%nat
  | Parsing => recv_op c = None /\ n = 1%nat
  | Closing => 0 < pending_ops c
  end.

Definition op_ok (conns : gmap Z Connection) (a : Z) (o : UringOp) : Prop :=
  match op_kind o with
  | Recv => exists id c, op_conn o = Some id /\ conns !! id = Some c /\ recv_op c = Some a
  | Send => exists id c, op_conn o = Some id /\ conns !! id = Some c /\ send_op c = Some a
  | _ => op_conn o = None
  end.

Record Inv (x : option Z) (hand : list OutboxItem) (e : Engine) : Prop := mk_Inv {
  i_opt : 0 <= send_backlog_limit (opt_ e) < 2 ^ 64;
  i_core id c : conns_ (net e) !! id = Some c -> conn_core (opt_ e) (ops (ring e)) id c;
  i_good id c : conns_ (net e) !! id = Some c -> x <> Some id ->
    conn_good c (tokens (chan e) hand id);
  i_ops a o : ops (ring e) !! a = Some o -> a < next_op (ring e) /\ op_ok (conns_ (net e)) a o;
  i_fresh id c : conns_ (net e) !! id = Some c -> id < next_conn_id_ (net e);
  i_idle id : next_conn_id_ (net e) <= id -> tokens (chan e) hand id = 0%nat;
  i_fds id c : conns_ (net e) !! id = Some c -> fd_ c ∈ fds (net e);
  i_fd_inj id1 id2 c1 c2 : conns_ (net e) !! id1 = Some c1 -> conns_ (net e) !! id2 = Some c2 ->
    fd_ c1 = fd_ c2 -> id1 = id2
}.

Lemma Inv_same x h e e' : same_core e e' -> Inv x h e -> Inv x h e'.
Proof.
  intros [H1 H2 H3 H4 H5] [I1 I2 I3 I4 I5 I6 I7 I8]. split; rewrite ?H1, ?H2, ?H3, ?H4, ?H5; auto.
Qed.

Lemma Inv_open x h e : Inv None h e -> Inv x h e.
Proof. intros [I1 I2 I3 I4 I5 I6 I7 I8]. split; auto. Qed.

Lemma Inv_close id c h e :
  Inv (Some id) h e -> conns_ (net e) !! id = Some c -> conn_good c (tokens (chan e) h id) ->
  Inv None h e.
Proof.
  intros [I1 I2 I3 I4 I5 I6 I7 I8] Hc Hg. split; auto. intros id' c' Hc' _.
  destruct (decide (id' = id)) as [->|]; [|apply I3; congruence]. by simplify_eq.
Qed.

(** Replacing a connection whose operations stay. *)
Lemma Inv_put x h e id c c' :
  Inv x h e -> conns_ (net e) !! id = Some c ->
  conn_core (opt_ e) (ops (ring e)) id c' ->
  recv_op c' = recv_op c -> send_op c' = send_op c -> fd_ c' = fd_ c ->
  (x <> Some id -> conn_good c' (tokens (chan e) h id)) ->
  Inv x h (e_put id c' e).
Proof.
  intros [I1 I2 I3 I4 I5 I6 I7 I8] Hc Hcore Hr Hs Hf Hg. split; simpl; auto.
  - intros id' k. rewrite lookup_insert_Some. intros [[<- <-]|[_ Hk]]; auto.
  - intros id' k. rewrite lookup_insert_Some. intros [[<- <-]|[_ Hk]]; auto.
  - intros a o Ha. destruct (I4 a o Ha) as [Hlt Hok]. split; [done|].
    unfold op_ok in *.
    destruct (op_kind o); auto; destruct Hok as (id' & k & Ho & Hk & Hrk);
      (destruct (decide (id' = id)) as [->|];
       [exists id, c'; rewrite lookup_insert_eq; simplify_eq; split; [done|split; [done|congruence]]
       |exists id', k; by rewrite lookup_insert_ne]).
  - intros id' k. rewrite lookup_insert_Some. intros [[<- <-]|[_ Hk]]; eauto.
  - intros id' k. rewrite lookup_insert_Some. intros [[<- <-]|[_ Hk]]; [rewrite Hf|]; eauto.
  - intros id1 id2 k1 k2. rewrite !lookup_insert_Some.
    intros [[<- <-]|[_ H1]] [[<- <-]|[_ H2]]; rewrite ?Hf; eauto.
Qed.

(** A completed operation is deleted and forgotten by its connection. *)
Lemma Inv_del h e id c c' a k v :
  Inv None h e -> ops (ring e) !! a = Some (mkOp k (Some id) v) -> conns_ (net e) !! id = Some c ->
  conn_core (opt_ e) (delete a (ops (ring e))) id c' -> fd_ c' = fd_ c ->
  (forall b, b <> a -> recv_op c = Some b -> recv_op c' = Some b) ->
  (forall b, b <> a -> send_op c = Some b -> send_op c' = Some b) ->
  Inv (Some id) h (e_del a (e_put id c' e)).
Proof.
  intros [I1 I2 I3 I4 I5 I6 I7 I8] Ha Hc Hcore Hf Hr Hs. split; simpl; auto.
  - intros id' q. rewrite lookup_insert_Some. intros [[<- <-]|[Hn Hq]]; [done|].
    destruct (I2 _ _ Hq) as [C1 C2 C3 C4 C5 C6 C7 C8]. split; auto.
    + intros b Hb. destruct (C5 b Hb) as [u Hu]. exists u. rewrite lookup_delete_ne; [done|].
      intros ->. rewrite Ha in Hu. congruence.
    + intros b Hb. destruct (C6 b Hb) as [u Hu]. exists u. rewrite lookup_delete_ne; [done|].
      intros ->. rewrite Ha in Hu. congruence.
  - intros id' q. rewrite lookup_insert_Some. intros [[<- <-]|[Hn Hq]] Hx; [done|].
    apply I3; [done|]. congruence.
  - intros b o. rewrite lookup_delete_Some. intros [Hne Hb]. destruct (I4 b o Hb) as [Hlt Hok].
    split; [done|]. unfold op_ok in *.
    destruct (op_kind o); auto; destruct Hok as (id' & q & Ho & Hq & Hop);
      (destruct (decide (id' = id)) as [->|];
       [exists id, c'; rewrite lookup_insert_eq; simplify_eq; split; [done|split; [done|auto]]
       |exists id', q; by rewrite lookup_insert_ne]).
  - intros id' q. rewrite lookup_insert_Some. intros [[<- <-]|[_ Hq]]; eauto.
  - intros id' q. rewrite lookup_insert_Some. intros [[<- <-]|[_ Hq]]; [rewrite Hf|]; eauto.
  - intros id1 id2 k1 k2. rewrite !lookup_insert_Some.
    intros [[<- <-]|[_ H1]] [[<- <-]|[_ H2]]; rewrite ?Hf; eauto.
Qed.

Lemma fresh_op x h e : Inv x h e -> ops (ring e) !! next_op (ring e) = None.
Proof.
  intros I. destruct (ops (ring e) !! next_op (ring e)) as [o|] eqn:E; [|done].
  destruct (i_ops _ _ _ I _ _ E) as [H _]. lia.
Qed.

(** A new operation for a connection. *)
Lemma Inv_new x h e id c c' k :
  Inv x h e -> conns_ (net e) !! id = Some c ->
  let a := next_op (ring e) in
  conn_core (opt_ e) (<[a := mkOp k (Some id) 0]> (ops (ring e))) id c' -> fd_ c' = fd_ c ->
  match k with Recv => recv_op c' = Some a | Send => send_op c' = Some a | _ => False end ->
  (forall b, recv_op c = Some b -> recv_op c' = Some b) ->
  (forall b, send_op c = Some b -> send_op c' = Some b) ->
  (x <> Some id -> conn_good c' (tokens (chan e) h id)) ->
  Inv x h (e_put id c' (e_new (mkOp k (Some id) 0) e)).
Proof.
  intros I Hc a Hcore Hf Hk Hr Hs Hg. pose proof (fresh_op _ _ _ I) as Hfresh. fold a in Hfresh.
  destruct I as [I1 I2 I3 I4 I5 I6 I7 I8]. split; simpl; auto.
  - intros id' q. rewrite lookup_insert_Some. intros [[<- <-]|[Hn Hq]]; [done|].
    destruct (I2 _ _ Hq) as [C1 C2 C3 C4 C5 C6 C7 C8]. split; auto.
    + intros b Hb. destruct (C5 b Hb) as [u Hu]. exists u. rewrite lookup_insert_ne; [done|].
      unfold a in *. congruence.
    + intros b Hb. destruct (C6 b Hb) as [u Hu]. exists u. rewrite lookup_insert_ne; [done|].
      unfold a in *. congruence.
  - intros id' q. rewrite lookup_insert_Some. intros [[<- <-]|[Hn Hq]]; auto.
  - intros b o. rewrite lookup_insert_Some. intros [[<- <-]|[Hne Hb]].
    + split; [unfold a; lia|]. unfold op_ok. simpl.
      destruct k; try done; exists id, c'; by rewrite lookup_insert_eq.
    + destruct (I4 b o Hb) as [Hlt Hok]. split; [lia|]. unfold op_ok in *.
      destruct (op_kind o); auto; destruct Hok as (id' & q & Ho & Hq & Hop);
        (destruct (decide (id' = id)) as [->|];
         [exists id, c'; rewrite lookup_insert_eq; simplify_eq; split; [done|split; [done|auto]]
         |exists id', q; by rewrite lookup_insert_ne]).
  - intros id' q. rewrite lookup_insert_Some. intros [[<- <-]|[_ Hq]]; eauto.
  - intros id' q. rewrite lookup_insert_Some. intros [[<- <-]|[_ Hq]]; [rewrite Hf|]; eauto.
  - intros id1 id2 k1 k2. rewrite !lookup_insert_Some.
    intros [[<- <-]|[_ H1]] [[<- <-]|[_ H2]]; rewrite ?Hf; eauto.
Qed.

(** Operations without a connection come and go freely. *)
Definition plain (k : OpKind) : Prop := match k with Recv | Send => False | _ => True end.

Lemma Inv_new_plain x h e k : plain k -> Inv x h e -> Inv x h (e_new (mkOp k None 0) e).
Proof.
  intros Hk I. pose proof (fresh_op _ _ _ I) as Hfresh.
  destruct I as [I1 I2 I3 I4 I5 I6 I7 I8]. split; simpl; auto.
  - intros id' q Hq. destruct (I2 _ _ Hq) as [C1 C2 C3 C4 C5 C6 C7 C8]. split; auto.
    + intros b Hb. destruct (C5 b Hb) as [u Hu]. exists u. rewrite lookup_insert_ne; congruence.
    + intros b Hb. destruct (C6 b Hb) as [u Hu]. exists u. rewrite lookup_insert_ne; congruence.
  - intros b o. rewrite lookup_insert_Some. intros [[<- <-]|[Hne Hb]].
    + split; [lia|]. by destruct k.
    + destruct (I4 b o Hb). split; [lia|done].
Qed.

Lemma Inv_del_plain x h e a o :
  ops (ring e) !! a = Some o -> plain (op_kind o) -> Inv x h e -> Inv x h (e_del a e).
Proof.
  intros Ha Hk [I1 I2 I3 I4 I5 I6 I7 I8]. split; simpl; auto.
  - intros id' q Hq. destruct (I2 _ _ Hq) as [C1 C2 C3 C4 C5 C6 C7 C8]. split; auto.
    + intros b Hb. destruct (C5 b Hb) as [u Hu]. exists u. rewrite lookup_delete_ne; [done|].
      intros ->. rewrite Ha in Hu. injection Hu as ->. done.
    + intros b Hb. destruct (C6 b Hb) as [u Hu]. exists u. rewrite lookup_delete_ne; [done|].
      intros ->. rewrite Ha in Hu. injection Hu as ->. done.
  - intros b o'. rewrite lookup_delete_Some. intros [_ Hb]. by apply I4.
Qed.

(** A connection without operations in flight can be released. *)
Lemma Inv_drop h e id c :
  Inv (Some id) h e -> conns_ (net e) !! id = Some c -> recv_op c = None -> send_op c = None ->
  Inv None h (e_drop id (fd_ c) e).
Proof.
  intros [I1 I2 I3 I4 I5 I6 I7 I8] Hc Hr Hs. split; simpl; auto.
  - intros id' q. rewrite lookup_delete_Some. intros [_ Hq]. by apply I2.
  - intros id' q. rewrite lookup_delete_Some. intros [Hn Hq] _. apply I3; [done|]. congruence.
  - intros b o Hb. destruct (I4 b o Hb) as [Hlt Hok]. split; [done|]. unfold op_ok in *.
    destruct (op_kind o); auto; destruct Hok as (id' & q & Ho & Hq & Hop);
      exists id', q; (rewrite lookup_delete_ne; [done|]); intros <-; simplify_eq; congruence.
  - intros id' q. rewrite lookup_delete_Some. intros [_ Hq]. eauto.
  - intros id' q. rewrite lookup_delete_Some. intros [Hn Hq].
    apply elem_of_difference. split; [eauto|]. rewrite elem_of_singleton. intros Hf.
    apply Hn. symmetry. eapply I8; eauto.
  - intros id1 id2 k1 k2. rewrite !lookup_delete_Some. intros [_ H1] [_ H2]. eauto.
Qed.

(** ** Closing *)

Lemma wp_finalize id c h e :
  Inv (Some id) h e -> conns_ (net e) !! id = Some c -> state c = Closing ->
  wp (maybe_finalize id) (fun _ e' => Inv None h e') e.
Proof.
  intros I Hc Hst. unfold maybe_finalize. apply wp_bind. apply (wp_deref _ c); [done|].
  rewrite Hst. rewrite bool_decide_eq_true_2 by done. simpl.
  destruct (Z.gtb_spec (pending_ops c) 0) as [Hp|Hp].
  - apply wp_ret. apply (Inv_close id c); [done|done|]. unfold conn_good. rewrite Hst. lia.
  - pose proof (i_core _ _ _ I _ _ Hc) as Hcore. pose proof (cc_count _ _ _ _ Hcore) as Hn.
    assert (recv_op c = None /\ send_op c = None) as [Hr Hs].
    { destruct (recv_op c), (send_op c); simpl in Hn; try lia; done. }
    apply wp_bind, wp_close_fd; [by eapply i_fds|].
    exact (Inv_drop h e id c I Hc Hr Hs).
Qed.

Lemma core_state o ops id c s : conn_core o ops id c -> conn_core o ops id (set_state c s).
Proof. intros [C1 [W1 W2 W3] C3 C4 C5 C6 C7 C8]. split; try done. Qed.

Lemma wp_close_conn id c h e :
  Inv (Some id) h e -> conns_ (net e) !! id = Some c -> state c <> Closing ->
  wp (close_conn id) (fun _ e' => Inv None h e') e.
Proof.
  intros I Hc Hst. unfold close_conn. apply wp_bind. apply (wp_deref _ c); [done|].
  rewrite bool_decide_eq_false_2 by done. apply wp_bind, wp_put.
  assert (I1 : Inv (Some id) h (e_put id (set_state c Closing) e)).
  { apply (Inv_put _ _ _ _ c); try done. apply core_state. by eapply i_core. }
  apply wp_bind, wp_cancel. intros e1 H1. apply wp_bind, wp_cancel. intros e2 H2.
  assert (H12 : same_core (e_put id (set_state c Closing) e) e2) by (by transitivity e1).
  apply (wp_finalize id (set_state c Closing)); [by eapply Inv_same | | done].
  rewrite (sc_net _ _ H12). simpl. apply lookup_insert_eq.
Qed.

(** ** Submissions *)

Lemma wp_simple k x h e :
  plain k -> Inv x h e -> wp (submit_simple k) (fun _ e' => Inv x h e') e.
Proof.
  intros Hk I. unfold submit_simple. apply wp_bind, wp_get_sqe. intros b e1 H1.
  pose proof (Inv_same _ _ _ _ H1 I) as I1. destruct b; [|by apply wp_ret].
  apply wp_bind, wp_new, wp_ret. by apply Inv_new_plain.
Qed.

Lemma core_rx o ops id c a p n :
  (n <= length p)%nat -> conn_core o ops id c -> conn_core o ops id (set_rx c a p n).
Proof. intros Hn [C1 [W1 W2 W3] C3 C4 C5 C6 C7 C8]. split; done. Qed.

Lemma core_prepare o ops id c n : conn_core o ops id c -> conn_core o ops id (rx_prepare n c).
Proof.
  intros Hc. destruct (rx_prepare_spec n c) as (_ & Hl & _); [apply Hc|].
  unfold rx_prepare in *. destruct (_ <? _)%nat; [|done]. by apply core_rx.
Qed.

Lemma prepare_fields n c :
  recv_op (rx_prepare n c) = recv_op c /\ send_op (rx_prepare n c) = send_op c
  /\ fd_ (rx_prepare n c) = fd_ c /\ state (rx_prepare n c) = state c
  /\ pending_ops (rx_prepare n c) = pending_ops c.
Proof. unfold rx_prepare. by destruct (_ <? _)%nat. Qed.

(** Adding an operation to a connection that has none of its kind. *)
Lemma core_add_recv o ops a id c :
  ops !! a = None -> conn_core o ops id c -> recv_op c = None ->
  conn_core o (<[a := mkOp Recv (Some id) 0]> ops) id (set_ops c (pending_ops c + 1) (Some a) (send_op c)).
Proof.
  intros Ha [C1 [W1 W2 W3] C3 C4 C5 C6 C7 C8] Hr. split; simpl; try done.
  - rewrite C4, Hr. simpl. lia.
  - intros b [= <-]. exists 0. apply lookup_insert_eq.
  - intros b Hb. destruct (C6 b Hb) as [v Hv]. exists v. rewrite lookup_insert_ne; congruence.
Qed.

Lemma core_add_send o ops a id c :
  ops !! a = None -> conn_core o ops id c -> send_op c = None -> send_q_ c <> [] ->
  conn_core o (<[a := mkOp Send (Some id) 0]> ops) id
    (set_send_active (set_ops c (pending_ops c + 1) (recv_op c) (Some a)) true).
Proof.
  intros Ha [C1 [W1 W2 W3] C3 C4 C5 C6 C7 C8] Hs Hq. split; simpl; try done.
  - rewrite C4, Hs. simpl. lia.
  - intros b Hb. destruct (C5 b Hb) as [v Hv]. exists v. rewrite lookup_insert_ne; congruence.
  - intros b [= <-]. exists 0. apply lookup_insert_eq.
Qed.

Lemma wp_recv id c h e :
  Inv (Some id) h e -> conns_ (net e) !! id = Some c -> recv_op c = None -> state c = Active ->
  tokens (chan e) h id = 0%nat ->
  wp (submit_recv id) (fun ok e' =>
    if ok : bool then Inv None h e'
    else Inv (Some id) h e' /\ exists c', conns_ (net e') !! id = Some c' /\ state c' = Active
           /\ recv_op c' = None /\ send_op c' = send_op c /\ fd_ c' = fd_ c) e.
Proof.
  intros I Hc Hr Hst Ht. unfold submit_recv. apply wp_bind. apply (wp_deref _ c); [done|].
  apply wp_bind, wp_get. set (c1 := rx_prepare (rx_buf_bytes (opt_ e)) c).
  destruct (prepare_fields (rx_buf_bytes (opt_ e)) c) as (F1 & F2 & F3 & F4 & F5). fold c1 in F1, F2, F3, F4, F5.
  apply wp_bind, wp_put.
  assert (I1 : Inv (Some id) h (e_put id c1 e)).
  { apply (Inv_put _ _ _ _ c); try done. apply core_prepare. by eapply i_core. }
  apply wp_bind, wp_get_sqe. intros b e1 H1. pose proof (Inv_same _ _ _ _ H1 I1) as I2.
  assert (Hc1 : conns_ (net e1) !! id = Some c1).
  { rewrite (sc_net _ _ H1). simpl. apply lookup_insert_eq. }
  destruct b.
  - apply wp_bind, wp_new, wp_bind, wp_put, wp_ret.
    apply (Inv_close id (set_ops c1 (pending_ops c1 + 1) (Some (next_op (ring e1))) (send_op c1))).
    + apply (Inv_new _ _ _ _ c1); try done; simpl; try congruence.
      apply core_add_recv; [by eapply fresh_op | by eapply i_core | congruence].
    + simpl. apply lookup_insert_eq.
    + simpl. unfold conn_good. simpl. rewrite F4, Hst. split; [done|].
      rewrite (sc_chan _ _ H1). done.
  - apply wp_ret. split; [done|]. exists c1. split; [done|]. split; [congruence|].
    split; [congruence|]. split; congruence.
Qed.

Lemma wp_send id c x h e :
  Inv x h e -> conns_ (net e) !! id = Some c -> send_op c = None -> send_q_ c <> [] ->
  wp (submit_send id) (fun _ e' => Inv x h e') e.
Proof.
  intros I Hc Hs Hq. unfold submit_send. apply wp_bind. apply (wp_deref _ c); [done|].
  destruct (send_q_ c) as [|b0 q0] eqn:Eq; [done|].
  apply wp_bind, wp_get_sqe. intros b e1 H1. pose proof (Inv_same _ _ _ _ H1 I) as I1.
  destruct b; [|by apply wp_ret].
  assert (Hc1 : conns_ (net e1) !! id = Some c) by (by rewrite (sc_net _ _ H1)).
  apply wp_bind, wp_new, wp_bind, wp_put, wp_ret.
  apply (Inv_new _ _ _ _ c); try done; simpl; try congruence.
  - apply core_add_send; [by eapply fresh_op | by eapply i_core | done | congruence].
  - intros Hx. pose proof (i_good _ _ _ I1 _ _ Hc1 Hx) as Hg.
    unfold conn_good in *. simpl. destruct (state c); try done. lia.
Qed.

(** ** Responses *)

Lemma core_push o ops id c bs :
  conn_core o ops id c -> send_bytes_ c + size_of bs <= send_backlog_limit o < 2 ^ 64 ->
  conn_core o ops id (send_push bs c) /\ send_q_ (send_push bs c) <> [].
Proof.
  intros [C1 C2 C3 C4 C5 C6 C7 C8] Hl.
  destruct (send_push_spec bs c C2) as (_ & Hwf & Hb); [lia|].
  assert (Hq : send_q_ (send_push bs c) <> []) by (simpl; by destruct (send_q_ c)).
  split; [|done]. split; try done. rewrite Hb. lia.
Qed.

Lemma wp_response id c fr h e :
  Inv None h e -> conns_ (net e) !! id = Some c -> state c <> Closing ->
  wp (push_response id fr) (fun _ e' => Inv None h e') e.
Proof.
  intros I Hc Hst. unfold push_response. apply wp_bind. apply (wp_deref _ c); [done|].
  apply wp_bind, wp_get.
  destruct (Z.gtb_spec (send_bytes_ c + size_of fr) (send_backlog_limit (opt_ e))) as [Hl|Hl].
  - apply wp_bind. eapply wp_mono; [apply (wp_close_conn id c h); [by apply Inv_open|done|done]|].
    intros ? e' I'. cbv beta in I'. by apply wp_ret.
  - destruct (core_push (opt_ e) (ops (ring e)) id c fr) as [Hcore Hq];
      [by eapply i_core | pose proof (i_opt _ _ _ I); lia |].
    apply wp_bind, wp_put.
    assert (I1 : Inv None h (e_put id (send_push fr c) e)).
    { apply (Inv_put _ _ _ _ c); try done. intros _.
      pose proof (i_good _ _ _ I _ _ Hc ltac:(done)) as Hg. unfold conn_good in *. simpl.
      by destruct (state c). }
    apply wp_bind. destruct (send_active_ c) eqn:Ea; [by apply wp_ret, wp_ret|].
    assert (Hs : send_op c = None).
    { pose proof (cc_active _ _ _ _ (i_core _ _ _ I _ _ Hc)) as H. rewrite Ea in H.
      by destruct (send_op c). }
    apply wp_bind. eapply wp_mono.
    { apply (wp_send id (send_push fr c) None h); [done | simpl; apply lookup_insert_eq | done | done]. }
    intros ? e' I'. cbv beta in I'. by apply wp_ret, wp_ret.
Qed.

(** ** The outbox *)

Lemma tokens_cons ch it h id :
  tokens ch (it :: h) id = ((if is_term id it then 1 else 0) + tokens ch h id)%nat.
Proof.
  unfold tokens, count_term. simpl. destruct (is_term id it); simpl; lia.
Qed.

Lemma Inv_hand it h e : Inv None (it :: h) e -> Inv (Some (it_conn it)) h e.
Proof.
  intros [I1 I2 I3 I4 I5 I6 I7 I8]. split; auto.
  - intros id c Hc Hx. specialize (I3 id c Hc ltac:(done)). rewrite tokens_cons in I3.
    assert (Hf : is_term id it = false).
    { unfold is_term. destruct (Z.eqb_spec (it_conn it) id); [congruence|done]. }
    by rewrite Hf in I3.
  - intros id Hid. specialize (I6 id Hid). rewrite tokens_cons in I6. lia.
Qed.

Lemma wp_item it h e :
  Inv None (it :: h) e -> wp (on_item it) (fun _ e' => Inv None h e') e.
Proof.
  intros I. pose proof (Inv_hand it h e I) as Ih. unfold on_item. apply wp_bind, wp_get.
  destruct (conns_ (net e) !! it_conn it) as [c|] eqn:Hc.
  2:{ apply wp_ret. destruct Ih as [I1 I2 I3 I4 I5 I6 I7 I8]. split; auto.
      intros id k Hk _. apply I3; [done|]. congruence. }
  pose proof (i_good _ _ _ I _ _ Hc ltac:(done)) as Hg. rewrite tokens_cons in Hg.
  unfold is_term in Hg. rewrite Z.eqb_refl in Hg. simpl andb in Hg.
  destruct (decide (state c = Closing)) as [Hcl|Hcl].
  { rewrite bool_decide_eq_true_2 by done. apply wp_ret. apply (Inv_close (it_conn it) c); try done.
    unfold conn_good in *. by rewrite Hcl in *. }
  rewrite bool_decide_eq_false_2 by done. destruct (it_kind it) eqn:Ek.
  - rewrite bool_decide_eq_true_2 in Hg by done. simpl in Hg.
    apply wp_bind. eapply wp_mono.
    { apply (wp_response (it_conn it) c (it_bytes it) h); [|done|done]. by apply (Inv_close (it_conn it) c). }
    intros ? e' I'. cbv beta in I'. by apply wp_ret.
  - rewrite bool_decide_eq_false_2 in Hg by done. simpl in Hg.
    apply wp_bind, wp_get. destruct (draining_ (flags e)); [by apply (wp_close_conn _ c)|].
    destruct (state c) eqn:Hst; unfold conn_good in Hg; rewrite Hst in Hg; [lia| |done].
    rewrite bool_decide_eq_true_2 by done. simpl negb. cbv iota. destruct Hg as [Hr Ht].
    assert (Hcore : conn_core (opt_ e) (ops (ring e)) (it_conn it) (rx_feed (it_bytes it) c)).
    { pose proof (i_core _ _ _ I _ _ Hc) as Hcore.
      destruct (rx_feed_spec (it_bytes it) c) as [_ Hl]; [apply Hcore|]. by apply core_rx. }
    apply wp_bind, wp_put. apply wp_bind. eapply wp_mono.
    { apply (wp_recv (it_conn it) (set_state (rx_feed (it_bytes it) c) Active) h).
      - apply (Inv_put _ _ _ _ c); try done. by apply core_state.
      - simpl. apply lookup_insert_eq.
      - done.
      - done.
      - simpl. lia. }
    intros ok e' H'. destruct ok; [by apply wp_ret|].
    destruct H' as (I' & c' & Hc' & Hs' & _). apply (wp_close_conn _ c'); congruence.
  - by apply (wp_close_conn _ c).
Qed.

Lemma wp_items its : forall e,
  Inv None its e -> wp (each_item its) (fun _ e' => Inv None [] e') e.
Proof.
  induction its as [|it its IH]; intros e I; [done|]. cbn [each_item].
  apply wp_bind. eapply wp_mono; [by apply wp_item|]. intros ? e' I'. cbv beta in I'. by apply IH.
Qed.

Lemma wp_drain_outbox e : Inv None [] e -> wp drain_outbox (fun _ e' => Inv None [] e') e.
Proof.
  intros I. unfold drain_outbox. apply wp_bind, wp_get. apply wp_bind. unfold wp at 1. simpl.
  apply wp_items. destruct I as [I1 I2 I3 I4 I5 I6 I7 I8].
  assert (Ht : forall id, tokens (mkChan [] (efd_ (chan e)) (jobs (chan e)) (running (chan e)))
                    (outbox_ (chan e)) id = tokens (chan e) [] id).
  { intros id. unfold tokens. simpl. unfold count_term. simpl. lia. }
  split; simpl; auto.
  - intros id c Hc Hx. rewrite Ht. by apply I3.
  - intros id Hid. rewrite Ht. by apply I6.
Qed.

(** ** The response ring and closing in bulk *)

Lemma wp_rsp s e : Inv None [] e -> wp (on_rsp s) (fun _ e' => Inv None [] e') e.
Proof.
  intros I. unfold on_rsp. destruct (rsp_len s =? 0); [by apply wp_ret|].
  destruct (rsp_len s >? kRspMax); [by apply wp_ret|]. apply wp_bind, wp_get.
  destruct (conns_ (net e) !! rsp_conn s) as [c|] eqn:Hc; [|by apply wp_ret].
  destruct (decide (state c = Closing)) as [Hcl|Hcl];
    [rewrite bool_decide_eq_true_2 by done; by apply wp_ret|].
  rewrite bool_decide_eq_false_2 by done. apply wp_bind.
  eapply wp_mono; [by apply (wp_response _ c)|]. intros ? e' I'. cbv beta in I'. by apply wp_ret.
Qed.

Lemma wp_rsps l : forall e, Inv None [] e -> wp (each_rsp l) (fun _ e' => Inv None [] e') e.
Proof.
  induction l as [|s l IH]; intros e I; [done|]. cbn [each_rsp].
  apply wp_bind. eapply wp_mono; [by apply wp_rsp|]. intros ? e' I'. cbv beta in I'. by apply IH.
Qed.

Lemma wp_drain_ring rsp e :
  Inv None [] e -> wp (drain_response_ring rsp) (fun _ e' => Inv None [] e') e.
Proof.
  intros I. unfold drain_response_ring. destruct rsp as [v|]; [|by apply wp_ret]. apply wp_bind, wp_now. intros t e1 H1.
  apply wp_bind, wp_get. pose proof (Inv_same _ _ _ _ H1 I) as I1. apply wp_bind.
  destruct (t - last_rsp_hb_ (flags e1) >=? 10 ^ 9); [|apply wp_ret; by apply wp_rsps].
  apply wp_bind, wp_flags. intros e2 H2. pose proof (Inv_same _ _ _ _ H2 I1) as I2.
  apply wp_bind, wp_get. destruct (negb _ && peer_dead v).
  - apply wp_flags. intros e3 H3. apply wp_rsps. by eapply Inv_same.
  - apply wp_ret. by apply wp_rsps.
Qed.

Lemma wp_close_ids ids : forall e,
  Inv None [] e -> wp (close_ids ids) (fun _ e' => Inv None [] e') e.
Proof.
  induction ids as [|id ids IH]; intros e I; [done|]. cbn [close_ids].
  apply wp_bind, wp_get, wp_bind. destruct (conns_ (net e) !! id) as [c|] eqn:Hc;
    [|apply wp_ret; by apply IH].
  destruct (decide (state c = Closing)) as [Hcl|Hcl].
  - unfold close_conn. apply wp_bind. apply (wp_deref _ c); [done|].
    rewrite bool_decide_eq_true_2 by done. apply wp_ret. by apply IH.
  - eapply wp_mono; [apply (wp_close_conn id c); [by apply Inv_open|done|done]|].
    intros ? e' I'. cbv beta in I'. by apply IH.
Qed.

Lemma wp_sweep e : Inv None [] e -> wp sweep_idle (fun _ e' => Inv None [] e') e.
Proof.
  intros I. unfold sweep_idle. apply wp_bind, wp_get.
  destruct (idle_timeout (opt_ e) <=? 0); [by apply wp_ret|].
  apply wp_bind, wp_now. intros t e1 H1. apply wp_bind, wp_get. apply wp_close_ids. by eapply Inv_same.
Qed.

Lemma wp_enter_drain e : Inv None [] e -> wp enter_drain (fun _ e' => Inv None [] e') e.
Proof.
  intros I. unfold enter_drain. apply wp_bind, wp_get.
  destruct (stopping_ (flags e) && negb (draining_ (flags e))); [|by apply wp_ret].
  apply wp_bind. destruct (drain_deadline_ (flags e) =? 0).
  - apply wp_bind, wp_now. intros t e1 H1. apply wp_ret, wp_flags. intros e2 H2.
    eapply Inv_same; [exact H2|]. by eapply Inv_same.
  - apply wp_ret, wp_flags. intros e2 H2. by eapply Inv_same.
Qed.

(** ** Completions *)

Lemma op_owner e a k id v :
  Inv None [] e -> ops (ring e) !! a = Some (mkOp k (Some id) v) -> (k = Recv \/ k = Send) ->
  exists c, conns_ (net e) !! id = Some c
    /\ (k = Recv -> recv_op c = Some a) /\ (k = Send -> send_op c = Some a).
Proof.
  intros I Ha Hk. destruct (i_ops _ _ _ I _ _ Ha) as [_ Hok]. unfold op_ok in Hok. simpl in Hok.
  destruct Hk as [-> | ->]; destruct Hok as (id' & c & [= <-] & Hc & Hr); exists c; by repeat split.
Qed.

Definition e_post (id : Z) (raw : list byte) (e : Engine) : Engine :=
  mkEngine (opt_ e) (ring e) (flags e) (net e)
    (mkChan (outbox_ (chan e)) (efd_ (chan e)) (jobs (chan e) ++ [(id, raw)]) (running (chan e))).

Lemma tokens_post id raw e id' :
  tokens (chan (e_post id raw e)) [] id'
  = ((if (id =? id')%Z then 1 else 0) + tokens (chan e) [] id')%nat.
Proof.
  unfold tokens. simpl. rewrite List.filter_app, length_app. simpl.
  destruct (id =? id'); simpl; lia.
Qed.

Lemma Inv_post id raw c e :
  Inv (Some id) [] e -> conns_ (net e) !! id = Some c -> state c = Parsing -> recv_op c = None ->
  tokens (chan e) [] id = 0%nat -> Inv None [] (e_post id raw e).
Proof.
  intros I Hc Hst Hr Ht. pose proof (i_fresh _ _ _ I _ _ Hc) as Hlt.
  destruct I as [I1 I2 I3 I4 I5 I6 I7 I8].
  split; auto.
  - intros id' c' Hc' _. rewrite tokens_post. simpl in Hc'. destruct (Z.eqb_spec id id') as [<-|Hn].
    + simplify_eq. unfold conn_good. rewrite Hst, Ht. done.
    + apply I3; [done|]. congruence.
  - intros id' Hid. rewrite tokens_post. simpl in Hid. destruct (Z.eqb_spec id id'); [lia|].
    by apply I6.
Qed.

Lemma core_recv_done o ops id c a :
  conn_core o ops id c -> recv_op c = Some a ->
  (exists v, ops !! a = Some (mkOp Recv (Some id) v)) ->
  conn_core o (delete a ops) id (set_ops c (pending_ops c - 1) None (send_op c)).
Proof.
  intros [C1 [W1 W2 W3] C3 C4 C5 C6 C7 C8] Hr [v Hv]. split; simpl; try done.
  - rewrite C4, Hr. simpl. lia.
  - intros b Hb. destruct (C6 b Hb) as [u Hu]. exists u. rewrite lookup_delete_ne; [done|]. congruence.
Qed.

Lemma core_send_done o ops id c a :
  conn_core o ops id c -> send_op c = Some a -> (exists v, ops !! a = Some (mkOp Send (Some id) v)) ->
  conn_core o (delete a ops) id
    (set_send_active (set_ops c (pending_ops c - 1) (recv_op c) None) false).
Proof.
  intros [C1 [W1 W2 W3] C3 C4 C5 C6 C7 C8] Hs [v Hv]. split; simpl; try done.
  - rewrite C4, Hs. simpl. lia.
  - intros b Hb. destruct (C5 b Hb) as [u Hu]. exists u. rewrite lookup_delete_ne; [done|]. congruence.
Qed.

Lemma wp_complete_recv op id v c res e :
  Inv None [] e -> ops (ring e) !! op = Some (mkOp Recv (Some id) v) ->
  conns_ (net e) !! id = Some c ->
  (0 < res -> (rx_len_ c + Z.to_nat res <= length (pending_ c))%nat) ->
  wp (complete_recv op id res) (fun _ e' => Inv None [] e') e.
Proof.
  intros I Ho Hc Hrx.
  destruct (op_owner e op Recv id v I Ho) as (c0 & Hc0 & Hr & _); [by left|].
  specialize (Hr eq_refl). simplify_eq.
  pose proof (i_good _ _ _ I _ _ Hc ltac:(done)) as Hg.
  unfold complete_recv. apply wp_bind. apply (wp_deref _ c); [done|].
  set (c1 := set_ops c (pending_ops c - 1) None (send_op c)).
  apply wp_bind, wp_put, wp_bind, wp_del.
  assert (I1 : Inv (Some id) [] (e_del op (e_put id c1 e))).
  { apply (Inv_del [] e id c c1 op Recv v); try done.
    - apply core_recv_done; [by eapply i_core | done | by exists v].
    - intros b Hb Hrb. congruence. }
  assert (Hc1 : conns_ (net (e_del op (e_put id c1 e))) !! id = Some c1) by apply lookup_insert_eq.
  set (e1 := e_del op (e_put id c1 e)) in *.
  destruct (decide (state c = Closing)) as [Hcl|Hcl].
  { rewrite bool_decide_eq_true_2 by done. by apply (wp_finalize id c1). }
  rewrite bool_decide_eq_false_2 by done.
  destruct (Z.ltb_spec res 0); [by apply (wp_close_conn id c1)|].
  destruct (Z.eqb_spec res 0); [by apply (wp_close_conn id c1)|].
  apply wp_bind, wp_now. intros t e2 H2.
  set (c2 := set_last_active (rx_commit (Z.to_nat res) c1) t).
  apply wp_bind, wp_put, wp_bind, wp_get.
  assert (Hc2' : conns_ (net e2) !! id = Some c1) by (by rewrite (sc_net _ _ H2)).
  assert (I2 : Inv (Some id) [] (e_put id c2 e2)).
  { apply (Inv_put _ _ _ _ c1); try done; [by eapply Inv_same|].
    pose proof (i_core _ _ _ (Inv_same _ _ _ _ H2 I1) _ _ Hc2') as [D1 [D2 D2' D2''] D3 D4 D5 D6 D7 D8].
    split; try done. split; simpl; [lia | done | done]. }
  assert (Hc2 : conns_ (net (e_put id c2 e2)) !! id = Some c2) by apply lookup_insert_eq.
  destruct (_ >? _); [by apply (wp_close_conn id c2)|].
  destruct (rx_take (rx_buf_bytes (opt_ (e_put id c2 e2))) c2) as [raw c3] eqn:Et.
  assert (F3 : c3 = set_rx c2 (S (rx_alloc_ c2)) (resize [] (rx_buf_bytes (opt_ (e_put id c2 e2)))) 0)
    by (unfold rx_take in Et; by injection Et as _ <-).
  apply wp_bind, wp_put.
  change (wp (post id raw) (fun _ e' => Inv None [] e') (e_put id (set_state c3 Parsing) (e_put id c2 e2))).
  apply (Inv_post id raw (set_state c3 Parsing)).
  - apply (Inv_put _ _ _ _ c2); try done; rewrite F3; try done.
    apply core_state, core_rx; [lia|]. by apply (i_core _ _ _ I2).
  - simpl. apply lookup_insert_eq.
  - done.
  - by rewrite F3.
  - unfold conn_good in Hg. simpl. rewrite (sc_chan _ _ H2). simpl.
    destruct (state c); [tauto | destruct Hg; congruence | done].
Qed.

Lemma wp_complete_send op id v c res e :
  Inv None [] e -> ops (ring e) !! op = Some (mkOp Send (Some id) v) ->
  conns_ (net e) !! id = Some c -> (Z.to_nat res <= length (send_content c))%nat ->
  wp (complete_send op id res) (fun _ e' => Inv None [] e') e.
Proof.
  intros I Ho Hc Hn.
  destruct (op_owner e op Send id v I Ho) as (c0 & Hc0 & _ & Hs); [by right|].
  specialize (Hs eq_refl). simplify_eq.
  pose proof (i_good _ _ _ I _ _ Hc ltac:(done)) as Hg.
  unfold complete_send. apply wp_bind. apply (wp_deref _ c); [done|].
  set (c1 := set_send_active (set_ops c (pending_ops c - 1) (recv_op c) None) false).
  apply wp_bind, wp_put, wp_bind, wp_del.
  assert (I1 : Inv (Some id) [] (e_del op (e_put id c1 e))).
  { apply (Inv_del [] e id c c1 op Send v); try done.
    - apply core_send_done; [by eapply i_core | done | by exists v].
    - intros b Hb Hrb. congruence. }
  assert (Hc1 : conns_ (net (e_del op (e_put id c1 e))) !! id = Some c1) by apply lookup_insert_eq.
  set (e1 := e_del op (e_put id c1 e)) in *.
  destruct (decide (state c = Closing)) as [Hcl|Hcl].
  { rewrite bool_decide_eq_true_2 by done. by apply (wp_finalize id c1). }
  rewrite bool_decide_eq_false_2 by done.
  destruct (Z.ltb_spec res 0); [by apply (wp_close_conn id c1)|].
  apply wp_bind, wp_now. intros t e2 H2.
  assert (Hc2' : conns_ (net e2) !! id = Some c1) by (by rewrite (sc_net _ _ H2)).
  pose proof (Inv_same _ _ _ _ H2 I1) as I2.
  pose proof (i_core _ _ _ I2 _ _ Hc2') as [D1 D2 D3 D4 D5 D6 D7 D8].
  destruct (send_pop_spec (Z.to_nat res) c1 D2 Hn) as [Hcont Hwf].
  set (c2 := set_last_active (send_pop (Z.to_nat res) c1) t).
  assert (F : recv_op c2 = recv_op c /\ send_op c2 = None /\ fd_ c2 = fd_ c /\ state c2 = state c
              /\ pending_ops c2 = pending_ops c1 /\ send_active_ c2 = false /\ conn_id_ c2 = conn_id_ c).
  { unfold c2, send_pop. by destruct (pop_loop _ _ _). }
  destruct F as (F1 & F2 & F3 & F4 & F5 & F6 & F7).
  apply wp_bind, wp_put.
  assert (I3 : Inv None [] (e_put id c2 e2)).
  { apply (Inv_close id c2); [|simpl; apply lookup_insert_eq|].
    - apply (Inv_put _ _ _ _ c1); try done. split.
      + rewrite F7. exact D1.
      + by destruct Hwf; split.
      + pose proof (wf_bytes _ Hwf) as Hb. unfold c2. simpl. rewrite Hb, Hcont.
        pose proof (wf_bytes _ D2) as Hb1. unfold size_of in *. rewrite length_drop. lia.
      + rewrite F5, F1, F2, D4. done.
      + rewrite F1. exact D5.
      + by rewrite F2.
      + by rewrite F6, F2.
      + by rewrite F2.
    - unfold conn_good in *. rewrite F4, F1. change (chan (e_put id c2 e2)) with (chan e2).
      rewrite (sc_chan _ _ H2). by destruct (state c). }
  destruct (send_pending c2) eqn:Ep; [|by apply wp_ret].
  apply wp_bind. eapply wp_mono.
  { apply (wp_send id c2 None []); [done | simpl; apply lookup_insert_eq | done |].
    unfold send_pending in Ep. by destruct (send_q_ c2). }
  intros ? e' I'. by apply wp_ret.
Qed.

(** ** Accepting *)

Definition e_fds (f : gset Z) (e : Engine) : Engine :=
  mkEngine (opt_ e) (ring e) (flags e) (mkNet (conns_ (net e)) (next_conn_id_ (net e)) f) (chan e).

Lemma Inv_fds x h e f :
  (forall id c, conns_ (net e) !! id = Some c -> fd_ c ∈ f) -> Inv x h e -> Inv x h (e_fds f e).
Proof. intros Hf [I1 I2 I3 I4 I5 I6 I7 I8]. split; auto. Qed.

Definition e_conn (fd now : Z) (e : Engine) : Engine :=
  let id := next_conn_id_ (net e) in
  mkEngine (opt_ e) (ring e) (flags e)
    (mkNet (<[id := new_conn fd id (rx_buf_bytes (opt_ e)) now]> (conns_ (net e))) (id + 1) (fds (net e)))
    (chan e).

Lemma Inv_conn e fd now :
  Inv None [] e -> fd ∈ fds (net e) -> (forall id c, conns_ (net e) !! id = Some c -> fd_ c <> fd) ->
  Inv (Some (next_conn_id_ (net e))) [] (e_conn fd now e).
Proof.
  intros [I1 I2 I3 I4 I5 I6 I7 I8] Hfd Hnew. split; simpl; auto.
  - intros id c. rewrite lookup_insert_Some. intros [[<- <-]|[Hn Hc]]; [|auto].
    split; simpl; try done; [|lia].
    split; simpl; [rewrite length_resize; lia | done | lia].
  - intros id c. rewrite lookup_insert_Some. intros [[<- <-]|[Hn Hc]] Hx; [done|]. by apply I3.
  - intros a o Ha. destruct (I4 a o Ha) as [Hlt Hok]. split; [done|]. unfold op_ok in *.
    destruct (op_kind o); auto; destruct Hok as (id' & q & Ho & Hq & Hop); exists id', q;
      (rewrite lookup_insert_ne; [done|]); intros <-; apply I5 in Hq; lia.
  - intros id c. rewrite lookup_insert_Some. intros [[<- <-]|[Hn Hc]]; [lia|].
    apply I5 in Hc. lia.
  - intros id Hid. apply I6. lia.
  - intros id c. rewrite lookup_insert_Some. intros [[<- <-]|[Hn Hc]]; eauto.
  - intros id1 id2 c1 c2. rewrite !lookup_insert_Some.
    intros [[<- <-]|[N1 H1]] [[<- <-]|[N2 H2]]; simpl; eauto.
    + intros E. destruct (Hnew _ _ H2). done.
    + intros E. destruct (Hnew _ _ H1). done.
Qed.

Lemma wp_make_conn fd (Q : Z -> Engine -> Prop) e :
  Inv None [] e ->
  (forall t e1, same_core e e1 -> Q (next_conn_id_ (net e)) (e_conn fd t e1)) ->
  wp (make_conn fd) Q e.
Proof.
  intros I HQ. unfold make_conn. apply wp_bind, wp_get, wp_bind, wp_get, wp_bind.
  unfold wp at 1. cbn [steady_now]. apply wp_bind, wp_get. cbn [net].
  destruct (conns_ (net e) !! next_conn_id_ (net e)) as [cx|] eqn:Ex.
  { exfalso. apply (i_fresh _ _ _ I) in Ex. lia. }
  match goal with |- wp _ _ ?e1 => exact (HQ (clock (ring e) (clock_n (ring e))) e1 ltac:(done)) end.
Qed.

Lemma wp_complete_accept op o res e :
  Inv None [] e -> ops (ring e) !! op = Some o -> op_kind o = Accept ->
  (0 <= res -> res ∈ fds (net e) /\ forall id c, conns_ (net e) !! id = Some c -> fd_ c <> res) ->
  wp (complete_accept op res) (fun _ e' => Inv None [] e') e.
Proof.
  intros I Ho Hk Hfd. unfold complete_accept. apply wp_bind, wp_del.
  assert (I1 : Inv None [] (e_del op e)) by (eapply Inv_del_plain; eauto; by rewrite Hk).
  set (e1 := e_del op e) in *.
  apply wp_bind, wp_get. destruct (accepting_ (flags e1)); simpl negb; cbv iota.
  - destruct (Z.ltb_spec res 0) as [Hneg|Hpos].
    + destruct (negb (res =? - EINTR)); [|by apply wp_simple].
      apply wp_bind, wp_get, wp_bind, wp_flags. intros e2 H2. pose proof (Inv_same _ _ _ _ H2 I1) as I2.
      destruct (_ >=? 8); [|by apply wp_simple].
      apply wp_flags. intros e3 H3. by eapply Inv_same.
    + destruct (Hfd Hpos) as [Hin Hnew].
      apply wp_bind, wp_flags. intros e2 H2. pose proof (Inv_same _ _ _ _ H2 I1) as I2.
      assert (N2 : net e2 = net e) by (rewrite (sc_net _ _ H2); done).
      apply wp_bind, wp_make_conn; [done|]. intros t e3 H3.
      pose proof (Inv_same _ _ _ _ H3 I2) as I3.
      assert (N3 : net e3 = net e) by (rewrite (sc_net _ _ H3); done).
      set (id := next_conn_id_ (net e2)).
      assert (Hid : id = next_conn_id_ (net e3)) by (unfold id; by rewrite N2, N3).
      assert (I4 : Inv (Some id) [] (e_conn res t e3)).
      { rewrite Hid. apply Inv_conn; [done | by rewrite N3 | rewrite N3; exact Hnew]. }
      apply wp_bind. eapply wp_mono.
      { apply (wp_recv id (new_conn res id (rx_buf_bytes (opt_ e3)) t) []); try done.
        - rewrite Hid. simpl. apply lookup_insert_eq.
        - apply (i_idle _ _ _ I3). rewrite Hid. lia. }
      intros ok e5 H5. apply wp_bind. destruct ok; [apply wp_ret; by apply wp_simple|].
      destruct H5 as (I5 & c' & Hc' & _ & Hr' & Hs' & _).
      apply wp_bind. apply (wp_deref _ c'); [done|]. apply wp_bind.
      change (wp (close_fd (fd_ c')) (fun _ e' => wp submit_accept (fun _ e'' => Inv None [] e'') e')
        (mkEngine (opt_ e5) (ring e5) (flags e5)
           (mkNet (delete id (conns_ (net e5))) (next_conn_id_ (net e5)) (fds (net e5))) (chan e5))).
      apply wp_close_fd; [by eapply (i_fds _ _ _ I5)|].
      apply wp_simple; [done|]. exact (Inv_drop [] e5 id c' I5 Hc' Hr' Hs').
  - destruct (Z.leb_spec 0 res) as [Hpos|Hneg]; [|by apply wp_ret].
    destruct (Hfd Hpos) as [Hin Hnew]. apply wp_close_fd; [done|].
    apply (Inv_fds None [] e1); [|done]. intros id c Hc. apply elem_of_difference.
    split; [by apply (i_fds _ _ _ I) in Hc|]. rewrite elem_of_singleton. by eapply Hnew.
Qed.

(** ** Workers *)

Lemma count_term_app id l k : count_term id (l ++ k) = (count_term id l + count_term id k)%nat.
Proof. unfold count_term. by rewrite List.filter_app, length_app. Qed.

(** Responses of a batch are not final; an aborted batch ends with one Close. *)
Lemma worker_frames_term sink id id' fs : forall i its go,
  worker_frames sink i id fs = (its, go) ->
  count_term id' its = if go : bool then 0%nat else if (id =? id')%Z then 1%nat else 0%nat.
Proof.
  induction fs as [|f fs IH]; intros i its go; cbn [worker_frames].
  - intros [= <- <-]. done.
  - destruct (worker_reply id _ _) as [l|] eqn:Er.
    + destruct (worker_frames sink (S i) id fs) as [rest g] eqn:Ef. intros [= <- <-].
      rewrite count_term_app, (IH _ _ _ Ef).
      assert (Hl : count_term id' l = 0%nat); [|by rewrite Hl].
      unfold worker_reply in Er.
      destruct (sink i _) as [[|b bs]|[]]; try (injection Er as <-; done); try discriminate Er.
      destruct (stamp_seq _ _) as [[] st]; injection Er as <-; [|done].
      unfold count_term, is_term. simpl. by rewrite andb_false_r.
    + intros [= <- <-]. unfold count_term, is_term. simpl.
      destruct (id =? id'); done.
Qed.

(** a worker that has taken a batch always reports back exactly once: the
    items it pushes all belong to its connection, and exactly one of them, the
    last, either re-arms the connection (with the half frame left over) or
    closes it, whatever the sink answers or throws. *)
Theorem worker_batch_terminal sink id raw :
  (forall id', count_term id' (worker_batch sink id raw) = if (id =? id')%Z then 1%nat else 0%nat)
  /\ Forall (fun it => it_conn it = id) (worker_batch sink id raw)
  /\ exists pre it, worker_batch sink id raw = pre ++ [it] /\ it_kind it <> Respond
       /\ Forall (fun it => it_kind it = Respond) pre.
Proof.
  unfold worker_batch. destruct (cut_frames raw []) as [cut fs].
  assert (Hf : forall fs i its go, worker_frames sink i id fs = (its, go) ->
    Forall (fun it => it_conn it = id) its /\
    if go : bool then Forall (fun it => it_kind it = Respond) its
    else exists pre, its = pre ++ [mkItem Close id []] /\ Forall (fun it => it_kind it = Respond) pre).
  { clear. induction fs as [|f fs IH]; intros i its go; cbn [worker_frames].
    - intros [= <- <-]. done.
    - destruct (worker_reply id _ _) as [l|] eqn:Er.
      + destruct (worker_frames sink (S i) id fs) as [rest g] eqn:Ef. intros [= <- <-].
        assert (Hl : Forall (fun it => it_conn it = id) l /\ Forall (fun it => it_kind it = Respond) l).
        { unfold worker_reply in Er.
          destruct (sink i _) as [[|b bs]|[]]; try (injection Er as <-; done); try discriminate Er.
          destruct (stamp_seq _ _) as [[] st]; injection Er as <-; by repeat constructor. }
        destruct Hl as [Hl1 Hl2]. destruct (IH _ _ _ Ef) as [Hc Hg].
        split; [by apply Forall_app|]. destruct g; [by apply Forall_app|].
        destruct Hg as (pre & -> & Hp). exists (l ++ pre). rewrite app_assoc.
        split; [done|]. by apply Forall_app.
      + intros [= <- <-]. split; [by repeat constructor|]. by exists []. }
  destruct (worker_frames sink 0 id fs) as [its go] eqn:Ef.
  destruct (Hf _ _ _ _ Ef) as [Hc Hg]. split; [|split].
  - intros id'. pose proof (worker_frames_term sink id id' fs _ _ _ Ef) as Ht. destruct go; [|done].
    rewrite count_term_app, Ht. unfold count_term, is_term.
    destruct (cut_bad cut); simpl; by destruct (id =? id').
  - destruct go; [|done]. apply Forall_app. split; [done|]. constructor; [|done].
    by destruct (cut_bad cut).
  - destruct go.
    + do 2 eexists. split; [reflexivity|]. split; [by destruct (cut_bad cut) | done].
    + destruct Hg as (pre & -> & Hp). exists pre. eexists. by repeat split.
Qed.

Lemma worker_batch_count sink id raw id' :
  count_term id' (worker_batch sink id raw) = if (id =? id')%Z then 1%nat else 0%nat.
Proof.
  unfold worker_batch. destruct (cut_frames raw []) as [cut fs].
  destruct (worker_frames sink 0 id fs) as [its go] eqn:Ef.
  pose proof (worker_frames_term sink id id' fs _ _ _ Ef) as Ht. destruct go; [|done].
  rewrite count_term_app, Ht. unfold count_term, is_term.
  destruct (cut_bad cut); simpl; by destruct (id =? id').
Qed.

Lemma pushes_acts its : pushes (worker_acts its) = its.
Proof. induction its as [|it its IH]; [done|]. simpl. unfold pushes in *. simpl. by rewrite IH. Qed.

(** A change of the channels that keeps the counts keeps the invariant. *)
Definition e_chan (ch : Chan) (e : Engine) : Engine :=
  mkEngine (opt_ e) (ring e) (flags e) (net e) ch.

Lemma Inv_chan x h e ch :
  (forall id, tokens ch h id = tokens (chan e) h id) -> Inv x h e -> Inv x h (e_chan ch e).
Proof.
  intros Ht [I1 I2 I3 I4 I5 I6 I7 I8]. split; simpl; auto.
  - intros id c Hc Hx. rewrite Ht. by apply I3.
  - intros id Hid. rewrite Ht. by apply I6.
Qed.

Lemma filter_remove_at {X} (f : X -> bool) (l : list X) i x :
  l !! i = Some x ->
  (length (List.filter f l) = length (List.filter f (remove_at i l)) + (if f x then 1 else 0))%nat.
Proof.
  intros Hi. unfold remove_at.
  pose proof (f_equal (fun l => length (List.filter f l)) (take_drop_middle _ _ _ Hi)) as E.
  cbv beta in E. rewrite <- E. rewrite !List.filter_app, !length_app. simpl. destruct (f x); simpl; lia.
Qed.

Lemma wp_start_job i sink e :
  Inv None [] e -> wp (start_job i sink) (fun _ e' => Inv None [] e') e.
Proof.
  intros I. unfold wp, start_job. destruct (jobs (chan e) !! i) as [[id raw]|] eqn:Ej; [|done].
  apply (Inv_chan None [] e); [|done]. intros id'. unfold tokens. simpl.
  rewrite flat_map_app, count_term_app. simpl. rewrite app_nil_r, pushes_acts, worker_batch_count.
  pose proof (filter_remove_at (fun j => (fst j =? id')%Z) _ _ _ Ej) as Hf. simpl in Hf.
  destruct (id =? id')%Z; simpl; lia.
Qed.

Lemma flat_map_insert (l : list (list wact)) i a b :
  l !! i = Some a ->
  flat_map pushes (<[i := b]> l) = flat_map pushes (take i l) ++ pushes b ++ flat_map pushes (drop (S i) l)
  /\ flat_map pushes l = flat_map pushes (take i l) ++ pushes a ++ flat_map pushes (drop (S i) l).
Proof.
  intros Hi. split.
  - rewrite insert_take_drop by (by eapply lookup_lt_Some). rewrite flat_map_app. done.
  - rewrite <- (take_drop_middle _ _ _ Hi) at 1. by rewrite flat_map_app.
Qed.

Lemma wp_worker_act i e : Inv None [] e -> wp (worker_act i) (fun _ e' => Inv None [] e') e.
Proof.
  intros I. unfold wp, worker_act.
  destruct (running (chan e) !! i) as [[|a l]|] eqn:Ei; [done| |done].
  destruct (flat_map_insert _ i (a :: l) l Ei) as [E1 E2].
  destruct a as [it|].
  - apply (Inv_chan None [] e); [|done]. intros id'. unfold tokens, q_push. simpl.
    rewrite E1, E2. change (pushes (WPush it :: l)) with ([it] ++ pushes l).
    rewrite !count_term_app. lia.
  - apply (Inv_chan None [] e); [|done]. intros id'. unfold tokens. simpl.
    rewrite E1, E2. simpl. done.
Qed.

(** ** Every event *)

Lemma wp_signal e : Inv None [] e -> wp request_stop (fun _ e' => Inv None [] e') e.
Proof. intros I. apply wp_flags. intros e' H'. by eapply Inv_same. Qed.

Lemma front_in_content c b q : send_q_ c = b :: q -> (length b <= length (send_content c))%nat.
Proof. intros E. unfold send_content. rewrite E. simpl. rewrite length_app. lia. Qed.

Lemma wp_serve_eventfd op e :
  Inv None [] e -> (exists o, ops (ring e) !! op = Some o /\ op_kind o = Wakeup) ->
  wp (serve_eventfd op) (fun _ e' => Inv None [] e') e.
Proof.
  intros [I1 I2 I3 I4 I5 I6 I7 I8] (o & Ho & Hk). unfold wp, serve_eventfd. rewrite Ho. simpl.
  split; simpl; auto.
  - intros id c Hc. destruct (I2 _ _ Hc) as [C1 C2 C3 C4 C5 C6 C7 C8]. split; auto.
    + intros b Hb. destruct (C5 b Hb) as [u Hu]. exists u. rewrite lookup_insert_ne; [done|].
      intros ->. rewrite Ho in Hu. injection Hu as ->. done.
    + intros b Hb. destruct (C6 b Hb) as [u Hu]. exists u. rewrite lookup_insert_ne; [done|].
      intros ->. rewrite Ho in Hu. injection Hu as ->. done.
  - intros b o'. rewrite lookup_insert_Some. intros [[<- <-]|[Hn Hb]]; [|by apply I4].
    destruct (I4 _ _ Ho) as [Hlt Hok]. split; [done|]. unfold op_ok in *. simpl. by rewrite Hk in *.
Qed.

Lemma wp_recv_event op bs e :
  Inv None [] e -> enabled e (EvRecv op bs) ->
  wp (handle (EvRecv op bs)) (fun _ e' => Inv None [] e') e.
Proof.
  intros I (id & v & Ho & Hne & Hlen). destruct (op_owner e op Recv id v I Ho) as (c & Hc & _); [by left|].
  specialize (Hlen c Hc). cbn [handle]. apply wp_bind. unfold wp at 1, op_target. rewrite Ho.
  apply wp_bind. apply (wp_deref _ c); [done|]. apply wp_bind, wp_put.
  pose proof (i_core _ _ _ I _ _ Hc) as Hcore.
  pose proof (wf_rx _ (cc_wf _ _ _ _ Hcore)) as Hrx.
  assert (Hk : length (pending_ (kernel_write bs c)) = length (pending_ c)).
  { unfold kernel_write, rx_writable_len in *. simpl.
    rewrite !length_app, length_take, length_drop. lia. }
  apply (wp_complete_recv op id v (kernel_write bs c)); [|done|simpl; apply lookup_insert_eq|].
  - apply (Inv_put _ _ _ _ c); try done.
    + apply core_rx; [|done]. change (length (pending_ (kernel_write bs c))) with
        (length (pending_ (kernel_write bs c))). unfold kernel_write in Hk. simpl in Hk. lia.
    + intros _. pose proof (i_good _ _ _ I _ _ Hc ltac:(done)) as Hg. exact Hg.
  - intros _. rewrite Hk. unfold size_of, rx_writable_len in *. simpl. lia.
Qed.

Lemma wp_complete_wakeup op o e :
  Inv None [] e -> ops (ring e) !! op = Some o -> op_kind o = Wakeup ->
  wp (complete_wakeup op) (fun _ e' => Inv None [] e') e.
Proof.
  intros I Ho Hk. unfold complete_wakeup.
  apply wp_bind, wp_del, wp_bind. eapply wp_mono.
  { apply (wp_simple Wakeup None []); [done|]. eapply Inv_del_plain; eauto. by rewrite Hk. }
  intros ? e' I'. by apply wp_drain_outbox.
Qed.

(** No event reaches undefined behaviour, and each keeps the invariant. *)
Lemma wp_handle ev e :
  Inv None [] e -> enabled e ev -> wp (handle ev) (fun _ e' => Inv None [] e') e.
Proof.
  intros I Hen. destruct ev.
  - destruct Hen as [(o & Ho & Hk) Hfd]. cbn [handle]. apply wp_bind. unfold open_fd.
    destruct (Z.leb_spec 0 res) as [Hpos|Hneg].
    + apply (wp_complete_accept op o); [|done|done|].
      * apply (Inv_fds None [] e); [|done]. intros id c Hc. apply (i_fds _ _ _ I) in Hc. set_solver.
      * intros _. simpl. split; [set_solver|]. intros id c Hc Heq.
        apply (i_fds _ _ _ I) in Hc. rewrite Heq in Hc. by apply (Hfd Hpos).
    + apply wp_ret. by apply (wp_complete_accept op o); [| | |lia].
  - by apply wp_recv_event.
  - destruct Hen as [(o & Ho & Hk) Hres]. cbn [handle].
    destruct o as [k oc v]. simpl in Hk. subst k.
    destruct (i_ops _ _ _ I _ _ Ho) as [_ (id & c & Hoc & Hc & Hr)]. simpl in Hoc. subst oc.
    apply wp_bind. unfold wp at 1, op_target. rewrite Ho.
    apply (wp_complete_recv op id v c); [done|done|done|lia].
  - destruct Hen as (id & v & Ho & Hn). cbn [handle]. apply wp_bind. unfold wp at 1, op_target.
    rewrite Ho. destruct (op_owner e op Send id v I Ho) as (c & Hc & _ & Hs); [by right|].
    apply (wp_complete_send op id v c); [done|done|done|]. rewrite Nat2Z.id.
    pose proof (cc_queue _ _ _ _ (i_core _ _ _ I _ _ Hc)) as Hq.
    destruct (send_q_ c) as [|b q] eqn:Eq; [destruct Hq; [by rewrite Hs|done]|].
    specialize (Hn c b q Hc Eq). pose proof (front_in_content c b q Eq). lia.
  - destruct Hen as [(o & Ho & Hk) Hres]. cbn [handle].
    destruct o as [k oc v]. simpl in Hk. subst k.
    destruct (i_ops _ _ _ I _ _ Ho) as [_ (id & c & Hoc & Hc & Hr)]. simpl in Hoc. subst oc.
    apply wp_bind. unfold wp at 1, op_target. rewrite Ho.
    apply (wp_complete_send op id v c); [done|done|done|lia].
  - destruct Hen as (o & Ho & Hk & _). apply wp_serve_eventfd; [done|]. by exists o.
  - destruct Hen as (o & Ho & Hk & _). by apply (wp_complete_wakeup op o).
  - destruct Hen as (o & Ho & Hk & _). by apply (wp_complete_wakeup op o).
  - destruct Hen as (o & Ho & Hk). cbn [handle]. unfold complete_stop.
    apply wp_bind, wp_del, wp_signal. eapply Inv_del_plain; eauto. by rewrite Hk.
  - destruct Hen as (o & Ho & Hk). cbn [handle]. unfold complete_rsp_notify.
    apply wp_bind, wp_del.
    assert (I1 : Inv None [] (e_del op e)) by (eapply Inv_del_plain; eauto; by rewrite Hk).
    destruct (res =? - ECANCELED); [by apply wp_ret|]. destruct (res <? 0).
    + apply wp_bind, wp_get, wp_bind, wp_flags. intros e2 H2. pose proof (Inv_same _ _ _ _ H2 I1) as I2.
      destruct (_ >=? 8); [|by apply wp_simple]. apply wp_flags. intros e3 H3. by eapply Inv_same.
    + apply wp_bind, wp_flags. intros e2 H2. pose proof (Inv_same _ _ _ _ H2 I1) as I2.
      apply wp_bind. eapply wp_mono; [by apply (wp_simple RspNotify None [])|].
      intros ? e' I'. by apply wp_drain_ring.
  - cbn [handle]. apply wp_bind. eapply wp_mono; [by apply wp_drain_ring|]. intros ? e' I'. cbv beta in I'.
    apply wp_bind, wp_get, wp_bind. destruct (draining_ (flags e')).
    + apply wp_ret. by apply wp_enter_drain.
    + eapply wp_mono; [by apply wp_sweep|]. intros ? e'' I''. by apply wp_enter_drain.
  - by apply wp_signal.
  - cbn [handle]. unfold reap_round. apply wp_bind, wp_get. by apply wp_close_ids.
  - by apply wp_start_job.
  - by apply wp_worker_act.
Qed.

(** ** Reachable states *)

Lemma wp_ok {X} (m : eng X) Q e : wp m Q e -> exists x e', m e = Ok (x, e') /\ Q x e'.
Proof. unfold wp. destruct (m e) as [[x e']|]; [|done]. intros H. by exists x, e'. Qed.

Lemma Inv_init o sq clk : 0 <= send_backlog_limit o < 2 ^ 64 -> Inv None [] (engine0 o sq clk).
Proof. intros Ho. split; simpl; try done. Qed.

Lemma Inv_startup ipc o sq clk :
  0 <= send_backlog_limit o < 2 ^ 64 ->
  wp (startup ipc) (fun _ e' => Inv None [] e') (engine0 o sq clk).
Proof.
  intros Ho. unfold startup. apply wp_bind.
  eapply wp_mono; [apply (wp_simple Accept None []); [done|by apply Inv_init]|].
  intros ? e1 I1. cbv beta in I1. apply wp_bind.
  eapply wp_mono; [by apply (wp_simple Wakeup None [])|]. intros ? e2 I2. cbv beta in I2. apply wp_bind.
  eapply wp_mono; [by apply (wp_simple Stop None [])|]. intros ? e3 I3. cbv beta in I3.
  destruct ipc; [by apply (wp_simple RspNotify None [])|by apply wp_ret].
Qed.

Lemma reachable_Inv o e :
  0 <= send_backlog_limit o < 2 ^ 64 -> engine_reachable o e -> Inv None [] e.
Proof.
  intros Ho. induction 1 as [sq clk ipc e He|e e' _ IH Hs].
  - pose proof (Inv_startup ipc o sq clk Ho) as H. unfold wp in H. by rewrite He in H.
  - inversion Hs as [e0 ev e1 Hen Hh]. subst.
    pose proof (wp_handle ev e IH Hen) as H. unfold wp in H. by rewrite Hh in H.
Qed.

(** A small run: a client connects (descriptor 7), then sends three bytes. *)
Definition demo_opts : GatewayOptions := mkOptions "0.0.0.0" 8888 1024 4096 4 64 (2 ^ 20) (300 * 10 ^ 9) 512.
Definition state_of (r : result (unit * Engine)) : Engine :=
  match r with
  | Ok (_, e) => e
  | Err _ => engine0 demo_opts (fun _ => true) (fun _ => 0)
  end.
Definition demo0 : Engine :=
  state_of (startup false (engine0 demo_opts (fun _ => true) (fun n => Z.of_nat n))).
Definition demo1 : Engine := state_of (handle (EvAccept 0 7) demo0).
Definition demo2 : Engine := state_of (handle (EvRecv 3 [x01; x02; x03]) demo1).

Lemma demo0_reachable : engine_reachable demo_opts demo0.
Proof. eapply (er_start _ (fun _ => true) (fun n => Z.of_nat n) false). vm_compute. reflexivity. Qed.

Lemma demo1_enabled : enabled demo0 (EvAccept 0 7).
Proof.
  split; [|by intros _]. eexists. split; [vm_compute; reflexivity|done].
Qed.

Lemma demo1_reachable : engine_reachable demo_opts demo1.
Proof.
  apply (er_step _ demo0); [apply demo0_reachable|].
  apply (engine_event _ (EvAccept 0 7)); [apply demo1_enabled|]. vm_compute. reflexivity.
Qed.

Lemma demo2_enabled : enabled demo1 (EvRecv 3 [x01; x02; x03]).
Proof.
  exists 1, 0. split; [vm_compute; reflexivity|]. split; [done|].
  intros c Hc. vm_compute in Hc. injection Hc as <-. vm_compute. lia.
Qed.

(** C11: the gateway's main thread never follows a pointer to a destroyed
    connection or operation, never closes a descriptor that is not open and
    never sends from an empty queue: in every state reachable from startup,
    under every interleaving of completions, worker actions, timeouts and
    signals and every pattern of submission-queue exhaustion, the handler of
    each event that can occur runs to its end. *)
Theorem engine_no_ub o e ev :
  0 <= send_backlog_limit o < 2 ^ 64 -> engine_reachable o e -> enabled e ev ->
  exists e', handle ev e = Ok (tt, e') /\ engine_reachable o e'.
Proof.
  intros Ho Hr Hen. pose proof (reachable_Inv o e Ho Hr) as I.
  destruct (wp_ok _ _ _ (wp_handle ev e I Hen)) as ([] & e' & Hh & _).
  exists e'. split; [done|]. apply (er_step o e e'); [done|]. by apply (engine_event e ev).
Qed.

Lemma engine_no_ub_witness :
  exists e', handle (EvRecv 3 [x01; x02; x03]) demo1 = Ok (tt, e') /\ engine_reachable demo_opts e'.
Proof.
  apply (engine_no_ub demo_opts demo1).
  - vm_compute. split; congruence.
  - apply demo1_reachable.
  - apply demo2_enabled.
Defined.

(** C12: bookkeeping of the connections in every reachable state: the queued
    bytes never exceed the backlog limit and equal the counter the limit is
    compared with; [pending_ops] counts exactly the receive and send in
    flight; a receive is in flight exactly while the connection is Active and
    not while a worker parses its bytes, and then exactly one batch of it is
    under way; a Closing connection still waits for a completion, so none
    stays behind unfinalized; and every operation in flight points to a live
    connection that knows it. *)
Theorem engine_bookkeeping o e id c :
  0 <= send_backlog_limit o < 2 ^ 64 -> engine_reachable o e -> conns_ (net e) !! id = Some c ->
  send_bytes_ c = size_of (send_content c) /\ send_bytes_ c <= send_backlog_limit (opt_ e)
  /\ pending_ops c = b2z (recv_op c) + b2z (send_op c)
  /\ conn_good c (tokens (chan e) [] id)
  /\ fd_ c ∈ fds (net e)
  /\ (forall a op, ops (ring e) !! a = Some op -> op_conn op = Some id ->
        recv_op c = Some a \/ send_op c = Some a).
Proof.
  intros Ho Hr Hc. pose proof (reachable_Inv o e Ho Hr) as I.
  destruct (i_core _ _ _ I _ _ Hc) as [_ C2 C3 C4 _ _ _ _].
  split; [apply (wf_bytes _ C2)|]. split; [done|]. split; [done|].
  split; [by apply (i_good _ _ _ I)|]. split; [by eapply (i_fds _ _ _ I)|].
  intros a [k oc v] Ha Hop. simpl in Hop. subst oc. pose proof (i_ops _ _ _ I _ _ Ha) as [_ Hok].
  unfold op_ok in Hok. simpl in Hok.
  destruct k; try done; destruct Hok as (id' & c' & [= <-] & Hc' & Hx); simplify_eq; auto.
Qed.

Lemma engine_bookkeeping_witness :
  exists c, conns_ (net demo1) !! 1 = Some c /\ pending_ops c = 1 /\ conn_good c (tokens (chan demo1) [] 1).
Proof.
  destruct (conns_ (net demo1) !! 1) as [c|] eqn:Hc; [|vm_compute in Hc; discriminate].
  exists c. split; [done|].
  destruct (engine_bookkeeping demo_opts demo1 1 c) as (_ & _ & _ & Hg & _).
  - vm_compute. split; congruence.
  - apply demo1_reachable.
  - done.
  - split; [|done]. vm_compute in Hc. by injection Hc as <-.
Defined.
