(* ===== verification/EngineLive.v ===== *)
(** * Progress of the gateway engine

    Which parts of the engine leave the outbox, the eventfd and the accept and
    wakeup operations alone ([frame]); from it follow that a queued item is
    always on its way to the main thread, and that an accept operation that is
    not re-armed at once is never armed again. *)

From S2P Require Import Prelude Protocol FrameCut Connection Engine EngineProps.

Definition special (k : OpKind) : bool := match k with Accept | Wakeup => true | _ => false end.
Definition bounded (e : Engine) : Prop :=
  forall a o, ops (ring e) !! a = Some o -> a < next_op (ring e).

Record frame (e e' : Engine) : Prop := mk_frame {
  fr_outbox : outbox_ (chan e') = outbox_ (chan e);
  fr_efd : efd_ (chan e') = efd_ (chan e);
  fr_running : running (chan e') = running (chan e);
  fr_drain : draining_ (flags e) = true -> draining_ (flags e') = true;
  fr_bound : bounded e -> bounded e';
  fr_ops a o : bounded e -> special (op_kind o) = true ->
    ops (ring e) !! a = Some o <-> ops (ring e') !! a = Some o
}.
#[export] Instance frame_preorder : PreOrder frame.
Proof.
  split.
  - intros e. by split.
  - intros x y z [] []. split; try congruence; auto.
    intros a o Hb Hs. transitivity (ops (ring y) !! a = Some o); auto.
Qed.

Definition frames {X} (m : eng X) : Prop := forall e x e', m e = Ok (x, e') -> frame e e'.

Lemma frames_bind {X Y} (m : eng X) (k : X -> eng Y) :
  frames m -> (forall x, frames (k x)) -> frames (ebind m k).
Proof.
  intros Hm Hk e y e'. unfold ebind. destruct (m e) as [[x e1]|] eqn:E; [|done].
  intros H. transitivity e1; [by eapply Hm|by eapply Hk].
Qed.
Lemma frames_ret {X} (x : X) : frames (eret x).
Proof. intros e y e' [= <- <-]. done. Qed.
Lemma frames_get {X} (f : Engine -> X) : frames (get f).
Proof. intros e y e' [= <- <-]. done. Qed.
Lemma frames_ub {X} s : frames (@ub X s).
Proof. done. Qed.
Lemma frames_now : frames steady_now.
Proof. intros e y e' [= <- <-]. by split. Qed.
Lemma frames_sqe : frames io_uring_get_sqe.
Proof. intros e y e' [= <- <-]. by split. Qed.
Lemma frames_flags f :
  (forall g, draining_ g = true -> draining_ (f g) = true) -> frames (upd_flags f).
Proof. intros Hf e y e' [= <- <-]. split; simpl; auto. Qed.
Lemma frames_net f : frames (upd_net f).
Proof. intros e y e' [= <- <-]. by split. Qed.
Lemma frames_post id raw : frames (post id raw).
Proof. intros e y e' [= <- <-]. by split. Qed.
Lemma frames_deref id : frames (deref id).
Proof. intros e y e'. unfold deref. destruct (_ !! id); [|done]. intros [= <- <-]. done. Qed.
Lemma frames_close_fd fd : frames (close_fd fd).
Proof. intros e y e'. unfold close_fd. case_bool_decide; [|done]. apply frames_net. Qed.
Lemma frames_new o : special (op_kind o) = false -> frames (new_op o).
Proof.
  intros Ho e y e' [= <- <-]. split; simpl; auto.
  - intros Hb a p. simpl. rewrite lookup_insert_Some. intros [[<- <-]|[_ H]]; [lia|].
    specialize (Hb _ _ H). lia.
  - intros a p Hb Hs. rewrite lookup_insert_Some. split.
    + intros H. right. split; [|done]. specialize (Hb _ _ H). lia.
    + intros [[_ <-]|[_ H]]; [congruence|done].
Qed.

Create HintDb frames.
#[export] Hint Resolve frames_bind frames_ret frames_get frames_ub frames_now frames_sqe frames_net
  frames_post frames_deref frames_close_fd : frames.
#[export] Hint Extern 1 (frames (upd_flags _)) => (apply frames_flags; intros g Hg; done) : frames.
#[export] Hint Extern 1 (frames (new_op _)) => (apply frames_new; reflexivity) : frames.

(** Splits a computation into its primitives. *)
Ltac frames_step :=
  match goal with
  | |- forall _, _ => intros ?
  | |- frames (ebind _ _) => apply frames_bind
  | |- frames (if ?b then _ else _) => destruct b
  | |- frames (match ?o with _ => _ end) => destruct o
  | _ => solve [eauto with frames]
  end.
Ltac frames := repeat frames_step.

Lemma frames_get_sqe : frames get_sqe.
Proof. unfold get_sqe. frames. Qed.
#[export] Hint Resolve frames_get_sqe : frames.
Lemma frames_simple k : special k = false -> frames (submit_simple k).
Proof. intros Hk. unfold submit_simple. repeat frames_step. by apply frames_new. Qed.
Lemma frames_recv id : frames (submit_recv id).
Proof. unfold submit_recv, put_conn. frames. Qed.
Lemma frames_send id : frames (submit_send id).
Proof. unfold submit_send, put_conn. frames. Qed.
Lemma frames_cancel o : frames (cancel_opt o).
Proof. unfold cancel_opt, submit_cancel. frames. Qed.
Lemma frames_finalize id : frames (maybe_finalize id).
Proof. unfold maybe_finalize, erase_conn. frames. Qed.
#[export] Hint Resolve frames_recv frames_send frames_cancel frames_finalize : frames.
Lemma frames_close id : frames (close_conn id).
Proof. unfold close_conn, put_conn. frames. Qed.
#[export] Hint Resolve frames_close : frames.
Lemma frames_response id bs : frames (push_response id bs).
Proof. unfold push_response, put_conn. frames. Qed.
#[export] Hint Resolve frames_response : frames.
Lemma frames_items its : frames (each_item its).
Proof. induction its; simpl; frames. unfold on_item, put_conn. frames. Qed.
Lemma frames_rsps l : frames (each_rsp l).
Proof. induction l; simpl; frames. unfold on_rsp. frames. Qed.
#[export] Hint Resolve frames_items frames_rsps : frames.
Lemma frames_drain_ring rsp : frames (drain_response_ring rsp).
Proof. unfold drain_response_ring, request_stop. frames. Qed.
Lemma frames_close_ids ids : frames (close_ids ids).
Proof. induction ids; simpl; frames. Qed.
#[export] Hint Resolve frames_drain_ring frames_close_ids : frames.
Lemma frames_sweep : frames sweep_idle.
Proof. unfold sweep_idle. frames. Qed.
Lemma frames_enter_drain : frames enter_drain.
Proof. unfold enter_drain. frames. Qed.
Lemma frames_make_conn fd : frames (make_conn fd).
Proof. unfold make_conn. frames. Qed.
#[export] Hint Resolve frames_sweep frames_enter_drain frames_make_conn : frames.

(** ** Wakeups are not lost *)

Definition wakeup_op (e : Engine) (a : Z) (v : Z) : Prop :=
  exists o, ops (ring e) !! a = Some o /\ op_kind o = Wakeup /\ op_event_val o = v.

(** A wakeup read is in flight unless the engine drains. *)
Record Armed (e : Engine) : Prop := mk_Armed {
  ar_bound : bounded e;
  ar_efd : 0 <= efd_ (chan e);
  ar_op : draining_ (flags e) = false -> exists a v, wakeup_op e a v
}.

(** Somebody will still wake the main thread: the counter is raised, a read
    has been served, or a worker is about to write. *)
Definition waking (e : Engine) : Prop :=
  0 < efd_ (chan e) \/ (exists a v, wakeup_op e a v /\ v <> 0)
  \/ exists i l, running (chan e) !! i = Some (WWrite :: l).

(** What a worker still does: pushes, each followed by its write. *)
Definition acts_ok (l : list wact) : Prop :=
  exists its, l = worker_acts its \/ l = WWrite :: worker_acts its.

Definition Live (e : Engine) : Prop :=
  Armed e /\ (outbox_ (chan e) <> [] -> waking e) /\ Forall acts_ok (running (chan e)).

Definition NoAccept (e : Engine) : Prop :=
  bounded e /\ forall a o, ops (ring e) !! a = Some o -> op_kind o <> Accept.

Definition keeps {X} (P : Engine -> Prop) (m : eng X) : Prop :=
  forall e x e', P e -> m e = Ok (x, e') -> P e'.

Lemma keeps_bind {X Y} P (m : eng X) (k : X -> eng Y) :
  keeps P m -> (forall x, keeps P (k x)) -> keeps P (ebind m k).
Proof.
  intros Hm Hk e y e' He. unfold ebind. destruct (m e) as [[x e1]|] eqn:E; [|done].
  intros H. eapply Hk; [|done]. by eapply Hm.
Qed.
Lemma keeps_frames {X} P (m : eng X) :
  (forall e e', frame e e' -> P e -> P e') -> frames m -> keeps P m.
Proof. intros HP Hm e x e' He H. eapply HP; [|done]. by eapply Hm. Qed.

Lemma frame_wakeup e e' a v : frame e e' -> bounded e -> wakeup_op e a v -> wakeup_op e' a v.
Proof.
  intros F Hb (o & Ho & Hk & Hv). exists o. split; [|done]. apply (fr_ops _ _ F); [done| |done].
  by rewrite Hk.
Qed.

Lemma frame_Armed e e' : frame e e' -> Armed e -> Armed e'.
Proof.
  intros F [A1 A2 A3]. split.
  - by apply (fr_bound _ _ F).
  - by rewrite (fr_efd _ _ F).
  - intros Hd. destruct A3 as (a & v & H).
    + destruct (draining_ (flags e)) eqn:E; [|done]. by rewrite (fr_drain _ _ F E) in Hd.
    + exists a, v. by apply (frame_wakeup e e').
Qed.

Lemma frame_Live e e' : frame e e' -> Live e -> Live e'.
Proof.
  intros F (A & L & W). split; [by apply (frame_Armed e e')|].
  rewrite (fr_outbox _ _ F), (fr_running _ _ F). split; [|done]. intros Ho.
  destruct (L Ho) as [H|[(a & v & H & Hv)|(i & l & H)]].
  - left. by rewrite (fr_efd _ _ F).
  - right. left. exists a, v. split; [|done]. apply (frame_wakeup e e'); [done| |done]. apply A.
  - right. right. exists i, l. by rewrite (fr_running _ _ F).
Qed.

Lemma frame_NoAccept e e' : frame e e' -> NoAccept e -> NoAccept e'.
Proof.
  intros F [Hb H]. split; [by apply (fr_bound _ _ F)|]. intros a o Ho Hk.
  apply (H a o); [|done]. apply (fr_ops _ _ F); [done| |done]. by rewrite Hk.
Qed.

(** Adding an operation keeps what is in flight. *)
Lemma bounded_new o e : bounded e -> bounded (e_new o e).
Proof.
  intros Hb a p. simpl. rewrite lookup_insert_Some. intros [[<- <-]|[_ H]]; [lia|].
  specialize (Hb _ _ H). lia.
Qed.
Lemma wakeup_new o e a v : bounded e -> wakeup_op e a v -> wakeup_op (e_new o e) a v.
Proof.
  intros Hb (p & Hp & H). exists p. split; [|done]. simpl. rewrite lookup_insert_ne; [done|].
  specialize (Hb _ _ Hp). lia.
Qed.

Lemma Armed_new o e : Armed e -> Armed (e_new o e).
Proof.
  intros [A1 A2 A3]. split; [by apply bounded_new|done|]. intros Hd.
  destruct (A3 Hd) as (a & v & H). exists a, v. by apply wakeup_new.
Qed.
Lemma Live_new o e : Live e -> Live (e_new o e).
Proof.
  intros (A & L & W). split; [by apply Armed_new|]. split; [|done]. intros Ho.
  destruct (L Ho) as [H|[(a & v & H & Hv)|H]]; [by left| |by right; right].
  right. left. exists a, v. split; [|done]. apply wakeup_new; [|done]. apply A.
Qed.

Lemma keeps_simple (P : Engine -> Prop) k :
  (forall e e', frame e e' -> P e -> P e') -> (forall e, P e -> P (e_new (mkOp k None 0) e)) ->
  keeps P (submit_simple k).
Proof.
  intros HF HN. unfold submit_simple. apply keeps_bind; [by apply keeps_frames, frames_get_sqe|].
  intros []; [|by apply keeps_frames, frames_ret].
  apply keeps_bind; [|by intros; apply keeps_frames, frames_ret].
  intros e x e' He [= <- <-]. by apply HN.
Qed.

Lemma Live_simple k : keeps Live (submit_simple k).
Proof. apply keeps_simple; [apply frame_Live|intros e; apply Live_new]. Qed.

Lemma NoAccept_simple k : k <> Accept -> keeps NoAccept (submit_simple k).
Proof.
  intros Hk. apply keeps_simple; [apply frame_NoAccept|]. intros e [Hb H]. split; [by apply bounded_new|].
  intros a o. simpl. rewrite lookup_insert_Some. intros [[_ <-]|[_ Ho]]; [done|by eapply H].
Qed.

Lemma get_sqe_false e e' : get_sqe e = Ok (false, e') -> draining_ (flags e') = true.
Proof.
  unfold get_sqe, ebind, io_uring_get_sqe. destruct (sq_ok _ _); [done|]. simpl.
  destruct (sq_ok _ _); [done|]. simpl. destruct (sq_fail_logged_ (flags e)); intros [= <-]; done.
Qed.

(** Re-arming the eventfd read. *)
Lemma rearm e x e' :
  bounded e -> 0 <= efd_ (chan e) -> submit_eventfd_read e = Ok (x, e') ->
  Armed e' /\ running (chan e') = running (chan e) /\ outbox_ (chan e') = outbox_ (chan e).
Proof.
  intros Hb He. unfold submit_eventfd_read, submit_simple, ebind.
  destruct (get_sqe e) as [[ok e1]|] eqn:E; [|done].
  pose proof (frames_get_sqe _ _ _ E) as F. destruct ok; simpl; intros [= <- <-].
  - split; [|split; [by apply (fr_running _ _ F)|by apply (fr_outbox _ _ F)]]. split.
    + apply (bounded_new (mkOp Wakeup None 0) e1). by apply (fr_bound _ _ F).
    + simpl. by rewrite (fr_efd _ _ F).
    + intros _. exists (next_op (ring e1)), 0, (mkOp Wakeup None 0). simpl.
      by rewrite lookup_insert_eq.
  - split; [|split; [by apply (fr_running _ _ F)|by apply (fr_outbox _ _ F)]]. split; [by apply (fr_bound _ _ F)|by rewrite (fr_efd _ _ F)|].
    rewrite (get_sqe_false _ _ E). done.
Qed.

Lemma frames_notify : frames submit_rsp_notify_read.
Proof. by apply frames_simple. Qed.
#[export] Hint Resolve frames_notify : frames.

Section Completions.
Context (P : Engine -> Prop) (op : Z).
Context (HF : forall e e', frame e e' -> P e -> P e') (HD : keeps P (delete_op op)).

Ltac keeps :=
  repeat match goal with
  | |- forall _, _ => intros ?
  | |- keeps P (ebind _ _) => apply keeps_bind
  | |- keeps P (if ?b then _ else _) => destruct b
  | |- keeps P (match ?o with _ => _ end) => destruct o
  | _ => solve [assumption | apply keeps_frames; [exact HF|eauto with frames]]
  end.

Lemma keeps_complete_recv id res : keeps P (complete_recv op id res).
Proof. unfold complete_recv, put_conn. keeps. Qed.
Lemma keeps_complete_send id res : keeps P (complete_send op id res).
Proof. unfold complete_send, put_conn. keeps. Qed.
Lemma keeps_complete_stop : keeps P (complete_stop op).
Proof. unfold complete_stop. keeps. Qed.
Lemma keeps_complete_rsp res rsp : keeps P (complete_rsp_notify op res rsp).
Proof. unfold complete_rsp_notify. keeps. Qed.
Lemma keeps_complete_accept res : keeps P submit_accept -> keeps P (complete_accept op res).
Proof. intros HA. unfold complete_accept, erase_conn. keeps. Qed.
Lemma keeps_op_target : keeps P (op_target op).
Proof.
  apply keeps_frames; [exact HF|]. intros e x e'. unfold op_target.
  destruct (ops (ring e) !! op) as [[k [id|] v]|]; try done. intros [= <- <-]. done.
Qed.
End Completions.

(** [op] is not a wakeup read. *)
Definition LiveBut (op : Z) (e : Engine) : Prop :=
  Live e /\ forall o, ops (ring e) !! op = Some o -> op_kind o <> Wakeup.

Lemma frame_LiveBut op e e' : frame e e' -> LiveBut op e -> LiveBut op e'.
Proof.
  intros F [L H]. split; [by apply (frame_Live e e')|]. intros o Ho Hk. apply (H o); [|done].
  apply (fr_ops _ _ F); [apply L| |done]. by rewrite Hk.
Qed.

Lemma wakeup_del op e a v : op <> a -> wakeup_op e a v -> wakeup_op (e_del op e) a v.
Proof. intros Hn (o & Ho & H). exists o. split; [|done]. simpl. by rewrite lookup_delete_ne. Qed.

Lemma bounded_del op e : bounded e -> bounded (e_del op e).
Proof. intros Hb a o. simpl. rewrite lookup_delete_Some. intros [_ H]. by eapply Hb. Qed.

Lemma LiveBut_del op : keeps (LiveBut op) (delete_op op).
Proof.
  intros e x e' [([A1 A2 A3] & L & W) H] [= _ <-].
  assert (Hw : forall a v, wakeup_op e a v -> wakeup_op (e_del op e) a v).
  { intros a v Hav. apply wakeup_del; [|done]. intros ->. destruct Hav as (o & Ho & Hk & _).
    by apply (H o). }
  split; [|intros o; simpl; by rewrite lookup_delete_eq]. split; [split|split; [|done]].
  - by apply (bounded_del op e).
  - done.
  - intros Hd. destruct (A3 Hd) as (a & v & Hav). exists a, v. by apply Hw.
  - intros Ho. destruct (L Ho) as [?|[(a & v & Hav & Hv)|?]]; [by left| |by right; right].
    right. left. exists a, v. split; [by apply Hw|done].
Qed.

Lemma LiveBut_accept op : keeps (LiveBut op) submit_accept.
Proof.
  apply keeps_simple; [apply frame_LiveBut|]. intros e [L H]. split; [by apply Live_new|].
  intros o. simpl. rewrite lookup_insert_Some. intros [[_ <-]|[_ Ho]]; [done|by apply H].
Qed.

Lemma NoAccept_del op : keeps NoAccept (delete_op op).
Proof.
  intros e x e' [Hb H] [= _ <-]. split; [by apply (bounded_del op e)|]. intros a o. simpl.
  rewrite lookup_delete_Some. intros [_ Ho]. by eapply H.
Qed.

Lemma Live_LiveBut op k e : op_is e op k -> k <> Wakeup -> Live e -> LiveBut op e.
Proof. intros (o & Ho & Hk) Hn L. split; [done|]. intros o' Ho'. congruence. Qed.

Lemma drain_outbox_empties e x e' :
  Armed e -> drain_outbox e = Ok (x, e') ->
  Armed e' /\ running (chan e') = running (chan e) /\ outbox_ (chan e') = [].
Proof.
  intros A. unfold drain_outbox, ebind, get, upd_chan. intros H.
  pose proof (frames_items _ _ _ _ H) as F.
  split; [|split; [by apply (fr_running _ _ F)|by apply (fr_outbox _ _ F)]].
  eapply frame_Armed; [done|]. destruct A. by split.
Qed.

(** Handling the wakeup completion takes every queued item. *)
Lemma wakeup_empties op e e' :
  Live e -> handle (EvWakeup op) e = Ok (tt, e') -> Live e' /\ outbox_ (chan e') = [].
Proof.
  intros ([A1 A2 _] & _ & W). cbn [handle]. unfold complete_wakeup.
  change ((delete_op op ;;; submit_eventfd_read ;;; drain_outbox) e)
    with ((submit_eventfd_read ;;; drain_outbox) (e_del op e)).
  unfold ebind. destruct (submit_eventfd_read (e_del op e)) as [[x e1]|] eqn:E; [|done].
  intros H. destruct (rearm _ _ _ (bounded_del op e A1) A2 E) as (A & Er & _).
  destruct (drain_outbox_empties _ _ _ A H) as (A' & Er' & Eo). split; [|done].
  split; [done|]. split; [by rewrite Eo|]. by rewrite Er', Er.
Qed.

Lemma Live_serve op e x e' :
  Live e -> enabled e (EvEventfd op) -> serve_eventfd op e = Ok (x, e') ->
  Live e' /\ exists v, v <> 0 /\ wakeup_op e' op v.
Proof.
  intros ([A1 A2 A3] & L & W) (o & Ho & Hk & Hv & Hpos). unfold serve_eventfd. rewrite Ho.
  intros [= _ <-]. simpl.
  set (o' := mkOp (op_kind o) (op_conn o) (efd_ (chan e))).
  match goal with |- Live ?E /\ _ => set (e' := E) end.
  assert (Hw : wakeup_op e' op (efd_ (chan e))).
  { exists o'. simpl. by rewrite lookup_insert_eq. }
  split; [|exists (efd_ (chan e)); split; [lia|done]]. split; [split|split; [|done]].
  - intros a p. simpl. rewrite lookup_insert_Some. intros [[<- _]|[_ Hp]]; by eapply A1.
  - simpl. lia.
  - intros _. by exists op, (efd_ (chan e)).
  - intros _. right. left. exists op, (efd_ (chan e)). split; [done|lia].
Qed.

Lemma acts_ok_step a l : acts_ok (a :: l) -> acts_ok l.
Proof.
  intros [[|it its] [H|H]]; try done.
  - injection H as _ ->. exists []. by left.
  - injection H as _ ->. exists its. by right.
  - injection H as _ ->. exists (it :: its). by left.
Qed.
Lemma acts_ok_push it l : acts_ok (WPush it :: l) -> exists l', l = WWrite :: l'.
Proof. intros [[|it' its] [H|H]]; try done. injection H as _ ->. eauto. Qed.

Lemma Live_worker i e x e' : Live e -> worker_act i e = Ok (x, e') -> Live e'.
Proof.
  intros ([A1 A2 A3] & L & W). unfold worker_act.
  destruct (running (chan e) !! i) as [l0|] eqn:Ei; [|by intros [= _ <-]].
  pose proof (proj1 (Forall_lookup _ _) W _ _ Ei) as Hok. cbv beta in Hok.
  assert (W' : forall a l, l0 = a :: l -> Forall acts_ok (<[i:=l]> (running (chan e)))).
  { intros a l ->. apply Forall_insert; [done|]. by eapply acts_ok_step. }
  destruct l0 as [|[it|] l]; intros [= _ <-]; [by split| |].
  - destruct (acts_ok_push _ _ Hok) as [l' ->]. split; [by split|]. split; [|by eapply W'].
    intros _. right. right. exists i, l'. simpl. apply list_lookup_insert_eq.
    by eapply lookup_lt_Some.
  - split; [split; simpl; [done|lia|done]|]. split; [|by eapply W'].
    intros _. left. simpl. lia.
Qed.

Lemma Live_job i sink e x e' : Live e -> start_job i sink e = Ok (x, e') -> Live e'.
Proof.
  intros ([A1 A2 A3] & L & W). unfold start_job.
  destruct (jobs (chan e) !! i) as [[id raw]|]; intros [= _ <-]; [|by split].
  split; [by split|]. split.
  - intros Ho. destruct (L Ho) as [?|[?|(j & l & H)]]; [by left|by right; left|].
    right. right. exists j, l. simpl. by apply lookup_app_l_Some.
  - simpl. apply Forall_app. split; [done|]. apply Forall_singleton. 
    exists (worker_batch sink id raw). by left.
Qed.

Lemma keeps_but op k ev e e' :
  (forall op, keeps (LiveBut op) (handle (ev op))) -> op_is e op k -> k <> Wakeup ->
  Live e -> handle (ev op) e = Ok (tt, e') -> Live e'.
Proof. intros H Hop Hk L Hh. eapply (H op); [|done]. by eapply Live_LiveBut. Qed.

Lemma Live_handle ev e e' : Live e -> enabled e ev -> handle ev e = Ok (tt, e') -> Live e'.
Proof.
  intros L Hen Hh.
  assert (HF : forall m : eng unit, frames m -> m e = Ok (tt, e') -> Live e').
  { intros m Hm Hr. eapply frame_Live; [by eapply Hm|done]. }
  destruct ev; cbn [handle] in Hh.
  - eapply (keeps_but op Accept (fun op => EvAccept op res)); try done; [|apply Hen].
    intros a. cbn [handle]. apply keeps_bind.
    + apply keeps_frames; [apply frame_LiveBut|]. unfold open_fd. frames.
    + intros _. apply keeps_complete_accept; [apply frame_LiveBut|apply LiveBut_del|apply LiveBut_accept].
  - destruct Hen as (id & v & Ho & _).
    eapply (keeps_but op Recv (fun op => EvRecv op bs)); try done; [|by eexists].
    intros a. cbn [handle]. apply keeps_bind; [apply keeps_op_target, frame_LiveBut|]. intros id'.
    apply keeps_bind; [apply keeps_frames; [apply frame_LiveBut|frames]|]. intros c.
    apply keeps_bind; [apply keeps_frames; [apply frame_LiveBut|unfold put_conn; frames]|].
    intros _. apply keeps_complete_recv; [apply frame_LiveBut|apply LiveBut_del].
  - eapply (keeps_but op Recv (fun op => EvRecvFail op res)); try done; [|apply Hen].
    intros a. cbn [handle]. apply keeps_bind; [apply keeps_op_target, frame_LiveBut|]. intros id'.
    apply keeps_complete_recv; [apply frame_LiveBut|apply LiveBut_del].
  - destruct Hen as (id & v & Ho & _).
    eapply (keeps_but op Send (fun op => EvSend op n)); try done; [|by eexists].
    intros a. cbn [handle]. apply keeps_bind; [apply keeps_op_target, frame_LiveBut|]. intros id'.
    apply keeps_complete_send; [apply frame_LiveBut|apply LiveBut_del].
  - eapply (keeps_but op Send (fun op => EvSendFail op res)); try done; [|apply Hen].
    intros a. cbn [handle]. apply keeps_bind; [apply keeps_op_target, frame_LiveBut|]. intros id'.
    apply keeps_complete_send; [apply frame_LiveBut|apply LiveBut_del].
  - by eapply Live_serve.
  - by apply (wakeup_empties op e e').
  - by apply (wakeup_empties op e e').
  - eapply (keeps_but op Stop EvStop); try done.
    intros a. apply keeps_complete_stop; [apply frame_LiveBut|apply LiveBut_del].
  - eapply (keeps_but op RspNotify (fun op => EvRspNotify op res rsp)); try done.
    intros a. apply keeps_complete_rsp; [apply frame_LiveBut|apply LiveBut_del].
  - eapply HF; [|done]. frames.
  - eapply HF; [|done]. unfold request_stop. frames.
  - eapply HF; [|done]. unfold reap_round. frames.
  - by eapply Live_job.
  - by eapply Live_worker.
Qed.

Lemma Live_startup ipc o sq clk x e :
  startup ipc (engine0 o sq clk) = Ok (x, e) -> Live e.
Proof.
  unfold startup, ebind at 1.
  destruct (submit_accept (engine0 o sq clk)) as [[x1 e1]|] eqn:E1; [|done].
  assert (H1 : bounded e1 /\ 0 <= efd_ (chan e1) /\ outbox_ (chan e1) = [] /\ running (chan e1) = []).
  { assert (K : keeps (fun e => bounded e /\ 0 <= efd_ (chan e) /\ outbox_ (chan e) = []
                                /\ running (chan e) = []) submit_accept).
    { apply keeps_simple.
      - intros a b F (Hb & H2 & H3 & H4). rewrite (fr_efd _ _ F), (fr_outbox _ _ F), (fr_running _ _ F).
        split; [by apply (fr_bound _ _ F)|done].
      - intros a (Hb & H2). split; [by apply bounded_new|done]. }
    eapply K; [|done]. by split. }
  unfold ebind at 1. destruct (submit_eventfd_read e1) as [[x2 e2]|] eqn:E2; [|done]. intros H.
  destruct H1 as (Hb & He & Ho & Hr). destruct (rearm _ _ _ Hb He E2) as (A & R & O).
  assert (L2 : Live e2).
  { split; [done|]. split; [by rewrite O, Ho|]. by rewrite R, Hr. }
  eapply (keeps_bind Live); [apply Live_simple| |exact L2|exact H].
  intros []. destruct ipc; [apply Live_simple|]. apply keeps_frames; [apply frame_Live|apply frames_ret].
Qed.

Lemma reachable_Live o e : engine_reachable o e -> Live e.
Proof.
  induction 1 as [sq clk ipc e He|e e' _ IH Hs]; [by eapply Live_startup|].
  inversion Hs as [e0 ev e1 Hen Hh]. subst. by eapply Live_handle.
Qed.

(** A sequence of events that can happen one after the other. *)
Inductive run : Engine -> list event -> Engine -> Prop :=
| run_nil e : run e [] e
| run_cons e ev e1 evs e' :
    enabled e ev -> handle ev e = Ok (tt, e1) -> run e1 evs e' -> run e (ev :: evs) e'.

(** The steps that carry a wakeup to the main thread. *)
Definition wake_step (ev : event) : bool :=
  match ev with EvWorker _ | EvEventfd _ | EvWakeup _ => true | _ => false end.

Lemma run_one e ev o :
  0 <= send_backlog_limit o < 2 ^ 64 -> engine_reachable o e -> enabled e ev ->
  exists e', handle ev e = Ok (tt, e') /\ engine_reachable o e' /\ Live e'.
Proof.
  intros Ho Hr Hen. pose proof (reachable_Inv o e Ho Hr) as I.
  destruct (wp_ok _ _ _ (wp_handle ev e I Hen)) as ([] & e' & Hh & _).
  assert (Hr' : engine_reachable o e').
  { apply (er_step o e e'); [done|]. by apply (engine_event e ev). }
  exists e'. split; [done|]. split; [done|]. by eapply reachable_Live.
Qed.

(** From a served wakeup read, from a raised counter, and from a pending
    write, the outbox is emptied in one, two and three steps. *)
Lemma deliver1 o e a v :
  0 <= send_backlog_limit o < 2 ^ 64 -> engine_reachable o e -> wakeup_op e a v -> v <> 0 ->
  exists evs e', (length evs <= 1)%nat /\ forallb wake_step evs = true /\ run e evs e'
    /\ outbox_ (chan e') = [].
Proof.
  intros Ho Hr (p & Hp & Hk & Hv) Hnz.
  assert (Hen : enabled e (EvWakeup a)) by (exists p; repeat split; congruence).
  destruct (run_one e _ o Ho Hr Hen) as (e' & Hh & _ & _). exists [EvWakeup a], e'.
  split; [simpl; lia|]. split; [done|]. split; [econstructor; [done|done|constructor]|].
  apply (wakeup_empties a e e'); [|done]. by eapply reachable_Live.
Qed.

Lemma deliver2 o e :
  0 <= send_backlog_limit o < 2 ^ 64 -> engine_reachable o e -> draining_ (flags e) = false ->
  0 < efd_ (chan e) ->
  exists evs e', (length evs <= 2)%nat /\ forallb wake_step evs = true /\ run e evs e'
    /\ outbox_ (chan e') = [].
Proof.
  intros Ho Hr Hd Hpos. pose proof (reachable_Live o e Hr) as (A & _).
  destruct (ar_op _ A Hd) as (a & v & Hw). destruct (decide (v = 0)) as [->|Hv].
  - destruct Hw as (p & Hp & Hk & Hz).
    assert (Hen : enabled e (EvEventfd a)) by (exists p; by repeat split).
    destruct (run_one e _ o Ho Hr Hen) as (e1 & Hh & Hr1 & L1).
    destruct (Live_serve a e tt e1 (reachable_Live o e Hr) Hen Hh) as (_ & v & Hv & Hw).
    destruct (deliver1 o e1 a v Ho Hr1 Hw Hv) as (evs & e' & H1 & H2 & H3 & H4).
    exists (EvEventfd a :: evs), e'. split; [simpl; lia|]. split; [done|]. split; [|done].
    by econstructor.
  - destruct (deliver1 o e a v Ho Hr Hw Hv) as (evs & e' & H1 & H2).
    exists evs, e'. split; [lia|done].
Qed.

Lemma deliver3 o e :
  0 <= send_backlog_limit o < 2 ^ 64 -> engine_reachable o e -> draining_ (flags e) = false ->
  exists evs e', (length evs <= 3)%nat /\ forallb wake_step evs = true /\ run e evs e'
    /\ outbox_ (chan e') = [].
Proof.
  intros Ho Hr Hd. pose proof (reachable_Live o e Hr) as (A & L & _).
  destruct (outbox_ (chan e)) as [|it its] eqn:Eo.
  { exists [], e. split; [simpl; lia|]. split; [done|]. split; [constructor|done]. }
  destruct L as [H|[(a & v & H & Hv)|(i & l & H)]]; [done| | |].
  - destruct (deliver2 o e Ho Hr Hd H) as (evs & e' & H1 & H2). exists evs, e'. split; [lia|done].
  - destruct (deliver1 o e a v Ho Hr H Hv) as (evs & e' & H1 & H2). exists evs, e'. split; [lia|done].
  - assert (Hen : enabled e (EvWorker i)) by (by exists WWrite, l).
    destruct (run_one e _ o Ho Hr Hen) as (e1 & Hh & Hr1 & _).
    assert (H1 : draining_ (flags e1) = false /\ 0 < efd_ (chan e1)).
    { cbn [handle] in Hh. unfold worker_act in Hh. rewrite H in Hh. injection Hh as <-. simpl.
      split; [done|]. pose proof (ar_efd _ A). lia. }
    destruct H1 as [Hd1 He1]. destruct (deliver2 o e1 Ho Hr1 Hd1 He1) as (evs & e' & H2 & H3 & H4 & H5).
    exists (EvWorker i :: evs), e'. split; [simpl; lia|]. split; [done|]. split; [by econstructor|done].
Qed.

(** C13: no wakeup is lost between the workers and the main thread: in every
    reachable state that is not draining, at most three steps of the wakeup
    path (a worker's pending eventfd write, the kernel serving the eventfd
    read, the wakeup completion) bring every queued outbox item to the main
    thread; nothing else has to happen first. *)
Theorem outbox_delivered o e :
  0 <= send_backlog_limit o < 2 ^ 64 -> engine_reachable o e -> draining_ (flags e) = false ->
  exists evs e', (length evs <= 3)%nat /\ forallb wake_step evs = true /\ run e evs e'
    /\ outbox_ (chan e') = [].
Proof. apply deliver3. Qed.

(** The batch of the demo connection (three bytes, no complete frame) is
    taken by a worker, which has pushed its item and not yet written. *)
Definition demo_no_sink (i : nat) (r : Request) : result (list byte) := Ok [].
Definition demo4 : Engine :=
  state_of (handle (EvWorker 0) (state_of (handle (EvJob 0 demo_no_sink) demo2))).

Lemma demo4_reachable : engine_reachable demo_opts demo4.
Proof.
  eapply (er_step _ (state_of (handle (EvJob 0 demo_no_sink) demo2))).
  - apply (er_step _ demo2).
    + apply (er_step _ demo1); [apply demo1_reachable|].
      apply (engine_event _ (EvRecv 3 [x01; x02; x03])); [apply demo2_enabled|]. vm_compute. reflexivity.
    + apply (engine_event _ (EvJob 0 demo_no_sink)); [vm_compute; lia|vm_compute; reflexivity].
  - apply (engine_event _ (EvWorker 0)); [|vm_compute; reflexivity].
    do 2 eexists. vm_compute. reflexivity.
Qed.

Lemma outbox_delivered_witness :
  length (outbox_ (chan demo4)) = 1%nat
  /\ exists evs e', (length evs <= 3)%nat /\ forallb wake_step evs = true /\ run demo4 evs e'
       /\ outbox_ (chan e') = [].
Proof.
  split; [vm_compute; reflexivity|]. apply (outbox_delivered demo_opts demo4).
  - vm_compute. split; congruence.
  - apply demo4_reachable.
  - vm_compute. reflexivity.
Defined.

(** ** Accepting stops for good *)

Lemma NoAccept_wakeup op : keeps NoAccept (complete_wakeup op).
Proof.
  unfold complete_wakeup. apply keeps_bind; [apply NoAccept_del|]. intros _.
  apply keeps_bind; [by apply NoAccept_simple|]. intros _. unfold drain_outbox.
  apply keeps_bind; [apply keeps_frames; [apply frame_NoAccept|frames]|]. intros its.
  apply keeps_bind; [|intros _; apply keeps_frames; [apply frame_NoAccept|frames]].
  intros a x b [Hb H] [= _ <-]. by split.
Qed.

Lemma NoAccept_handle ev e e' :
  NoAccept e -> enabled e ev -> handle ev e = Ok (tt, e') -> NoAccept e'.
Proof.
  intros L Hen Hh.
  assert (HK : forall m : eng unit, keeps NoAccept m -> m e = Ok (tt, e') -> NoAccept e').
  { intros m Hm Hr. by eapply Hm. }
  assert (HF : forall m : eng unit, frames m -> m e = Ok (tt, e') -> NoAccept e').
  { intros m Hm. apply HK, keeps_frames; [apply frame_NoAccept|done]. }
  destruct ev; cbn [handle] in Hh.
  - destruct Hen as [(o & Ho & Hk) _]. by destruct (proj2 L op o).
  - eapply HK; [|done]. apply keeps_bind; [apply keeps_op_target, frame_NoAccept|]. intros id.
    apply keeps_bind; [apply keeps_frames; [apply frame_NoAccept|frames]|]. intros c.
    apply keeps_bind; [apply keeps_frames; [apply frame_NoAccept|unfold put_conn; frames]|].
    intros _. apply keeps_complete_recv; [apply frame_NoAccept|apply NoAccept_del].
  - eapply HK; [|done]. apply keeps_bind; [apply keeps_op_target, frame_NoAccept|]. intros id.
    apply keeps_complete_recv; [apply frame_NoAccept|apply NoAccept_del].
  - eapply HK; [|done]. apply keeps_bind; [apply keeps_op_target, frame_NoAccept|]. intros id.
    apply keeps_complete_send; [apply frame_NoAccept|apply NoAccept_del].
  - eapply HK; [|done]. apply keeps_bind; [apply keeps_op_target, frame_NoAccept|]. intros id.
    apply keeps_complete_send; [apply frame_NoAccept|apply NoAccept_del].
  - unfold serve_eventfd in Hh. destruct Hen as (o & Ho & Hk & _). rewrite Ho in Hh.
    injection Hh as <-. destruct L as [Hb L]. split.
    + intros a p. simpl. rewrite lookup_insert_Some. intros [[<- _]|[_ Hp]]; by eapply Hb.
    + intros a p. simpl. rewrite lookup_insert_Some. intros [[_ <-]|[_ Hp]]; [|by eapply L].
      simpl. by rewrite Hk.
  - eapply HK; [apply NoAccept_wakeup|done].
  - eapply HK; [apply NoAccept_wakeup|done].
  - eapply HK; [|done]. apply keeps_complete_stop; [apply frame_NoAccept|apply NoAccept_del].
  - eapply HK; [|done]. apply keeps_complete_rsp; [apply frame_NoAccept|apply NoAccept_del].
  - eapply HF; [|done]. frames.
  - eapply HF; [|done]. unfold request_stop. frames.
  - eapply HF; [|done]. unfold reap_round. frames.
  - unfold start_job in Hh. destruct (jobs (chan e) !! i) as [[id raw]|]; by injection Hh as <-.
  - unfold worker_act in Hh. destruct (running (chan e) !! i) as [[|[it|] l]|]; by injection Hh as <-.
Qed.

Lemma NoAccept_run e evs e' : run e evs e' -> NoAccept e -> NoAccept e'.
Proof. induction 1 as [|e ev e1 evs e' Hen Hh _ IH]; [done|]. intros L. apply IH. by eapply NoAccept_handle. Qed.

(** Eight failed accepts in a row, e.g. because the process is out of
    descriptors, from a fresh start. *)
Definition EMFILE : Z := 24.
Definition accept_fails : list event := (fun a => EvAccept a (- EMFILE)) <$> [0; 3; 4; 5; 6; 7; 8; 9].

Fixpoint exec (evs : list event) : eng unit :=
  match evs with [] => eret tt | ev :: evs => handle ev ;;; exec evs end.

Lemma run_exec e evs e' : run e evs e' -> exec evs e = Ok (tt, e').
Proof.
  induction 1 as [|e ev e1 evs e' Hen Hh _ IH]; [done|]. simpl. unfold ebind. by rewrite Hh.
Qed.

Definition starved : Engine := state_of (exec accept_fails demo0).
Definition accept_in_flight (e : Engine) : bool :=
  existsb (fun ao => bool_decide (op_kind (snd ao) = Accept)) (map_to_list (ops (ring e))).

Lemma accept_in_flight_false e :
  accept_in_flight e = false -> forall a o, ops (ring e) !! a = Some o -> op_kind o <> Accept.
Proof.
  intros H a o Ho Hk. apply elem_of_map_to_list in Ho. apply list_elem_of_In in Ho.
  apply not_true_iff_false in H. apply H. unfold accept_in_flight. apply existsb_exists.
  exists (a, o). split; [done|]. by apply bool_decide_eq_true_2.
Qed.

Lemma starved_run : run demo0 accept_fails starved.
Proof.
  unfold accept_fails. simpl.
  repeat (eapply run_cons;
    [split; [eexists; split; [vm_compute; reflexivity|reflexivity]|unfold EMFILE; lia]
    |vm_compute; reflexivity|]).
  constructor.
Qed.

(** eight consecutive accept failures (EMFILE, say) stop the gateway
    from ever accepting again, although it neither drains nor stops: after
    them no accept operation is in flight, and in no continuation of the run,
    the one-second loop ticks included, is one submitted again; the listening
    socket stays open. *)
Theorem accept_never_rearmed evs e e' :
  run demo0 accept_fails e -> run e evs e' ->
  accepting_ (flags e) = true /\ draining_ (flags e) = false /\ listen_open (flags e) = true
  /\ forall a o, ops (ring e') !! a = Some o -> op_kind o <> Accept.
Proof.
  intros H1 H2. apply run_exec in H1. assert (e = starved) as ->.
  { unfold starved. by rewrite H1. }
  split; [vm_compute; reflexivity|]. split; [vm_compute; reflexivity|]. split; [vm_compute; reflexivity|].
  apply (NoAccept_run _ _ _ H2). split.
  - intros a o Ho. apply elem_of_map_to_list in Ho. revert a o Ho.
    assert (H : Forall (fun ao => fst ao < next_op (ring starved)) (map_to_list (ops (ring starved)))).
    { vm_compute. repeat constructor. }
    intros a o Ho. rewrite Forall_forall in H. by apply (H (a, o)).
  - apply accept_in_flight_false. vm_compute. reflexivity.
Qed.

Lemma accept_never_rearmed_witness :
  exists e', run starved [EvLoop None; EvLoop None] e'
    /\ ~ exists a o, ops (ring e') !! a = Some o /\ op_kind o = Accept.
Proof.
  assert (Hrun : exists e', run starved [EvLoop None; EvLoop None] e').
  { eexists. eapply run_cons; [done|vm_compute; reflexivity|].
    eapply run_cons; [done|vm_compute; reflexivity|]. constructor. }
  destruct Hrun as [e' He']. exists e'. split; [done|]. intros (a & o & Ho & Hk).
  destruct (accept_never_rearmed [EvLoop None; EvLoop None] starved e' starved_run He')
    as (_ & _ & _ & H). by apply (H a o).
Defined.
