(* ===== verification/EngineBatch.v ===== *)
(** * Batches of completions

    [UringEngine::harvest] takes all completions that are ready and handles them
    one after the other.  EngineProps.v shows that an event is handled safely
    in every state in which the kernel can produce it; here, that the
    completions of a batch stay valid while those before them are handled: no
    completion frees the operation, drops the connection or touches the buffer
    of another one, in the queue or still in flight. *)

From S2P Require Import Prelude Protocol FrameCut Connection Engine EngineProps EngineLive.

(** The loop of io_uring_for_each_cqe. *)
Fixpoint harvest (evs : list event) : eng unit :=
  match evs with
  | [] => eret tt
  | ev :: evs => handle ev ;;; harvest evs
  end.

(** The operation of a completion; other events are no completions. *)
Definition cqe_op (ev : event) : option Z :=
  match ev with
  | EvAccept op _ | EvRecv op _ | EvRecvFail op _ | EvSend op _ | EvSendFail op _
  | EvWakeup op | EvWakeupFail op | EvStop op | EvRspNotify op _ _ => Some op
  | _ => None
  end.
Definition accepted (ev : event) : option Z :=
  match ev with EvAccept _ res => if 0 <=? res then Some res else None | _ => None end.

(** What lies in the completion queue: completions of different operations,
    each of which can occur; accepted descriptors differ. *)
Record batch (e : Engine) (evs : list event) : Prop := {
  ba_enabled : Forall (enabled e) evs;
  ba_cqe : Forall (fun ev => cqe_op ev <> None) evs;
  ba_ops : NoDup (cqe_op <$> evs);
  ba_fds : NoDup (omap accepted evs)
}.

(** ** What one computation leaves alone *)

Definition wlp {X} (m : eng X) (Q : X -> Engine -> Prop) (e : Engine) : Prop :=
  forall x e', m e = Ok (x, e') -> Q x e'.

Lemma wlp_bind {X Y} (m : eng X) (k : X -> eng Y) Q e :
  wlp m (fun x => wlp (k x) Q) e -> wlp (ebind m k) Q e.
Proof. intros H y e'. unfold ebind. destruct (m e) as [[x e1]|] eqn:E; [|done]. by apply H. Qed.
Lemma wlp_keeps {X} P (m : eng X) (Q : X -> Engine -> Prop) e :
  keeps P m -> P e -> (forall x e', P e' -> Q x e') -> wlp m Q e.
Proof. intros Hm He HQ x e' E. apply HQ. by eapply Hm. Qed.

Create HintDb keeps.

(** ** Framing

    [P] is kept by everything that stays away from the operation [b] and from
    the connections outside [free]. *)
Record framed (b : Z) (free : Z -> Prop) (P : Engine -> Prop) : Prop := {
  P_now : keeps P steady_now;
  P_sqe : keeps P io_uring_get_sqe;
  P_flags f : keeps P (upd_flags f);
  P_chan f : keeps P (upd_chan f);
  P_close fd : keeps P (close_fd fd);
  P_new o : keeps P (new_op o);
  P_del a : a <> b -> keeps P (delete_op a);
  P_put id c : free id -> keeps P (put_conn id c);
  P_erase id : free id -> keeps P (erase_conn id);
  P_make fd : keeps P (make_conn fd);
  P_next e : P e -> free (next_conn_id_ (net e))
}.

Section Frame.
Context (b : Z) (free : Z -> Prop) (P : Engine -> Prop).
Hypothesis HF : framed b free P.

Lemma keeps_eret {X} (x : X) : keeps P (eret x).
Proof using. by intros e y e' He [= _ <-]. Qed.
Lemma keeps_read {X} (f : Engine -> X) : keeps P (get f).
Proof using. by intros e y e' He [= _ <-]. Qed.
Lemma keeps_deref id : keeps P (deref id).
Proof using. intros e y e' He. unfold deref. by destruct (_ !! id); intros [= _ <-]. Qed.
Lemma keeps_ub {X} w : keeps P (@ub X w).
Proof using. done. Qed.
Hint Resolve keeps_eret keeps_read keeps_deref keeps_ub : keeps.

(** Splits a computation into its primitives. *)
Ltac kept :=
  repeat match goal with
  | |- forall _, _ => intros ?
  | |- keeps P (ebind _ _) => apply keeps_bind
  | |- keeps P (if ?x then _ else _) => destruct x
  | |- keeps P (match ?x with _ => _ end) => destruct x
  | |- keeps P (let '(_, _) := ?x in _) => destruct x
  | _ => solve [auto with keeps]
  end.

Lemma keeps_get_sqe : keeps P get_sqe.
Proof using HF. destruct HF. unfold get_sqe. kept. Qed.
Hint Resolve keeps_get_sqe : keeps.
Lemma keeps_submit_simple k : keeps P (submit_simple k).
Proof using HF. destruct HF. unfold submit_simple. kept. Qed.
Lemma keeps_cancel x : keeps P (cancel_opt x).
Proof using HF. destruct HF. unfold cancel_opt, submit_cancel. kept. Qed.
Hint Resolve keeps_submit_simple keeps_cancel : keeps.
Lemma keeps_submit_recv id : free id -> keeps P (submit_recv id).
Proof using HF. destruct HF. intros. unfold submit_recv. kept. Qed.
Lemma keeps_submit_send id : free id -> keeps P (submit_send id).
Proof using HF. destruct HF. intros. unfold submit_send. kept. Qed.
Lemma keeps_finalize id : free id -> keeps P (maybe_finalize id).
Proof using HF. destruct HF. intros. unfold maybe_finalize. kept. Qed.
Hint Resolve keeps_submit_recv keeps_submit_send keeps_finalize : keeps.
Lemma keeps_close id : free id -> keeps P (close_conn id).
Proof using HF. destruct HF. intros. unfold close_conn. kept. Qed.
Hint Resolve keeps_close : keeps.
Lemma keeps_response id fr : free id -> keeps P (push_response id fr).
Proof using HF. destruct HF. intros. unfold push_response. kept. Qed.
Hint Resolve keeps_response : keeps.
Lemma keeps_item it : free (it_conn it) -> keeps P (on_item it).
Proof using HF. destruct HF. intros. unfold on_item. kept. Qed.
Lemma keeps_rsp s : free (rsp_conn s) -> keeps P (on_rsp s).
Proof using HF. destruct HF. intros. unfold on_rsp. kept. Qed.
Lemma keeps_recv_done op id res : op <> b -> free id -> keeps P (complete_recv op id res).
Proof using HF. destruct HF. intros. unfold complete_recv, post. kept. Qed.
Lemma keeps_send_done op id res : op <> b -> free id -> keeps P (complete_send op id res).
Proof using HF. destruct HF. intros. unfold complete_send. kept. Qed.

Lemma keeps_accept op res : op <> b -> keeps P (complete_accept op res).
Proof using HF.
  destruct HF as [F1 F2 F3 F4 F5 F6 F7 F8 F9 F10 F11].
  intros Hop. unfold complete_accept, submit_accept. do 2 (apply keeps_bind; [kept|intros ?]).
  destruct (negb _); [kept|]. destruct (res <? 0); [kept|].
  apply keeps_bind; [kept|]. intros _ e y0 e0 He. revert y0 e0.
  apply (wlp_bind _ _ (fun _ e' => P e')). intros id e1 E. assert (P e1) as H1 by by eapply F10.
  assert (free id) as Hid.
  { assert (id = next_conn_id_ (net e)) as ->; [|by apply F11].
    revert E. unfold make_conn, ebind, get, steady_now, eret. cbn.
    destruct (conns_ (net e) !! next_conn_id_ (net e)); cbn; [|by intros [= <- _]].
    unfold close_fd, ebind. cbn. case_bool_decide; [|done]. by intros [= <- _]. }
  revert e1 E H1. cut (keeps P (eng! ok := submit_recv id in
     (if ok : bool then eret tt else (eng! c := deref id in erase_conn id ;;; close_fd (fd_ c))) ;;; submit_simple Accept)).
  { intros Hk e1 _ H1 y e2 E2. by eapply Hk. }
  kept.
Qed.
End Frame.

(** ** What another completion relies on *)

(** Its operation, and the connection the operation points to, in a given
    state. *)
Definition holds_conn (h : option (Z * Connection)) (e : Engine) : Prop :=
  match h with
  | Some (id, c) => id < next_conn_id_ (net e) /\ conns_ (net e) !! id = Some c
  | None => True
  end.
Definition at_op (b : Z) (o : UringOp) (h : option (Z * Connection)) (e : Engine) : Prop :=
  bounded e /\ ops (ring e) !! b = Some o /\ holds_conn h e.
Definition elsewhere (h : option (Z * Connection)) (id' : Z) : Prop :=
  match h with Some (id, _) => id' <> id | None => True end.

Lemma at_op_framed b o h : framed b (elsewhere h) (at_op b o h).
Proof.
  split.
  - by intros e x e' H [= _ <-].
  - by intros e x e' H [= _ <-].
  - by intros f e x e' H [= _ <-].
  - by intros f e x e' H [= _ <-].
  - intros fd e x e' H. unfold close_fd. case_bool_decide; [|done]. by intros [= _ <-].
  - intros o' e x e' (Hb & Ho & Hh) [= _ <-]. unfold at_op, bounded. cbn.
    split; [|split; [|done]].
    + intros a p [[<- <-]|[_ Hp]]%lookup_insert_Some; [lia|]. specialize (Hb _ _ Hp). lia.
    + rewrite lookup_insert_ne; [done|]. specialize (Hb _ _ Ho). lia.
  - intros a Ha e x e' (Hb & Ho & Hh) [= _ <-]. unfold at_op, bounded. cbn. split; [|split; [|done]].
    + intros a' p [_ Hp]%lookup_delete_Some. by eapply Hb.
    + by rewrite lookup_delete_ne.
  - intros id' c' Hf e x e' (Hb & Ho & Hh) [= _ <-]. split; [done|]. split; [done|].
    destruct h as [[id c]|]; [|done]. destruct Hh as [H1 H2]. split; [done|]. cbn in *. by rewrite lookup_insert_ne.
  - intros id' Hf e x e' (Hb & Ho & Hh) [= _ <-]. split; [done|]. split; [done|].
    destruct h as [[id c]|]; [|done]. destruct Hh as [H1 H2]. split; [done|]. cbn in *. by rewrite lookup_delete_ne.
  - intros fd e x e' (Hb & Ho & Hh). unfold make_conn, ebind, get, steady_now, eret. cbn.
    destruct (conns_ (net e) !! next_conn_id_ (net e)) as [c0|] eqn:En; cbn.
    + unfold close_fd, ebind. cbn. case_bool_decide; [|done]. cbn. intros [= _ <-]. split; [done|]. split; [done|].
      destruct h as [[id c]|]; [|done]. destruct Hh as [H1 H2]. cbn. split; [lia | done].
    + intros [= _ <-]. split; [done|]. split; [done|].
      destruct h as [[id c]|]; [|done]. destruct Hh as [H1 H2]. cbn. split; [lia|]. rewrite lookup_insert_ne; [done | lia].
  - intros e (Hb & Ho & Hh). destruct h as [[id c]|]; [|done]. destruct Hh. cbn. lia.
Qed.

(** A descriptor that is not in use. *)
Definition unused_fd (fd : Z) (e : Engine) : Prop := fd ∉ fds (net e).
Lemma unused_framed b fd : framed b (fun _ => True) (unused_fd fd).
Proof.
  unfold unused_fd. split; try by intros *.
  - by intros e x e' H [= _ <-].
  - by intros e x e' H [= _ <-].
  - by intros f e x e' H [= _ <-].
  - by intros f e x e' H [= _ <-].
  - intros f e x e' H. unfold close_fd. case_bool_decide; [|done]. intros [= _ <-]. cbn. rewrite elem_of_difference. tauto.
  - by intros o e x e' H [= _ <-].
  - by intros a _ e x e' H [= _ <-].
  - by intros id c _ e x e' H [= _ <-].
  - by intros id _ e x e' H [= _ <-].
  - intros f e x e' H. unfold make_conn, ebind, get, steady_now, eret. cbn.
    destruct (conns_ (net e) !! next_conn_id_ (net e)) as [c0|] eqn:En; cbn.
    + unfold close_fd, ebind. cbn. case_bool_decide; [|done]. cbn. intros [= _ <-]. cbn. rewrite elem_of_difference. tauto.
    + by intros [= _ <-].
Qed.

(** ** A connection with an operation in flight *)

(** [P] at the connection [id] is kept as long as [H] is: [H] says what the
    completion of [b] needs of it. *)
Record lasting (b : Z) (H : Connection -> Prop) : Prop := {
  k_pend c : H c -> 0 < pending_ops c;
  k_state c s : H c -> s = Closing \/ recv_op c = None -> H (set_state c s);
  k_push c fr : H c -> H (send_push fr c);
  k_last c t : H c -> H (set_last_active c t);
  k_send c a : H c -> send_active_ c = false ->
    H (set_send_active (set_ops c (pending_ops c + 1) (recv_op c) (Some a)) true);
  k_send_done c op : H c -> send_op c = Some op -> op <> b ->
    H (set_send_active (set_ops c (pending_ops c - 1) (recv_op c) None) false);
  k_pop c n : H c -> send_op c = None -> H (send_pop n c);
  k_recv_done c op : H c -> recv_op c = Some op -> op <> b -> H (set_ops c (pending_ops c - 1) None (send_op c));
  k_rx c al p n : H c -> recv_op c <> Some b -> H (set_rx c al p n);
  k_recv c a : H c -> recv_op c = None -> state c <> Parsing ->
    H (set_ops c (pending_ops c + 1) (Some a) (send_op c));
  k_parsing c : H c -> state c = Parsing -> recv_op c = None
}.

Definition bookkept (c : Connection) : Prop :=
  pending_ops c = b2z (recv_op c) + b2z (send_op c) /\ send_active_ c = is_some (send_op c)
  /\ (state c = Parsing -> recv_op c = None).
(** A receive in flight needs its buffer, where it was when the operation was
    submitted and as it was; a send the block it sends. *)
Definition receiving (b : Z) (area : nat * list byte * nat) (c : Connection) : Prop :=
  bookkept c /\ recv_op c = Some b /\ (rx_alloc_ c, pending_ c, rx_len_ c) = area.
Definition sending (b : Z) (f : list byte) (c : Connection) : Prop :=
  bookkept c /\ send_op c = Some b /\ exists q, send_q_ c = f :: q.

Lemma b2z_pos x : 0 <= b2z x <= 1.
Proof. destruct x; cbn; lia. Qed.

Lemma receiving_lasting b area : lasting b (receiving b area).
Proof.
  split.
  - intros c ((H1 & _) & Hr & _). rewrite H1, Hr. pose proof (b2z_pos (send_op c)). cbn. lia.
  - intros c s ((H1 & H2 & H3) & Hr & Hn) [->|]; [|congruence]. by split.
  - by intros c fr.
  - by intros c t.
  - intros c a ((H1 & H2 & H3) & Hr & Hn) Ha. split; [|done]. split; [|done]. cbn.
    rewrite H1. rewrite H2 in Ha. destruct (send_op c); cbn in *; [done | lia].
  - intros c op ((H1 & H2 & H3) & Hr & Hn) Hs Hop. split; [|done]. split; [|done]. cbn. rewrite H1, Hs. cbn. lia.
  - intros c k ((H1 & H2 & H3) & Hr & Hn) Hs. unfold send_pop.
    destruct (pop_loop (send_q_ c) k (send_bytes_ c)). by split.
  - intros c op (_ & Hr & _) Hr' Hop. congruence.
  - intros c al p m (_ & Hr & _) Hr'. congruence.
  - intros c a (_ & Hr & _) Hr' _. congruence.
  - intros c ((_ & _ & H3) & _). exact H3.
Qed.

Lemma sending_lasting b f : lasting b (sending b f).
Proof.
  split.
  - intros c ((H1 & _) & Hs & _). rewrite H1, Hs. pose proof (b2z_pos (recv_op c)). cbn. lia.
  - intros c s ((H1 & H2 & H3) & Hs & Hq) Hc. split; [|done]. split; [done|]. split; [done|].
    intros E. cbn in E. by destruct Hc as [->|]; [discriminate|].
  - intros c fr (Hb & Hs & q & Hq). split; [done|]. split; [done|]. exists (q ++ [fr]). cbn. by rewrite Hq.
  - by intros c t.
  - intros c a ((_ & H2 & _) & Hs & _) Ha. rewrite H2, Hs in Ha. done.
  - intros c op (_ & Hs & _) Hs' Hop. congruence.
  - intros c k (_ & Hs & _) Hs'. congruence.
  - intros c op ((H1 & H2 & H3) & Hs & Hq) Hr Hop. split; [|done]. split; [|done]. cbn. rewrite H1, Hr. cbn. lia.
  - by intros c al p m.
  - intros c a ((H1 & H2 & H3) & Hs & Hq) Hr Hst. split; [|done]. split; [|done]. cbn. rewrite H1, Hr. cbn. lia.
  - intros c ((_ & _ & H3) & _). exact H3.
Qed.

Section Holding.
Context (b : Z) (o : UringOp) (id : Z) (H : Connection -> Prop).
Hypothesis HL : lasting b H.

#[local] Abbreviation here c := (at_op b o (Some (id, c))).
Definition holding (e : Engine) : Prop := exists c, here c e /\ H c.

Lemma holding_framed : framed b (fun id' => id' <> id) holding.
Proof using.
  assert (K : forall X (m : eng X), (forall c, keeps (here c) m) -> keeps holding m).
  { intros X m Hm e x e' (c & Hc & HH) E. exists c. split; [|done]. by eapply Hm. }
  split; intros; try (apply K; intros c0; by apply (at_op_framed b o (Some (id, c0)))).
  destruct H0 as (c & Hc & _). by apply (P_next _ _ _ (at_op_framed b o (Some (id, c)))).
Qed.

Lemma here_deref c Q e : here c e -> Q c e -> wlp (deref id) Q e.
Proof using. intros (_ & _ & _ & Hc) HQ x e'. unfold deref. rewrite Hc. by intros [= <- <-]. Qed.
Lemma here_put c c' Q e : here c e -> (forall e', here c' e' -> Q tt e') -> wlp (put_conn id c') Q e.
Proof using.
  intros (Hb & Ho & Hn & Hc) HQ x e' [= <- <-]. apply HQ. split; [done|]. split; [done|]. split; [done|].
  apply lookup_insert_eq.
Qed.
Lemma here_keeps {X} c (m : eng X) (Q : X -> Engine -> Prop) e :
  keeps (here c) m -> here c e -> (forall x e', here c e' -> Q x e') -> wlp m Q e.
Proof using. apply wlp_keeps. Qed.
Lemma wlp_ret {X} (x : X) (Q : X -> Engine -> Prop) e : Q x e -> wlp (eret x) Q e.
Proof using. by intros HQ y e' [= <- <-]. Qed.
Lemma wlp_get {X} (f : Engine -> X) (Q : X -> Engine -> Prop) e : Q (f e) e -> wlp (get f) Q e.
Proof using. by intros HQ y e' [= <- <-]. Qed.
#[local] Abbreviation at_framed c := (at_op_framed b o (Some (id, c))).
Hint Resolve keeps_get_sqe keeps_cancel at_op_framed P_now P_new P_flags P_del P_chan : keeps.

(** Where the continuation sees the connection again. *)
#[local] Abbreviation goes_on Q := (forall x e' c', here c' e' -> H c' -> Q x e').

Lemma here_finalize c Q e : here c e -> H c -> goes_on Q -> wlp (maybe_finalize id) Q e.
Proof using HL.
  intros Hc HH HQ. apply wlp_bind, (here_deref c); [done|]. pose proof (k_pend _ _ HL c HH).
  assert ((pending_ops c >? 0) = true) as -> by blia. rewrite orb_true_r. apply wlp_ret. by eapply HQ.
Qed.

Lemma here_close c Q e : here c e -> H c -> goes_on Q -> wlp (close_conn id) Q e.
Proof using HL.
  intros Hc HH HQ. apply wlp_bind, (here_deref c); [done|].
  case_bool_decide; [apply wlp_ret; by eapply HQ|].
  apply wlp_bind, (here_put c (set_state c Closing)); [done|]. intros e1 H1.
  assert (H (set_state c Closing)) as HH1 by (apply (k_state _ _ HL); auto).
  do 2 (apply wlp_bind; eapply here_keeps; [eapply keeps_cancel, at_op_framed | eassumption |]; clear e1 H1;
        intros _ e1 H1).
  by apply (here_finalize (set_state c Closing)).
Qed.

Lemma here_send c Q e : here c e -> H c -> send_active_ c = false -> goes_on Q -> wlp (submit_send id) Q e.
Proof using HL.
  intros Hc HH Ha HQ. apply wlp_bind, (here_deref c); [done|]. destruct (send_q_ c); [done|].
  apply wlp_bind. eapply here_keeps; [eapply keeps_get_sqe, at_op_framed | exact Hc |].
  intros [] e1 H1; [|apply wlp_ret; by eapply HQ].
  apply wlp_bind. eapply here_keeps; [apply (P_new _ _ _ (at_framed c)) | exact H1 |]. intros a e2 H2.
  apply wlp_bind, (here_put c _ _ _ H2). intros e3 H3. apply wlp_ret. eapply HQ; [exact H3|].
  by apply (k_send _ _ HL).
Qed.

Lemma here_recv c Q e :
  here c e -> H c -> recv_op c = None -> state c <> Parsing -> goes_on Q -> wlp (submit_recv id) Q e.
Proof using HL.
  intros Hc HH Hr Hs HQ. apply wlp_bind, (here_deref c); [done|]. apply wlp_bind, wlp_get.
  set (c1 := rx_prepare _ c). assert (H c1 /\ recv_op c1 = None /\ state c1 <> Parsing) as (HH1 & Hr1 & Hs1).
  { subst c1. unfold rx_prepare. case_if; [|done]. split; [apply (k_rx _ _ HL); [done | congruence] | done]. }
  apply wlp_bind, (here_put c c1 _ _ Hc). intros e1 H1.
  apply wlp_bind. eapply here_keeps; [eapply keeps_get_sqe, at_op_framed | exact H1 |].
  intros [] e2 H2; [|apply wlp_ret; by eapply HQ].
  apply wlp_bind. eapply here_keeps; [apply (P_new _ _ _ (at_framed c1)) | exact H2 |]. intros a e3 H3.
  apply wlp_bind, (here_put c1 _ _ _ H3). intros e4 H4. apply wlp_ret. eapply HQ; [exact H4|].
  by apply (k_recv _ _ HL).
Qed.

Lemma here_response c fr Q e : here c e -> H c -> goes_on Q -> wlp (push_response id fr) Q e.
Proof using HL.
  intros Hc HH HQ. apply wlp_bind, (here_deref c); [done|]. apply wlp_bind, wlp_get. case_if.
  - apply wlp_bind, (here_close c); [done..|]. intros _ e' c' H1 HH1. apply wlp_ret. by eapply HQ.
  - apply wlp_bind, (here_put c (send_push fr c) _ _ Hc). intros e1 H1.
    pose proof (k_push _ _ HL c fr HH) as HH1. apply wlp_bind. destruct (send_active_ c) eqn:Ea.
    + apply wlp_ret, wlp_ret. by eapply HQ.
    + apply wlp_bind, (here_send (send_push fr c)); [done..|]. intros x e2 c2 H2 HH2.
      apply wlp_ret, wlp_ret. by eapply HQ.
Qed.

Lemma here_item it Q c e : it_conn it = id -> here c e -> H c -> goes_on Q -> wlp (on_item it) Q e.
Proof using HL.
  intros Hi Hc HH HQ. unfold on_item. rewrite Hi. apply wlp_bind, wlp_get.
  pose proof Hc as (_ & _ & _ & Hlk). rewrite Hlk.
  case_bool_decide; [apply wlp_ret; by eapply HQ|]. destruct (it_kind it).
  - apply wlp_bind, (here_response c); [done..|]. intros x e' c' H1 HH1. apply wlp_ret. by eapply HQ.
  - apply wlp_bind, wlp_get. destruct (draining_ _); [by apply (here_close c)|].
    case_bool_decide as Hp; cbn [negb]; [|apply wlp_ret; by eapply HQ].
    pose proof (k_parsing _ _ HL c HH Hp) as Hr.
    apply wlp_bind, (here_put c (set_state (rx_feed (it_bytes it) c) Active) _ _ Hc). intros e1 H1.
    assert (H (set_state (rx_feed (it_bytes it) c) Active)) as HH1.
    { apply (k_state _ _ HL); [|by right]. apply (k_rx _ _ HL); [done | congruence]. }
    apply wlp_bind, (here_recv _ _ _ H1 HH1); [done..|]. intros [] e2 c2 H2 HH2; [apply wlp_ret; by eapply HQ|].
    by apply (here_close c2).
  - by apply (here_close c).
Qed.
Lemma here_rsp r Q c e : rsp_conn r = id -> here c e -> H c -> goes_on Q -> wlp (on_rsp r) Q e.
Proof using HL.
  intros Hi Hc HH HQ. unfold on_rsp. rewrite Hi. case_if; [apply wlp_ret; by eapply HQ|].
  case_if; [apply wlp_ret; by eapply HQ|]. apply wlp_bind, wlp_get.
  pose proof Hc as (_ & _ & _ & Hlk). rewrite Hlk. case_bool_decide; [apply wlp_ret; by eapply HQ|].
  apply wlp_bind, (here_response c); [done..|]. intros x e' c' H1 HH1. apply wlp_ret. by eapply HQ.
Qed.

Lemma here_send_done op res Q c e :
  here c e -> H c -> send_op c = Some op -> op <> b -> goes_on Q -> wlp (complete_send op id res) Q e.
Proof using HL.
  intros Hc HH Hs Hop HQ. apply wlp_bind, (here_deref c); [done|].
  set (c1 := set_send_active _ false). assert (H c1) as HH1 by by eapply (k_send_done _ _ HL).
  apply wlp_bind, (here_put c c1 _ _ Hc). intros e1 H1.
  apply wlp_bind. eapply here_keeps; [by apply (P_del _ _ _ (at_framed c1)) | exact H1 |]. intros _ e2 H2.
  case_bool_decide; [by apply (here_finalize c1)|]. case_if; [by apply (here_close c1)|].
  apply wlp_bind. eapply here_keeps; [apply (P_now _ _ _ (at_framed c1)) | exact H2 |]. intros now e3 H3.
  set (c2 := set_last_active (send_pop _ c1) now).
  assert (H c2) as HH2 by (apply (k_last _ _ HL), (k_pop _ _ HL); done).
  apply wlp_bind, (here_put c1 c2 _ _ H3). intros e4 H4. case_if; [|apply wlp_ret; by eapply HQ].
  assert (send_active_ c2 = false) as Ha2.
  { subst c2. unfold send_pop. by destruct (pop_loop _ _ _). }
  apply wlp_bind, (here_send c2); [done..|]. intros x e5 c5 H5 HH5. apply wlp_ret. by eapply HQ.
Qed.

Lemma here_recv_done op res Q c e :
  here c e -> H c -> recv_op c = Some op -> op <> b -> goes_on Q -> wlp (complete_recv op id res) Q e.
Proof using HL.
  intros Hc HH Hr Hop HQ. apply wlp_bind, (here_deref c); [done|].
  set (c1 := set_ops c _ None _). assert (H c1) as HH1 by by eapply (k_recv_done _ _ HL).
  apply wlp_bind, (here_put c c1 _ _ Hc). intros e1 H1.
  apply wlp_bind. eapply here_keeps; [by apply (P_del _ _ _ (at_framed c1)) | exact H1 |]. intros _ e2 H2.
  case_bool_decide; [by apply (here_finalize c1)|]. case_if; [by apply (here_close c1)|].
  case_if; [by apply (here_close c1)|].
  apply wlp_bind. eapply here_keeps; [apply (P_now _ _ _ (at_framed c1)) | exact H2 |]. intros now e3 H3.
  set (c2 := set_last_active (rx_commit _ c1) now).
  assert (H c2) as HH2 by (by apply (k_last _ _ HL), (k_rx _ _ HL)).
  apply wlp_bind, (here_put c1 c2 _ _ H3). intros e4 H4. apply wlp_bind, wlp_get.
  case_if; [by apply (here_close c2)|]. unfold rx_take.
  apply wlp_bind, (here_put c2 _ _ _ H4). intros e5 H5. unfold post.
  eapply here_keeps; [apply (P_chan _ _ _ (at_op_framed b o _)) | exact H5 |]. intros x e6 H6.
  eapply HQ; [exact H6|]. apply (k_state _ _ HL); [|by right]. by apply (k_rx _ _ HL).
Qed.

(** From one connection to all. *)
Lemma holding_here {X} (m : eng X) e :
  holding e -> (forall c, here c e -> H c -> wlp m (fun _ => holding) e) -> wlp m (fun _ => holding) e.
Proof using. intros (c & Hc & HH) Hm. by eapply Hm. Qed.
Lemma holding_on c e : here c e -> H c -> holding e.
Proof using. by exists c. Qed.
Hint Resolve holding_on : keeps.

Lemma holding_items its : keeps holding (each_item its).
Proof using HL.
  induction its as [|it its IH]; cbn; [apply keeps_eret|]. apply keeps_bind; [|done].
  destruct (decide (it_conn it = id)) as [E|E]; [|by eapply keeps_item; [apply holding_framed|]].
  intros e x e' (c & Hc & HH) Hm. by eapply (here_item it (fun _ => holding)); eauto with keeps.
Qed.
Lemma holding_rsps l : keeps holding (each_rsp l).
Proof using HL.
  induction l as [|r l IH]; cbn; [apply keeps_eret|]. apply keeps_bind; [|done].
  destruct (decide (rsp_conn r = id)) as [E|E]; [|by eapply keeps_rsp; [apply holding_framed|]].
  intros e x e' (c & Hc & HH) Hm. by eapply (here_rsp r (fun _ => holding)); eauto with keeps.
Qed.
End Holding.

(** ** One completion and what another relies on *)

Lemma op_points e a k :
  Inv None [] e -> op_is e a k -> k = Recv \/ k = Send ->
  exists id v c, ops (ring e) !! a = Some (mkOp k (Some id) v) /\ conns_ (net e) !! id = Some c
    /\ (k = Recv -> recv_op c = Some a) /\ (k = Send -> send_op c = Some a).
Proof.
  intros I ([k' oc v] & Ho & Hk) Hor. cbn in Hk. subst k'. pose proof (i_ops _ _ _ I _ _ Ho) as [_ Hok].
  unfold op_ok in Hok. cbn in Hok.
  destruct Hor as [-> | ->]; destruct Hok as (id & c & -> & Hc & Hr); exists id, v, c; by repeat split.
Qed.

Section Handle.
Context (b : Z) (free : Z -> Prop) (P : Engine -> Prop).
Hypothesis HF : framed b free P.
Hypothesis P_items : forall its, keeps P (each_item its).
Hypothesis P_rsps : forall l, keeps P (each_rsp l).
Hypothesis P_recv : forall op id c bs res e, P e -> conns_ (net e) !! id = Some c -> recv_op c = Some op -> op <> b ->
  wlp (put_conn id (kernel_write bs c) ;;; complete_recv op id res) (fun _ => P) e
  /\ wlp (complete_recv op id res) (fun _ => P) e.
Hypothesis P_send : forall op id c res e, P e -> conns_ (net e) !! id = Some c -> send_op c = Some op -> op <> b ->
  wlp (complete_send op id res) (fun _ => P) e.

Lemma keeps_drain_ring v : keeps P (drain_response_ring v).
Proof using HF P_rsps.
  destruct HF as [F1 F2 F3 F4 F5 F6 F7 F8 F9 F10 F11]. unfold drain_response_ring, request_stop.
  destruct v as [v|]; [|apply keeps_eret].
  repeat first [ solve [auto] | apply keeps_read | apply keeps_eret | apply keeps_bind; [|intros ?] | case_if ].
Qed.

Lemma keeps_wakeup op : op <> b -> keeps P (complete_wakeup op).
Proof using HF P_items.
  intros Hop. unfold complete_wakeup, submit_eventfd_read, drain_outbox.
  apply keeps_bind; [by apply (P_del _ _ _ HF)|]. intros _.
  apply keeps_bind; [by eapply keeps_submit_simple|]. intros _.
  apply keeps_bind; [apply keeps_read|]. intros its. apply keeps_bind; [apply (P_chan _ _ _ HF)|]. intros _. apply P_items.
Qed.

Lemma handle_keeps ev op e :
  Inv None [] e -> enabled e ev -> cqe_op ev = Some op -> op <> b ->
  (forall res, accepted ev = Some res -> keeps P (open_fd res)) ->
  P e -> wlp (handle ev) (fun _ => P) e.
Proof using HF P_items P_rsps P_recv P_send.
  intros I Hen Hev Hop HA He.
  assert (Hkeep : forall X (m : eng X), keeps P m -> wlp m (fun _ => P) e) by (intros X m Hm x e' E; by eapply Hm).
  destruct ev; try discriminate Hev; injection Hev as ->; cbn [handle].
  - apply Hkeep, keeps_bind; [|intros _; by eapply keeps_accept].
    unfold accepted in HA. destruct (Z.leb_spec 0 res); [by apply HA|]. unfold open_fd.
    destruct (Z.leb_spec 0 res); [lia|]. apply keeps_eret.
  - destruct Hen as (id & v & Ho & Hbs & Hlen). apply wlp_bind. intros y e1. unfold op_target. rewrite Ho.
    intros [= <- <-]. destruct (op_owner e op Recv id v I Ho) as (c & Hc & Hr & _); [by left|].
    apply wlp_bind. intros c1 e2. unfold deref. rewrite Hc. intros [= <- <-].
    apply (proj1 (P_recv op id c bs _ e He Hc (Hr eq_refl) Hop)).
  - destruct Hen as [Hk _]. destruct (op_points e op Recv I Hk) as (id & v & c & Ho & Hc & Hr & _); [by left|].
    apply wlp_bind. intros y e1. unfold op_target. rewrite Ho. intros [= <- <-].
    apply (proj2 (P_recv op id c [] _ e He Hc (Hr eq_refl) Hop)).
  - destruct Hen as (id & v & Ho & _). destruct (op_owner e op Send id v I Ho) as (c & Hc & _ & Hs); [by right|].
    apply wlp_bind. intros y e1. unfold op_target. rewrite Ho. intros [= <- <-].
    apply (P_send op id c _ e He Hc (Hs eq_refl) Hop).
  - destruct Hen as [Hk _]. destruct (op_points e op Send I Hk) as (id & v & c & Ho & Hc & _ & Hs); [by right|].
    apply wlp_bind. intros y e1. unfold op_target. rewrite Ho. intros [= <- <-].
    apply (P_send op id c _ e He Hc (Hs eq_refl) Hop).
  - by apply Hkeep, keeps_wakeup.
  - by apply Hkeep, keeps_wakeup.
  - apply Hkeep. unfold complete_stop. apply keeps_bind; [by apply (P_del _ _ _ HF)|]. intros _. apply (P_flags _ _ _ HF).
  - apply Hkeep. unfold complete_rsp_notify, submit_rsp_notify_read.
    pose proof keeps_drain_ring. pose proof (P_flags _ _ _ HF). pose proof (keeps_submit_simple _ _ _ HF).
    apply keeps_bind; [by apply (P_del _ _ _ HF)|]. intros _.
    repeat first [ solve [auto] | apply keeps_read | apply keeps_eret | apply keeps_bind; [|intros ?] | case_if ].
Qed.
End Handle.

(** Facts that no connection is part of. *)
Lemma handle_free b P ev op e :
  framed b (fun _ => True) P -> Inv None [] e -> enabled e ev -> cqe_op ev = Some op -> op <> b ->
  (forall res, accepted ev = Some res -> keeps P (open_fd res)) -> P e -> wlp (handle ev) (fun _ => P) e.
Proof.
  intros HF I Hen Hev Hop HA He. eapply handle_keeps; eauto.
  - induction its as [|it its IH]; cbn; [apply keeps_eret|]. apply keeps_bind; [by eapply keeps_item | done].
  - induction l as [|r l IH]; cbn; [apply keeps_eret|]. apply keeps_bind; [by eapply keeps_rsp | done].
  - intros a id c bs res e1 He1 _ _ Ha. assert (K : keeps P (complete_recv a id res)) by by eapply keeps_recv_done.
    split; [|intros x e2 E; by eapply K]. intros x e2 E. refine (keeps_bind P _ _ _ (fun _ => K) e1 x e2 He1 E).
    by apply (P_put _ _ _ HF).
  - intros a id c res e1 He1 _ _ Ha x e2 E.
    assert (K : keeps P (complete_send a id res)) by by eapply keeps_send_done. by eapply K.
Qed.

Lemma open_fd_at b o h res : keeps (at_op b o h) (open_fd res).
Proof. unfold open_fd. case_if; [|apply keeps_eret]. by intros e x e' H [= _ <-]. Qed.

Lemma handle_holding b o id H ev op e :
  lasting b H -> Inv None [] e -> enabled e ev -> cqe_op ev = Some op -> op <> b ->
  holding b o id H e -> wlp (handle ev) (fun _ => holding b o id H) e.
Proof.
  intros HL I Hen Hev Hop He. pose proof (holding_framed b o id H) as HF.
  eapply (handle_keeps b (fun id' => id' <> id)); eauto using holding_items, holding_rsps.
  - intros a id' c bs res e1 He1 Hc Hr Ha. destruct (decide (id' = id)) as [->|Hne].
    + destruct He1 as (c0 & H0 & HH). assert (c0 = c) as -> by (destruct H0 as (_ & _ & _ & H0); congruence).
      split.
      * apply wlp_bind, (here_put b o id c (kernel_write bs c) _ _ H0). intros e2 H2.
        eapply (here_recv_done b o id H HL a res (fun _ => holding b o id H)); eauto using holding_on.
        apply (k_rx _ _ HL); [done | congruence].
      * eapply (here_recv_done b o id H HL a res (fun _ => holding b o id H)); eauto using holding_on.
    + assert (K : keeps (holding b o id H) (complete_recv a id' res)) by by eapply keeps_recv_done.
      split; [|intros x e2 E; by eapply K]. intros x e2 E. refine (keeps_bind _ _ _ _ (fun _ => K) e1 x e2 He1 E).
      by apply (P_put _ _ _ HF).
  - intros a id' c res e1 He1 Hc Hs Ha. destruct (decide (id' = id)) as [->|Hne].
    + destruct He1 as (c0 & H0 & HH). assert (c0 = c) as -> by (destruct H0 as (_ & _ & _ & H0); congruence).
      eapply (here_send_done b o id H HL a res (fun _ => holding b o id H)); eauto using holding_on.
    + intros x e2 E. assert (K : keeps (holding b o id H) (complete_send a id' res)) by by eapply keeps_send_done.
      by eapply K.
  - intros res _ e1 x e2 (c & Hc & HH) E. exists c. split; [|done]. by eapply open_fd_at.
Qed.

(** ** Batches *)

Lemma Inv_pending e b o : Inv None [] e -> ops (ring e) !! b = Some o -> at_op b o None e.
Proof. intros I Ho. split; [|done]. intros a p Hp. by destruct (i_ops _ _ _ I _ _ Hp). Qed.

Lemma Inv_bookkept e id c : Inv None [] e -> conns_ (net e) !! id = Some c -> bookkept c.
Proof.
  intros I Hc. pose proof (i_core _ _ _ I _ _ Hc) as []. pose proof (i_good _ _ _ I _ _ Hc ltac:(done)) as Hg.
  split; [done|]. split; [done|]. unfold conn_good in Hg. intros Hp. rewrite Hp in Hg. by apply Hg.
Qed.

(** One completion leaves every other operation, and what that operation
    relies on at its connection. *)
Lemma op_stays ev op op' e e' o :
  Inv None [] e -> enabled e ev -> cqe_op ev = Some op -> op <> op' -> handle ev e = Ok (tt, e') ->
  ops (ring e) !! op' = Some o -> ops (ring e') !! op' = Some o.
Proof.
  intros I Hen Hc Hne E Ho. assert (at_op op' o None e') as (_ & H & _); [|done].
  refine (handle_free op' (at_op op' o None) ev op e _ I Hen Hc Hne _ _ tt e' E).
  - exact (at_op_framed op' o None).
  - intros res _. apply open_fd_at.
  - by apply Inv_pending.
Qed.

Lemma conn_stays ev op op' e e' o id c H :
  lasting op' H -> Inv None [] e -> enabled e ev -> cqe_op ev = Some op -> op <> op' ->
  handle ev e = Ok (tt, e') -> ops (ring e) !! op' = Some o -> conns_ (net e) !! id = Some c -> H c ->
  exists c', conns_ (net e') !! id = Some c' /\ H c'.
Proof.
  intros HL I Hen Hc Hne E Ho Hcc HH.
  assert (holding op' o id H e') as (c' & (_ & _ & _ & H1) & H2); [|by exists c'].
  refine (handle_holding op' o id H ev op e HL I Hen Hc Hne _ tt e' E). exists c. split; [|done].
  destruct (Inv_pending e op' o I Ho) as (H1 & H2 & _). split; [done|]. split; [done|]. split; [|done].
  by apply (i_fresh _ _ _ I _ _ Hcc).
Qed.

(** The receive [op] writes into the storage of connection [id]: which
    allocation, its bytes and where the writable part starts. *)
Definition recv_into (e : Engine) (op id : Z) (area : nat * list byte * nat) : Prop :=
  exists v c, ops (ring e) !! op = Some (mkOp Recv (Some id) v) /\ conns_ (net e) !! id = Some c
    /\ recv_op c = Some op /\ (rx_alloc_ c, pending_ c, rx_len_ c) = area.
(** The send [op] reads the block [f] at the front of the queue of [id]. *)
Definition send_from (e : Engine) (op id : Z) (f : list byte) : Prop :=
  exists v c q, ops (ring e) !! op = Some (mkOp Send (Some id) v) /\ conns_ (net e) !! id = Some c
    /\ send_op c = Some op /\ send_q_ c = f :: q.

Lemma recv_into_stays ev op op' e e' id area :
  Inv None [] e -> enabled e ev -> cqe_op ev = Some op -> op <> op' -> handle ev e = Ok (tt, e') ->
  recv_into e op' id area -> recv_into e' op' id area.
Proof.
  intros I Hen Hc Hne E (v & c & Ho & Hcc & Hr & Ha).
  destruct (conn_stays ev op op' e e' _ id c (receiving op' area) (receiving_lasting _ _) I Hen Hc Hne E Ho Hcc)
    as (c' & Hc' & _ & Hr' & Ha'); [split; [by eapply Inv_bookkept | done]|].
  exists v, c'. split; [by eapply op_stays | done].
Qed.

Lemma send_from_stays ev op op' e e' id f :
  Inv None [] e -> enabled e ev -> cqe_op ev = Some op -> op <> op' -> handle ev e = Ok (tt, e') ->
  send_from e op' id f -> send_from e' op' id f.
Proof.
  intros I Hen Hc Hne E (v & c & q & Ho & Hcc & Hs & Hq).
  destruct (conn_stays ev op op' e e' _ id c (sending op' f) (sending_lasting _ _) I Hen Hc Hne E Ho Hcc)
    as (c' & Hc' & _ & Hs' & q' & Hq'); [split; [by eapply Inv_bookkept | by eauto]|].
  exists v, c', q'. split; [by eapply op_stays | done].
Qed.

(** A completion that is in the queue stays possible while another one is
    handled. *)
Lemma enabled_stays ev ev' op op' e e' :
  Inv None [] e -> enabled e ev -> enabled e ev' -> cqe_op ev = Some op -> cqe_op ev' = Some op' -> op <> op' ->
  (forall res, accepted ev = Some res -> accepted ev' <> Some res) ->
  handle ev e = Ok (tt, e') -> enabled e' ev'.
Proof.
  intros I Hen Hen' Hc Hc' Hne Hacc E.
  pose proof (fun o => op_stays ev op op' e e' o I Hen Hc Hne E) as Hop.
  assert (His : forall k, op_is e op' k -> op_is e' op' k).
  { intros k (o & Ho & Hk). exists o. by auto. }
  destruct ev'; try discriminate Hc'; injection Hc' as ->; cbn [enabled] in *.
  - destruct Hen' as [H1 H2]. split; [by apply His|]. intros Hr. specialize (H2 Hr).
    refine (handle_free op' (unused_fd res) ev op e _ I Hen Hc Hne _ H2 tt e' E); [apply unused_framed|].
    intros r Hr' e1 x e2 H3. specialize (Hacc r Hr'). cbn in Hacc. destruct (Z.leb_spec 0 res); [|lia].
    unfold open_fd. case_if; [|by intros [= _ <-]]. intros [= _ <-]. unfold unused_fd in *. cbn.
    rewrite elem_of_union, elem_of_singleton. intuition congruence.
  - destruct Hen' as (id & v & Ho & Hbs & Hlen). exists id, v. split; [by apply Hop|]. split; [done|].
    destruct (op_owner e op' Recv id v I Ho) as (c & Hcc & Hr & _); [by left|].
    destruct (recv_into_stays ev op op' e e' id (rx_alloc_ c, pending_ c, rx_len_ c) I Hen Hc Hne E)
      as (_ & c' & _ & Hc1 & _ & Ha); [exists v, c; by auto|].
    intros c2 Hc2. rewrite Hc1 in Hc2. injection Hc2 as <-. injection Ha as _ Hp Hl.
    specialize (Hlen c Hcc). unfold rx_writable_len in *. by rewrite Hp, Hl.
  - destruct Hen' as [H1 H2]. split; [by apply His | done].
  - destruct Hen' as (id & v & Ho & Hlen). exists id, v. split; [by apply Hop|].
    destruct (op_owner e op' Send id v I Ho) as (c & Hcc & _ & Hs); [by right|]. specialize (Hs eq_refl).
    pose proof (cc_queue _ _ _ _ (i_core _ _ _ I _ _ Hcc)) as Hq.
    destruct (send_q_ c) as [|f q] eqn:Eq; [destruct Hq; [congruence | done]|].
    destruct (send_from_stays ev op op' e e' id f I Hen Hc Hne E)
      as (_ & c' & q' & _ & Hc1 & _ & Hq'); [exists v, c, q; by auto|].
    intros c2 f2 q2 Hc2 Hq2. rewrite Hc1 in Hc2. injection Hc2 as <-. rewrite Hq' in Hq2. injection Hq2 as <- _.
    by eapply Hlen.
  - destruct Hen' as [H1 H2]. split; [by apply His | done].
  - destruct Hen' as (o & Ho & Hk & Hv). exists o. by auto.
  - destruct Hen' as (o & Ho & Hk & Hv). exists o. by auto.
  - by apply His.
  - by apply His.
Qed.

Lemma batch_tail ev evs e e' :
  Inv None [] e -> batch e (ev :: evs) -> handle ev e = Ok (tt, e') -> batch e' evs.
Proof.
  intros I [H1 H2 H3 H4] E. apply Forall_cons in H1 as [H1 H1']. apply Forall_cons in H2 as [H2 H2'].
  apply NoDup_cons in H3 as [H3 H3']. split; [|done|done|].
  - apply Forall_forall. intros ev' Hin. rewrite Forall_forall in H1'. rewrite Forall_forall in H2'.
    destruct (cqe_op ev) as [op|] eqn:Eo; [|done]. destruct (cqe_op ev') as [op'|] eqn:Eo'; [|by apply H2' in Hin].
    eapply (enabled_stays ev ev' op op' e e'); eauto.
    + intros ->. apply H3. rewrite <-Eo'. by apply list_elem_of_fmap_2.
    + intros res Hr Hr'. cbn in H4. rewrite Hr in H4. apply NoDup_cons in H4 as [H4 _]. apply H4.
      apply list_elem_of_omap. by exists ev'.
  - cbn in H4. destruct (accepted ev); [by apply NoDup_cons in H4 as [_ H4] | done].
Qed.

(** C15: in every reachable state, all completions that are ready together can be
    handled one after the other, in whatever order the kernel queued them:
    nothing undefined happens on the way and the engine is in a reachable state
    again.  Of every receive or send that is not among them (one still in
    flight, or one further back in the queue when the completions are the first
    part of it) the operation and its connection are still there; the receive
    has the storage it was submitted with, neither moved nor changed, the send
    the block it was submitted with. *)
Theorem harvest_no_ub opt e evs :
  0 <= send_backlog_limit opt < 2 ^ 64 -> engine_reachable opt e -> batch e evs ->
  exists e', harvest evs e = Ok (tt, e') /\ engine_reachable opt e'
    /\ (forall op id area, op ∉ omap cqe_op evs -> recv_into e op id area -> recv_into e' op id area)
    /\ (forall op id f, op ∉ omap cqe_op evs -> send_from e op id f -> send_from e' op id f).
Proof.
  intros Ho. revert e. induction evs as [|ev evs IH]; intros e Hr Hb; [by exists e|].
  pose proof (reachable_Inv opt e Ho Hr) as I. pose proof (ba_enabled _ _ Hb) as Hen.
  apply Forall_cons in Hen as [Hen _]. destruct (wp_ok _ _ _ (wp_handle ev e I Hen)) as ([] & e1 & E & _).
  destruct (IH e1) as (e' & E' & Hr' & H1 & H2).
  - eapply er_step; [exact Hr|]. by econstructor.
  - by eapply batch_tail.
  - pose proof (ba_cqe _ _ Hb) as Hq. apply Forall_cons in Hq as [Hq _]. cbn [omap list_omap].
    destruct (cqe_op ev) as [a|] eqn:Ea; [|done]. exists e'. split; [cbn; unfold ebind; by rewrite E|].
    split; [done|]. split; intros op id x [Hn Hn']%not_elem_of_cons Hx.
    + apply H1; [done|]. by eapply recv_into_stays.
    + apply H2; [done|]. by eapply send_from_stays.
Qed.

(** A second client, three bytes of the first one and the stop signal in one
    batch; when the accepted client has been handled, the receive next in the
    queue still has its storage. *)
Definition demo_batch : list event := [EvAccept 4 8; EvRecv 3 [x01; x02; x03]; EvStop 2].
Definition demo_area : nat * list byte * nat :=
  match conns_ (net demo1) !! 1 with Some c => (rx_alloc_ c, pending_ c, rx_len_ c) | None => (0, [], 0)%nat end.

Lemma demo_batch_ok : batch demo1 demo_batch.
Proof.
  split.
  - constructor; [|constructor; [|constructor; [|constructor]]]; cbn [enabled].
    + split; [by eexists; split; vm_compute|]. by vm_compute.
    + exists 1, 0. split; [by vm_compute|]. split; [done|]. intros c Hc. vm_compute in Hc. injection Hc as <-. cbn. lia.
    + by eexists; split; vm_compute.
  - by repeat constructor.
  - refine (bool_decide_unpack _ _). by vm_compute.
  - refine (bool_decide_unpack _ _). by vm_compute.
Qed.

Lemma demo_recv : recv_into demo1 3 1 demo_area.
Proof.
  unfold demo_area. destruct (conns_ (net demo1) !! 1) as [c|] eqn:E; [|by vm_compute in E].
  exists 0, c. split; [by vm_compute|]. split; [exact E|]. split; [|reflexivity].
  vm_compute in E. by injection E as <-.
Qed.

Lemma batch_first e ev evs : batch e (ev :: evs) -> batch e [ev].
Proof.
  intros [H1 H2 H3 H4]. apply Forall_cons in H1 as [H1 _]. apply Forall_cons in H2 as [H2 _].
  split; [by apply Forall_singleton | by apply Forall_singleton | apply NoDup_singleton|].
  cbn. destruct (accepted ev); [apply NoDup_singleton | constructor].
Qed.

Lemma harvest_no_ub_witness :
  (exists e', harvest demo_batch demo1 = Ok (tt, e') /\ engine_reachable demo_opts e'
    /\ conns_ (net e') !! 2 <> None)
  /\ exists e1, harvest [EvAccept 4 8] demo1 = Ok (tt, e1) /\ recv_into e1 3 1 demo_area.
Proof.
  split.
  - destruct (harvest_no_ub demo_opts demo1 demo_batch) as (e' & E & Hr & _).
    + by vm_compute.
    + apply demo1_reachable.
    + apply demo_batch_ok.
    + exists e'. split; [exact E|]. split; [exact Hr|]. vm_compute in E. injection E as <-. by vm_compute.
  - destruct (harvest_no_ub demo_opts demo1 [EvAccept 4 8]) as (e1 & E & _ & H1 & _).
    + by vm_compute.
    + apply demo1_reachable.
    + apply (batch_first _ _ _ demo_batch_ok).
    + exists e1. split; [exact E|]. apply H1; [refine (bool_decide_unpack _ _); by vm_compute|].
      exact demo_recv.
Defined.
