(* ===== verification/Ipc.v ===== *)
(** * Requests and notifications between the processes

    server/src/ipc/fifo_channel.cpp, ring_sink.cpp and ring_source.cpp: the
    wake-up FIFO, the gateway's request writer (one ring per worker thread) and
    the dispatch process's reader.  System calls are parameters: a call's
    results are read from a list or a function. *)

From S2P Require Import Prelude Protocol ShmLayout SpscRing Connection Engine.

(** ** FifoChannel *)

(** What [read] or [write] did: a count, or -1 with an errno. *)
Inductive sysres : Type := SysRet (n : Z) | SysErr (errno : Z).
Definition EAGAIN : Z := 11.
Definition EEXIST : Z := 17.

(** [create_or_open]: the results of [mkfifo] and [open]. *)
Definition fifo_create_or_open (path : string) (mk op : sysres) : result Z :=
  match mk with
  | SysErr e => if negb (e =? EEXIST)
                then Err (RuntimeError ("ipc fifo: mkfifo(" ++ path ++ ") failed"))
                else match op with SysRet fd => Ok fd | SysErr _ => Err (RuntimeError ("ipc fifo: open(" ++ path ++ ") failed")) end
  | SysRet _ => match op with SysRet fd => Ok fd | SysErr _ => Err (RuntimeError ("ipc fifo: open(" ++ path ++ ") failed")) end
  end.

(** [write1] with the results of its successive [write] calls; [None] while
    the calls are interrupted. *)
Fixpoint write1_loop (rs : list sysres) : option bool :=
  match rs with
  | [] => None
  | SysRet n :: rs => if n =? 1 then Some true else Some false
  | SysErr e :: rs =>
      if e =? EINTR then write1_loop rs else if e =? EAGAIN then Some true else Some false
  end.
Definition fifo_write1 (fd : Z) (rs : list sysres) : option bool :=
  if fd <? 0 then Some false else write1_loop rs.

Fixpoint drain_loop (rs : list sysres) (total : Z) : option Z :=
  match rs with
  | [] => None
  | SysRet n :: rs => if n >? 0 then drain_loop rs (total + n) else Some total
  | SysErr e :: rs => if e =? EINTR then drain_loop rs total else Some total
  end.
Definition fifo_drain (fd : Z) (rs : list sysres) : option Z :=
  if fd <? 0 then Some 0 else drain_loop rs 0.

(** A moved-from or closed channel has no descriptor; [close] returns what it
    closes. *)
Definition fifo_close (fd : Z) : Z * option Z := if 0 <=? fd then (-1, Some fd) else (fd, None).
Definition fifo_move (src : Z) : Z * Z := (src, -1).
Definition fifo_move_assign (dst src : Z) : Z * Z * option Z :=
  let '(_, closed) := fifo_close dst in (src, -1, closed).

(** ** RingSink: a gateway worker writes a request *)

(** The process-local and shared parts of one request ring. *)
Record ReqRing : Type := mkReqRing {
  rr_prod : Producer; rr_hdr : RingHeader; rr_slots : list Slot
}.

(** [t_idx] is thread local: [tls] maps a thread to its producer. *)
Record RingSink : Type := mkSink {
  producers_ : list ReqRing; tls : gmap Z nat;
  next_idx_ : Z; overload_count_ : Z; inflight_peak_ : Z
}.

Definition mk_sink (ps : list ReqRing) : result RingSink :=
  match ps with
  | [] => Err (RuntimeError "ipc ring sink: empty producer pool")
  | _ => Ok (mkSink ps ∅ 0 0 0)
  end.

Definition bind_producer (tid : Z) (s : RingSink) : result nat * RingSink :=
  match tls s !! tid with
  | Some i => (Ok i, s)
  | None =>
      let idx := next_idx_ s in
      let s' := mkSink (producers_ s) (tls s) (u32 (idx + 1)) (overload_count_ s) (inflight_peak_ s) in
      if Z.of_nat (length (producers_ s)) <=? idx
      then (Err (RuntimeError "ipc ring sink: worker count exceeds request ring pool"), s')
      else (Ok (Z.to_nat idx),
            mkSink (producers_ s) (<[tid := Z.to_nat idx]> (tls s)) (next_idx_ s')
              (overload_count_ s) (inflight_peak_ s))
  end.

(** The packet header of a request. *)
Definition req_packet (req : Request) : IpcPacket :=
  mkPacket (req_conn_id req) (req_event_id req)
    (if req_event_id req =? event_id RidePositionReport then Z.lor 0 kFlagOneWay else 0)
    (req_seq req) (u32 (size_of (req_payload req))) 0 0.

(** [handle] of thread [tid]; [t1], [t2] and [t3] are what the acquire loads
    of the tail return in [empty], [begin_write] and [size].  The last
    component says whether the FIFO is written. *)
Definition sink_handle (tid t1 t2 t3 : Z) (req : Request) (s : RingSink)
  : result (list byte) * RingSink * bool :=
  match bind_producer tid s with
  | (Err e, s) => (Err e, s, false)
  | (Ok i, s) =>
      if size_of (req_payload req) >? ReqRing_kPayloadMax then (Err MalformedIpcRequest, s, false)
      else
        match producers_ s !! i with
        | None => (Err (UndefinedBehaviour "producer index"), s, false)
        | Some r =>
            let was_empty := prod_empty (rr_prod r) t1 in
            match begin_write ReqRingBits (rr_prod r) t2 with
            | None =>
                (Err SinkOverload,
                 mkSink (producers_ s) (tls s) (next_idx_ s) (u64 (overload_count_ s + 1))
                   (inflight_peak_ s), false)
            | Some (j, p) =>
                let slots := alter (fun sl => fill sl (req_packet req) (req_payload req)) j (rr_slots r) in
                let '(p, h) := publish p (rr_hdr r) 1 in
                let cur := prod_size p t3 in
                (Ok [],
                 mkSink (<[i := mkReqRing p h slots]> (producers_ s)) (tls s) (next_idx_ s)
                   (overload_count_ s) (Z.max cur (inflight_peak_ s)),
                 was_empty)
            end
        end
  end.

Definition sink_register_pids (pid : Z) (s : RingSink) : RingSink :=
  mkSink ((fun r => mkReqRing (rr_prod r) (prod_register_pid (rr_hdr r) pid) (rr_slots r)) <$> producers_ s)
    (tls s) (next_idx_ s) (overload_count_ s) (inflight_peak_ s).
Definition sink_heartbeat_all (now : Z) (s : RingSink) : RingSink :=
  mkSink ((fun r => mkReqRing (rr_prod r) (prod_heartbeat (rr_hdr r) now) (rr_slots r)) <$> producers_ s)
    (tls s) (next_idx_ s) (overload_count_ s) (inflight_peak_ s).

(** ** RingSource: the dispatch process reads requests *)

Section Source.
Context (SlotCountBits : Z).

(** The inner loop of [pop_once] over one ring: batches of at most 64 until
    nothing is left.  [heads k] is what the [k]-th acquire load returns; [None]
    when the fuel runs out. *)
Fixpoint pop_ring (fuel k : nat) (heads : nat -> Z) (c : Consumer) (h : RingHeader)
    (slots : list Slot) : option (list Msg * Consumer * RingHeader) :=
  match fuel with
  | O => None
  | S fuel =>
      let '(n, start) := pop_batch SlotCountBits c (heads k) 64 in
      if n =? 0 then Some ([], c, h)
      else
        let msgs := read_batch slots start n in
        let '(c, h) := release c h n in
        match pop_ring fuel (S k) heads c h slots with
        | Some (rest, c, h) => Some (msgs ++ rest, c, h)
        | None => None
        end
  end.
End Source.

(** [poll] failed with an errno, or returned with the wake descriptor
    readable or not; [NoFds] when there is nothing to poll. *)
Inductive PollRes : Type := PollErr (errno : Z) | PollOk (wake : bool) | NoFds.

(** [wait_pop]: [pop k] are the messages the [k]-th [pop_once] hands to the
    callback.  The result is the return value and the number of passes made. *)
Fixpoint spin_loop (pop : nat -> list Msg) (k tries : nat) : Z * nat :=
  match tries with
  | O => (0, k)
  | S tries => if 0 <? size_of (pop k) then (1, S k) else spin_loop pop (S k) tries
  end.
Definition wait_pop (pop : nat -> list Msg) (spin_tries : nat) (pr : PollRes) : Z * nat :=
  let n := size_of (pop 0%nat) in
  if n >? 0 then (n, 1%nat)
  else
    let '(r, k) := spin_loop pop 1 spin_tries in
    if 0 <? r then (r, k)
    else
      match pr with
      | PollErr e => if negb (e =? EINTR) && negb (e =? EAGAIN) then (0, k)
                     else (size_of (pop k), S k)
      | PollOk true => (0, k)
      | PollOk false | NoFds => (size_of (pop k), S k)
      end.

(** [producer_alive]: the clock is read first, then the heartbeats. *)
Definition producer_alive (now timeout_ms : Z) (hbs : list Z) : bool :=
  let limit := u64 (timeout_ms * 1000000) in
  existsb (fun hb => negb (hb =? 0) && (u64 (now - hb) <? limit)) hbs.

(** ** The thread-to-ring binding *)

Record bound (s : RingSink) : Prop := mk_bound {
  bd_next : 0 <= next_idx_ s;
  bd_lt tid i : tls s !! tid = Some i ->
    Z.of_nat i < next_idx_ s /\ (i < length (producers_ s))%nat;
  bd_inj a b i : tls s !! a = Some i -> tls s !! b = Some i -> a = b
}.

Lemma bind_bound tid s r s' :
  bound s -> next_idx_ s + 1 < 2 ^ 32 -> bind_producer tid s = (r, s') ->
  bound s' /\ next_idx_ s <= next_idx_ s' <= next_idx_ s + 1 /\ producers_ s' = producers_ s
  /\ (forall i, r = Ok i -> tls s' !! tid = Some i).
Proof.
  intros [B1 B2 B3] Hn. unfold bind_producer.
  destruct (tls s !! tid) as [i|] eqn:Ei.
  { intros [= <- <-]. split; [by split|]. split; [lia|]. split; [done|]. by intros j [= <-]. }
  rewrite u32_small by lia.
  destruct (Z.leb_spec (Z.of_nat (length (producers_ s))) (next_idx_ s)) as [Hge|Hlt];
    intros [= <- <-]; simpl.
  - split; [|by repeat split; try lia]. split; simpl; [lia| |done].
    intros t i Hi. destruct (B2 t i Hi). lia.
  - split; [|split; [lia|split; [done|intros i [= <-]; apply lookup_insert_eq]]].
    split; simpl; [lia| |].
    + intros t i. rewrite lookup_insert_Some. intros [[<- <-]|[_ Hi]]; [lia|].
      destruct (B2 t i Hi). lia.
    + intros a b i. rewrite !lookup_insert_Some.
      intros [[<- <-]|[Ha Hi]] [[<- Hj]|[Hb Hj]]; try done.
      * destruct (B2 _ _ Hj). lia.
      * destruct (B2 _ _ Hi). lia.
      * by eapply B3.
Qed.

(** Everything but the binding leaves the binding alone. *)
Lemma sink_handle_binding tid t1 t2 t3 req s r s' nt :
  sink_handle tid t1 t2 t3 req s = (r, s', nt) ->
  tls s' = tls (snd (bind_producer tid s)) /\ next_idx_ s' = next_idx_ (snd (bind_producer tid s))
  /\ length (producers_ s') = length (producers_ (snd (bind_producer tid s))).
Proof.
  unfold sink_handle. destruct (bind_producer tid s) as [[i|e] s1]; [|by intros [= _ <- _]]. simpl.
  case_if; [by intros [= _ <- _]|].
  destruct (producers_ s1 !! i) as [rg|]; [|by intros [= _ <- _]].
  destruct (begin_write ReqRingBits (rr_prod rg) t2) as [[j p]|]; [|by intros [= _ <- _]].
  destruct (publish p (rr_hdr rg) 1) as [p' h']. intros [= _ <- _]. simpl.
  by rewrite length_insert.
Qed.

Definition call : Type := Z * (Z * Z * Z) * Request.
Fixpoint run_calls (cs : list call) (s : RingSink) : RingSink :=
  match cs with
  | [] => s
  | (tid, (t1, t2, t3), req) :: cs =>
      run_calls cs (snd (fst (sink_handle tid t1 t2 t3 req s)))
  end.

Lemma run_calls_bound cs : forall s,
  bound s -> next_idx_ s + size_of cs < 2 ^ 32 -> bound (run_calls cs s).
Proof.
  induction cs as [|[[tid [[t1 t2] t3]] req] cs IH]; intros s B Hn; [done|]. simpl.
  destruct (sink_handle tid t1 t2 t3 req s) as [[r s'] nt] eqn:E. simpl.
  destruct (sink_handle_binding _ _ _ _ _ _ _ _ _ E) as (Et & En & El).
  destruct (bind_producer tid s) as [r0 s1] eqn:Eb. simpl in *. unfold size_of in *. simpl in Hn.
  destruct (bind_bound tid s r0 s1 B) as ([B1 B2 B3] & Hle & _); [lia|done|].
  apply IH; [|lia]. split; rewrite ?En, ?Et, ?El; auto.
Qed.

(** the single-writer discipline of the request rings.  However the
    worker threads' calls interleave, two different threads never write the
    same ring, and no thread is given a ring outside the pool; this is what
    the single-producer ring relies on. *)
Theorem sink_single_writer (ps : list ReqRing) (cs : list call) (s : RingSink) a b i :
  mk_sink ps = Ok s -> size_of cs < 2 ^ 32 ->
  tls (run_calls cs s) !! a = Some i ->
  (i < length (producers_ (run_calls cs s)))%nat
  /\ (tls (run_calls cs s) !! b = Some i -> a = b).
Proof.
  intros Hs Hn Ha. assert (B : bound (run_calls cs s)).
  { destruct ps; [done|]. injection Hs as <-. apply run_calls_bound; [|simpl; lia].
    split; simpl; [lia|done|done]. }
  split; [apply (bd_lt _ B a i Ha)|]. by apply (bd_inj _ B).
Qed.

Definition ring_demo : ReqRing :=
  mkReqRing (mk_producer RingHeader0) RingHeader0 (replicate 512 (mkSlot IpcPacket0 [])).
Definition req_demo : Request := mkRequest 5 0x11 7 [x0a].

Lemma sink_single_writer_witness :
  let s := run_calls [(100, (0, 0, 0), req_demo); (101, (0, 0, 0), req_demo); (100, (0, 0, 0), req_demo)]
             (mkSink [ring_demo; ring_demo] ∅ 0 0 0) in
  tls s !! 101 = Some 1%nat /\ (1 < length (producers_ s))%nat.
Proof.
  intros s. assert (H : tls s !! 101 = Some 1%nat) by (vm_compute; reflexivity). split; [done|].
  destruct (sink_single_writer [ring_demo; ring_demo]
    [(100, (0, 0, 0), req_demo); (101, (0, 0, 0), req_demo); (100, (0, 0, 0), req_demo)]
    (mkSink [ring_demo; ring_demo] ∅ 0 0 0) 101 101 1) as [Hl _].
  - reflexivity.
  - vm_compute. reflexivity.
  - exact H.
  - exact Hl.
Defined.

(** ** Writing a request *)

Definition ring_of (s : Sys) : ReqRing := mkReqRing (s_prod s) (s_hdr s) (s_slots s).

Lemma req_packet_len req :
  size_of (req_payload req) <= ReqRing_kPayloadMax ->
  pkt_payload_len (req_packet req) = Z.of_nat (length (req_payload req))
  /\ pkt_payload_len (req_packet req) <= ReqRing_kPayloadMax.
Proof.
  intros H. unfold req_packet. simpl. unfold size_of in *.
  assert (ReqRing_kPayloadMax = 4064) as E by reflexivity. rewrite E in *.
  rewrite u32_small by lia. lia.
Qed.

(** C18: writing a request.  A thread bound to ring [i], in a state of that
    ring the two sides can reach: a payload over the slot size is refused as
    malformed and a full ring as overload, both leaving every ring untouched;
    otherwise exactly the request (header and payload) is appended to ring
    [i]'s queue, the other rings are untouched, and the FIFO is written when
    the ring was seen empty. *)
Theorem sink_handle_spec (slots : list Slot) (sy : Sys) (s : RingSink) tid i t1 t2 t3 req :
  length slots = Z.to_nat ReqRing_kSlotCount ->
  Forall (fun sl => Z.of_nat (length (slot_payload sl)) = ReqRing_kPayloadMax) slots ->
  reachable kReqSlotSize ReqRingBits slots sy -> s_reserved sy = [] ->
  s_seen_tail sy <= t2 <= Z.of_nat (length (s_deq sy)) ->
  tls s !! tid = Some i -> producers_ s !! i = Some (ring_of sy) ->
  let '(r, s', notify) := sink_handle tid t1 (u32 t2) t3 req s in
  if size_of (req_payload req) >? ReqRing_kPayloadMax
  then r = Err MalformedIpcRequest /\ producers_ s' = producers_ s /\ notify = false
  else if Z.of_nat (length (s_enq sy)) =? t2 + ReqRing_kSlotCount
  then r = Err SinkOverload /\ producers_ s' = producers_ s /\ notify = false
  else exists sy', steps kReqSlotSize ReqRingBits sy sy'
         /\ s_enq sy' = s_enq sy ++ [(req_packet req, req_payload req)]
         /\ r = Ok [] /\ producers_ s' = <[i := ring_of sy']> (producers_ s)
         /\ notify = prod_empty (s_prod sy) t1.
Proof.
  intros Hl Hp R Er Ht Hb Hi. assert (Hbits : 1 <= ReqRingBits <= 16) by (unfold ReqRingBits; lia).
  pose proof (inv_reachable _ _ Hbits slots Hl Hp sy R) as I.
  unfold sink_handle, bind_producer. rewrite Hb.
  destruct (size_of (req_payload req) >? ReqRing_kPayloadMax) eqn:Esz; [done|]. rewrite Hi.
  destruct (req_packet_len req) as [El Hle]; [blia|].
  pose proof (push_steps kReqSlotSize _ Hbits sy t2 (req_packet req) (req_payload req) I Er Ht El Hle) as P.
  unfold push in P. cbn [ring_of rr_prod rr_hdr rr_slots].
  destruct (begin_write ReqRingBits (s_prod sy) (u32 t2)) as [[j p]|] eqn:B.
  - pose proof (begin_write_some _ _ Hbits _ _ _ _ I Ht B) as (Hlt & _).
    unfold hp, nres in Hlt. rewrite Er in Hlt. simpl in Hlt.
    destruct (publish p (s_hdr sy) 1) as [p' h'].
    case_if; [unfold ReqRing_kSlotCount in *; blia|].
    eexists. split; [exact P|]. simpl. repeat split; done.
  - destruct P as (_ & _ & _ & E). unfold hp in E. unfold ReqRing_kSlotCount. simpl. case_if; [split; [done|]; split; [done|]; done|blia].
Qed.

(** A pool of one empty ring, bound by thread 9. *)
Definition empty_slots : list Slot := replicate 512 (mkSlot IpcPacket0 (replicate 4064 x00)).
Definition sink_demo : RingSink := mkSink [ring_of (sys_init empty_slots)] {[ 9 := 0%nat ]} 1 0 0.

Lemma empty_slots_ok :
  length empty_slots = Z.to_nat ReqRing_kSlotCount
  /\ Forall (fun sl => Z.of_nat (length (slot_payload sl)) = ReqRing_kPayloadMax) empty_slots.
Proof.
  split; [unfold empty_slots; by rewrite length_replicate|].
  apply Forall_replicate. unfold slot_payload. by rewrite length_replicate.
Qed.

Lemma sink_handle_spec_witness :
  let '(r, s', notify) := sink_handle 9 0 (u32 0) 0 req_demo sink_demo in
  r = Ok [] /\ notify = true.
Proof.
  pose proof (sink_handle_spec empty_slots (sys_init empty_slots) sink_demo 9 0 0 0 0 req_demo
    (proj1 empty_slots_ok) (proj2 empty_slots_ok) (reach_init _ _ _) eq_refl) as H.
  destruct (sink_handle 9 0 (u32 0) 0 req_demo sink_demo) as [[r s'] nt].
  destruct H as (sy' & _ & _ & Hr & _ & Hn).
  - simpl. lia.
  - reflexivity.
  - reflexivity.
  - split; [exact Hr|]. rewrite Hn. reflexivity.
Defined.

(** ** Reading requests *)

Section Pop.
Context (SlotSize SlotCountBits : Z) (Hbits : 1 <= SlotCountBits <= 16).

(** One round of the loop, as two steps of the ring. *)
Lemma pop_round s n start c h :
  inv SlotSize SlotCountBits s -> s_batch s = 0 ->
  pop_batch SlotCountBits (s_cons s) (rh_head (s_hdr s)) 64 = (n, start) ->
  release (s_cons s) (s_hdr s) n = (c, h) ->
  exists s', steps SlotSize SlotCountBits s s' /\ s_batch s' = 0
    /\ s_cons s' = c /\ s_hdr s' = h /\ s_slots s' = s_slots s /\ s_enq s' = s_enq s
    /\ s_deq s' = s_deq s ++ read_batch (s_slots s) start n
    /\ Z.of_nat (length (s_deq s')) = Z.of_nat (length (s_deq s)) + n
    /\ (n = 0 -> s_deq s = s_enq s) /\ 0 <= n.
Proof using Hbits.
  intros I Hb Hpop Hrel. pose proof (inv_head _ _ _ I) as Hh. rewrite Hh in Hpop.
  pose proof (inv_order _ _ Hbits _ I) as Ho. pose proof (inv_seen_head _ _ _ I) as Hsh.
  pose proof (N_range _ Hbits) as HN. unfold hp, tl in *.
  assert (Hcoh : s_seen_head s <= Z.of_nat (length (s_enq s)) <= Z.of_nat (length (s_enq s))) by lia.
  pose proof (step_pop SlotSize SlotCountBits s _ 64 n start Hcoh ltac:(lia) Hpop) as S1.
  set (s1 := mkSys _ _ _ _ _ _ _ _ _ _) in S1.
  assert (I1 : inv SlotSize SlotCountBits s1) by (by eapply inv_step).
  pose proof (step_release SlotSize SlotCountBits s1 c h Hrel) as S2.
  set (s2 := mkSys _ _ _ _ _ _ _ _ _ _) in S2.
  assert (I2 : inv SlotSize SlotCountBits s2) by (by eapply inv_step).
  destruct (pop_batch_spec _ _ Hbits s _ 64 n start I Hcoh ltac:(lia) Hpop) as [Est En].
  unfold tl in En. pose proof (Z.mod_pos_bound (Z.of_nat (length (s_deq s))) (kSlotCount SlotCountBits)).
  exists s2. split; [eapply steps_cons; [exact S1|eapply steps_cons; [exact S2|apply steps_refl]]|].
  assert (Edeq : s_deq s2 = s_deq s ++ read_batch (s_slots s) start n).
  { simpl. rewrite (inv_cons _ _ _ I), Est. unfold tl. simpl. by rewrite (slot_index _ Hbits). }
  assert (Elen : Z.of_nat (length (s_deq s2)) = Z.of_nat (length (s_deq s)) + n).
  { rewrite Edeq, length_app, Est, (read_batch_queue SlotSize _ Hbits s n I); unfold tl, hp; try lia.
    rewrite length_take, length_drop. lia. }
  repeat (split; [done|]). split; [|lia]. intros Hn0.
  rewrite (inv_fifo _ _ _ I). apply firstn_all2. lia.
Qed.

Lemma pop_ring_all fuel : forall k s,
  inv SlotSize SlotCountBits s -> s_batch s = 0 ->
  (length (s_enq s) - length (s_deq s) < fuel)%nat ->
  exists s', steps SlotSize SlotCountBits s s' /\ s_deq s' = s_enq s /\ s_enq s' = s_enq s
    /\ pop_ring SlotCountBits fuel k (fun _ => rh_head (s_hdr s)) (s_cons s) (s_hdr s) (s_slots s)
       = Some (s_queue s, s_cons s', s_hdr s').
Proof using Hbits.
  induction fuel as [|fuel IH]; intros k s I Hb Hf; [lia|]. cbn [pop_ring].
  destruct (pop_batch SlotCountBits (s_cons s) (rh_head (s_hdr s)) 64) as [n start] eqn:Epop.
  destruct (release (s_cons s) (s_hdr s) n) as [c h] eqn:Erel.
  destruct (pop_round s n start c h I Hb Epop Erel)
    as (s1 & S1 & Hb1 & Ec & Eh & Esl & Eenq & Edeq & Elen & Hz & Hn).
  destruct (Z.eqb_spec n 0) as [->|Hn0].
  - specialize (Hz eq_refl). exists s. split; [apply steps_refl|]. split; [done|]. split; [done|].
    unfold s_queue. rewrite Hz, skipn_all. done.
  - pose proof (inv_steps _ _ Hbits s s1 I S1) as I1.
    pose proof (inv_order _ _ Hbits _ I1) as Ho. unfold hp, tl in Ho. rewrite Eenq in Ho.
    destruct (IH (S k) s1 I1 Hb1) as (s2 & S2 & Ed2 & Ee2 & Ep2); [rewrite Eenq; lia|].
    assert (Hhd : rh_head (s_hdr s1) = rh_head (s_hdr s)).
    { rewrite (inv_head _ _ _ I1), (inv_head _ _ _ I). unfold hp. by rewrite Eenq. }
    rewrite Ec, Eh, Esl in Ep2. rewrite Eh in Hhd. rewrite Hhd in Ep2. rewrite Ep2.
    exists s2. split; [|split; [congruence|split; [congruence|]]].
    { clear -S1 S2. induction S1; [done|]. eapply steps_cons; eauto. }
    f_equal. f_equal. f_equal. apply (app_inv_head (s_deq s)).
    rewrite app_assoc, <- Edeq, <- (queue_fifo _ _ s1 I1), Eenq. by apply (queue_fifo SlotSize SlotCountBits).
Qed.
End Pop.

(** C19: a pass over a request ring reads everything.  In every state the two
    sides can reach with no batch outstanding, the batching loop (at most 64
    slots at a time, never across the end of the array) ends, hands over
    exactly the queued messages in order, and leaves the queue empty. *)
Theorem pop_ring_complete (SlotSize SlotCountBits : Z) (slots : list Slot) (s : Sys) :
  1 <= SlotCountBits <= 16 -> length slots = Z.to_nat (kSlotCount SlotCountBits) ->
  Forall (fun sl => Z.of_nat (length (slot_payload sl)) = kPayloadMax SlotSize) slots ->
  reachable SlotSize SlotCountBits slots s -> s_batch s = 0 ->
  exists s', steps SlotSize SlotCountBits s s' /\ s_queue s' = []
    /\ pop_ring SlotCountBits (S (Z.to_nat (kSlotCount SlotCountBits))) 0
         (fun _ => rh_head (s_hdr s)) (s_cons s) (s_hdr s) (s_slots s)
       = Some (s_queue s, s_cons s', s_hdr s').
Proof.
  intros Hbits Hl Hp R Hb. pose proof (inv_reachable _ _ Hbits slots Hl Hp s R) as I.
  pose proof (inv_order _ _ Hbits _ I) as Ho. unfold hp, tl in Ho.
  destruct (pop_ring_all SlotSize SlotCountBits Hbits (S (Z.to_nat (kSlotCount SlotCountBits))) 0 s I Hb)
    as (s' & S' & Ed & Ee & Ep); [lia|].
  exists s'. split; [done|]. split; [|done]. unfold s_queue. by rewrite Ed, Ee, skipn_all.
Qed.

Lemma ring2_one_message :
  exists s, reachable 64 1 ring2_slots s /\ s_queue s = [(ring2_pkt, [x61; x62])] /\ s_batch s = 0.
Proof.
  eexists. split.
  { eapply reach_step; [eapply reach_step; [eapply reach_step; [apply reach_init|]|]|].
    - eapply (step_reserve _ _ _ 0); [simpl; lia | vm_compute; reflexivity].
    - apply (step_fill _ _ _ 0 None ring2_pkt [x61; x62]); [reflexivity | reflexivity |].
      vm_compute. discriminate.
    - eapply (step_publish _ _ _ [(ring2_pkt, [x61; x62])]); reflexivity. }
  split; reflexivity.
Qed.

Lemma pop_ring_complete_witness :
  exists s c h, s_queue s = [(ring2_pkt, [x61; x62])]
    /\ pop_ring 1 3 0 (fun _ => rh_head (s_hdr s)) (s_cons s) (s_hdr s) (s_slots s)
       = Some ([(ring2_pkt, [x61; x62])], c, h).
Proof.
  destruct ring2_one_message as (s & R & E & Hb). exists s.
  destruct (pop_ring_complete 64 1 ring2_slots s) as (s' & _ & _ & Ep).
  - lia.
  - apply ring2_static.
  - apply ring2_static.
  - exact R.
  - exact Hb.
  - exists (s_cons s'), (s_hdr s'). split; [exact E|]. rewrite E in Ep. exact Ep.
Defined.

(** ** Liveness of the peer *)

(** the dispatch side's liveness test.  If the clock value is not older
    than any heartbeat, [producer_alive] holds exactly when some ring's
    producer has sent a heartbeat within the timeout.  But the clock is read
    before the heartbeats: a heartbeat stored in between is newer than the
    clock value, the unsigned difference wraps, and a peer whose every
    heartbeat is that fresh is taken for dead. *)
Theorem producer_alive_spec now timeout_ms hbs :
  0 < timeout_ms < 2 ^ 40 -> 0 <= now < 2 ^ 63 -> Forall (fun hb => 0 <= hb < 2 ^ 63) hbs ->
  (Forall (fun hb => hb <= now) hbs ->
   producer_alive now timeout_ms hbs = true
   <-> exists hb, In hb hbs /\ hb <> 0 /\ now - hb < timeout_ms * 1000000)
  /\ (Forall (fun hb => now < hb) hbs -> producer_alive now timeout_ms hbs = false).
Proof.
  intros Ht Hn Hr. unfold producer_alive. rewrite (u64_small (timeout_ms * 1000000)) by lia. split.
  - intros Hle. rewrite existsb_exists. split; intros (hb & Hin & H); exists hb;
      pose proof (proj1 (List.Forall_forall _ _) Hle hb Hin) as H1;
      pose proof (proj1 (List.Forall_forall _ _) Hr hb Hin) as H2; cbv beta in H1, H2;
      rewrite u64_small in * by lia; split; try done.
    + blia.
    + apply andb_true_iff. split; [apply negb_true_iff; lia|lia].
  - intros Hlt. apply not_true_is_false. rewrite existsb_exists. intros (hb & Hin & H).
    pose proof (proj1 (List.Forall_forall _ _) Hlt hb Hin) as H1.
    pose proof (proj1 (List.Forall_forall _ _) Hr hb Hin) as H2. cbv beta in H1, H2.
    assert (E : u64 (now - hb) = now - hb + 2 ^ 64).
    { unfold u64. symmetry. apply (Z.mod_unique _ _ (-1)); lia. }
    rewrite E in H. blia.
Qed.

Lemma producer_alive_spec_witness :
  producer_alive 1000000000 5000 [0; 999999999] = true
  /\ producer_alive 1000000000 5000 [1000000001; 1000000002] = false.
Proof.
  split.
  - apply (producer_alive_spec 1000000000 5000 [0; 999999999]).
    + lia.
    + lia.
    + repeat constructor; lia.
    + repeat constructor; lia.
    + exists 999999999. split; [right; left; reflexivity|lia].
  - apply (producer_alive_spec 1000000000 5000 [1000000001; 1000000002]).
    + lia.
    + lia.
    + repeat constructor; lia.
    + repeat constructor; lia.
Defined.
