(* ===== verification/Dispatch.v ===== *)
(** * The dispatch process

    server/src/dispatch/dispatch_main.cpp, reply_queue.hpp and
    util/thread_pool.hpp: one reader thread moves requests from the rings to
    the business threads and their replies to the response ring.  [D] is the
    router: what [router.dispatch] returns or throws for an event id and a
    payload.  The last part composes both processes and compares ring mode
    with in-process mode. *)

From S2P Require Import Prelude Protocol ShmLayout SpscRing Connection Engine Ipc.

(** ** ThreadPool *)

Record ThreadPool (T : Type) : Type := mkTPool { tp_q : list T; tp_stop : bool }.
Arguments mkTPool {T}.
Arguments tp_q {T}.
Arguments tp_stop {T}.

Definition tp_post {T} (t : T) (p : ThreadPool T) : ThreadPool T := mkTPool (tp_q p ++ [t]) (tp_stop p).
Definition tp_shutdown {T} (p : ThreadPool T) : ThreadPool T := mkTPool (tp_q p) true.

(** What a worker thread does when it holds the mutex: it waits, returns for
    good, or takes the oldest task. *)
Inductive tp_next (T : Type) : Type := TpWait | TpExit | TpRun (t : T).
Arguments TpWait {T}.
Arguments TpExit {T}.
Arguments TpRun {T}.
Definition tp_take {T} (p : ThreadPool T) : tp_next T * ThreadPool T :=
  match tp_q p with
  | [] => (if tp_stop p then TpExit else TpWait, p)
  | t :: q => (TpRun t, mkTPool q (tp_stop p))
  end.

(** ** From a request slot to a task *)

Record BizTask : Type := mkTask {
  bt_conn : Z; bt_eid : Z; bt_seq : Z; bt_one_way : bool; bt_payload : list byte
}.

(** The callback of [wait_pop]. *)
Definition on_request (m : Msg) : option BizTask :=
  let '(pkt, payload) := m in
  if pkt_payload_len pkt >? ReqRing_kPayloadMax then None
  else Some (mkTask (pkt_conn_id pkt) (pkt_event_id pkt) (pkt_seq pkt)
               (negb (Z.land (pkt_flags pkt) kFlagOneWay =? 0))
               (take (Z.to_nat (pkt_payload_len pkt)) payload)).

Record ReplyItem : Type := mkReply {
  rp_conn : Z; rp_seq : Z; rp_one_way : bool; rp_frame : list byte
}.

(** The task a business thread runs, up to the return of its quota. *)
Definition biz_run (D : Z -> list byte -> result (list byte)) (t : BizTask) : option ReplyItem :=
  match D (bt_eid t) (bt_payload t) with
  | Err _ => None
  | Ok frame =>
      if negb (bt_one_way t) && negb (bool_decide (frame = [])) then
        let '(ok, frame) := stamp_seq frame (bt_seq t) in
        if ok : bool then Some (mkReply (bt_conn t) (bt_seq t) (bt_one_way t) frame) else None
      else None
  end.

(** The packet header of a reply. *)
Definition reply_packet (r : ReplyItem) : IpcPacket :=
  mkPacket (rp_conn r) 0 0 (rp_seq r) (u32 (size_of (rp_frame r))) 0 0.
Definition reply_msg (r : ReplyItem) : Msg := (reply_packet r, rp_frame r).

(** ** Quotas and the poll slice

    The reader alone posts tasks; each business thread pushes its reply, then
    returns its quota.  The reader samples the quota counter, then the queue
    size. *)
Inductive sample : Type := NotSampled | Sampled (inflight : Z) | Decided (short : bool).

Record Disp : Type := mkDisp {
  dp_posted : list BizTask;      (* queued or being executed *)
  dp_unreturned : nat;           (* finished, quota not yet returned *)
  dp_replies : list ReplyItem;
  dp_inflight : Z;               (* std::atomic<std::uint32_t> *)
  dp_sample : sample
}.
Definition disp0 : Disp := mkDisp [] 0 [] 0 NotSampled.

Section Reader.
Context (D : Z -> list byte -> result (list byte)).

Definition opt_list {X} (o : option X) : list X := match o with Some x => [x] | None => [] end.

Inductive disp_step : Disp -> Disp -> Prop :=
| ds_consume d m :
    (* inside wait_pop *)
    (exists b, dp_sample d = Decided b) ->
    disp_step d (match on_request m with
                 | None => d
                 | Some t => mkDisp (dp_posted d ++ [t]) (dp_unreturned d) (dp_replies d)
                               (u32 (dp_inflight d + 1)) (dp_sample d)
                 end)
| ds_run d i t :
    dp_posted d !! i = Some t ->
    disp_step d (mkDisp (remove_at i (dp_posted d)) (S (dp_unreturned d))
                   (dp_replies d ++ opt_list (biz_run D t)) (dp_inflight d) (dp_sample d))
| ds_return d n :
    dp_unreturned d = S n ->
    disp_step d (mkDisp (dp_posted d) n (dp_replies d) (u32 (dp_inflight d - 1)) (dp_sample d))
| ds_sample_inflight d :
    dp_sample d = NotSampled ->
    disp_step d (mkDisp (dp_posted d) (dp_unreturned d) (dp_replies d) (dp_inflight d)
                   (Sampled (dp_inflight d)))
| ds_sample_size d v :
    dp_sample d = Sampled v ->
    disp_step d (mkDisp (dp_posted d) (dp_unreturned d) (dp_replies d) (dp_inflight d)
                   (Decided ((v >? 0) || (size_of (dp_replies d) >? 0))))
| ds_flush d b :
    dp_sample d = Decided b ->
    disp_step d (mkDisp (dp_posted d) (dp_unreturned d) [] (dp_inflight d) NotSampled).

(** The slice of this round, in milliseconds. *)
Definition slice_ms (short : bool) : Z := if short then 5 else 200.

Inductive disp_reachable : Disp -> Prop :=
| dr_init : disp_reachable disp0
| dr_step d d' : disp_reachable d -> disp_step d d' ->
    Z.of_nat (length (dp_posted d')) + Z.of_nat (dp_unreturned d') < 2 ^ 32 -> disp_reachable d'.

Definition outstanding (d : Disp) : nat := (length (dp_posted d) + dp_unreturned d)%nat.

(** The counter is exact and a zero sample means that nothing is under way. *)
Record disp_inv (d : Disp) : Prop := mk_disp_inv {
  di_count : dp_inflight d = Z.of_nat (outstanding d);
  di_sample v : dp_sample d = Sampled v -> 0 <= v /\ (v = 0 -> outstanding d = 0%nat)
}.

Lemma remove_at_length {X} i (l : list X) x : l !! i = Some x -> S (length (remove_at i l)) = length l.
Proof.
  intros H. apply lookup_lt_Some in H. unfold remove_at. rewrite length_app, length_take, length_drop. lia.
Qed.

Lemma disp_inv_step d d' :
  disp_inv d -> disp_step d d' ->
  Z.of_nat (length (dp_posted d')) + Z.of_nat (dp_unreturned d') < 2 ^ 32 -> disp_inv d'.
Proof.
  unfold outstanding. intros [I1 I2] Hs Hb. unfold outstanding in *. destruct Hs; simpl in *.
  - destruct H as [b Hb']. destruct (on_request m) as [t|]; [|by split].
    split; simpl in *; [|congruence]. unfold outstanding. simpl. rewrite length_app in *. simpl in *.
    rewrite u32_small; lia.
  - pose proof (remove_at_length _ _ _ H) as Hl.
    split; unfold outstanding; simpl; [lia|]. intros v E. destruct (I2 v E). split; [done|lia].
  - split; unfold outstanding; simpl; [rewrite u32_small; lia|].
    intros v E. destruct (I2 v E). split; [done|lia].
  - split; unfold outstanding; simpl; [lia|]. intros v [= <-]. lia.
  - split; unfold outstanding; simpl; [lia|done].
  - split; unfold outstanding; simpl; [lia|done].
Qed.

Lemma disp_reachable_inv d : disp_reachable d -> disp_inv d.
Proof.
  induction 1 as [|d d' _ IH Hs Hb]; [|by eapply disp_inv_step].
  split; [done|]. done.
Qed.

(** the reader never sleeps on a reply.  In every reachable state of the
    dispatch process, if sampling the quota counter and then the queue size
    makes the reader choose the long 200 ms slice, then no task is queued or
    running, no quota is outstanding and no reply waits; so replies, which
    wake nobody, are always met by a 5 ms slice.  (Sampling in the opposite
    order would not have this property.) *)
Theorem long_slice_is_idle d d' :
  disp_reachable d -> disp_step d d' -> (exists v, dp_sample d = Sampled v) ->
  (exists b, dp_sample d' = Decided b /\ slice_ms b = 200) ->
  dp_posted d' = [] /\ dp_unreturned d' = 0%nat /\ dp_replies d' = [].
Proof.
  intros Hr Hs [v Hv] (b & Hb & Hsl). pose proof (disp_reachable_inv d Hr) as [I1 I2].
  destruct Hs; simpl in *; try congruence.
  - destruct H as [b' H]. congruence.
  - injection Hb as <-. destruct (v0 >? 0) eqn:E1; [discriminate|].
    destruct (size_of (dp_replies d) >? 0) eqn:E2; [discriminate|].
    destruct (I2 v0 H) as [Hnn Hz]. unfold outstanding in Hz. unfold size_of in *. bool_to_prop.
    destruct (dp_posted d); simpl in *; [|lia]. destruct (dp_replies d); simpl in *; [|lia].
    repeat split; lia.
Qed.
End Reader.

Lemma long_slice_is_idle_witness :
  let d := mkDisp [] 0 [] 0 (Sampled 0) in
  let d' := mkDisp [] 0 [] 0 (Decided false) in
  dp_posted d' = [] /\ dp_unreturned d' = 0%nat /\ dp_replies d' = [].
Proof.
  intros d d'. apply (long_slice_is_idle (fun _ _ => Ok []) d d').
  - eapply (dr_step _ disp0); [apply dr_init|by apply ds_sample_inflight|simpl; lia].
  - by apply (ds_sample_size _ d 0).
  - by exists 0.
  - by exists false.
Defined.

(** ** Flushing the replies into the response ring

    The loop of [flush_replies] on the ring of SpscRing.v.  Between two
    iterations the gateway may act: [env k] is what it does before the [k]-th
    call of [begin_write], [snap k] the (unwrapped) tail the load of that call
    returns; when the ring is found full then, [stopping k] is the stop flag and
    [now k] the steady clock (in nanoseconds). *)

Definition bits : Z := RspRingBits.
Definition ssize : Z := kRspSlotSize.

Section Flush.
Context (env : nat -> Sys -> Sys) (snap : nat -> Sys -> Z).
Context (stopping : nat -> bool) (now : nat -> Z).

Definition gives_up (full_deadline : Z) (k : nat) : bool := stopping k || (now k >? full_deadline).

Definition reserve (s : Sys) (t : Z) (p : Producer) : Sys :=
  mkSys (s_hdr s) (s_slots s) p (s_cons s) (s_reserved s ++ [None]) (s_batch s) (s_enq s) (s_deq s)
    t (s_seen_head s).
Definition see_full (s : Sys) (t : Z) : Sys :=
  mkSys (s_hdr s) (s_slots s) (s_prod s) (s_cons s) (s_reserved s) (s_batch s) (s_enq s) (s_deq s)
    t (s_seen_head s).
(** The ghost queue learns the published prefix of the reservations. *)
Definition do_publish (s : Sys) (n : Z) : Sys :=
  let '(p, h) := publish (s_prod s) (s_hdr s) n in
  mkSys h (s_slots s) p (s_cons s) (drop (Z.to_nat n) (s_reserved s)) (s_batch s)
    (s_enq s ++ flat_map opt_list (take (Z.to_nat n) (s_reserved s))) (s_deq s)
    (s_seen_tail s) (s_seen_head s).
Definition do_fill (s : Sys) (i j : nat) (r : ReplyItem) : Sys :=
  mkSys (s_hdr s) (alter (fun sl => fill sl (reply_packet r) (rp_frame r)) j (s_slots s))
    (s_prod s) (s_cons s) (<[i := Some (reply_msg r)]> (s_reserved s)) (s_batch s) (s_enq s) (s_deq s)
    (s_seen_tail s) (s_seen_head s).

(** Returns the final state, the unpublished count, the dropped tail and how
    often [begin_write] was called before the last time. *)
Fixpoint flush_loop (full_deadline : Z) (fuel k : nat) (s : Sys) (pending : Z) (items : list ReplyItem)
  : option (Sys * Z * list ReplyItem * nat) :=
  match fuel with
  | O => None
  | S fuel =>
      match items with
      | [] => Some (s, pending, [], k)
      | r :: rest =>
          let s := env k s in
          let t := snap k s in
          match begin_write bits (s_prod s) (u32 t) with
          | None =>
              let s := do_publish (see_full s t) pending in
              if gives_up full_deadline k then Some (s, 0, items, k)
              else flush_loop full_deadline fuel (S k) s 0 items
          | Some (j, p) =>
              let i := length (s_reserved s) in
              let s := reserve s t p in
              if size_of (rp_frame r) >? RspRing_kPayloadMax
              then flush_loop full_deadline fuel (S k) s pending rest
              else flush_loop full_deadline fuel (S k) (do_fill s i j r) (pending + 1) rest
          end
      end
  end.

(** [start] is the clock at the beginning, [peer_timeout_ms] the setting. *)
Definition flush_replies (peer_timeout_ms start : Z) (fuel : nat) (s : Sys) (t0 : Z)
    (items : list ReplyItem) : option (Sys * bool * list ReplyItem * nat) :=
  match items with
  | [] => Some (s, false, [], 0%nat)
  | _ =>
      let was_empty := prod_empty (s_prod s) (u32 t0) in
      let full_deadline := start + (peer_timeout_ms + 1000) * 10 ^ 6 in
      match flush_loop full_deadline fuel 0 s 0 items with
      | None => None
      | Some (s, pending, dropped, k) =>
          let s := if pending >? 0 then do_publish s pending else s in
          Some (s, was_empty, dropped, k)
      end
  end.

(** What the other process may do: steps of the ring that leave the
    producer's part alone. *)
Hypothesis Henv : forall k s, inv ssize bits s ->
  steps ssize bits s (env k s) /\ s_prod (env k s) = s_prod s /\ s_reserved (env k s) = s_reserved s
  /\ s_enq (env k s) = s_enq s.
Hypothesis Hsnap : forall k s, inv ssize bits s -> s_seen_tail s <= snap k s <= Z.of_nat (length (s_deq s)).

Lemma bits_ok : 1 <= bits <= 16.
Proof. unfold bits, RspRingBits. lia. Qed.

Lemma steps_trans s1 s2 s3 : steps ssize bits s1 s2 -> steps ssize bits s2 s3 -> steps ssize bits s1 s3.
Proof. induction 1; [done|]. intros. eapply steps_cons; eauto. Qed.

Lemma steps_one s s' : step ssize bits s s' -> steps ssize bits s s'.
Proof. intros. eapply steps_cons; [done|apply steps_refl]. Qed.

Lemma reply_len r :
  size_of (rp_frame r) <= RspRing_kPayloadMax ->
  pkt_payload_len (reply_packet r) = Z.of_nat (length (rp_frame r))
  /\ pkt_payload_len (reply_packet r) <= kPayloadMax ssize.
Proof.
  intros H. change (kPayloadMax ssize) with RspRing_kPayloadMax.
  assert (E : RspRing_kPayloadMax = 401376) by reflexivity. rewrite E in *.
  unfold reply_packet, size_of in *. simpl. rewrite u32_small by lia. lia.
Qed.

Lemma flat_opt_list {X} (ms : list X) : flat_map opt_list (map Some ms) = ms.
Proof. induction ms; [done|]. simpl. by f_equal. Qed.

(** Publishing all filled reservations is a step. *)
Lemma publish_all s ms :
  s_reserved s = map Some ms ->
  steps ssize bits s (do_publish s (Z.of_nat (length ms)))
  /\ s_reserved (do_publish s (Z.of_nat (length ms))) = []
  /\ s_enq (do_publish s (Z.of_nat (length ms))) = s_enq s ++ ms.
Proof.
  intros Er. unfold do_publish.
  destruct (publish (s_prod s) (s_hdr s) (Z.of_nat (length ms))) as [p h] eqn:P.
  rewrite Nat2Z.id, Er. cbn [s_reserved s_enq].
  rewrite firstn_all2 by (by rewrite length_map). rewrite skipn_all2 by (by rewrite length_map).
  rewrite flat_opt_list. split; [|done]. apply steps_one. by apply step_publish.
Qed.

(** Reserving and filling one slot. *)
Lemma fill_next s t j p r ms :
  inv ssize bits s -> s_reserved s = map Some ms -> s_seen_tail s <= t <= Z.of_nat (length (s_deq s)) ->
  begin_write bits (s_prod s) (u32 t) = Some (j, p) -> size_of (rp_frame r) <= RspRing_kPayloadMax ->
  let s' := do_fill (reserve s t p) (length (s_reserved s)) j r in
  steps ssize bits s s' /\ s_reserved s' = map Some (ms ++ [reply_msg r]) /\ s_enq s' = s_enq s.
Proof.
  intros I Er Ht B Hsz s'. destruct (reply_len r Hsz) as [El Hle].
  pose proof (begin_write_some _ _ bits_ok _ _ _ _ I Ht B) as (_ & Ej & _).
  pose proof (step_reserve ssize _ _ _ _ _ Ht B) as S1. fold (reserve s t p) in S1.
  assert (I1 : inv ssize bits (reserve s t p)) by (eapply inv_step; [apply bits_ok|done|done]).
  assert (Hlk : s_reserved (reserve s t p) !! length (s_reserved s) = Some None).
  { simpl. by rewrite lookup_app_r, Nat.sub_diag. }
  pose proof (step_fill ssize bits _ _ _ (reply_packet r) (rp_frame r) Hlk El Hle) as S2.
  rewrite (reserved_index_idx _ _ bits_ok _ _ I1) in S2.
  replace (hp (reserve s t p) + Z.of_nat (length (s_reserved s))) with (hp s + nres s) in S2 by done.
  rewrite <- Ej in S2. split; [eapply steps_cons; [exact S1|by apply steps_one]|]. split; [|done].
  unfold s', do_fill. cbn [s_reserved reserve]. rewrite map_app, <- Er.
  rewrite insert_app_r_alt by lia. by rewrite Nat.sub_diag.
Qed.

Lemma flush_loop_correct dl fuel : forall k s pending items s' pending' dropped k' ms,
  Forall (fun r => size_of (rp_frame r) <= RspRing_kPayloadMax) items ->
  inv ssize bits s -> s_reserved s = map Some ms -> pending = Z.of_nat (length ms) ->
  flush_loop dl fuel k s pending items = Some (s', pending', dropped, k') ->
  exists sent ms', items = sent ++ dropped /\ steps ssize bits s s'
    /\ s_reserved s' = map Some ms' /\ pending' = Z.of_nat (length ms')
    /\ s_enq s' ++ ms' = s_enq s ++ ms ++ map reply_msg sent
    /\ (dropped <> [] -> gives_up dl k' = true /\ ms' = [] /\ hp s' = s_seen_tail s' + kSlotCount bits).
Proof.
  induction fuel as [|fuel IH]; intros k s pending items s' pending' dropped k' ms Hf I Er Ep; [done|].
  simpl. destruct items as [|r rest].
  { intros [= <- <- <- <-]. exists [], ms. simpl. rewrite app_nil_r.
    repeat split; try done. apply steps_refl. }
  destruct (Henv k s I) as (S0 & E1 & E2 & E3). set (s0 := env k s) in *.
  pose proof (inv_steps _ _ bits_ok _ _ I S0) as I0. pose proof (Hsnap k s0 I0) as Ht.
  set (t := snap k s0) in *. apply Forall_cons in Hf as [Hr Hrest].
  destruct (begin_write bits (s_prod s0) (u32 t)) as [[j p]|] eqn:B.
  - case_if; [blia|]. rewrite <- E2 in Er.
    destruct (fill_next s0 t j p r ms I0 Er Ht B Hr) as (S1 & Er1 & Ee1).
    set (s1 := do_fill _ _ _ _) in *. intros Hl.
    destruct (IH (S k) s1 (pending + 1) rest s' pending' dropped k' (ms ++ [reply_msg r]))
      as (sent & ms' & -> & S2 & Er2 & Ep2 & Ee2 & Hd); try done.
    { apply (inv_steps _ _ bits_ok s0); done. }
    { rewrite length_app. simpl. lia. }
    exists (r :: sent), ms'. split; [done|]. split; [by eapply steps_trans; [|eapply steps_trans]|].
    split; [done|]. split; [done|]. split; [rewrite Ee2, Ee1, E3; by rewrite <- app_assoc | done].
  - pose proof (step_reserve_full ssize _ _ _ Ht B) as S1. fold (see_full s0 t) in S1.
    assert (Er1 : s_reserved (see_full s0 t) = map Some ms) by (simpl; congruence).
    destruct (publish_all (see_full s0 t) ms Er1) as (S2 & Er2 & Ee2). rewrite <- Ep in *.
    set (s1 := do_publish _ _) in *. cbn [s_enq see_full] in Ee2.
    assert (S3 : steps ssize bits s s1) by (eapply steps_trans; [exact S0|eapply steps_cons; [exact S1|exact S2]]).
    destruct (gives_up dl k) eqn:Eg.
    + intros [= <- <- <- <-]. exists [], []. split; [done|]. split; [done|]. split; [done|].
      split; [done|]. split; [by rewrite !app_nil_r, Ee2, E3|]. intros _. split; [done|]. split; [done|].
      pose proof (begin_write_none _ _ bits_ok _ _ I0 Ht B) as Hfull.
      unfold hp, nres in *. rewrite Ee2, length_app. rewrite E2, Er, length_map in Hfull. simpl. lia.
    + intros Hl. destruct (IH (S k) s1 0 (r :: rest) s' pending' dropped k' [])
        as (sent & ms' & Hi & S4 & Er4 & Ep4 & Ee4 & Hd); try done.
      { by apply Forall_cons. }
      { by apply (inv_steps _ _ bits_ok s). }
      exists sent, ms'. split; [done|]. split; [by eapply steps_trans|]. split; [done|].
      split; [done|]. split; [rewrite Ee4, Ee2, E3; by rewrite <- app_assoc | done].
Qed.

Lemma flush_loop_ends dl K fuel : (forall k, (K <= k)%nat -> gives_up dl k = true) ->
  forall k s pending items, (K - k + length items < fuel)%nat ->
  exists o, flush_loop dl fuel k s pending items = Some o.
Proof.
  intros HK. induction fuel as [|fuel IH]; intros k s pending items Hf; [lia|]. simpl.
  destruct items as [|r rest]; [by eexists|]. simpl in Hf.
  destruct (begin_write bits _ _) as [[j p]|].
  - case_if; apply IH; lia.
  - destruct (gives_up dl k) eqn:Eg; [by eexists|]. apply IH. simpl.
    destruct (le_lt_dec K k) as [Hle|Hlt]; [rewrite (HK k Hle) in Eg; discriminate|]. lia.
Qed.

(** C17: flushing replies.  In every state of the response ring the two sides
    can reach, with whatever the gateway does meanwhile, [flush_replies] ends
    once stopping or the deadline makes it give up, and publishes a prefix of
    the replies in order, each exactly once and with its connection and whole
    frame; nothing stays reserved and unpublished.  Replies are dropped only
    when the last call of [begin_write] found the ring full (as many replies
    published as there are slots beyond what the gateway was seen to have
    taken) and at that very moment the process was stopping or more than
    [peer_timeout_ms] plus one second had passed since the start; otherwise all
    are published. *)
Theorem flush_replies_correct (slots : list Slot) s t0 items K peer_timeout_ms start :
  let deadline := start + (peer_timeout_ms + 1000) * 10 ^ 6 in
  length slots = Z.to_nat RspRing_kSlotCount ->
  Forall (fun sl => Z.of_nat (length (slot_payload sl)) = RspRing_kPayloadMax) slots ->
  reachable ssize bits slots s -> s_reserved s = [] ->
  Forall (fun r => size_of (rp_frame r) <= RspRing_kPayloadMax) items ->
  (forall k, (K <= k)%nat -> stopping k = true \/ deadline < now k) ->
  exists s' notify dropped sent k,
    flush_replies peer_timeout_ms start (S (K + length items)) s t0 items = Some (s', notify, dropped, k)
    /\ items = sent ++ dropped
    /\ steps ssize bits s s' /\ s_reserved s' = []
    /\ s_enq s' = s_enq s ++ map reply_msg sent
    /\ (dropped <> [] -> (stopping k = true \/ deadline < now k)
          /\ Z.of_nat (length (s_enq s')) = s_seen_tail s' + RspRing_kSlotCount)
    /\ (items <> [] -> notify = prod_empty (s_prod s) (u32 t0)).
Proof.
  intros dl Hl Hp R Er Hf HK. pose proof (inv_reachable ssize bits bits_ok slots Hl Hp s R) as I.
  assert (Hg : forall k, gives_up dl k = true <-> stopping k = true \/ dl < now k).
  { intros k. unfold gives_up. rewrite orb_true_iff, Z.gtb_lt. done. }
  unfold flush_replies. fold dl. destruct items as [|r rest].
  { exists s, false, [], [], 0%nat. simpl. rewrite app_nil_r. repeat split; try done. apply steps_refl. }
  destruct (flush_loop_ends dl K (S (K + length (r :: rest)))
    ltac:(intros k Hk; apply Hg, HK, Hk) 0 s 0 (r :: rest)) as [[[[s1 pd] dr] k] E]; [lia|].
  rewrite E.
  destruct (flush_loop_correct _ _ _ _ _ _ _ _ _ _ [] Hf I Er eq_refl E)
    as (sent & ms & Ei & S1 & Er1 & Ep1 & Ee1 & Hd). simpl in Ee1.
  destruct (publish_all s1 ms Er1) as (S2 & Er2 & Ee2). rewrite <- Ep1 in *.
  destruct (pd >? 0) eqn:Epd.
  - exists (do_publish s1 pd), (prod_empty (s_prod s) (u32 t0)), dr, sent, k.
    split; [done|]. split; [done|]. split; [by eapply steps_trans|]. split; [done|].
    split; [by rewrite Ee2|]. split; [|done]. intros Hne. destruct (Hd Hne) as (_ & -> & _).
    simpl in Ep1. blia.
  - assert (ms = []) as -> by (destruct ms; [done|simpl in Ep1; blia]).
    rewrite app_nil_r in Ee1.
    exists s1, (prod_empty (s_prod s) (u32 t0)), dr, sent, k. do 5 (split; [done|]). split; [|done].
    intros Hne. destruct (Hd Hne) as (Hk & _ & Hfull). split; [by apply Hg | exact Hfull].
Qed.
End Flush.

Definition rsp_slots : list Slot := replicate 256 (mkSlot IpcPacket0 (replicate (Z.to_nat 401376) x00)).
Definition reply_demo : ReplyItem := mkReply 5 7 false [x46].

(** The clock ticks a second per test; the peer timeout is a second. *)
Definition tick (k : nat) : Z := Z.of_nat k * 10 ^ 9.

Lemma flush_replies_correct_witness :
  exists s' notify dropped sent k,
    flush_replies (fun _ s => s) (fun _ s => Z.of_nat (length (s_deq s))) (fun _ => false) tick
      1000 0 5 (sys_init rsp_slots) 0 [reply_demo] = Some (s', notify, dropped, k)
    /\ [reply_demo] = sent ++ dropped /\ notify = true.
Proof.
  destruct (flush_replies_correct (fun _ s => s) (fun _ s => Z.of_nat (length (s_deq s)))
    (fun _ => false) tick) with (slots := rsp_slots) (s := sys_init rsp_slots) (t0 := 0)
      (items := [reply_demo]) (K := 3%nat) (peer_timeout_ms := 1000) (start := 0)
      as (s' & nt & dr & sent & k & E & Ei & _ & _ & _ & _ & Hn).
  - intros k s I. split; [apply steps_refl|done].
  - intros k s I. pose proof (inv_seen_tail _ _ _ I) as H. unfold tl in H. lia.
  - unfold rsp_slots. by rewrite length_replicate.
  - apply Forall_replicate. unfold slot_payload. by rewrite length_replicate.
  - apply reach_init.
  - reflexivity.
  - repeat constructor. vm_compute. congruence.
  - intros k Hk. right. unfold tick. lia.
  - exists s', nt, dr, sent, k. split; [exact E|]. split; [exact Ei|]. rewrite Hn by done. reflexivity.
Defined.

(** ** Both processes together *)

(** A response slot as the gateway reads it. *)
Definition rsp_slot_of (m : Msg) : RspSlot :=
  mkRsp (pkt_conn_id (fst m)) (pkt_payload_len (fst m)) (snd m).

(** What [on_rsp] hands to [push_response], if the connection is open. *)
Definition rsp_delivery (s : RspSlot) : option (Z * list byte) :=
  if rsp_len s =? 0 then None
  else if rsp_len s >? kRspMax then None
  else Some (rsp_conn s, take (Z.to_nat (rsp_len s)) (rsp_bytes s)).

Definition to_conn (id : Z) (bs : list byte) : eng unit :=
  on_item (mkItem Respond id bs).

Lemma on_rsp_delivery s e :
  on_rsp s e = match rsp_delivery s with None => eret tt e | Some (id, bs) => to_conn id bs e end.
Proof.
  unfold on_rsp, rsp_delivery, to_conn, on_item. destruct (rsp_len s =? 0); [done|].
  destruct (rsp_len s >? kRspMax); [done|]. unfold ebind, get. simpl.
  destruct (conns_ (net e) !! rsp_conn s) as [c|]; [|done]. by case_bool_decide.
Qed.

(** A request's way in ring mode, from the worker's packet to the response
    slot; and in in-process mode. *)
Definition ring_delivery (D : Z -> list byte -> result (list byte)) (req : Request)
  : option (Z * list byte) :=
  match on_request (req_packet req, req_payload req) with
  | None => None
  | Some t =>
      match biz_run D t with
      | None => None
      | Some r => rsp_delivery (rsp_slot_of (reply_msg r))
      end
  end.
Definition inprocess_delivery (D : Z -> list byte -> result (list byte)) (req : Request)
  : option (Z * list byte) :=
  match worker_reply (req_conn_id req) req (D (req_event_id req) (req_payload req)) with
  | Some [mkItem Respond id bs] => Some (id, bs)
  | _ => None
  end.

Lemma one_way_flag req :
  negb (Z.land (pkt_flags (req_packet req)) kFlagOneWay =? 0)
  = (req_event_id req =? event_id RidePositionReport).
Proof. unfold req_packet. cbn [pkt_flags]. by destruct (req_event_id req =? event_id RidePositionReport). Qed.

Lemma on_request_packet req :
  size_of (req_payload req) <= ReqRing_kPayloadMax ->
  on_request (req_packet req, req_payload req)
  = Some (mkTask (req_conn_id req) (req_event_id req) (req_seq req)
            (req_event_id req =? event_id RidePositionReport) (req_payload req)).
Proof.
  intros H. unfold on_request. destruct (req_packet_len req H) as [E Hle].
  destruct (_ >? _) eqn:Eg; [blia|]. rewrite one_way_flag, E, Nat2Z.id.
  by rewrite firstn_all.
Qed.

Lemma reply_delivery r :
  rp_frame r <> [] -> size_of (rp_frame r) <= RspRing_kPayloadMax ->
  rsp_delivery (rsp_slot_of (reply_msg r)) = Some (rp_conn r, rp_frame r).
Proof.
  intros Hne Hsz. destruct (reply_len r Hsz) as [E Hle].
  unfold rsp_delivery, rsp_slot_of, reply_msg. simpl in *. rewrite E.
  assert (Hm : RspRing_kPayloadMax = kRspMax) by reflexivity. rewrite Hm in Hsz. unfold size_of in Hsz.
  destruct (rp_frame r) as [|b bs] eqn:Ef; [done|]. rewrite <- Ef in *.
  destruct (Z.of_nat (length (rp_frame r)) =? 0) eqn:E0; [rewrite Ef in E0; simpl in E0; lia|].
  destruct (_ >? kRspMax) eqn:E1; [blia|]. by rewrite Nat2Z.id, firstn_all.
Qed.

(** No encoded frame is too large for a response slot: the branch of
    [flush_replies] that skips one is never taken. *)
Lemma encode_fits f bs : encode f = Ok bs -> size_of bs <= RspRing_kPayloadMax.
Proof.
  intros [Hp ->]%encode_ok_inv. rewrite size_of_app, size_of_header.
  assert (RspRing_kPayloadMax = 401376) as -> by reflexivity.
  unfold kHeaderLen, kMaxMessageLen in *. lia.
Qed.

(** C16: ring mode and in-process mode deliver the same bytes, as long as
    neither ring is full (then [sink_handle] refuses the request, and
    [flush_replies] waits and may drop the reply).  For every request whose payload fits a slot (4064
    bytes) and every outcome of its handler that fits a response slot
    (position reports, which are marked one-way, having no reply), the path
    worker - request ring - reader - business thread - response ring - main
    thread hands the main thread exactly what the in-process sink would, for
    the same connection; and when the handler replied with an encoded frame,
    that is the encoding of the same frame with the request's sequence
    number. *)
Theorem ring_mode_equals_inprocess D req :
  let r := D (req_event_id req) (req_payload req) in
  size_of (req_payload req) <= ReqRing_kPayloadMax ->
  (forall bs, r = Ok bs -> size_of bs <= RspRing_kPayloadMax) ->
  (req_event_id req = event_id RidePositionReport -> forall bs, r = Ok bs -> bs = []) ->
  ring_delivery D req = inprocess_delivery D req
  /\ (forall f bs, r = Ok bs -> encode f = Ok bs ->
        exists bs', ring_delivery D req = Some (req_conn_id req, bs')
          /\ encode (mkFrame (f_event_id f) (req_seq req) (f_payload f)) = Ok bs').
Proof.
  intros r Hreq Hrsp How.
  assert (E : ring_delivery D req = inprocess_delivery D req).
  { unfold ring_delivery, inprocess_delivery. rewrite on_request_packet by done.
    unfold biz_run, worker_reply. cbn [bt_eid bt_payload bt_one_way bt_seq bt_conn]. fold r.
    destruct r as [bs|x] eqn:Er; [|by destruct x].
    destruct (decide (bs = [])) as [->|Hne]; [by rewrite andb_false_r|].
    rewrite (bool_decide_eq_false_2 _ Hne). destruct (Z.eqb_spec (req_event_id req) (event_id RidePositionReport)) as [Ev|Ev].
    { by destruct Hne; apply How. }
    simpl. destruct bs as [|b bs]; [done|].
    destruct (stamp_seq (b :: bs) (req_seq req)) as [ok st] eqn:Es. destruct ok; [|done].
    assert (Hlen : length st = length (b :: bs)).
    { pose proof (stamp_seq_length (b :: bs) (req_seq req)) as Hl. by rewrite Es in Hl. }
    rewrite reply_delivery; simpl; [done| |].
    - intros ->. done.
    - unfold size_of. rewrite Hlen. by apply (Hrsp (b :: bs)). }
  split; [done|]. intros f bs Hr Hf. rewrite E. unfold inprocess_delivery, worker_reply. fold r.
  destruct (stamp_encode f (req_seq req) bs Hf) as (bs' & Hst & Henc). exists bs'. split; [|done].
  rewrite Hr. destruct bs as [|b bs]; [|by rewrite Hst].
  apply encode_ok_inv in Hf as [_ Hf]. done.
Qed.

Lemma ring_mode_equals_inprocess_witness :
  let D := fun _ _ => encode (mkFrame 0x12 0 [x08]) in
  let req := mkRequest 5 0x11 7 [x0a] in
  ring_delivery D req = inprocess_delivery D req
  /\ exists bs', ring_delivery D req = Some (5, bs') /\ encode (mkFrame 0x12 7 [x08]) = Ok bs'.
Proof.
  intros D req. destruct (ring_mode_equals_inprocess D req) as [H1 H2].
  - vm_compute. congruence.
  - intros bs [= <-]. vm_compute. congruence.
  - intros Hev. vm_compute in Hev. congruence.
  - split; [exact H1|]. destruct (encode (mkFrame 0x12 0 [x08])) as [bs|] eqn:E; [|discriminate].
    exact (H2 (mkFrame 0x12 0 [x08]) bs eq_refl E).
Defined.
