(* ===== verification/BizPool.v ===== *)
(** * The thread pool of both processes, with its threads

    server/include/server/util/thread_pool.hpp: the loop of the worker threads
    with its condition variable, posting, and the destructor, as an executable
    transition function over explicit schedules.  The queue operations are
    those of Dispatch.v ([tp_post], [tp_shutdown], [tp_take]); what happens
    under the mutex is one step, the notification after it another.  Wakeups
    may be spurious.  The theorems: tasks start in the order of their posting
    and none is lost or run twice, no wakeup is lost, and the destructor
    returns after all of them have been run. *)

From S2P Require Import Prelude Dispatch.

Section BizPool.
Context {T : Type}.

(** A thread of the pool: at the top of its loop, waiting in [cv_.wait], woken
    but without the mutex, inside [task()], returned. *)
Inductive bworker : Type := BTop | BAsleep | BWoken | BRun (t : T) | BExited.

(** The owner of the pool: alive, in the destructor after [stop_ = true], after
    [notify_all] with the given number of threads joined, gone. *)
Inductive bphase : Type := BAlive | BStopping | BJoining (i : nat) | BDestroyed.

(** [bp_notes] counts the posts whose [notify_one] is still to come;
    [bp_posted], [bp_started] and [bp_done] record what happened. *)
Record bpool : Type := mkBPool {
  bp_tp : ThreadPool T; bp_workers : list bworker; bp_phase : bphase; bp_notes : nat;
  bp_posted : list T; bp_started : list T; bp_done : list T
}.

(** [explicit ThreadPool(std::size_t n)] *)
Definition bpool_ctor (n : nat) : bpool :=
  mkBPool (mkTPool [] false) (replicate n BTop) BAlive 0 [] [] [].

Inductive bevent : Type :=
| BPost (t : T)               (* post: the part under the mutex *)
| BNotify (i : option nat)    (* its notify_one wakes thread i, or nobody waits *)
| BEnter (i : nat)            (* thread i takes the mutex and tests the predicate *)
| BSpurious (i : nat)
| BFinish (i : nat) (throws : bool)   (* task() returns or throws; both are caught *)
| BStop | BNotifyAll | BJoin.

Definition set_workers (ws : list bworker) (p : bpool) : bpool :=
  mkBPool (bp_tp p) ws (bp_phase p) (bp_notes p) (bp_posted p) (bp_started p) (bp_done p).
Definition set_phase (ph : bphase) (p : bpool) : bpool :=
  mkBPool (bp_tp p) (bp_workers p) ph (bp_notes p) (bp_posted p) (bp_started p) (bp_done p).

Definition asleep (w : bworker) : bool := match w with BAsleep => true | _ => false end.
Definition wake (w : bworker) : bworker := match w with BAsleep => BWoken | w => w end.

(** The loop of a worker from the lock on: sleep, return, or take a task. *)
Definition worker_enter (i : nat) (p : bpool) : bpool :=
  match tp_take (bp_tp p) with
  | (TpWait, _) => set_workers (<[i := BAsleep]> (bp_workers p)) p
  | (TpExit, _) => set_workers (<[i := BExited]> (bp_workers p)) p
  | (TpRun t, tp) =>
      mkBPool tp (<[i := BRun t]> (bp_workers p)) (bp_phase p) (bp_notes p) (bp_posted p)
        (bp_started p ++ [t]) (bp_done p)
  end.

(** [None]: the event cannot happen now.  Nobody posts while the destructor
    runs, and it starts when no post is under way. *)
Definition bstep (e : bevent) (p : bpool) : option bpool :=
  match e with
  | BPost t =>
      match bp_phase p with
      | BAlive => Some (mkBPool (tp_post t (bp_tp p)) (bp_workers p) BAlive (S (bp_notes p))
                          (bp_posted p ++ [t]) (bp_started p) (bp_done p))
      | _ => None
      end
  | BNotify o =>
      match bp_notes p, o with
      | S n, Some i =>
          match bp_workers p !! i with
          | Some BAsleep =>
              Some (mkBPool (bp_tp p) (<[i := BWoken]> (bp_workers p)) (bp_phase p) n
                      (bp_posted p) (bp_started p) (bp_done p))
          | _ => None
          end
      | S n, None =>
          if existsb asleep (bp_workers p) then None
          else Some (mkBPool (bp_tp p) (bp_workers p) (bp_phase p) n
                       (bp_posted p) (bp_started p) (bp_done p))
      | O, _ => None
      end
  | BEnter i =>
      match bp_workers p !! i with
      | Some BTop | Some BWoken => Some (worker_enter i p)
      | _ => None
      end
  | BSpurious i =>
      match bp_workers p !! i with
      | Some BAsleep => Some (set_workers (<[i := BWoken]> (bp_workers p)) p)
      | _ => None
      end
  | BFinish i _ =>
      match bp_workers p !! i with
      | Some (BRun t) =>
          Some (mkBPool (bp_tp p) (<[i := BTop]> (bp_workers p)) (bp_phase p) (bp_notes p)
                  (bp_posted p) (bp_started p) (bp_done p ++ [t]))
      | _ => None
      end
  | BStop =>
      match bp_phase p, bp_notes p with
      | BAlive, O =>
          Some (mkBPool (tp_shutdown (bp_tp p)) (bp_workers p) BStopping 0
                  (bp_posted p) (bp_started p) (bp_done p))
      | _, _ => None
      end
  | BNotifyAll =>
      match bp_phase p with
      | BStopping => Some (set_phase (BJoining 0) (set_workers (wake <$> bp_workers p) p))
      | _ => None
      end
  | BJoin =>
      match bp_phase p with
      | BJoining i =>
          match bp_workers p !! i with
          | None => Some (set_phase BDestroyed p)
          | Some BExited => Some (set_phase (BJoining (S i)) p)
          | Some _ => None
          end
      | _ => None
      end
  end.

(** A schedule; an event that is not possible ends it. *)
Fixpoint brun (es : list bevent) (p : bpool) : option bpool :=
  match es with
  | [] => Some p
  | e :: es => match bstep e p with Some p => brun es p | None => None end
  end.

(** ** Invariant *)

Definition awake (w : bworker) : nat := match w with BTop | BWoken => 1 | _ => 0 end.
Definition busy (w : bworker) : nat := match w with BRun _ => 1 | _ => 0 end.
Definition sleeping (w : bworker) : nat := match w with BAsleep => 1 | _ => 0 end.
Definition tasks (ws : list bworker) : list T :=
  omap (fun w => match w with BRun t => Some t | _ => None end) ws.

Record bpool_ok (p : bpool) : Prop := {
  bo_fifo : bp_posted p = bp_started p ++ tp_q (bp_tp p);
  bo_once : bp_started p ≡ₚ bp_done p ++ tasks (bp_workers p);
  bo_stop : tp_stop (bp_tp p) = match bp_phase p with BAlive => false | _ => true end;
  bo_notes : bp_phase p <> BAlive -> bp_notes p = 0%nat;
  bo_exit i : bp_workers p !! i = Some BExited ->
    tp_stop (bp_tp p) = true /\ tp_q (bp_tp p) = [];
  bo_sleep : (0 < sum_list_with sleeping (bp_workers p))%nat ->
    (bp_phase p = BAlive \/ bp_phase p = BStopping)
    /\ (length (tp_q (bp_tp p)) <= bp_notes p + sum_list_with awake (bp_workers p))%nat;
  bo_joined i j : bp_phase p = BJoining i -> (j < i)%nat ->
    bp_workers p !! j = Some BExited;
  bo_gone j w : bp_phase p = BDestroyed -> bp_workers p !! j = Some w -> w = BExited
}.

Lemma tasks_insert ws i w w' :
  ws !! i = Some w ->
  tasks (<[i := w']> ws) ++ tasks [w] ≡ₚ tasks ws ++ tasks [w'].
Proof.
  intros H. rewrite insert_take_drop by (by eapply lookup_lt_Some).
  rewrite <- (take_drop_middle ws i w H) at 3. unfold tasks. rewrite !omap_app. cbn.
  destruct w, w'; cbn; solve_Permutation.
Qed.

(** One thread moves from [w] to [w']: what is left to show of the invariant. *)
Lemma bpool_worker p i w w' q n st dn :
  bpool_ok p -> bp_workers p !! i = Some w -> w <> BExited ->
  let p' := mkBPool (mkTPool q (tp_stop (bp_tp p))) (<[i := w']> (bp_workers p)) (bp_phase p)
              n (bp_posted p) st dn in
  bp_posted p = st ++ q -> st ++ tasks [w] ≡ₚ dn ++ tasks (bp_workers p) ++ tasks [w'] ->
  (n <= bp_notes p)%nat ->
  (w' = BExited -> tp_stop (bp_tp p) = true /\ q = []) ->
  (tp_q (bp_tp p) = [] -> q = []) ->
  ((0 < sum_list_with sleeping (<[i := w']> (bp_workers p)))%nat ->
    (bp_phase p = BAlive \/ bp_phase p = BStopping)
    /\ (length q <= n + sum_list_with awake (<[i := w']> (bp_workers p)))%nat) ->
  bpool_ok p'.
Proof.
  intros [H1 H2 H3 H4 H5 H6 H7 H8] Hi Hw p' Hf Ho Hn Hx Hq Hs. split; cbn; try done.
  - apply (inj (.++ tasks [w])). rewrite Ho, <- !app_assoc. f_equiv. symmetry. by apply tasks_insert.
  - intros Hp. specialize (H4 Hp). lia.
  - intros j Hj. apply list_lookup_insert_Some in Hj as [(_ & E & _)|[_ Hj]]; [by apply Hx|].
    destruct (H5 j Hj). auto.
  - intros k j Hk Hj. specialize (H7 k j Hk Hj). rewrite list_lookup_insert_ne; [done|]. intros ->. congruence.
  - intros j w0 Hd Hj. specialize (H8 i w Hd Hi). congruence.
Qed.

Lemma sleeping_insert ws i w w' :
  ws !! i = Some w ->
  (sum_list_with sleeping (<[i := w']> ws) + sleeping w = sum_list_with sleeping ws + sleeping w'
   /\ sum_list_with awake (<[i := w']> ws) + awake w = sum_list_with awake ws + awake w')%nat.
Proof. intros H. by split; apply sum_insert. Qed.

Ltac counts Hi w' :=
  pose proof (sleeping_insert _ _ _ w' Hi) as [? ?]; cbn [sleeping awake] in *; intros ?.

Lemma enter_ok p i w :
  bpool_ok p -> bp_workers p !! i = Some w -> w = BTop \/ w = BWoken -> bpool_ok (worker_enter i p).
Proof.
  intros Hp Hi Hw. pose proof Hp as [H1 H2 H3 H4 H5 H6 H7 H8]. unfold worker_enter, tp_take.
  assert (Hne : w <> BExited) by (by destruct Hw as [->| ->]).
  assert (Ht : tasks [w] = []) by (by destruct Hw as [->| ->]).
  assert (Ha : sleeping w = 0%nat /\ awake w = 1%nat) by (by destruct Hw as [->| ->]).
  destruct p as [[q stop] ws ph n po st dn]. cbn in *. destruct q as [|t q].
  - destruct stop.
    + apply (bpool_worker _ i w BExited [] n st dn Hp Hi Hne); cbn; try done.
      * by rewrite Ht, !app_nil_r, H2.
      * counts Hi BExited. destruct H6 as [? _]; [lia|]. split; [done|lia].
    + apply (bpool_worker _ i w BAsleep [] n st dn Hp Hi Hne); cbn; try done.
      * by rewrite Ht, !app_nil_r, H2.
      * intros _. split; [|lia]. left. by destruct ph.
  - apply (bpool_worker _ i w (BRun t) q n (st ++ [t]) dn Hp Hi Hne); cbn; try done.
    + by rewrite H1, <- app_assoc.
    + rewrite Ht, app_nil_r, H2, <- app_assoc. done.
    + counts Hi (BRun t). destruct H6 as [? Hl]; [lia|]. split; [done|]. cbn in Hl. lia.
Qed.

Lemma wake_lookup (ws : list bworker) i w : (wake <$> ws) !! i = Some w -> ws !! i = Some w \/ w = BWoken.
Proof. rewrite list_lookup_fmap_Some. intros (v & -> & Hv). destruct v; auto. Qed.

Lemma bstep_ok e p p' : bpool_ok p -> bstep e p = Some p' -> bpool_ok p'.
Proof.
  intros Hp Hs. pose proof Hp as [H1 H2 H3 H4 H5 H6 H7 H8].
  destruct p as [[q stop] ws ph n po st dn]. destruct e as [t|o|i|i|i th| | |]; cbn in Hs.
  - destruct ph; try done. injection Hs as <-. split; cbn in *; try done.
    + by rewrite H1, app_assoc.
    + intros i Hi. destruct (H5 i Hi). congruence.
    + intros Hsl. destruct (H6 Hsl) as [? Hl]. rewrite length_app. cbn. split; [done|lia].
  - destruct n as [|n]; [by destruct o|]. destruct o as [i|].
    + destruct (ws !! i) as [[]|] eqn:Hi; try done. injection Hs as <-.
      apply (bpool_worker _ i BAsleep BWoken q n st dn Hp Hi); cbn in *; try done; try lia; [by rewrite !app_nil_r|].
      counts Hi BWoken. destruct H6 as [? Hl]; [lia|]. split; [done|lia].
    + destruct (existsb asleep ws) eqn:He; [done|]. injection Hs as <-. split; cbn in *; try done.
      * intros Hph. by specialize (H4 Hph).
      * intros Hsl. exfalso. apply sum_pos in Hsl as (i & w & Hi & Hw). destruct w; cbn in Hw; try lia.
        assert (existsb asleep ws = true); [|congruence]. apply existsb_exists. exists BAsleep.
        split; [|done]. apply list_elem_of_In. by eapply list_elem_of_lookup_2.
  - destruct (ws !! i) as [[]|] eqn:Hi; try done; injection Hs as <-; eapply enter_ok; eauto.
  - destruct (ws !! i) as [[]|] eqn:Hi; try done. injection Hs as <-.
    apply (bpool_worker _ i BAsleep BWoken q n st dn Hp Hi); cbn in *; try done; [by rewrite !app_nil_r|].
    counts Hi BWoken. destruct H6 as [? Hl]; [lia|]. split; [done|lia].
  - destruct (ws !! i) as [[| | |t|]|] eqn:Hi; try done. injection Hs as <-.
    apply (bpool_worker _ i (BRun t) BTop q n st (dn ++ [t]) Hp Hi); cbn in *; try done.
    + rewrite H2, app_nil_r. solve_Permutation.
    + counts Hi BTop. destruct H6 as [? Hl]; [lia|]. split; [done|lia].
  - destruct ph, n; try done. injection Hs as <-. split; cbn in *; try done.
    + intros i Hi. destruct (H5 i Hi). by split.
    + intros Hsl. destruct (H6 Hsl) as [_ Hl]. auto.
  - destruct ph; try done. injection Hs as <-. split; cbn in *; try done.
    + rewrite H2. f_equiv. clear. induction ws as [|[] ws IH]; cbn; try done. by f_equiv.
    + intros _. by apply H4.
    + intros i [Hi| Hi]%wake_lookup; [by apply (H5 i) | done].
    + intros Hsl. apply sum_pos in Hsl as (i & w & Hi & Hw).
      rewrite list_lookup_fmap_Some in Hi. destruct Hi as (v & -> & _). destruct v; cbn in Hw; lia.
    + intros i j [= <-] Hj. lia.
  - destruct ph as [| |k|]; try done. destruct (ws !! k) as [[]|] eqn:Hk; try done; injection Hs as <-.
    + split; cbn in *; try done; [by intros _; apply H4 | intros Hsl; by destruct (H6 Hsl) as [[]]|].
      intros i j [= <-] Hj. destruct (decide (j = k)) as [->|]; [done|]. apply (H7 k j); [done|lia].
    + split; cbn in *; try done; [by intros _; apply H4 | intros Hsl; by destruct (H6 Hsl) as [[]]|].
      intros j w _ Hj. pose proof (lookup_lt_Some _ _ _ Hj).
      apply lookup_ge_None in Hk. rewrite (H7 k j) in Hj by (done || lia). congruence.
Qed.

Lemma brun_ok es : forall p p', bpool_ok p -> brun es p = Some p' -> bpool_ok p'.
Proof.
  induction es as [|e es IH]; intros p p' Hp Hr; cbn in Hr; [by injection Hr as <-|].
  destruct (bstep e p) as [p1|] eqn:E; [|done]. eapply IH; [|done]. by eapply bstep_ok.
Qed.

Lemma ctor_ok n : bpool_ok (bpool_ctor n).
Proof.
  split; cbn; try done.
  - by induction n.
  - intros i [E _]%lookup_replicate. done.
  - intros Hsl. apply sum_pos in Hsl as (i & w & [-> _]%lookup_replicate & Hw). cbn in Hw. lia.
Qed.

Lemma bstep_length e p p' : bstep e p = Some p' -> length (bp_workers p') = length (bp_workers p).
Proof.
  intros Hs. destruct e; cbn in Hs; unfold worker_enter in Hs; repeat case_match; simplify_eq/=;
    rewrite ?length_insert, ?length_fmap; done.
Qed.
Lemma brun_length es : forall p p', brun es p = Some p' -> length (bp_workers p') = length (bp_workers p).
Proof.
  induction es as [|e es IH]; intros p p' Hr; cbn in Hr; [by injection Hr as <-|].
  destruct (bstep e p) as [p1|] eqn:E; [|done]. rewrite (IH _ _ Hr). by eapply bstep_length.
Qed.

(** ** Progress *)

(** The events that need no decision of the program: not a post, not the start
    of the destructor, not a spurious wakeup. *)
Definition own (e : bevent) : bool :=
  match e with BPost _ | BSpurious _ | BStop => false | _ => true end.

Definition phase_work (n : nat) (ph : bphase) : nat :=
  match ph with BAlive => 0 | BStopping => 2 * n + 2 | BJoining i => S n - i | BDestroyed => 0 end.
Definition work (p : bpool) : nat :=
  2 * length (tp_q (bp_tp p)) + sum_list_with awake (bp_workers p)
  + 2 * sum_list_with busy (bp_workers p) + 2 * bp_notes p
  + phase_work (length (bp_workers p)) (bp_phase p).

Lemma busy_insert ws i w w' :
  ws !! i = Some w -> (sum_list_with busy (<[i := w']> ws) + busy w = sum_list_with busy ws + busy w')%nat.
Proof. apply sum_insert. Qed.

Lemma awake_wake ws :
  (sum_list_with awake (wake <$> ws) <= sum_list_with awake ws + length ws
   /\ sum_list_with busy (wake <$> ws) = sum_list_with busy ws)%nat.
Proof. induction ws as [|[] ws [IH1 IH2]]; cbn; lia. Qed.

Ltac weigh Hi w' :=
  pose proof (sleeping_insert _ _ _ w' Hi) as [_ ?]; pose proof (busy_insert _ _ _ w' Hi);
  cbn [awake busy] in *.

Lemma bstep_work e p p' :
  bpool_ok p -> own e = true -> bstep e p = Some p' -> (work p' < work p)%nat.
Proof.
  intros Hp He Hs. destruct p as [[q stop] ws ph n po st dn]. unfold work.
  destruct e as [t|o|i|i|i th| | |]; try discriminate; cbn in Hs.
  - destruct n as [|n]; [by destruct o|]. destruct o as [i|].
    + destruct (ws !! i) as [[]|] eqn:Hi; try done. injection Hs as <-. weigh Hi BWoken.
      cbn. rewrite length_insert. lia.
    + destruct (existsb asleep ws); [done|]. injection Hs as <-. cbn. lia.
  - assert (Hw : exists w, ws !! i = Some w /\ awake w = 1%nat /\ busy w = 0%nat
                 /\ p' = worker_enter i (mkBPool (mkTPool q stop) ws ph n po st dn)).
    { destruct (ws !! i) as [[]|]; try done; injection Hs as <-; by eexists. }
    destruct Hw as (w & Hi & Ha & Hb & ->). unfold worker_enter, tp_take. cbn.
    destruct q as [|t q]; [destruct stop|]; cbn; rewrite length_insert;
      [weigh Hi BExited | weigh Hi BAsleep | weigh Hi (BRun t)]; lia.
  - destruct (ws !! i) as [[| | |t|]|] eqn:Hi; try done. injection Hs as <-. weigh Hi BTop.
    cbn. rewrite length_insert. lia.
  - destruct ph; try done. injection Hs as <-. cbn. rewrite length_fmap.
    pose proof (awake_wake ws). lia.
  - destruct ph as [| |k|]; try done.
    assert (Hk : (k <= length ws)%nat).
    { destruct (decide (k <= length ws)%nat) as [|Hn]; [done|].
      pose proof (bo_joined _ Hp k (length ws) eq_refl ltac:(lia)) as Hl.
      apply lookup_lt_Some in Hl. cbn in Hl. lia. }
    destruct (ws !! k) as [[]|] eqn:Hl; try done; injection Hs as <-; cbn; [|lia].
    apply lookup_lt_Some in Hl. lia.
Qed.

Lemma tasks_idle ws : (forall i w, ws !! i = Some w -> busy w = 0%nat) -> tasks ws = [].
Proof.
  induction ws as [|w ws IH]; intros H; [done|]. pose proof (H 0%nat w eq_refl).
  unfold tasks in *. destruct w; cbn in *; try done; apply IH; intros i; apply (H (S i)).
Qed.

(** When nothing can happen by itself any more, everything is done. *)
Lemma bpool_rest p :
  bpool_ok p -> (0 < length (bp_workers p))%nat -> (forall e, own e = true -> bstep e p = None) ->
  bp_done p ≡ₚ bp_posted p /\ (bp_phase p = BAlive \/ bp_phase p = BDestroyed).
Proof.
  intros Hp Hn Hno. pose proof Hp as [H1 H2 H3 H4 H5 H6 H7 H8].
  destruct p as [[q stop] ws ph n po st dn].
  cbn [bp_tp bp_workers bp_phase bp_notes bp_posted bp_started bp_done tp_q tp_stop] in *.
  assert (Hw : forall i w, ws !! i = Some w -> w = BAsleep \/ w = BExited).
  { intros i w Hi. pose proof (Hno (BEnter i) eq_refl) as He. pose proof (Hno (BFinish i false) eq_refl) as Hf.
    cbn in He, Hf. rewrite Hi in He, Hf. destruct w; auto; discriminate. }
  assert (Htasks : tasks ws = []).
  { apply tasks_idle. intros i w Hi. by destruct (Hw i w Hi) as [->| ->]. }
  rewrite Htasks, app_nil_r in H2.
  destruct (ws !! 0%nat) as [w0|] eqn:H0; [|apply lookup_ge_None in H0; lia].
  assert (Hq : q = [] -> dn ≡ₚ po) by (intros ->; by rewrite H1, app_nil_r, H2).
  assert (Hslept : w0 = BAsleep -> (ph = BAlive \/ ph = BStopping)
                     /\ (length q <= n + sum_list_with awake ws)%nat).
  { intros ->. apply H6. pose proof (sum_lookup sleeping _ _ _ H0). cbn in *. lia. }
  assert (Haw : sum_list_with awake ws = 0%nat).
  { destruct (sum_list_with awake ws) eqn:E; [done|].
    destruct (sum_pos awake ws) as (i & w & Hi & Ha); [lia|].
    destruct (Hw i w Hi) as [->| ->]; cbn in Ha; lia. }
  destruct ph as [| |k|].
  - assert (n = 0%nat) as ->.
    { destruct n as [|n]; [done|]. destruct (existsb asleep ws) eqn:Ea.
      - apply existsb_exists in Ea as (w & Hin & Has). destruct w; try discriminate.
        apply list_elem_of_In, list_elem_of_lookup in Hin as [i Hi].
        pose proof (Hno (BNotify (Some i)) eq_refl) as He. cbn in He. by rewrite Hi in He.
      - pose proof (Hno (BNotify None) eq_refl) as He. cbn in He. by rewrite Ea in He. }
    split; [|by left]. apply Hq. destruct (Hw _ _ H0) as [->| ->].
    + destruct (Hslept eq_refl) as [_ Hl]. destruct q; [done|]. cbn in Hl. lia.
    + by destruct (H5 _ H0).
  - pose proof (Hno BNotifyAll eq_refl). discriminate.
  - pose proof (Hno BJoin eq_refl) as Hj. cbn in Hj. destruct (ws !! k) as [w|] eqn:Hk; [|discriminate].
    destruct (Hw k w Hk) as [->| ->]; [|discriminate]. destruct H6 as [[] _]; try done.
    pose proof (sum_lookup sleeping _ _ _ Hk). cbn in *. lia.
  - split; [|by right]. apply Hq. specialize (H8 _ _ eq_refl H0) as ->. by destruct (H5 _ H0).
Qed.

Lemma own_run_work es : forall p p',
  bpool_ok p -> Forall (fun e => own e = true) es -> brun es p = Some p' ->
  (length es + work p' <= work p)%nat.
Proof.
  induction es as [|e es IH]; intros p p' Hp Ho Hr; cbn in Hr; [injection Hr as <-; cbn; lia|].
  apply Forall_cons in Ho as [He Ho]. destruct (bstep e p) as [p1|] eqn:E; [|done].
  pose proof (bstep_work _ _ _ Hp He E). specialize (IH p1 p' (bstep_ok _ _ _ Hp E) Ho Hr). cbn [length]. lia.
Qed.

(** The destructor, once begun, is not undone. *)
Lemma own_run_phase es : forall p p',
  Forall (fun e => own e = true) es -> brun es p = Some p' ->
  bp_phase p' = BAlive <-> bp_phase p = BAlive.
Proof.
  induction es as [|e es IH]; intros p p' Ho Hr; cbn in Hr; [by injection Hr as <-|].
  apply Forall_cons in Ho as [He Ho]. destruct (bstep e p) as [p1|] eqn:E; [|done].
  rewrite (IH p1 p' Ho Hr). clear -He E. destruct e; try discriminate; cbn in E;
    unfold worker_enter in E; repeat case_match; simplify_eq/=; done.
Qed.

(** C37: whatever is posted and however the threads are scheduled, spurious
    wakeups included, the tasks start in the order of their posting and each is
    run at most once, also when tasks throw; when the destructor has returned,
    every task has been run and no thread is left.  From any point on, the
    threads and the destructor make at most [work p] further steps, and when
    they can make no more, every posted task has been run, and a destructor
    that had begun has returned. *)
Theorem thread_pool_drains n es p :
  (0 < n)%nat -> brun es (bpool_ctor n) = Some p ->
  bp_posted p = bp_started p ++ tp_q (bp_tp p)
  /\ bp_started p ≡ₚ bp_done p ++ tasks (bp_workers p)
  /\ (bp_phase p = BDestroyed -> bp_done p ≡ₚ bp_posted p /\ Forall (eq BExited) (bp_workers p))
  /\ forall es' p', Forall (fun e => own e = true) es' -> brun es' p = Some p' ->
       (length es' + work p' <= work p)%nat
       /\ ((forall e, own e = true -> bstep e p' = None) ->
           bp_done p' ≡ₚ bp_posted p' /\ (bp_phase p <> BAlive -> bp_phase p' = BDestroyed)).
Proof.
  intros Hn Hr. pose proof (brun_ok _ _ _ (ctor_ok n) Hr) as Hp.
  assert (Hlen : length (bp_workers p) = n) by (rewrite (brun_length _ _ _ Hr); cbn; apply length_replicate).
  split; [apply Hp|]. split; [apply Hp|]. split.
  - intros Hd. assert (Hx : forall i w, bp_workers p !! i = Some w -> w = BExited).
    { intros i w. by apply (bo_gone _ Hp). }
    split; [|apply Forall_lookup_2; intros i w Hi; symmetry; by eapply Hx].
    destruct (lookup_lt_is_Some_2 (bp_workers p) 0) as [w Hw]; [lia|].
    pose proof (Hx _ _ Hw) as ->. destruct (bo_exit _ Hp _ Hw) as [_ Hq].
    rewrite (bo_fifo _ Hp), Hq, app_nil_r, (bo_once _ Hp), tasks_idle, app_nil_r; [done|].
    intros i w Hi. by rewrite (Hx i w Hi).
  - intros es' p' Ho Hr'. split; [by apply own_run_work|]. intros Hno.
    destruct (bpool_rest p') as [Hd Hph]; [by eapply brun_ok | rewrite (brun_length _ _ _ Hr'); lia | done |].
    split; [done|]. intros Hna. destruct Hph as [Ha|]; [|done]. by apply (own_run_phase _ _ _ Ho Hr') in Ha.
Qed.
End BizPool.

(** Two threads: one task is posted while both sleep, a second one while the
    first runs and throws; the destructor finds the second still queued. *)
Definition bpool_schedule : list (bevent (T := nat)) :=
  [BEnter 0; BEnter 1; BPost 7; BNotify (Some 0); BEnter 0; BPost 8; BNotify (Some 1); BFinish 0 true;
   BStop; BNotifyAll; BEnter 0; BEnter 1; BFinish 0 false; BEnter 0; BJoin; BJoin; BJoin]%nat.

Lemma thread_pool_drains_witness :
  exists p, brun bpool_schedule (bpool_ctor 2) = Some p /\ bp_phase p = BDestroyed
    /\ bp_done p ≡ₚ bp_posted p /\ bp_posted p = [7; 8]%nat.
Proof.
  destruct (brun bpool_schedule (bpool_ctor 2)) as [p|] eqn:E; [|vm_compute in E; discriminate].
  exists p. split; [reflexivity|].
  assert (Hd : bp_phase p = BDestroyed) by (vm_compute in E; injection E as <-; reflexivity).
  split; [exact Hd|].
  destruct (thread_pool_drains 2 bpool_schedule p) as (_ & _ & H & _); [lia | exact E |].
  split; [exact (proj1 (H Hd))|]. vm_compute in E. injection E as <-. reflexivity.
Defined.
