(* ===== verification/ShmRegion.v ===== *)
(** * Shared-memory files: creation, recovery, attachment

    server/src/ipc/shm_region.cpp.  [/dev/shm] is a map from names to files; a
    file is its size, its header and its ring headers (the slots carry no
    state that creation depends on).  Failures of the system calls are part of
    the environment [Sys]; [mmap] of an empty file fails with EINVAL, as its
    documentation says. *)

From stdpp Require Import pretty.
From S2P Require Import Prelude ShmLayout SpscRing Engine.

Record ShmFile : Type := mkFile {
  sf_bytes : Z; sf_hdr : ShmFileHeader; sf_rings : list RingHeader
}.

Record Params : Type := mkParams {
  shm_root : string; prefix : string; instance : Z; p_workers : Z;
  open_timeout : Z; lock_pages : bool
}.

(** Outcomes of the system calls made for one file, and the clock. *)
Record Sysenv : Type := mkSysenv {
  se_create : option Z;      (* errno of shm_open(O_CREAT|O_EXCL) on a free name *)
  se_truncate : option Z; se_mmap : option Z; se_open : option Z; se_fstat : option Z;
  se_flock : option Z;
  se_kill : Z -> option Z;   (* errno of kill(pid, 0) *)
  se_now : Z
}.
Definition sys_ok (kill : Z -> option Z) (now : Z) : Sysenv :=
  mkSysenv None None None None None None kill now.

Definition fail {X} (msg : string) : result X := Err (RuntimeError ("ipc shm: " ++ msg)).

Definition EINVAL : Z := 22.
Definition do_mmap (e : Sysenv) (bytes : Z) : result unit :=
  match (if bytes =? 0 then Some EINVAL else se_mmap e) with
  | Some _ => fail "mmap failed"
  | None => Ok tt
  end.

Definition write_headers (now ring_count slot_count slot_size total : Z) (f : ShmFile) : ShmFile :=
  mkFile (sf_bytes f)
    (mkFileHeader kShmMagic kShmVersion ring_count slot_count (u32 slot_size) 0 total now)
    (replicate (Z.to_nat ring_count) RingHeader0).

Definition EAGAIN : Z := 11.   (* EWOULDBLOCK is the same number *)
Definition lock_file_exclusive (e : Sysenv) (name : string) : result unit :=
  match se_flock e with
  | Some err => if err =? EAGAIN then fail (name ++ " is locked by another creator (parallel startup?)")
                else fail (name ++ " flock failed")
  | None => Ok tt
  end.

Definition pid_alive (e : Sysenv) (pid : Z) : bool :=
  if pid =? 0 then false
  else match se_kill e pid with None => true | Some err => err =? EPERM end.

Definition kInUseHbLimitNs : Z := 3 * 10 ^ 9.

Definition peer_in_use (e : Sysenv) (f : ShmFile) (peer_is_producer : bool) : bool :=
  match sf_rings f with
  | [] => false
  | h0 :: _ =>
      let pid := if peer_is_producer then rh_producer_pid h0 else rh_consumer_pid h0 in
      if negb (pid_alive e pid) then false
      else
        let hb := if peer_is_producer then rh_producer_heartbeat_ns h0
                  else rh_consumer_heartbeat_ns h0 in
        if hb =? 0 then false else u64 (se_now e - hb) <? kInUseHbLimitNs
  end.

Definition zero_file (bytes : Z) : ShmFile := mkFile bytes ShmFileHeader0 [].

(** ** The operations, over the file system *)

Definition fs : Type := gmap string ShmFile.

Definition shm_create (e : Sysenv) (name : string) (total : Z) (d : fs) : result bool * fs :=
  match d !! name with
  | Some _ => (Ok false, d)
  | None =>
      match se_create e with
      | Some _ => (fail (name ++ " shm_open(O_CREAT|O_EXCL) failed"), d)
      | None =>
          match se_truncate e with
          | Some _ => (fail (name ++ " ftruncate failed"), d)     (* unlinked again *)
          | None =>
              let d := <[name := zero_file total]> d in
              match do_mmap e total with
              | Err x => (Err x, d)
              | Ok _ => (Ok true, d)
              end
          end
      end
  end.

Definition shm_open_existing (e : Sysenv) (name : string) (d : fs) : result ShmFile :=
  match d !! name with
  | None => fail (name ++ " shm_open(O_RDWR) failed")
  | Some f =>
      match se_open e with
      | Some _ => fail (name ++ " shm_open(O_RDWR) failed")
      | None =>
          match se_fstat e with
          | Some _ => fail (name ++ " fstat failed")
          | None => match do_mmap e (sf_bytes f) with Ok _ => Ok f | Err x => Err x end
          end
      end
  end.

Definition validate_file (f : ShmFile) (ring_count slot_count slot_size total : Z) : bool :=
  (sf_bytes f =? total)
  && ((fh_magic (sf_hdr f) =? kShmMagic) && (fh_version (sf_hdr f) =? kShmVersion)
      && (fh_ring_count (sf_hdr f) =? ring_count) && (fh_slot_count (sf_hdr f) =? slot_count)
      && (fh_slot_size (sf_hdr f) =? u32 slot_size) && (fh_total_bytes (sf_hdr f) =? total)).

Definition reinit_file (e : Sysenv) (name : string) (f : ShmFile)
    (ring_count slot_count slot_size total : Z) (d : fs) : result unit * fs :=
  match se_truncate e with
  | Some _ => (fail (name ++ " reinit ftruncate failed"), d)
  | None =>
      (Ok tt, <[name := write_headers (se_now e) ring_count slot_count slot_size total
                          (mkFile total (sf_hdr f) (sf_rings f))]> d)
  end.

(** One file of [map_all]. *)
Definition map_file (creator_side : bool) (e : Sysenv) (name : string)
    (ring_count slot_count slot_size total : Z) (peer_is_producer : bool) (d : fs)
  : result unit * fs :=
  if creator_side then
    match shm_create e name total d with
    | (Err x, d) => (Err x, d)
    | (Ok fresh, d) =>
        match (if fresh : bool then Ok (zero_file total) else shm_open_existing e name d) with
        | Err x => (Err x, d)
        | Ok f =>
            match lock_file_exclusive e name with
            | Err x => (Err x, d)
            | Ok _ =>
                if fresh : bool
                then (Ok tt, <[name := write_headers (se_now e) ring_count slot_count slot_size total f]> d)
                else if negb (validate_file f ring_count slot_count slot_size total) then
                  match (if sf_bytes f =? total then Ok tt else do_mmap e total) with
                  | Err x => (Err x, d)
                  | Ok _ => reinit_file e name f ring_count slot_count slot_size total d
                  end
                else if peer_in_use e f peer_is_producer
                then (fail (name ++ " peer (gateway) alive with fresh heartbeat"), d)
                else reinit_file e name f ring_count slot_count slot_size total d
            end
        end
    end
  else
    match shm_open_existing e name d with
    | Err x => (Err x, d)
    | Ok f => if validate_file f ring_count slot_count slot_size total then (Ok tt, d)
              else (fail (name ++ " header mismatch"), d)
    end.

Definition kReqRegionBytes : Z := kReqSlotSize * ReqRing_kSlotCount.
Definition kRspRegionBytes : Z := kRspSlotSize * RspRing_kSlotCount.
Definition req_total_bytes (p : Params) : Z :=
  total_bytes (compute_file_layout (u32 (p_workers p)) kReqRegionBytes).
Definition rsp_total_bytes : Z := total_bytes (compute_file_layout 1 kRspRegionBytes).

Definition dec (z : Z) : string := pretty z.
Definition shm_name_of (p : Params) (suffix : string) : string :=
  "/" ++ prefix p ++ dec (instance p) ++ suffix.

Definition map_all (creator_side : bool) (er ep : Sysenv) (p : Params) (d : fs) : result unit * fs :=
  match map_file creator_side er (shm_name_of p "_req") (u32 (p_workers p)) ReqRing_kSlotCount
          kReqSlotSize (req_total_bytes p) true d with
  | (Err x, d) => (Err x, d)
  | (Ok _, d) =>
      map_file creator_side ep (shm_name_of p "_rsp") 1 RspRing_kSlotCount kRspSlotSize
        rsp_total_bytes false d
  end.

Definition create_or_recover := map_all true.

(** [open] retries until the deadline: [tries] is the state of the files and
    the calls' outcomes at each attempt. *)
Fixpoint open_loop (p : Params) (tries : list (Sysenv * Sysenv * fs * bool)) : option (result unit) :=
  match tries with
  | [] => None
  | (er, ep, d, expired) :: tries =>
      match map_all false er ep p d with
      | (Ok _, _) => Some (Ok tt)
      | (Err _, _) => if expired : bool then Some (fail "open timeout") else open_loop p tries
      end
  end.

Definition req_notify_path (p : Params) : string :=
  shm_root p ++ "/" ++ prefix p ++ dec (instance p) ++ "_req_notify".
Definition rsp_notify_path (p : Params) : string :=
  shm_root p ++ "/" ++ prefix p ++ dec (instance p) ++ "_rsp_notify".

(** ** Properties *)

Section OneFile.
Context (e : Sysenv) (name : string) (n cnt sz total : Z) (pp : bool).
Hypothesis Hok : exists kill now, e = sys_ok kill now.
Hypothesis Htotal : 0 < total.

(** A file both sides can use: valid for these parameters, all rings empty. *)
Definition usable (f : ShmFile) : Prop :=
  validate_file f n cnt sz total = true /\ sf_rings f = replicate (Z.to_nat n) RingHeader0.

Lemma written_usable f now : sf_bytes f = total -> usable (write_headers now n cnt sz total f).
Proof using.
  clear. intros E. split; [|done]. unfold validate_file, write_headers. simpl. rewrite E.
  by rewrite !Z.eqb_refl.
Qed.

Lemma mmap_ok b : 0 < b -> do_mmap e b = Ok tt.
Proof using Hok. destruct Hok as (k & t & ->). intros H. unfold do_mmap. simpl. case_if; [blia|done]. Qed.

Lemma open_ok f d : d !! name = Some f -> 0 < sf_bytes f -> shm_open_existing e name d = Ok f.
Proof using Hok.
  intros E H. unfold shm_open_existing. rewrite E, (mmap_ok _ H). by destruct Hok as (k & t & ->).
Qed.

Lemma open_empty d f :
  d !! name = Some f -> sf_bytes f = 0 -> exists x, shm_open_existing e name d = Err x.
Proof using Hok.
  intros E H0. unfold shm_open_existing. rewrite E, H0. destruct Hok as (k & t & ->).
  eexists. reflexivity.
Qed.

Lemma reinit_usable f d :
  exists f', reinit_file e name f n cnt sz total d = (Ok tt, <[name := f']> d) /\ usable f'.
Proof using Hok.
  destruct Hok as (k & t & ->). unfold reinit_file. simpl. eexists. split; [reflexivity|].
  by apply written_usable.
Qed.

(** The creator on a missing file, and on a file left behind. *)
Lemma create_missing d : d !! name = None ->
  exists f', map_file true e name n cnt sz total pp d = (Ok tt, <[name := f']> d) /\ usable f'.
Proof using Hok Htotal.
  intros E. unfold map_file, shm_create. rewrite E, (mmap_ok total Htotal).
  destruct Hok as (k & t & ->). eexists (write_headers t n cnt sz total (zero_file total)).
  split; [|by apply written_usable]. cbn. f_equal. apply insert_insert_eq.
Qed.

Lemma create_existing d f : d !! name = Some f -> 0 < sf_bytes f ->
  (validate_file f n cnt sz total = true -> peer_in_use e f pp = false) ->
  exists f', map_file true e name n cnt sz total pp d = (Ok tt, <[name := f']> d) /\ usable f'.
Proof using Hok Htotal.
  intros E Hb Hp. unfold map_file, shm_create. rewrite E, (open_ok f d E Hb).
  assert (lock_file_exclusive e name = Ok tt) as -> by (by destruct Hok as (k & t & ->)).
  destruct (validate_file f n cnt sz total) eqn:Ev; simpl.
  - rewrite Hp by done. apply reinit_usable.
  - rewrite (mmap_ok total Htotal). destruct (sf_bytes f =? total); apply reinit_usable.
Qed.

Lemma create_refused d f : d !! name = Some f -> 0 < sf_bytes f ->
  validate_file f n cnt sz total = true -> peer_in_use e f pp = true ->
  exists x, map_file true e name n cnt sz total pp d = (Err x, d).
Proof using Hok.
  intros E Hb Ev Hp. unfold map_file, shm_create. rewrite E, (open_ok f d E Hb).
  assert (lock_file_exclusive e name = Ok tt) as -> by (by destruct Hok as (k & t & ->)).
  rewrite Ev, Hp. simpl. by eexists.
Qed.

(** C20: the recovery table of a shared-memory file, when the system calls
    succeed.  The creator makes a missing file, rebuilds a left-over file of
    any content whose header does not match or whose peer is gone, and refuses
    (leaving it untouched) one whose header matches while the gateway is alive
    with a fresh heartbeat; every success leaves a valid file whose rings are
    all empty, which the other process then attaches to with the same
    parameters.  The one exception is an empty left-over file: mapping it
    fails, so neither side ever gets past it. *)
Theorem shm_recovery_table (d : fs) :
  match d !! name with
  | None => exists f', map_file true e name n cnt sz total pp d = (Ok tt, <[name := f']> d) /\ usable f'
                       /\ fst (map_file false e name n cnt sz total pp (<[name := f']> d)) = Ok tt
  | Some f =>
      if sf_bytes f =? 0
      then forall side, exists x, map_file side e name n cnt sz total pp d = (Err x, d)
      else if validate_file f n cnt sz total && peer_in_use e f pp
      then exists x, map_file true e name n cnt sz total pp d = (Err x, d)
      else 0 < sf_bytes f ->
           exists f', map_file true e name n cnt sz total pp d = (Ok tt, <[name := f']> d) /\ usable f'
                      /\ fst (map_file false e name n cnt sz total pp (<[name := f']> d)) = Ok tt
  end.
Proof using Hok Htotal.
  assert (Hattach : forall f', usable f' ->
    fst (map_file false e name n cnt sz total pp (<[name := f']> d)) = Ok tt).
  { intros f' [Hv _]. unfold map_file.
    assert (sf_bytes f' = total) as Hb.
    { unfold validate_file in Hv. apply andb_true_iff in Hv as [Hv _]. by apply Z.eqb_eq. }
    rewrite (open_ok f' (<[name := f']> d)); [by rewrite Hv|apply lookup_insert_eq|lia]. }
  destruct (d !! name) as [f|] eqn:E.
  - destruct (Z.eqb_spec (sf_bytes f) 0) as [H0|H0].
    + intros side. destruct (open_empty d f E H0) as [x Hx]. exists x.
      unfold map_file, shm_create. rewrite E, Hx. by destruct side.
    + destruct (validate_file f n cnt sz total && peer_in_use e f pp) eqn:Ep.
      * apply andb_true_iff in Ep as [Ev Ep].
        assert (0 < sf_bytes f).
        { unfold validate_file in Ev. apply andb_true_iff in Ev as [Hv _]. apply Z.eqb_eq in Hv. lia. }
        by apply (create_refused d f).
      * intros Hb. destruct (create_existing d f E Hb) as (f' & H1 & H2).
        { intros Hv. by rewrite Hv in Ep. }
        exists f'. split; [done|]. split; [done|]. by apply Hattach.
  - destruct (create_missing d E) as (f' & H1 & H2). exists f'. split; [done|]. split; [done|].
    by apply Hattach.
Qed.
End OneFile.

(** A left-over request file: wrong ring count, then rebuilt for two rings. *)
Definition stale_file : ShmFile :=
  write_headers 0 1 512 4096 4096 (mkFile 4096 ShmFileHeader0 []).

Lemma shm_recovery_table_witness :
  exists f', map_file true (sys_ok (fun _ => None) 0) "/bike0_req" 2 512 4096 8192 true
               {[ "/bike0_req"%string := stale_file ]}
             = (Ok tt, <["/bike0_req"%string := f']> {[ "/bike0_req"%string := stale_file ]})
             /\ sf_rings f' = [RingHeader0; RingHeader0].
Proof.
  pose proof (shm_recovery_table (sys_ok (fun _ => None) 0) "/bike0_req" 2 512 4096 8192 true) as H.
  destruct (H ltac:(by eexists _, _) ltac:(lia) {[ "/bike0_req"%string := stale_file ]})
    as (f' & E & [_ Hr] & _).
  - vm_compute. reflexivity.
  - exists f'. split; [exact E|exact Hr].
Defined.
