(* ===== verification/ShmLife.v ===== *)
(** * Shared-memory region: descriptors and mappings

    shm_region.cpp once more, at the level of its system calls: which
    descriptors and mappings a [ShmRegion] object holds at every point, on every
    path out of [map_all], through moves and in the destructor.  The operating
    system is the class [Kernel]; [KernelLaws] states what its manual pages
    promise of descriptors and mappings and leaves every answer open, so other
    processes may do to the files what they like.  [Disk] is a concrete kernel;
    on it the calls compute what ShmRegion.v says of the files. *)

From S2P Require Import Prelude ShmLayout SpscRing Engine ShmRegion.

(** ** The operating system *)

(** [k_fds] and [k_maps] are the open descriptors and the mappings (address and
    length) of the process.  Calls that fail return an [errno]: [inr] or
    [Some]. *)
Class Kernel (K : Type) : Type := {
  k_fds : K -> list Z;
  k_maps : K -> list (Z * Z);
  sys_shm_open : string -> bool -> K -> (Z + Z) * K;   (* true: O_CREAT|O_EXCL *)
  sys_ftruncate : Z -> Z -> K -> option Z * K;
  sys_fstat : Z -> K -> (Z + Z) * K;                   (* st_size *)
  sys_flock : Z -> K -> option Z * K;
  sys_mmap : Z -> Z -> K -> (Z + Z) * K;
  sys_munmap : Z -> Z -> K -> K;
  sys_close : Z -> K -> K;
  sys_shm_unlink : string -> K -> K;
  sys_mlock : Z -> Z -> K -> option Z * K;
  sys_kill : Z -> K -> option Z * K;
  steady_now : K -> Z * K;
  mem_load : Z -> K -> (ShmFileHeader * list RingHeader) * K;
  mem_store : Z -> ShmFileHeader -> list RingHeader -> K -> unit * K
}.

(** Two mappings share no byte. *)
Definition apart (x y : Z * Z) : Prop := fst x + snd x <= fst y \/ fst y + snd y <= fst x.

(** ** Objects *)

Record MappedFile : Type := mkMapped { fd : Z; base : Z; bytes : Z; shm_name : string }.
Definition MappedFile0 : MappedFile := mkMapped (-1) 0 0 "".

Record Region : Type := mkRegion { p_ : Params; req_ : MappedFile; rsp_ : MappedFile }.

(** Releases of what the process does not have, and accesses outside its
    mappings, are counted. *)
Record proc (K : Type) : Type := mkProc { pr_k : K; pr_stray : nat }.
Arguments mkProc {K}.
Arguments pr_k {K}.
Arguments pr_stray {K}.

Section Region.
Context {K : Type} `{!Kernel K}.

Definition do_close (f : Z) (pr : proc K) : proc K :=
  mkProc (sys_close f (pr_k pr))
    (if bool_decide (f ∈ k_fds (pr_k pr)) then pr_stray pr else S (pr_stray pr)).
Definition do_munmap (a n : Z) (pr : proc K) : proc K :=
  mkProc (sys_munmap a n (pr_k pr))
    (if bool_decide ((a, n) ∈ k_maps (pr_k pr)) then pr_stray pr else S (pr_stray pr)).
(** An access to the [len] bytes at [a]. *)
Definition touch (a len : Z) (pr : proc K) : proc K :=
  mkProc (pr_k pr)
    (if existsb (fun x => (fst x =? a) && (len <=? snd x)) (k_maps (pr_k pr)) then pr_stray pr
     else S (pr_stray pr)).

(** ** Operations on one file

    A member function that works on a [MappedFile] and may throw; what it
    assigned before it threw stays assigned. *)
Definition F (X : Type) : Type := MappedFile -> proc K -> result X * MappedFile * proc K.

Definition fret {X} (x : X) : F X := fun mf pr => (Ok x, mf, pr).
Definition ffail {X} (msg : string) : F X := fun mf pr => (fail msg, mf, pr).
Definition fbind {X Y} (m : F X) (k : X -> F Y) : F Y := fun mf pr =>
  match m mf pr with
  | (Ok x, mf, pr) => k x mf pr
  | (Err e, mf, pr) => (Err e, mf, pr)
  end.
Definition fget : F MappedFile := fun mf pr => (Ok mf, mf, pr).
Definition fput (mf : MappedFile) : F unit := fun _ pr => (Ok tt, mf, pr).
Definition fsys {X} (c : K -> X * K) : F X := fun mf pr =>
  (Ok (fst (c (pr_k pr))), mf, mkProc (snd (c (pr_k pr))) (pr_stray pr)).
Definition fdo (c : proc K -> proc K) : F unit := fun mf pr => (Ok tt, mf, c pr).

#[local] Notation "'let*' x := m 'in' k" := (fbind m (fun x => k))
  (at level 10, x name, m at level 100, k at level 200).
#[local] Notation "m ;* k" := (fbind m (fun _ => k)) (at level 199, right associativity).

Definition l_do_mmap (f n : Z) : F Z :=
  let* r := fsys (sys_mmap f n) in
  match r with inl a => fret a | inr _ => ffail "mmap failed" end.

Definition l_write_headers (ring_count slot_count slot_size total : Z) : F unit :=
  let* mf := fget in
  let* now := fsys steady_now in
  fdo (touch (base mf) (sizeof_ShmFileHeader + ring_count * sizeof_RingHeader)) ;*
  fsys (mem_store (base mf)
          (mkFileHeader kShmMagic kShmVersion ring_count slot_count (u32 slot_size) 0 total now)
          (replicate (Z.to_nat ring_count) RingHeader0)).

Definition l_lock_file_exclusive (name : string) : F unit :=
  let* mf := fget in
  let* r := fsys (sys_flock (fd mf)) in
  match r with
  | Some err => if err =? EAGAIN then ffail (name ++ " is locked by another creator (parallel startup?)")
                else ffail (name ++ " flock failed")
  | None => fret tt
  end.

Definition l_pid_alive (pid : Z) : F bool :=
  if pid =? 0 then fret false
  else
    let* r := fsys (sys_kill pid) in
    match r with None => fret true | Some err => fret (err =? EPERM) end.

(** The header of ring 0, read anew. *)
Definition l_ring0 : F RingHeader :=
  let* mf := fget in
  fdo (touch (base mf) (sizeof_ShmFileHeader + sizeof_RingHeader)) ;*
  let* x := fsys (mem_load (base mf)) in
  fret (hd RingHeader0 (snd x)).

Definition l_peer_in_use (peer_is_producer : bool) : F bool :=
  let* h0 := l_ring0 in
  let* alive := l_pid_alive (if peer_is_producer then rh_producer_pid h0 else rh_consumer_pid h0) in
  if negb alive then fret false
  else
    let* h0 := l_ring0 in
    let hb := if peer_is_producer then rh_producer_heartbeat_ns h0 else rh_consumer_heartbeat_ns h0 in
    if hb =? 0 then fret false
    else let* now := fsys steady_now in fret (u64 (now - hb) <? kInUseHbLimitNs).

Definition EEXIST : Z := 17.

Definition l_shm_create (name : string) (total : Z) : F bool :=
  let* r := fsys (sys_shm_open name true) in
  match r with
  | inr e => if e =? EEXIST then fret false else ffail (name ++ " shm_open(O_CREAT|O_EXCL) failed")
  | inl f =>
      let* t := fsys (sys_ftruncate f total) in
      match t with
      | Some _ =>
          fdo (do_close f) ;* fsys (fun k => (tt, sys_shm_unlink name k)) ;* ffail (name ++ " ftruncate failed")
      | None =>
          let* mf := fget in
          fput (mkMapped f (base mf) total name) ;*
          let* a := l_do_mmap f total in
          fput (mkMapped f a total name) ;* fret true
      end
  end.

Definition l_shm_open_existing (name : string) : F unit :=
  let* r := fsys (sys_shm_open name false) in
  match r with
  | inr _ => ffail (name ++ " shm_open(O_RDWR) failed")
  | inl f =>
      let* st := fsys (sys_fstat f) in
      match st with
      | inr _ => fdo (do_close f) ;* ffail (name ++ " fstat failed")
      | inl n =>
          let* mf := fget in
          fput (mkMapped f (base mf) n name) ;*
          let* a := l_do_mmap f n in
          fput (mkMapped f a n name) ;* fret tt
      end
  end.

Definition l_validate_file (ring_count slot_count slot_size total : Z) : F bool :=
  let* mf := fget in
  if negb (bytes mf =? total) then fret false
  else
    fdo (touch (base mf) sizeof_ShmFileHeader) ;*
    let* x := fsys (mem_load (base mf)) in
    fret (validate_file (mkFile (bytes mf) (fst x) (snd x)) ring_count slot_count slot_size total).

Definition l_reinit_file (name : string) (ring_count slot_count slot_size total : Z) : F unit :=
  let* mf := fget in
  let* t := fsys (sys_ftruncate (fd mf) total) in
  match t with
  | Some _ => ffail (name ++ " reinit ftruncate failed")
  | None => l_write_headers ring_count slot_count slot_size total
  end.

(** The size is wrong: unmap, map again. *)
Definition l_remap (total : Z) : F unit :=
  let* mf := fget in
  if bytes mf =? total then fret tt
  else
    fdo (do_munmap (base mf) (bytes mf)) ;*
    let* a := l_do_mmap (fd mf) total in
    fput (mkMapped (fd mf) a total (shm_name mf)).

Definition l_map_file (creator_side : bool) (name : string)
    (ring_count slot_count slot_size total : Z) (peer_is_producer : bool) : F unit :=
  if creator_side then
    let* fresh := l_shm_create name total in
    (if fresh : bool then fret tt else l_shm_open_existing name) ;*
    l_lock_file_exclusive name ;*
    if fresh : bool then l_write_headers ring_count slot_count slot_size total
    else
      let* valid := l_validate_file ring_count slot_count slot_size total in
      if negb valid then l_remap total ;* l_reinit_file name ring_count slot_count slot_size total
      else
        let* busy := l_peer_in_use peer_is_producer in
        if busy : bool then ffail (name ++ " peer (gateway) alive with fresh heartbeat")
        else l_reinit_file name ring_count slot_count slot_size total
  else
    l_shm_open_existing name ;*
    let* valid := l_validate_file ring_count slot_count slot_size total in
    if valid : bool then fret tt else ffail (name ++ " header mismatch").

Definition l_lock_region_pages : F unit :=
  let* mf := fget in
  let* r := fsys (sys_mlock (base mf) (bytes mf)) in
  match r with Some _ => fret tt | None => fret tt end.   (* logged, not thrown *)

(** ** The object *)

Definition l_map_all (creator_side : bool) (r : Region) (pr : proc K) : result unit * Region * proc K :=
  let p := p_ r in
  match l_map_file creator_side (shm_name_of p "_req") (u32 (p_workers p)) ReqRing_kSlotCount
          kReqSlotSize (req_total_bytes p) true (req_ r) pr with
  | (Err x, q, pr) => (Err x, mkRegion p q (rsp_ r), pr)
  | (Ok _, q, pr) =>
      match l_map_file creator_side (shm_name_of p "_rsp") 1 RspRing_kSlotCount kRspSlotSize
              rsp_total_bytes false (rsp_ r) pr with
      | (Err x, s, pr) => (Err x, mkRegion p q s, pr)
      | (Ok _, s, pr) =>
          if lock_pages p then
            let '(_, q, pr) := l_lock_region_pages q pr in
            let '(_, s, pr) := l_lock_region_pages s pr in
            (Ok tt, mkRegion p q s, pr)
          else (Ok tt, mkRegion p q s, pr)
      end
  end.

Definition unmap_one (mf : MappedFile) (pr : proc K) : MappedFile * proc K :=
  if negb (base mf =? 0)
  then (mkMapped (fd mf) 0 (bytes mf) (shm_name mf), do_munmap (base mf) (bytes mf) pr)
  else (mf, pr).
Definition close_one (mf : MappedFile) (pr : proc K) : MappedFile * proc K :=
  if 0 <=? fd mf
  then (mkMapped (-1) (base mf) (bytes mf) (shm_name mf), do_close (fd mf) pr)
  else (mf, pr).

Definition unmap_all (r : Region) (pr : proc K) : Region * proc K :=
  let '(q, pr) := unmap_one (req_ r) pr in
  let '(s, pr) := unmap_one (rsp_ r) pr in
  let '(q, pr) := close_one q pr in
  let '(s, pr) := close_one s pr in
  (mkRegion (p_ r) q s, pr).

(** [create_or_recover], and one attempt of [open]: when [map_all] throws, the
    local object is destroyed. *)
Definition make (creator_side : bool) (p : Params) (pr : proc K) : result Region * proc K :=
  match l_map_all creator_side (mkRegion p MappedFile0 MappedFile0) pr with
  | (Ok _, r, pr) => (Ok r, pr)
  | (Err x, r, pr) => (Err x, snd (unmap_all r pr))
  end.

(** [open]: [sleep] passes 100 ms. *)
Fixpoint open_attempts (sleep : K -> K) (fuel : nat) (p : Params) (deadline : Z) (pr : proc K)
  : option (result Region) * proc K :=
  match fuel with
  | O => (None, pr)
  | S fuel =>
      match make false p pr with
      | (Ok r, pr) => (Some (Ok r), pr)
      | (Err _, pr) =>
          let '(now, k) := steady_now (pr_k pr) in
          let pr := mkProc k (pr_stray pr) in
          if deadline <=? now then (Some (fail "open timeout"), pr)
          else open_attempts sleep fuel p deadline (mkProc (sleep (pr_k pr)) (pr_stray pr))
      end
  end.
Definition open (sleep : K -> K) (fuel : nat) (p : Params) (pr : proc K)
  : option (result Region) * proc K :=
  let '(now, k) := steady_now (pr_k pr) in
  open_attempts sleep fuel p (now + open_timeout p * 10 ^ 6) (mkProc k (pr_stray pr)).

(** The new object and what is left of the old one. *)
Definition move_ctor (o : Region) : Region * Region :=
  (mkRegion (p_ o) (req_ o) (rsp_ o), mkRegion (p_ o) MappedFile0 MappedFile0).
(** [operator=] of two different objects. *)
Definition move_assign (self o : Region) (pr : proc K) : Region * Region * proc K :=
  let '(self, pr) := unmap_all self pr in
  (mkRegion (p_ o) (req_ o) (rsp_ o), mkRegion (p_ o) MappedFile0 MappedFile0, pr).

(** ** A program that uses regions *)

Inductive oop : Type :=
| OMake (creator_side : bool) (p : Params)
| OMove (i : nat)          (* ShmRegion n(std::move(o_i)) *)
| OAssign (i j : nat)      (* o_i = std::move(o_j), also with i = j *)
| ODestroy (i : nat).

(** Object [i], unless it is gone. *)
Definition live (objs : list (option Region)) (i : nat) : option Region := mjoin (objs !! i).

Definition ostep (o : oop) (s : list (option Region) * proc K) : option (list (option Region) * proc K) :=
  let '(objs, pr) := s in
  match o with
  | OMake side p =>
      match make side p pr with
      | (Ok r, pr) => Some (objs ++ [Some r], pr)
      | (Err _, pr) => Some (objs, pr)
      end
  | OMove i =>
      match live objs i with
      | Some r => let '(n, r) := move_ctor r in Some (<[i := Some r]> objs ++ [Some n], pr)
      | None => None
      end
  | OAssign i j =>
      match live objs i, live objs j with
      | Some a, Some b =>
          if decide (i = j) then Some (objs, pr)
          else let '(a, b, pr) := move_assign a b pr in Some (<[j := Some b]> (<[i := Some a]> objs), pr)
      | _, _ => None
      end
  | ODestroy i =>
      match live objs i with
      | Some r => let '(_, pr) := unmap_all r pr in Some (<[i := None]> objs, pr)
      | None => None
      end
  end.
Fixpoint oruns (os : list oop) (s : list (option Region) * proc K) : option (list (option Region) * proc K) :=
  match os with
  | [] => Some s
  | o :: os => match ostep o s with Some s => oruns os s | None => None end
  end.

End Region.

(** ** What the operating system promises *)

Section Laws.
Context (K : Type) `{!Kernel K}.

(** A call that neither opens nor closes, maps nor unmaps. *)
Definition quiet (ok : K -> Prop) (k k' : K) : Prop :=
  ok k' /\ k_fds k' ≡ₚ k_fds k /\ k_maps k' ≡ₚ k_maps k.

Class KernelLaws : Type := {
  k_ok : K -> Prop;
  (** Mappings do not overlap. *)
  law_apart k a n l : k_ok k -> k_maps k ≡ₚ (a, n) :: l -> Forall (apart (a, n)) l;
  law_open name ex k : k_ok k ->
    let '(r, k') := sys_shm_open name ex k in
    match r with
    | inl f => 0 <= f /\ k_ok k' /\ k_fds k' ≡ₚ f :: k_fds k /\ k_maps k' ≡ₚ k_maps k
    | inr _ => quiet k_ok k k'
    end;
  law_mmap f n k : k_ok k ->
    let '(r, k') := sys_mmap f n k in
    match r with
    | inl a => 0 < a /\ 0 < n /\ k_ok k' /\ k_fds k' ≡ₚ k_fds k /\ k_maps k' ≡ₚ (a, n) :: k_maps k
    | inr _ => quiet k_ok k k'
    end;
  law_munmap a n k : k_ok k ->
    let k' := sys_munmap a n k in
    k_ok k' /\ k_fds k' ≡ₚ k_fds k
    /\ (forall l, k_maps k ≡ₚ (a, n) :: l -> k_maps k' ≡ₚ l)
    /\ (Forall (apart (a, n)) (k_maps k) -> k_maps k' ≡ₚ k_maps k);
  law_close f k : k_ok k ->
    let k' := sys_close f k in
    k_ok k' /\ k_maps k' ≡ₚ k_maps k /\ forall l, k_fds k ≡ₚ f :: l -> k_fds k' ≡ₚ l;
  law_ftruncate f n k : k_ok k -> quiet k_ok k (snd (sys_ftruncate f n k));
  law_fstat f k : k_ok k -> quiet k_ok k (snd (sys_fstat f k));
  law_flock f k : k_ok k -> quiet k_ok k (snd (sys_flock f k));
  law_unlink name k : k_ok k -> quiet k_ok k (sys_shm_unlink name k);
  law_mlock a n k : k_ok k -> quiet k_ok k (snd (sys_mlock a n k));
  law_kill pid k : k_ok k -> quiet k_ok k (snd (sys_kill pid k));
  law_now k : k_ok k -> quiet k_ok k (snd (steady_now k));
  law_load a k : k_ok k -> quiet k_ok k (snd (mem_load a k));
  law_store a h rs k : k_ok k -> quiet k_ok k (snd (mem_store a h rs k))
}.
End Laws.
Arguments k_ok {K _ _}.
Arguments quiet {K _}.

(** ** Ownership *)

Definition fds_of (mf : MappedFile) : list Z := if 0 <=? fd mf then [fd mf] else [].
Definition maps_of (mf : MappedFile) : list (Z * Z) :=
  if base mf =? 0 then [] else [(base mf, bytes mf)].

Section Ownership.
Context {K : Type} `{!Kernel K, !KernelLaws K}.

(** The process has the descriptors [fs] and the mappings [ms], and [s] stray
    calls behind it. *)
Definition has (fs : list Z) (ms : list (Z * Z)) (s : nat) (pr : proc K) : Prop :=
  k_ok (pr_k pr) /\ k_fds (pr_k pr) ≡ₚ fs /\ k_maps (pr_k pr) ≡ₚ ms /\ pr_stray pr = s.

#[global] Instance has_proper :
  Proper ((≡ₚ) ==> (≡ₚ) ==> eq ==> eq ==> iff) has.
Proof. intros fs fs' Hf ms ms' Hm s ? <- pr ? <-. unfold has. by rewrite Hf, Hm. Qed.
Lemma has_perm fs fs' ms ms' s pr :
  has fs ms s pr -> fs ≡ₚ fs' -> ms ≡ₚ ms' -> has fs' ms' s pr.
Proof. by intros H <- <-. Qed.

Lemma quiet_has fs ms s pr k :
  has fs ms s pr -> quiet k_ok (pr_k pr) k -> has fs ms s (mkProc k (pr_stray pr)).
Proof. intros (H1 & H2 & H3 & H4) (Q1 & Q2 & Q3). unfold has. cbn. by rewrite Q2, Q3. Qed.

Lemma close_has f fs ms s pr : has (f :: fs) ms s pr -> has fs ms s (do_close f pr).
Proof.
  intros (H1 & H2 & H3 & H4). destruct (law_close K f _ H1) as (Q1 & Q2 & Q3).
  split; [done|]. cbn. rewrite Q2. split; [by apply Q3|]. split; [done|].
  rewrite bool_decide_eq_true_2; [done|]. rewrite H2. by left.
Qed.

Lemma munmap_has a n fs ms s pr : has fs ((a, n) :: ms) s pr -> has fs ms s (do_munmap a n pr).
Proof.
  intros (H1 & H2 & H3 & H4). destruct (law_munmap K a n _ H1) as (Q1 & Q2 & Q3 & _).
  split; [done|]. cbn. rewrite Q2. split; [done|]. split; [by apply Q3|].
  rewrite bool_decide_eq_true_2; [done|]. rewrite H3. by left.
Qed.

(** Unmapping what is not mapped any more. *)
Lemma munmap_stray a n fs ms s pr :
  has fs ms s pr -> Forall (apart (a, n)) ms -> 0 < n -> has fs ms (S s) (do_munmap a n pr).
Proof.
  intros (H1 & H2 & H3 & H4) Ha Hn. destruct (law_munmap K a n _ H1) as (Q1 & Q2 & _ & Q3).
  split; [done|]. cbn. rewrite Q2, Q3 by (by rewrite H3). split; [done|]. split; [done|].
  rewrite bool_decide_eq_false_2; [by f_equal|]. rewrite H3. intros Hin.
  rewrite Forall_forall in Ha. specialize (Ha _ Hin). unfold apart in Ha. cbn in Ha. lia.
Qed.

Lemma touch_has a n len fs ms s pr :
  has fs ms s pr -> (a, n) ∈ ms -> len <= n -> has fs ms s (touch a len pr).
Proof.
  intros (H1 & H2 & H3 & H4) Hin Hl. repeat (split; [done|]). cbn. case_match eqn:E; [done|].
  exfalso. apply not_true_iff_false in E. apply E, existsb_exists. exists (a, n). split.
  - apply list_elem_of_In. by rewrite H3.
  - cbn. blia.
Qed.

(** ** Programs on one file *)

Definition wp {X} (m : F X) (Q : X -> MappedFile -> proc K -> Prop) (E : MappedFile -> proc K -> Prop)
    (mf : MappedFile) (pr : proc K) : Prop :=
  match m mf pr with
  | (Ok x, mf, pr) => Q x mf pr
  | (Err _, mf, pr) => E mf pr
  end.

Lemma wp_seq {X Y} (m : F X) (k : X -> F Y) Q E mf pr :
  wp m (fun x => wp (k x) Q E) E mf pr -> wp (fbind m k) Q E mf pr.
Proof. unfold wp, fbind. by destruct (m mf pr) as [[[x|e] mf'] pr']. Qed.
Lemma wp_weaken {X} (m : F X) (Q Q' : X -> MappedFile -> proc K -> Prop) (E E' : MappedFile -> proc K -> Prop) mf pr :
  wp m Q E mf pr -> (forall x mf pr, Q x mf pr -> Q' x mf pr) -> (forall mf pr, E mf pr -> E' mf pr) ->
  wp m Q' E' mf pr.
Proof. unfold wp. destruct (m mf pr) as [[[x|e] mf'] pr']; auto. Qed.

Lemma wp_mmap f n Q E fs ms s mf pr :
  has fs ms s pr ->
  (forall a pr', 0 < a -> 0 < n -> has fs ((a, n) :: ms) s pr' -> Q a mf pr') ->
  (forall pr', has fs ms s pr' -> E mf pr') ->
  wp (l_do_mmap f n) Q E mf pr.
Proof.
  intros Hh HQ HE. pose proof Hh as (H1 & H2 & H3 & H4). unfold l_do_mmap. apply wp_seq. unfold wp at 1, fsys.
  pose proof (law_mmap K f n _ H1) as Hl. destruct (sys_mmap f n (pr_k pr)) as [[a|e] k'].
  - destruct Hl as (Ha & Hn & Q1 & Q2 & Q3). apply HQ; [done..|]. unfold has. cbn. by rewrite Q2, Q3, H2, H3.
  - apply HE. by eapply quiet_has.
Qed.

Lemma wp_open name ex Q E fs ms s mf pr :
  has fs ms s pr ->
  (forall f pr', 0 <= f -> has (f :: fs) ms s pr' -> Q (inl f) mf pr') ->
  (forall e pr', has fs ms s pr' -> Q (inr e) mf pr') ->
  wp (fsys (sys_shm_open name ex)) Q E mf pr.
Proof.
  intros Hh HQ HE. pose proof Hh as (H1 & H2 & H3 & H4). unfold wp, fsys.
  pose proof (law_open K name ex _ H1) as Hl. destruct (sys_shm_open name ex (pr_k pr)) as [[f|e] k'].
  - destruct Hl as (Hf & Q1 & Q2 & Q3). apply HQ; [done..|]. unfold has. cbn. by rewrite Q2, Q3, H2, H3.
  - apply HE. by eapply quiet_has.
Qed.

Lemma wp_quiet {X} (c : K -> X * K) Q E fs ms s mf pr :
  (forall k, k_ok k -> quiet k_ok k (snd (c k))) -> has fs ms s pr ->
  (forall x pr', has fs ms s pr' -> Q x mf pr') -> wp (fsys c) Q E mf pr.
Proof. intros Hc Hh HQ. unfold wp, fsys. apply HQ. eapply quiet_has; [done|]. apply Hc, Hh. Qed.

Section File.
Context (fs : list Z) (ms : list (Z * Z)) (s : nat).

(** The object holds exactly what the process has beyond [fs] and [ms]. *)
Definition owns (mf : MappedFile) (pr : proc K) : Prop := has (fds_of mf ++ fs) (maps_of mf ++ ms) s pr.
(** Its mapping is gone, its [base] still set. *)
Definition dangles (mf : MappedFile) (pr : proc K) : Prop :=
  has (fds_of mf ++ fs) ms s pr /\ 0 < base mf /\ 0 < bytes mf /\ Forall (apart (base mf, bytes mf)) ms.
Definition thrown (creator_side : bool) (mf : MappedFile) (pr : proc K) : Prop :=
  owns mf pr \/ creator_side = true /\ dangles mf pr.

Definition mapped (mf : MappedFile) : Prop := 0 <= fd mf /\ 0 < base mf /\ 0 < bytes mf.
Lemma mapped_has mf pr :
  mapped mf -> owns mf pr <-> has (fd mf :: fs) ((base mf, bytes mf) :: ms) s pr.
Proof.
  intros (Hf & Hb & _). unfold owns, fds_of, maps_of.
  destruct (Z.leb_spec 0 (fd mf)); [|lia]. destruct (Z.eqb_spec (base mf) 0); [lia|]. done.
Qed.

(** Programs that leave the object and what it holds alone. *)
Definition keeps {X} (mf : MappedFile) (m : F X) : Prop :=
  forall pr, owns mf pr ->
    wp m (fun _ mf' pr' => mf' = mf /\ owns mf pr') (fun mf' pr' => mf' = mf /\ owns mf pr') mf pr.

Lemma keeps_ret {X} mf (x : X) : keeps mf (fret x).
Proof. by intros pr H. Qed.
Lemma keeps_fail {X} mf msg : keeps mf (ffail (X := X) msg).
Proof. by intros pr H. Qed.
Lemma keeps_seq {X Y} mf (m : F X) (k : X -> F Y) :
  keeps mf m -> (forall x, keeps mf (k x)) -> keeps mf (fbind m k).
Proof.
  intros Hm Hk pr H. apply wp_seq. eapply wp_weaken; [apply (Hm pr H) | |done].
  intros x mf' pr' [-> H']. by apply Hk.
Qed.
Lemma keeps_get {Y} mf (k : MappedFile -> F Y) : keeps mf (k mf) -> keeps mf (fbind fget k).
Proof. intros Hk pr H. by apply Hk. Qed.
Lemma keeps_sys {X} mf (c : K -> X * K) :
  (forall k, k_ok k -> quiet k_ok k (snd (c k))) -> keeps mf (fsys c).
Proof. intros Hc pr H. eapply wp_quiet; [done | exact H |]. by intros. Qed.
Lemma keeps_touch mf len : mapped mf -> len <= bytes mf -> keeps mf (fdo (touch (base mf) len)).
Proof.
  intros Hm Hl pr H. split; [done|]. eapply touch_has; [exact H | | done].
  destruct Hm as (_ & Hb & _). unfold maps_of. destruct (Z.eqb_spec (base mf) 0); [lia|]. by left.
Qed.

End File.
Create HintDb keeps.
#[local] Hint Resolve keeps_ret keeps_fail keeps_get keeps_sys : keeps.
#[local] Hint Resolve law_ftruncate law_fstat law_flock law_unlink law_mlock law_kill law_now law_load law_store : keeps.

(** Steps through a program of quiet calls. *)
Ltac keep :=
  repeat match goal with
    | |- keeps _ _ _ _ (fbind fget _) => apply keeps_get
    | |- keeps _ _ _ _ (fbind _ _) => apply keeps_seq; [|intros ?]
    | |- keeps _ _ _ _ (match ?x with _ => _ end) => destruct x
    | |- keeps _ _ _ _ (fdo _) => apply keeps_touch; [done | unfold sizeof_ShmFileHeader, sizeof_RingHeader in *; lia]
    | |- keeps _ _ _ _ _ => solve [auto with keeps]
    end.

Section Quiet.
Context (fs : list Z) (ms : list (Z * Z)) (s : nat) (mf : MappedFile) (n cnt sz total : Z).
Hypothesis Hm : mapped mf.
Hypothesis Hn : 0 < n.
Hypothesis Htotal : sizeof_ShmFileHeader + n * sizeof_RingHeader <= total.

Lemma keeps_lock name : keeps fs ms s mf (l_lock_file_exclusive name).
Proof using. unfold l_lock_file_exclusive. keep. Qed.
Lemma keeps_mlock : keeps fs ms s mf l_lock_region_pages.
Proof using. unfold l_lock_region_pages. keep. Qed.
Lemma keeps_validate : keeps fs ms s mf (l_validate_file n cnt sz total).
Proof using Hm Hn Htotal.
  unfold l_validate_file. apply keeps_get. destruct (Z.eqb_spec (bytes mf) total); cbn [negb]; keep.
Qed.

Hypothesis Hb : bytes mf = total.
Lemma keeps_write : keeps fs ms s mf (l_write_headers n cnt sz total).
Proof using Hm Hn Htotal Hb. unfold l_write_headers. keep. Qed.
Lemma keeps_reinit name : keeps fs ms s mf (l_reinit_file name n cnt sz total).
Proof using Hm Hn Htotal Hb. pose proof keeps_write. unfold l_reinit_file. keep. Qed.
Lemma keeps_peer pp : keeps fs ms s mf (l_peer_in_use pp).
Proof using Hm Hn Htotal Hb.
  assert (keeps fs ms s mf l_ring0) by (unfold l_ring0; keep).
  assert (forall pid, keeps fs ms s mf (l_pid_alive pid)) by (intros; unfold l_pid_alive; keep).
  unfold l_peer_in_use. keep.
Qed.
End Quiet.

Section MapFile.
Context (fs : list Z) (ms : list (Z * Z)) (s : nat).

Lemma owns_nothing pr : owns fs ms s MappedFile0 pr <-> has fs ms s pr.
Proof. done. Qed.

(** A file that was just opened and is to be mapped. *)
Lemma wp_map_opened {X} f n name (side : bool) (k : F X) Q pr :
  0 <= f -> has (f :: fs) ms s pr ->
  (forall mf pr', mapped mf -> bytes mf = n -> owns fs ms s mf pr' -> wp k Q (thrown fs ms s side) mf pr') ->
  wp (fbind (l_do_mmap f n) (fun a => fbind (fput (mkMapped f a n name)) (fun _ => k))) Q
     (thrown fs ms s side) (mkMapped f 0 n name) pr.
Proof.
  intros Hf Hh HQ. apply wp_seq. eapply wp_mmap; [exact Hh | |].
  - intros a pr' Ha Hn Hh'. apply HQ; [by split | done |]. by apply mapped_has; [split|].
  - intros pr' Hh'. left. unfold owns, fds_of. cbn [fd]. by destruct (Z.leb_spec 0 f); [|lia].
Qed.

Lemma wp_open_existing name side Q pr :
  has fs ms s pr ->
  (forall mf pr', mapped mf -> owns fs ms s mf pr' -> Q tt mf pr') ->
  wp (l_shm_open_existing name) Q (thrown fs ms s side) MappedFile0 pr.
Proof.
  intros Hh HQ. unfold l_shm_open_existing. apply wp_seq. eapply wp_open; [exact Hh | |].
  - intros f pr1 Hf H1. apply wp_seq. eapply wp_quiet; [auto with keeps | exact H1 |].
    intros [n|e] pr2 H2.
    + apply (wp_map_opened f n name side (fret tt)); [done..|]. intros. by apply HQ.
    + left. by apply owns_nothing, close_has.
  - intros e pr1 H1. by left.
Qed.

Lemma wp_create name total side Q pr :
  has fs ms s pr ->
  (forall mf pr', mapped mf -> bytes mf = total -> owns fs ms s mf pr' -> Q true mf pr') ->
  (forall pr', has fs ms s pr' -> Q false MappedFile0 pr') ->
  wp (l_shm_create name total) Q (thrown fs ms s side) MappedFile0 pr.
Proof.
  intros Hh HQ HQ'. unfold l_shm_create. apply wp_seq. eapply wp_open; [exact Hh | |].
  - intros f pr1 Hf H1. apply wp_seq. eapply wp_quiet; [auto with keeps | exact H1 |].
    intros [e|] pr2 H2.
    + left. apply owns_nothing. apply close_has in H2. eapply quiet_has; [exact H2|].
      apply law_unlink, H2.
    + apply (wp_map_opened f total name side (fret true)); [done..|]. intros. by apply HQ.
  - intros e pr1 H1. destruct (e =? EEXIST); [by apply HQ' | by left].
Qed.

Lemma wp_remap total Q mf pr :
  mapped mf -> owns fs ms s mf pr ->
  (forall mf pr', mapped mf -> bytes mf = total -> owns fs ms s mf pr' -> Q tt mf pr') ->
  wp (l_remap total) Q (thrown fs ms s true) mf pr.
Proof.
  intros Hm Ho HQ. pose proof Hm as (Hf & Hba & Hby). unfold l_remap.
  change (wp (if bytes mf =? total then fret tt
              else fbind (fdo (do_munmap (base mf) (bytes mf)))
                     (fun _ => fbind (l_do_mmap (fd mf) total)
                        (fun a => fput (mkMapped (fd mf) a total (shm_name mf)))))
            Q (thrown fs ms s true) mf pr).
  destruct (Z.eqb_spec (bytes mf) total); [by apply HQ|].
  apply (mapped_has fs ms s) in Ho; [|done].
  assert (Forall (apart (base mf, bytes mf)) ms) by (eapply law_apart; apply Ho).
  apply wp_seq. apply munmap_has in Ho. apply wp_seq. eapply wp_mmap; [exact Ho | |].
  - intros a pr' Ha Hn Hh'. apply HQ; [by split | done |]. by apply mapped_has; [split|].
  - intros pr' Hh'. right. split; [done|]. split; [|done]. unfold fds_of.
    by destruct (Z.leb_spec 0 (fd mf)); [|lia].
Qed.

Lemma keeps_thrown {X} mf (m : F X) side Q pr :
  keeps fs ms s mf m -> owns fs ms s mf pr ->
  (forall x pr', owns fs ms s mf pr' -> Q x mf pr') -> wp m Q (thrown fs ms s side) mf pr.
Proof.
  intros Hk Ho HQ. eapply wp_weaken; [by apply Hk | |].
  - intros x mf' pr' [-> H]. by apply HQ.
  - intros mf' pr' [-> H]. by left.
Qed.

Lemma wp_validate n cnt sz total side Q mf pr :
  mapped mf -> 0 < n -> sizeof_ShmFileHeader + n * sizeof_RingHeader <= total -> owns fs ms s mf pr ->
  (forall valid pr', owns fs ms s mf pr' -> (valid = true -> bytes mf = total) -> Q valid mf pr') ->
  wp (l_validate_file n cnt sz total) Q (thrown fs ms s side) mf pr.
Proof.
  intros Hm Hn Ht Ho HQ. pose proof (keeps_validate fs ms s mf n cnt sz total Hm Hn Ht pr Ho) as H.
  revert H. unfold wp, l_validate_file, fbind, fget. destruct (Z.eqb_spec (bytes mf) total); cbn;
    intros [_ H]; by apply HQ.
Qed.

(** All ways through one file of [map_all]. *)
Lemma wp_map_file side name n cnt sz total pp pr :
  0 < n -> sizeof_ShmFileHeader + n * sizeof_RingHeader <= total -> has fs ms s pr ->
  wp (l_map_file side name n cnt sz total pp)
     (fun _ mf pr' => mapped mf /\ bytes mf = total /\ owns fs ms s mf pr')
     (thrown fs ms s side) MappedFile0 pr.
Proof.
  intros Hn Ht Hh. unfold l_map_file. destruct side.
  - apply wp_seq. apply wp_create; [done | |].
    + intros mf pr1 Hm Hb Ho. apply wp_seq. apply wp_seq.
      eapply keeps_thrown; [apply keeps_lock | exact Ho |]. intros _ pr2 H2.
      eapply keeps_thrown; [by apply keeps_write | exact H2 |]. by intros.
    + intros pr1 H1. apply wp_seq. apply wp_open_existing; [done|]. intros mf pr2 Hm H2.
      apply wp_seq. eapply keeps_thrown; [apply keeps_lock | exact H2 |]. intros _ pr3 H3.
      apply wp_seq. apply wp_validate; [done..|]. intros [] pr4 H4 Hv; cbn [negb].
      * specialize (Hv eq_refl).
        apply wp_seq. eapply keeps_thrown; [by apply (keeps_peer _ _ _ _ n total) | exact H4 |].
        intros [] pr5 H5; [by left|].
        eapply keeps_thrown; [by apply keeps_reinit | exact H5 |]. by intros.
      * apply wp_seq. apply wp_remap; [done..|]. intros mf' pr5 Hm' Hb' H5.
        eapply keeps_thrown; [by apply keeps_reinit | exact H5 |]. by intros.
  - apply wp_seq. apply wp_open_existing; [done|]. intros mf pr2 Hm H2.
    apply wp_seq. apply wp_validate; [done..|]. intros [] pr3 H3 Hv; [|by left]. exact (conj Hm (conj (Hv eq_refl) H3)).
Qed.
End MapFile.

(** ** Whole objects *)

Definition held_fds (r : Region) : list Z := fds_of (req_ r) ++ fds_of (rsp_ r).
Definition held_maps (r : Region) : list (Z * Z) := maps_of (req_ r) ++ maps_of (rsp_ r).

Lemma unmap_one_has mf fs ms s pr :
  has fs (maps_of mf ++ ms) s pr ->
  fds_of (fst (unmap_one mf pr)) = fds_of mf /\ has fs ms s (snd (unmap_one mf pr)).
Proof.
  unfold maps_of, unmap_one. destruct (Z.eqb_spec (base mf) 0); cbn [negb]; [done|].
  intros H. split; [done|]. by apply munmap_has.
Qed.
Lemma unmap_one_stray mf fs ms s pr :
  dangles fs ms s mf pr ->
  fds_of (fst (unmap_one mf pr)) = fds_of mf /\ has (fds_of mf ++ fs) ms (S s) (snd (unmap_one mf pr)).
Proof.
  intros (H & Hb & Hn & Ha). unfold unmap_one. destruct (Z.eqb_spec (base mf) 0); [lia|]; cbn [negb].
  split; [done|]. by apply munmap_stray.
Qed.
Lemma close_one_has mf fs ms s pr : has (fds_of mf ++ fs) ms s pr -> has fs ms s (snd (close_one mf pr)).
Proof. unfold fds_of, close_one. destruct (Z.leb_spec 0 (fd mf)); cbn [negb]; [|done]. apply close_has. Qed.

(** The destructor after both [munmap]s. *)
Lemma close_both q s' fs ms s pr :
  has (fds_of q ++ fds_of s' ++ fs) ms s pr ->
  has fs ms s (snd (close_one s' (snd (close_one q pr)))).
Proof. intros H. by apply close_one_has, close_one_has. Qed.

Lemma unmap_all_eq r pr :
  snd (unmap_all r pr)
  = let '(q, pr) := unmap_one (req_ r) pr in
    let '(s, pr) := unmap_one (rsp_ r) pr in snd (close_one s (snd (close_one q pr))).
Proof.
  unfold unmap_all. destruct (unmap_one (req_ r) pr) as [q pr1]. destruct (unmap_one (rsp_ r) pr1) as [s pr2].
  destruct (close_one q pr2) as [q' pr3]. cbn [snd]. by destruct (close_one s pr3).
Qed.

Lemma unmap_all_has r fs ms s pr :
  has (held_fds r ++ fs) (held_maps r ++ ms) s pr -> has fs ms s (snd (unmap_all r pr)).
Proof.
  intros H. rewrite unmap_all_eq. unfold held_fds, held_maps in H. rewrite <-!app_assoc in H.
  destruct (unmap_one_has _ _ _ _ _ H) as [E1 H1]. destruct (unmap_one (req_ r) pr) as [q pr1].
  destruct (unmap_one_has _ _ _ _ _ H1) as [E2 H2]. cbn [snd fst] in *.
  destruct (unmap_one (rsp_ r) pr1) as [s' pr2]. apply close_both. cbn in E1, E2, H2. by rewrite E1, E2.
Qed.

(** The request file dangles, the response file was not opened yet. *)
Lemma unmap_all_req_dangles p q fs ms s pr :
  dangles fs ms s q pr -> has fs ms (S s) (snd (unmap_all (mkRegion p q MappedFile0) pr)).
Proof.
  intros H. rewrite unmap_all_eq. cbn [req_ rsp_]. destruct (unmap_one_stray _ _ _ _ _ H) as [E1 H1].
  destruct (unmap_one q pr) as [q' pr1]. cbn [fst snd] in *. apply close_both. by rewrite E1.
Qed.
Lemma unmap_all_rsp_dangles p q q' fs ms s pr :
  dangles (fds_of q ++ fs) (maps_of q ++ ms) s q' pr ->
  has fs ms (S s) (snd (unmap_all (mkRegion p q q') pr)).
Proof.
  intros (H & Hb & Hn & Ha). rewrite unmap_all_eq. cbn [req_ rsp_].
  destruct (unmap_one_has _ _ _ _ _ H) as [E1 H1]. destruct (unmap_one q pr) as [q1 pr1]. cbn [fst snd] in *.
  apply Forall_app in Ha as [_ Ha].
  assert (dangles (fds_of q ++ fs) ms s q' pr1) as Hd by exact (conj H1 (conj Hb (conj Hn Ha))).
  destruct (unmap_one_stray _ _ _ _ _ Hd) as [E2 H2]. destruct (unmap_one q' pr1) as [q2 pr2]. cbn [fst snd] in *.
  apply close_both. rewrite E1, E2. eapply has_perm; [exact H2 | | done]. solve_Permutation.
Qed.

(** The range the configuration allows. *)
Definition params_ok (p : Params) : Prop := 0 < p_workers p < 2 ^ 16.

Lemma req_total_room p :
  params_ok p ->
  0 < u32 (p_workers p) /\ sizeof_ShmFileHeader + u32 (p_workers p) * sizeof_RingHeader <= req_total_bytes p.
Proof.
  intros Hp. unfold params_ok in Hp. rewrite u32_small by lia. split; [lia|]. unfold req_total_bytes.
  rewrite u32_small by lia. destruct (compute_file_layout_spec (p_workers p) kReqRegionBytes) as (_ & _ & E & _ & H);
    [lia | by vm_compute|]. cbn zeta in *. rewrite E.
  assert (0 <= kReqRegionBytes) by by vm_compute. unfold sizeof_ShmFileHeader, sizeof_RingHeader. nia.
Qed.

Lemma mlock_has mf fs ms s pr :
  has fs ms s pr -> exists pr', l_lock_region_pages mf pr = (Ok tt, mf, pr') /\ has fs ms s pr'.
Proof.
  intros H. unfold l_lock_region_pages, fbind, fget, fsys. eexists. split; [by destruct (fst _)|].
  eapply quiet_has; [exact H|]. apply law_mlock, H.
Qed.

Lemma make_has side p fs ms s pr :
  params_ok p -> has fs ms s pr ->
  match make side p pr with
  | (Ok r, pr') => mapped (req_ r) /\ mapped (rsp_ r) /\ has (held_fds r ++ fs) (held_maps r ++ ms) s pr'
  | (Err _, pr') => exists s', has fs ms s' pr' /\ (s <= s' <= S s)%nat /\ (side = false -> s' = s)
  end.
Proof.
  intros Hp Hh. destruct (req_total_room p Hp) as [Hn Ht]. unfold make, l_map_all. cbn [p_ req_ rsp_].
  pose proof (wp_map_file fs ms s side (shm_name_of p "_req") _ ReqRing_kSlotCount kReqSlotSize _ true pr Hn Ht Hh)
    as H1. unfold wp in H1.
  destruct (l_map_file side (shm_name_of p "_req") _ _ _ _ true MappedFile0 pr) as [[[[]|x] q] pr1].
  2: { destruct H1 as [H1|[-> H1]].
       - exists s. split; [|lia || done]. apply unmap_all_has. unfold held_fds, held_maps. cbn [req_ rsp_].
         rewrite <-!app_assoc. exact H1.
       - exists (S s). split; [by apply unmap_all_req_dangles|]. split; [lia | done]. }
  destruct H1 as (Hm1 & Hb1 & H1).
  pose proof (wp_map_file (fds_of q ++ fs) (maps_of q ++ ms) s side (shm_name_of p "_rsp") 1 RspRing_kSlotCount
    kRspSlotSize rsp_total_bytes false pr1 ltac:(lia) ltac:(by vm_compute) H1) as H2. unfold wp in H2.
  destruct (l_map_file side (shm_name_of p "_rsp") _ _ _ _ false MappedFile0 pr1) as [[[[]|x] q'] pr2].
  2: { destruct H2 as [H2|[-> H2]].
       - exists s. split; [|lia || done]. apply unmap_all_has. unfold held_fds, held_maps. cbn.
         eapply has_perm; [exact H2 | solve_Permutation..].
       - exists (S s). split; [by apply unmap_all_rsp_dangles|]. split; [lia | done]. }
  destruct H2 as (Hm2 & Hb2 & H2).
  assert (has (held_fds (mkRegion p q q') ++ fs) (held_maps (mkRegion p q q') ++ ms) s pr2) as H3.
  { eapply has_perm; [exact H2 | unfold held_fds, held_maps; cbn; solve_Permutation..]. }
  destruct (lock_pages p); [|done].
  destruct (mlock_has q _ _ _ pr2 H3) as (pr3 & -> & H4). destruct (mlock_has q' _ _ _ pr3 H4) as (pr4 & -> & H5).
  done.
Qed.

(** ** Programs *)

Definition all_of {X} (held : Region -> list X) (objs : list (option Region)) : list X :=
  mjoin ((fun o => from_option held [] o) <$> objs).

Lemma all_of_app {X} (held : Region -> list X) a b : all_of held (a ++ b) = all_of held a ++ all_of held b.
Proof. unfold all_of. by rewrite fmap_app, join_app. Qed.
Lemma all_of_one {X} (held : Region -> list X) r : all_of held [Some r] = held r.
Proof. unfold all_of. cbn. apply app_nil_r. Qed.
Lemma all_of_insert {X} (held : Region -> list X) objs i y :
  (i < length objs)%nat -> all_of held (<[i := y]> objs) ≡ₚ from_option held [] y ++ all_of held (<[i := None]> objs).
Proof.
  revert i. induction objs as [|o objs IH]; intros i Hi; [cbn in Hi; lia|]. destruct i as [|i].
  - unfold all_of. cbn. done.
  - cbn in Hi. specialize (IH i ltac:(lia)). unfold all_of in *. cbn. rewrite IH. solve_Permutation.
Qed.
Lemma live_lookup objs i r : live objs i = Some r -> objs !! i = Some (Some r) /\ (i < length objs)%nat.
Proof.
  unfold live. destruct (objs !! i) as [[x|]|] eqn:E; cbn; intros H; simplify_eq.
  split; [done|]. by eapply lookup_lt_Some.
Qed.
Lemma all_of_live {X} (held : Region -> list X) objs i r :
  live objs i = Some r -> all_of held objs ≡ₚ held r ++ all_of held (<[i := None]> objs).
Proof.
  intros [H Hl]%live_lookup. rewrite <-(list_insert_id objs i (Some r) H) at 1. by rewrite all_of_insert.
Qed.

Lemma all_of_assign {X} (held : Region -> list X) objs i j a b :
  i <> j -> (i < length objs)%nat -> (j < length objs)%nat ->
  all_of held (<[j := Some b]> (<[i := Some a]> objs))
  ≡ₚ held b ++ held a ++ all_of held (<[j := None]> (<[i := None]> objs)).
Proof.
  intros Hne Hi Hj. rewrite (all_of_insert _ _ j (Some b)) by (by rewrite length_insert). cbn [from_option].
  rewrite (list_insert_insert_ne objs j i), (all_of_insert _ _ i (Some a)) by (done || by rewrite length_insert).
  by rewrite (list_insert_insert_ne objs j i).
Qed.

Lemma all_of_gone {X} (held : Region -> list X) objs : Forall (eq None) objs -> all_of held objs = [].
Proof. by induction 1 as [|o l <- _ IH]. Qed.

(** An object is either a pair of mapped files or empty. *)
Definition whole (o : option Region) : Prop :=
  match o with
  | Some r => (mapped (req_ r) /\ mapped (rsp_ r)) \/ (req_ r = MappedFile0 /\ rsp_ r = MappedFile0)
  | None => True
  end.

Section Programs.
Context (fs : list Z) (ms : list (Z * Z)).

(** What the process has is what it had before and what its objects hold. *)
Definition accounted (s : nat) (x : list (option Region) * proc K) : Prop :=
  has (all_of held_fds (fst x) ++ fs) (all_of held_maps (fst x) ++ ms) s (snd x) /\ Forall whole (fst x).

(** Creations that fail while the program runs. *)
Definition failed_creation (o : oop) (x : list (option Region) * proc K) : nat :=
  match o with OMake true p => if is_ok (fst (make true p (snd x))) then 0 else 1 | _ => 0 end.
Fixpoint failed_creations (os : list oop) (x : list (option Region) * proc K) : nat :=
  match os with
  | [] => 0
  | o :: os => failed_creation o x
               + match ostep o x with Some y => failed_creations os y | None => 0 end
  end.
Definition op_ok (o : oop) : Prop := match o with OMake _ p => params_ok p | _ => True end.

Lemma make_accounted side p objs pr s x :
  params_ok p -> accounted s (objs, pr) -> ostep (OMake side p) (objs, pr) = Some x ->
  exists s', accounted s' x /\ (s <= s' <= s + failed_creation (OMake side p) (objs, pr))%nat.
Proof.
  intros Hp [Hh Hw]. cbn [ostep failed_creation fst snd] in *. pose proof (make_has side p _ _ _ _ Hp Hh) as H.
  destruct (make side p pr) as [[r|e] pr1] eqn:Em; intros [= <-].
  - destruct H as (H1 & H2 & H3). exists s. split; [|lia]. split.
    + cbn [fst snd]. rewrite !all_of_app, !all_of_one. eapply has_perm; [exact H3 | solve_Permutation..].
    + cbn. apply Forall_app. split; [done|]. apply Forall_singleton. by left.
  - destruct H as (s' & H & Hs & Hside). exists s'. split; [exact (conj H Hw)|]. destruct side; [rewrite Em; cbn; lia|].
    rewrite Hside by done. lia.
Qed.

Lemma moved_accounted i r objs pr s :
  live objs i = Some r -> accounted s (objs, pr) ->
  accounted s (<[i := Some (mkRegion (p_ r) MappedFile0 MappedFile0)]> objs
                 ++ [Some (mkRegion (p_ r) (req_ r) (rsp_ r))], pr).
Proof.
  intros Hl [Hh Hw]. destruct (live_lookup _ _ _ Hl) as [Hi Hlen]. split.
  - cbn [fst snd]. rewrite !all_of_app, !all_of_one, !(all_of_insert _ objs i (Some _)) by done.
    eapply has_perm; [exact Hh | |]; rewrite (all_of_live _ _ _ _ Hl); cbn; destruct r; solve_Permutation.
  - cbn. apply Forall_app. split.
    + apply Forall_insert; [done | by right].
    + apply Forall_singleton. rewrite Forall_lookup in Hw. by specialize (Hw _ _ Hi).
Qed.

Lemma destroy_accounted i r objs pr s :
  live objs i = Some r -> accounted s (objs, pr) -> accounted s (<[i := None]> objs, snd (unmap_all r pr)).
Proof.
  intros Hl [Hh Hw]. split; [|by apply Forall_insert]. cbn [fst snd]. apply unmap_all_has.
  eapply has_perm; [exact Hh | |]; rewrite (all_of_live _ _ _ _ Hl); solve_Permutation.
Qed.

Lemma assign_accounted i j a b objs pr s :
  i <> j -> live objs i = Some a -> live objs j = Some b -> accounted s (objs, pr) ->
  accounted s (<[j := Some (mkRegion (p_ b) MappedFile0 MappedFile0)]>
                 (<[i := Some (mkRegion (p_ b) (req_ b) (rsp_ b))]> objs), snd (unmap_all a pr)).
Proof.
  intros Hne Ha Hb H. pose proof H as [_ Hw0].
  apply (destroy_accounted i a) in H as [Hh Hw]; [|done]. cbn [fst snd] in *.
  destruct (live_lookup _ _ _ Ha) as [_ Hia]. destruct (live_lookup _ _ _ Hb) as [Hj Hjl].
  assert (Hb' : live (<[i := None]> objs) j = Some b) by (unfold live; by rewrite list_lookup_insert_ne, Hj).
  assert (Hwb : whole (Some b)).
  { rewrite Forall_lookup in Hw. apply (Hw j). by rewrite list_lookup_insert_ne, Hj. }
  split.
  - cbn [fst snd] in *.
    rewrite !all_of_assign by done.
    eapply has_perm; [exact Hh | |]; rewrite (all_of_live _ _ _ _ Hb'); cbn; destruct b; solve_Permutation.
  - cbn in *. apply Forall_insert; [|by right]. by apply Forall_insert.
Qed.

Lemma step_accounted o s x y :
  op_ok o -> accounted s x -> ostep o x = Some y ->
  exists s', accounted s' y /\ (s <= s' <= s + failed_creation o x)%nat.
Proof.
  destruct x as [objs pr]. intros Ho H E. destruct o as [side p|i|i j|i].
  - by eapply make_accounted.
  - exists s. split; [|cbn; lia]. cbn in E. destruct (live objs i) as [r|] eqn:El; [|done]. injection E as <-.
    by apply moved_accounted.
  - exists s. split; [|cbn; lia]. cbn in E. destruct (live objs i) as [a|] eqn:Ea; [|done].
    destruct (live objs j) as [b|] eqn:Eb; [|done]. destruct (decide (i = j)); [by injection E as <-|].
    unfold move_assign in E. pose proof (assign_accounted i j a b objs pr s) as Ha.
    destruct (unmap_all a pr) as [a' pr']. injection E as <-. by apply Ha.
  - exists s. split; [|cbn; lia]. cbn in E. destruct (live objs i) as [r|] eqn:El; [|done].
    pose proof (destroy_accounted i r objs pr s El H) as Hd. destruct (unmap_all r pr). by injection E as <-.
Qed.

Lemma runs_accounted os s x y :
  Forall op_ok os -> accounted s x -> oruns os x = Some y ->
  exists s', accounted s' y /\ (s <= s' <= s + failed_creations os x)%nat.
Proof.
  revert s x. induction os as [|o os IH]; intros s x Ho H E; cbn in E.
  - injection E as <-. exists s. split; [done | cbn; lia].
  - apply Forall_cons in Ho as [Ho Hos]. destruct (ostep o x) as [z|] eqn:Ez; [|done].
    destruct (step_accounted o s x z Ho H Ez) as (s1 & H1 & L1).
    destruct (IH s1 z Hos H1 E) as (s2 & H2 & L2). exists s2. split; [done|].
    cbn [failed_creations]. rewrite Ez. lia.
Qed.

(** [open], however often it retries. *)
Lemma open_has sleep fuel p s pr :
  params_ok p -> (forall k, k_ok k -> quiet k_ok k (sleep k)) -> has fs ms s pr ->
  match open sleep fuel p pr with
  | (Some (Ok r), pr') => mapped (req_ r) /\ mapped (rsp_ r) /\ has (held_fds r ++ fs) (held_maps r ++ ms) s pr'
  | (_, pr') => has fs ms s pr'
  end.
Proof.
  intros Hp Hs. unfold open. destruct (steady_now (pr_k pr)) as [now k] eqn:En. intros Hh.
  assert (has fs ms s (mkProc k (pr_stray pr))) as H1.
  { eapply quiet_has; [exact Hh|]. change k with (snd (now, k)). rewrite <-En. apply law_now, Hh. }
  clear Hh En. generalize (now + open_timeout p * 10 ^ 6) as dl. intros dl. revert H1.
  generalize (mkProc k (pr_stray pr)). clear k now pr. induction fuel as [|fuel IH]; intros pr Hh; [done|]. cbn.
  pose proof (make_has false p _ _ _ _ Hp Hh) as H. destruct (make false p pr) as [[r|e] pr1]; [done|].
  destruct H as (s' & H & _ & Hs'). rewrite (Hs' eq_refl) in H. clear s' Hs'.
  pose proof (law_now K (pr_k pr1) (proj1 H)) as Hq. destruct (steady_now (pr_k pr1)) as [now k].
  apply (quiet_has _ _ _ _ k) in H; [|done]. cbn [pr_k pr_stray].
  destruct (dl <=? now); [done|]. apply IH. eapply (quiet_has _ _ _ _ _ H), Hs, H.
Qed.

End Programs.

(** C28: over every program that creates, opens, moves, assigns and destroys
    regions, and whatever the system calls answer, the process has exactly the
    descriptors and mappings it had before and those its live objects hold,
    each object holding both files or nothing: nothing leaks on any error path.
    When all objects are gone, so is everything they opened.  A release of
    something the process does not have (a second munmap) happens at most once
    for each creation that fails and nowhere else, not in an attach, a move, an
    assignment or a destructor; [failed_remap_unmaps_twice] is such a creation. *)
Theorem regions_never_leak os pr0 objs pr :
  k_ok (pr_k pr0) -> Forall op_ok os -> oruns os ([], pr0) = Some (objs, pr) ->
  k_fds (pr_k pr) ≡ₚ all_of held_fds objs ++ k_fds (pr_k pr0)
  /\ k_maps (pr_k pr) ≡ₚ all_of held_maps objs ++ k_maps (pr_k pr0)
  /\ Forall whole objs
  /\ (Forall (eq None) objs -> k_fds (pr_k pr) ≡ₚ k_fds (pr_k pr0) /\ k_maps (pr_k pr) ≡ₚ k_maps (pr_k pr0))
  /\ (pr_stray pr0 <= pr_stray pr <= pr_stray pr0 + failed_creations os ([], pr0))%nat.
Proof.
  intros Hk Ho Hr.
  destruct (runs_accounted (k_fds (pr_k pr0)) (k_maps (pr_k pr0)) os (pr_stray pr0) ([], pr0) (objs, pr) Ho)
    as (s & ((_ & H2 & H3 & H4) & Hw) & Hs); [by repeat split | done |]. cbn [fst snd] in *.
  split; [done|]. split; [done|]. split; [done|]. split; [|lia].
  intros Hn. by rewrite !all_of_gone in * by done.
Qed.


End Ownership.

(** ** A kernel

    The files of ShmRegion.v, a table of descriptors and one of mappings, newest
    first; [dk_room] mappings can still be made. *)
Record Disk : Type := mkDisk {
  dk_fs : fs; dk_fds : list (Z * string); dk_maps : list (Z * (Z * string));
  dk_next_fd : Z; dk_next_addr : Z; dk_room : nat; dk_kill : Z -> option Z; dk_now : Z
}.

Fixpoint assoc {V} (k : Z) (l : list (Z * V)) : option V :=
  match l with
  | [] => None
  | (k', v) :: l => if k =? k' then Some v else assoc k l
  end.

Definition with_fs (d : fs) (D : Disk) : Disk :=
  mkDisk d (dk_fds D) (dk_maps D) (dk_next_fd D) (dk_next_addr D) (dk_room D) (dk_kill D) (dk_now D).
Definition with_maps (l : list (Z * (Z * string))) (D : Disk) : Disk :=
  mkDisk (dk_fs D) (dk_fds D) l (dk_next_fd D) (dk_next_addr D) (dk_room D) (dk_kill D) (dk_now D).
Definition new_fd (name : string) (D : Disk) : (Z + Z) * Disk :=
  (inl (dk_next_fd D),
   mkDisk (dk_fs D) ((dk_next_fd D, name) :: dk_fds D) (dk_maps D) (dk_next_fd D + 1) (dk_next_addr D)
     (dk_room D) (dk_kill D) (dk_now D)).

Definition ENOENT : Z := 2.
Definition EBADF : Z := 9.
Definition ENOMEM : Z := 12.

Definition disk_open (name : string) (excl : bool) (D : Disk) : (Z + Z) * Disk :=
  match dk_fs D !! name with
  | Some _ => if excl then (inr EEXIST, D) else new_fd name D
  | None => if excl then new_fd name (with_fs (<[name := zero_file 0]> (dk_fs D)) D) else (inr ENOENT, D)
  end.
(** The file behind a descriptor or an address. *)
Definition on_file (name : option string) (g : ShmFile -> ShmFile) (D : Disk) : Disk :=
  match name with
  | Some x => match dk_fs D !! x with Some f => with_fs (<[x := g f]> (dk_fs D)) D | None => D end
  | None => D
  end.
Definition file_at (name : option string) (D : Disk) : option ShmFile :=
  match name with Some x => dk_fs D !! x | None => None end.

Definition disk_mmap (f n : Z) (D : Disk) : (Z + Z) * Disk :=
  if n <=? 0 then (inr EINVAL, D)
  else match dk_room D, assoc f (dk_fds D) with
       | S room, Some name =>
           (inl (dk_next_addr D),
            mkDisk (dk_fs D) (dk_fds D) ((dk_next_addr D, (n, name)) :: dk_maps D) (dk_next_fd D)
              (dk_next_addr D + n) room (dk_kill D) (dk_now D))
       | O, _ => (inr ENOMEM, D)
       | _, None => (inr EBADF, D)
       end.

#[export] Instance apart_dec x y : Decision (apart x y).
Proof. unfold apart. apply _. Defined.
Definition range (x : Z * (Z * string)) : Z * Z := (fst x, fst (snd x)).

#[export] Instance disk_kernel : Kernel Disk := {|
  k_fds D := (dk_fds D).*1;
  k_maps D := range <$> dk_maps D;
  sys_shm_open := disk_open;
  sys_ftruncate f n D := (None, on_file (assoc f (dk_fds D)) (fun x => mkFile n (sf_hdr x) (sf_rings x)) D);
  sys_fstat f D :=
    (match file_at (assoc f (dk_fds D)) D with Some x => inl (sf_bytes x) | None => inr EBADF end, D);
  sys_flock f D := (None, D);
  sys_mmap := disk_mmap;
  sys_munmap a n D := with_maps (filter (fun x => apart (a, n) (range x)) (dk_maps D)) D;
  sys_close f D :=
    mkDisk (dk_fs D) (filter (fun x => fst x <> f) (dk_fds D)) (dk_maps D) (dk_next_fd D) (dk_next_addr D)
      (dk_room D) (dk_kill D) (dk_now D);
  sys_shm_unlink name D := with_fs (delete name (dk_fs D)) D;
  sys_mlock _ _ D := (None, D);
  sys_kill pid D := (dk_kill D pid, D);
  steady_now D := (dk_now D, D);
  mem_load a D :=
    (match file_at (snd <$> assoc a (dk_maps D)) D with
     | Some x => (sf_hdr x, sf_rings x)
     | None => (ShmFileHeader0, [])
     end, D);
  mem_store a h rs D := (tt, on_file (snd <$> assoc a (dk_maps D)) (fun x => mkFile (sf_bytes x) h rs) D)
|}.

(** ** It keeps the laws *)

Record disk_ok (D : Disk) : Prop := {
  do_fds : NoDup (dk_fds D).*1;
  do_fd x : x ∈ (dk_fds D).*1 -> 0 <= x < dk_next_fd D;
  do_next : 0 <= dk_next_fd D /\ 0 < dk_next_addr D;
  do_map x : x ∈ range <$> dk_maps D -> 0 < fst x /\ 0 < snd x /\ fst x + snd x <= dk_next_addr D;
  do_apart x l : range <$> dk_maps D ≡ₚ x :: l -> Forall (apart x) l
}.

Lemma disk_quiet D D' :
  disk_ok D -> dk_fds D' = dk_fds D -> dk_maps D' = dk_maps D ->
  dk_next_fd D' = dk_next_fd D -> dk_next_addr D' = dk_next_addr D -> quiet disk_ok D D'.
Proof.
  intros [] E1 E2 E3 E4. unfold quiet. cbn. rewrite E1, E2. split; [|done]. split; rewrite ?E1, ?E2, ?E3, ?E4; done.
Qed.
Lemma on_file_quiet D name g : disk_ok D -> quiet disk_ok D (on_file name g D).
Proof. intros H. unfold on_file. destruct name as [x|]; [destruct (dk_fs D !! x)|]; by apply disk_quiet. Qed.

Lemma disk_open_law name ex D : disk_ok D ->
  let '(r, D') := disk_open name ex D in
  match r with
  | inl f => 0 <= f /\ disk_ok D' /\ k_fds D' ≡ₚ f :: k_fds D /\ k_maps D' ≡ₚ k_maps D
  | inr _ => quiet disk_ok D D'
  end.
Proof.
  intros [H1 H2 H3 H4 H5]. assert (Hn : forall d, disk_ok (snd (new_fd name (with_fs d D)))).
  { intros d. split; cbn; try done; [| |lia].
    - constructor; [|done]. intros Hx. apply H2 in Hx. lia.
    - intros x [->|Hx]%elem_of_cons; [lia|]. apply H2 in Hx. lia. }
  unfold disk_open. destruct (dk_fs D !! name), ex; cbn.
  - by apply disk_quiet.
  - destruct D. split; [lia|]. split; [|done]. apply (Hn dk_fs0).
  - split; [lia|]. split; [|done]. apply Hn.
  - by apply disk_quiet.
Qed.

Lemma disk_mmap_law f n D : disk_ok D ->
  let '(r, D') := disk_mmap f n D in
  match r with
  | inl a => 0 < a /\ 0 < n /\ disk_ok D' /\ k_fds D' ≡ₚ k_fds D /\ k_maps D' ≡ₚ (a, n) :: k_maps D
  | inr _ => quiet disk_ok D D'
  end.
Proof.
  intros Hok. unfold disk_mmap. destruct (Z.leb_spec n 0); [by apply disk_quiet|].
  destruct (dk_room D) as [|room]; [by apply disk_quiet|].
  destruct (assoc f (dk_fds D)) as [name|]; [|by apply disk_quiet]. destruct Hok as [H1 H2 H3 H4 H5].
  split; [lia|]. split; [lia|]. split; [|done]. split; cbn; try done; [lia | |].
  - intros x [->|Hx]%elem_of_cons; cbn; [lia|]. apply H4 in Hx. lia.
  - unfold range at 1. cbn. set (y := (dk_next_addr D, n)) in *.
    assert (Hy : Forall (fun x => apart x y /\ apart y x) (range <$> dk_maps D)).
    { apply Forall_forall. intros x Hx%H4. unfold apart, y. cbn. lia. }
    intros x l HP. assert (x ∈ y :: (range <$> dk_maps D)) as Hin by (rewrite HP; by left).
    apply elem_of_cons in Hin as [->|Hin].
    + apply Permutation_cons_inv in HP. rewrite <-HP. eapply Forall_impl; [exact Hy|]. by intros ? [].
    + destruct (proj1 (elem_of_Permutation _ _) Hin) as [l' Hl].
      assert (l ≡ₚ y :: l') as ->. { apply (Permutation_cons_inv (a := x)). rewrite <-HP, Hl. by constructor. }
      constructor; [|by apply (H5 x)]. rewrite Forall_forall in Hy. by apply Hy.
Qed.

Lemma filter_through {A B} (g : A -> B) (P : B -> Prop) `{!forall x, Decision (P x)} (l : list A) :
  g <$> filter (fun x => P (g x)) l = filter P (g <$> l).
Proof.
  induction l as [|x l IH]; [done|]. rewrite fmap_cons, !filter_cons.
  destruct (decide (P (g x))); by rewrite ?fmap_cons, IH.
Qed.
Lemma filter_everything {A} (P : A -> Prop) `{!forall x, Decision (P x)} l : Forall P l -> filter P l = l.
Proof. induction 1 as [|x l Hx _ IH]; [done|]. by rewrite filter_cons_True, IH. Qed.

Lemma disk_munmap_law a n D : disk_ok D ->
  let D' := sys_munmap a n D in
  disk_ok D' /\ k_fds D' ≡ₚ k_fds D
  /\ (forall l, k_maps D ≡ₚ (a, n) :: l -> k_maps D' ≡ₚ l)
  /\ (Forall (apart (a, n)) (k_maps D) -> k_maps D' ≡ₚ k_maps D).
Proof.
  intros [H1 H2 H3 H4 H5]. cbn. rewrite filter_through. split; [|split; [done|]; split].
  - split; cbn; try done; rewrite filter_through.
    + intros x [_ Hx]%list_elem_of_filter. by apply H4.
    + intros x l HP. pose proof (filter_app_complement (apart (a, n)) (range <$> dk_maps D)) as Hc.
      rewrite HP in Hc. symmetry in Hc. apply H5 in Hc. by apply Forall_app in Hc as [? _].
  - intros l HP. pose proof (H5 _ _ HP) as Ha. rewrite HP.
    assert (0 < n). { apply (H4 (a, n)). rewrite HP. by left. }
    rewrite filter_cons_False by (unfold apart; cbn; lia). by rewrite filter_everything.
  - intros Ha. by rewrite filter_everything.
Qed.

Lemma disk_close_law f D : disk_ok D ->
  let D' := sys_close f D in
  disk_ok D' /\ k_maps D' ≡ₚ k_maps D /\ forall l, k_fds D ≡ₚ f :: l -> k_fds D' ≡ₚ l.
Proof.
  intros [H1 H2 H3 H4 H5]. cbn.
  pose proof (filter_through fst (fun x => x <> f) (dk_fds D)) as E.
  split; [|split; [done|]].
  - split; cbn; rewrite ?E; try done; [by apply NoDup_filter|]. intros x [_ Hx]%list_elem_of_filter. by apply H2.
  - intros l HP. rewrite E, HP. rewrite HP in H1. apply NoDup_cons in H1 as [Hnf _].
    rewrite filter_cons_False by tauto. rewrite filter_everything; [done|]. apply Forall_forall.
    by intros x Hx ->.
Qed.

#[export, refine] Instance disk_laws : KernelLaws Disk := {| k_ok := disk_ok |}.
Proof.
  - intros D a n l H. by apply do_apart.
  - intros. by apply disk_open_law.
  - intros. by apply disk_mmap_law.
  - intros. by apply disk_munmap_law.
  - intros. by apply disk_close_law.
  - intros. by apply on_file_quiet.
  - intros. by apply disk_quiet.
  - intros. by apply disk_quiet.
  - intros. by apply disk_quiet.
  - intros. by apply disk_quiet.
  - intros. by apply disk_quiet.
  - intros. by apply disk_quiet.
  - intros. by apply disk_quiet.
  - intros. by apply on_file_quiet.
Defined.

(** ** The calls and the files

    What a program on one file does to a [Disk]: its result and the files. *)
Definition outcome {X} (x : result X * MappedFile * proc Disk) : result X * fs :=
  let '(r, _, pr) := x in (r, dk_fs (pr_k pr)).

(** The object is a descriptor and a mapping of the file [f]. *)
Definition on_disk (name : string) (f : ShmFile) (mf : MappedFile) (D : Disk) : Prop :=
  dk_fs D !! name = Some f /\ assoc (fd mf) (dk_fds D) = Some name
  /\ assoc (base mf) (dk_maps D) = Some (bytes mf, name).

Section Disk.
Context (kill : Z -> option Z) (now : Z) (name : string) (n cnt sz total : Z).
#[local] Abbreviation e := (sys_ok kill now).

(** The parts of a disk that no call changes. *)
Definition same_env (D : Disk) : Prop := dk_kill D = kill /\ dk_now D = now.

Lemma disk_write f mf D s :
  on_disk name f mf D -> same_env D ->
  exists s', l_write_headers n cnt sz total mf (mkProc D s)
    = (Ok tt, mf, mkProc (with_fs (<[name := write_headers now n cnt sz total f]> (dk_fs D)) D) s').
Proof.
  intros (E1 & E2 & E3) [_ Hn]. unfold l_write_headers, fbind, fget, fsys, fdo, touch. cbn.
  rewrite E3. cbn. rewrite E1, Hn. by eexists.
Qed.

Lemma disk_reinit f mf D s :
  on_disk name f mf D -> same_env D ->
  exists s', l_reinit_file name n cnt sz total mf (mkProc D s)
    = (Ok tt, mf, mkProc (with_fs (snd (reinit_file e name f n cnt sz total (dk_fs D))) D) s').
Proof.
  intros (E1 & E2 & E3) He. unfold l_reinit_file, fbind, fget, fsys. cbn -[l_write_headers].
  rewrite E2. cbn -[l_write_headers]. rewrite E1.
  destruct (disk_write (mkFile total (sf_hdr f) (sf_rings f)) mf
    (with_fs (<[name := mkFile total (sf_hdr f) (sf_rings f)]> (dk_fs D)) D) s) as [s' ->].
  - split; [apply lookup_insert_eq|]. by split.
  - done.
  - exists s'. unfold with_fs. cbn [dk_fs dk_fds dk_maps dk_next_fd dk_next_addr dk_room dk_kill dk_now].
    do 3 f_equal. apply insert_insert_eq.
Qed.

Lemma disk_validate f mf D s :
  on_disk name f mf D -> bytes mf = sf_bytes f ->
  exists s', l_validate_file n cnt sz total mf (mkProc D s)
    = (Ok (validate_file f n cnt sz total), mf, mkProc D s').
Proof.
  intros (E1 & E2 & E3) Hb. unfold l_validate_file, fbind, fget, fsys, fdo, touch, fret.
  rewrite Hb. destruct (sf_bytes f =? total) eqn:Et; cbn -[validate_file].
  - rewrite E3. cbn -[validate_file]. rewrite E1. eexists. by destruct f.
  - unfold validate_file. rewrite Et. by eexists.
Qed.

Lemma disk_ring0 f mf D s :
  on_disk name f mf D ->
  exists s', l_ring0 mf (mkProc D s) = (Ok (hd RingHeader0 (sf_rings f)), mf, mkProc D s').
Proof.
  intros (E1 & E2 & E3). unfold l_ring0, fbind, fget, fsys, fdo, touch, fret. cbn.
  rewrite E3. cbn. rewrite E1. by eexists.
Qed.

Lemma disk_peer pp f mf D s :
  on_disk name f mf D -> same_env D ->
  exists s', l_peer_in_use pp mf (mkProc D s) = (Ok (peer_in_use e f pp), mf, mkProc D s').
Proof.
  intros H [Hk Hn]. unfold l_peer_in_use, fbind at 1.
  destruct (disk_ring0 f mf D s H) as [s1 ->]. unfold fbind at 1.
  assert (forall pid, l_pid_alive pid mf (mkProc D s1) = (Ok (pid_alive e pid), mf, mkProc D s1)) as ->.
  { intros pid. unfold l_pid_alive, pid_alive, fbind, fsys, fret. destruct (pid =? 0); [done|]. cbn. rewrite Hk.
    by destruct (kill pid). }
  unfold peer_in_use. destruct (sf_rings f) as [|h0 hs] eqn:Er; cbn [hd].
  - exists s1. by destruct pp.
  - destruct (pid_alive e _); cbn [negb]; [|by eexists]. unfold fbind at 1.
    destruct (disk_ring0 f mf D s1 H) as [s2 ->]. rewrite Er. cbn [hd]. exists s2. destruct (_ =? 0); [done|].
    unfold fbind, fsys, fret. cbn. by rewrite Hn.
Qed.
(** Some mappings later. *)
Definition later (D D' : Disk) (k : nat) : Prop :=
  dk_kill D' = dk_kill D /\ dk_now D' = dk_now D /\ (dk_room D <= dk_room D' + k)%nat.

Lemma disk_mmap_at f len D :
  0 < len -> (0 < dk_room D)%nat -> assoc f (dk_fds D) = Some name ->
  exists D', disk_mmap f len D = (inl (dk_next_addr D), D')
    /\ dk_fs D' = dk_fs D /\ dk_fds D' = dk_fds D
    /\ assoc (dk_next_addr D) (dk_maps D') = Some (len, name) /\ later D D' 1.
Proof.
  intros Hl Hr Hf. unfold disk_mmap. destruct (Z.leb_spec len 0); [lia|].
  destruct (dk_room D) as [|room] eqn:Er; [lia|]. rewrite Hf. eexists. split; [done|].
  split; [done|]. split; [done|]. split; [cbn; by rewrite Z.eqb_refl|]. split; [done|]. split; [done|]. cbn. lia.
Qed.

Lemma disk_open_existing D s :
  (forall f, dk_fs D !! name = Some f -> 0 <= sf_bytes f) -> (0 < dk_room D)%nat ->
  exists mf D' s', l_shm_open_existing name MappedFile0 (mkProc D s)
      = (match shm_open_existing e name (dk_fs D) with Ok _ => Ok tt | Err x => Err x end, mf, mkProc D' s')
    /\ dk_fs D' = dk_fs D /\ later D D' 1
    /\ forall f, shm_open_existing e name (dk_fs D) = Ok f -> on_disk name f mf D' /\ bytes mf = sf_bytes f.
Proof.
  intros Hpos Hroom. unfold l_shm_open_existing, shm_open_existing, fbind at 1, fsys. cbn. unfold disk_open.
  destruct (dk_fs D !! name) as [f|] eqn:Ef.
  2: { exists MappedFile0, D, s. split; [done|]. split; [done|]. split; [by repeat split; lia | done]. }
  specialize (Hpos f eq_refl). unfold fbind, fget, fput, fret, l_do_mmap, fbind, fsys, do_mmap. cbn.
  rewrite Z.eqb_refl. cbn. rewrite Ef.
  destruct (Z.eqb_spec (sf_bytes f) 0) as [Hz|Hz].
  - unfold disk_mmap. cbn. rewrite Hz. cbn. do 3 eexists. split; [done|]. split; [done|].
    split; [split; [done|]; split; [done | cbn; lia] | done].
  - destruct (disk_mmap_at (dk_next_fd D) (sf_bytes f) (snd (new_fd name D))) as (D' & E & E1 & E2 & E3 & E4);
      [lia | done | cbn; by rewrite Z.eqb_refl |].
    cbn in E. cbn [pr_k]. rewrite E. cbn. do 3 eexists. split; [done|]. split; [done|]. split; [done|].
    intros f' [= <-]. split; [|done]. split; [by rewrite E1|]. split; [rewrite E2; cbn; by rewrite Z.eqb_refl | done].
Qed.

Lemma disk_create D s :
  0 < total -> (0 < dk_room D)%nat ->
  match dk_fs D !! name with
  | Some _ => l_shm_create name total MappedFile0 (mkProc D s) = (Ok false, MappedFile0, mkProc D s)
  | None => exists mf D', l_shm_create name total MappedFile0 (mkProc D s) = (Ok true, mf, mkProc D' s)
      /\ dk_fs D' = <[name := zero_file total]> (dk_fs D) /\ later D D' 1 /\ on_disk name (zero_file total) mf D'
  end.
Proof.
  intros Ht Hroom. unfold l_shm_create, fbind at 1, fsys. cbn. unfold disk_open.
  destruct (dk_fs D !! name) as [f|] eqn:Ef; [done|].
  unfold fbind, fget, fput, fret, l_do_mmap, fbind, fsys. cbn. rewrite Z.eqb_refl. cbn.
  assert (Hl : <[name := zero_file 0]> (dk_fs D) !! name = Some (zero_file 0)) by apply lookup_insert_eq.
  rewrite Hl.
  match goal with |- context [disk_mmap _ _ ?D0] =>
    destruct (disk_mmap_at (dk_next_fd D) total D0) as (D' & E & E1 & E2 & E3 & E4) end;
    [lia | done | cbn; by rewrite Z.eqb_refl |].
  rewrite E. cbn. do 2 eexists. split; [done|]. cbn in E1.
  assert (dk_fs D' = <[name := zero_file total]> (dk_fs D)) as Hfs.
  { rewrite E1. apply insert_insert_eq. }
  split; [done|]. split; [done|]. split; [rewrite Hfs; apply lookup_insert_eq|].
  split; [rewrite E2; cbn; by rewrite Z.eqb_refl | done].
Qed.

Lemma disk_remap f mf D s :
  on_disk name f mf D -> 0 < total -> (0 < dk_room D)%nat ->
  exists mf' D' s', l_remap total mf (mkProc D s) = (Ok tt, mf', mkProc D' s')
    /\ dk_fs D' = dk_fs D /\ later D D' 1 /\ on_disk name f mf' D'.
Proof.
  intros (E1 & E2 & E3) Ht Hroom. unfold l_remap, fbind at 1, fget.
  destruct (bytes mf =? total).
  { do 3 eexists. split; [done|]. split; [done|]. by repeat split; [lia | ..]. }
  unfold fbind, fdo, do_munmap, fput, fret, l_do_mmap, fbind, fsys. cbn.
  match goal with |- context [disk_mmap _ _ ?D0] =>
    destruct (disk_mmap_at (fd mf) total D0) as (D' & E & F1 & F2 & F3 & F4); [lia | done | done |] end.
  cbn [pr_k]. rewrite E. cbn. do 3 eexists. split; [done|]. split; [done|]. split; [done|].
  split; [by rewrite F1|]. split; [by rewrite F2 | done].
Qed.
Lemma later_trans D D1 D2 a b : later D D1 a -> later D1 D2 b -> later D D2 (a + b).
Proof. unfold later. intros (-> & -> & H1) (-> & -> & H2). split; [done|]. split; [done|lia]. Qed.
Lemma later_refl D k : later D D k.
Proof. split; [done|]. split; [done|lia]. Qed.
Lemma later_weaken D D' a b : later D D' a -> (a <= b)%nat -> later D D' b.
Proof. intros (H1 & H2 & H3) H. split; [done|]. split; [done|lia]. Qed.
Lemma later_env D D' k : later D D' k -> same_env D -> same_env D'.
Proof. intros (H1 & H2 & _) [H3 H4]. split; congruence. Qed.

Lemma disk_reinit_later f mf D s :
  on_disk name f mf D -> same_env D ->
  exists D' s', l_reinit_file name n cnt sz total mf (mkProc D s) = (Ok tt, mf, mkProc D' s')
    /\ dk_fs D' = snd (reinit_file e name f n cnt sz total (dk_fs D)) /\ later D D' 0.
Proof.
  intros H He. destruct (disk_reinit f mf D s H He) as [s' ->]. do 2 eexists. split; [done|].
  split; [done|]. split; [done|]. split; [done|]. cbn. lia.
Qed.

(** A file that was there before, opened and locked. *)
Lemma disk_recover pp f mf D s :
  on_disk name f mf D -> bytes mf = sf_bytes f -> same_env D -> 0 < total -> (0 < dk_room D)%nat ->
  let R := if negb (validate_file f n cnt sz total) then
             match (if sf_bytes f =? total then Ok tt else do_mmap e total) with
             | Err x => (Err x, dk_fs D)
             | Ok _ => reinit_file e name f n cnt sz total (dk_fs D)
             end
           else if peer_in_use e f pp
           then (fail (name ++ " peer (gateway) alive with fresh heartbeat"), dk_fs D)
           else reinit_file e name f n cnt sz total (dk_fs D) in
  exists mf' D' s',
    fbind (l_validate_file n cnt sz total) (fun valid =>
      if negb valid then fbind (l_remap total) (fun _ => l_reinit_file name n cnt sz total)
      else fbind (l_peer_in_use pp) (fun busy : bool =>
        if busy then ffail (name ++ " peer (gateway) alive with fresh heartbeat")
        else l_reinit_file name n cnt sz total)) mf (mkProc D s)
      = (fst R, mf', mkProc D' s') /\ dk_fs D' = snd R /\ later D D' 1.
Proof.
  intros H Hb He Ht Hr R. subst R. unfold fbind at 1. destruct (disk_validate f mf D s H Hb) as [s1 ->].
  destruct (validate_file f n cnt sz total); cbn [negb]; unfold fbind at 1.
  - destruct (disk_peer pp f mf D s1 H He) as [s2 ->]. destruct (peer_in_use e f pp).
    { exists mf, D, s2. split; [done|]. split; [done|]. apply later_refl. }
    destruct (disk_reinit_later f mf D s2 H He) as (D' & s' & -> & HD & HL).
    exists mf, D', s'. split; [done|]. split; [done|]. eapply later_weaken; [eassumption | lia].
  - destruct (disk_remap f mf D s1 H Ht Hr) as (mf2 & D2 & s2 & -> & E2 & L2 & H2).
    destruct (disk_reinit_later f mf2 D2 s2 H2 (later_env _ _ _ L2 He)) as (D' & s' & -> & HD & HL).
    assert ((if sf_bytes f =? total then Ok tt else do_mmap e total) = Ok tt) as ->.
    { destruct (sf_bytes f =? total); [done|]. unfold do_mmap. by destruct (Z.eqb_spec total 0); [lia|]. }
    exists mf2, D', s'. split; [done|]. rewrite HD, E2. split; [done|]. apply (later_trans _ _ _ _ _ L2 HL).
Qed.

(** On a disk, one file of [map_all] does what [map_file] of ShmRegion.v says. *)
Lemma disk_map_file side pp D s :
  same_env D -> 0 < total -> (2 <= dk_room D)%nat ->
  (forall f, dk_fs D !! name = Some f -> 0 <= sf_bytes f) ->
  exists mf D' s', l_map_file side name n cnt sz total pp MappedFile0 (mkProc D s)
      = (fst (map_file side e name n cnt sz total pp (dk_fs D)), mf, mkProc D' s')
    /\ dk_fs D' = snd (map_file side e name n cnt sz total pp (dk_fs D)) /\ later D D' 2.
Proof.
  intros He Ht Hr Hpos. unfold l_map_file, map_file. destruct side.
  - unfold fbind at 1, shm_create. pose proof (disk_create D s Ht ltac:(lia)) as Hc.
    destruct (dk_fs D !! name) as [f|] eqn:Ef.
    + rewrite Hc. unfold fbind at 1.
      destruct (disk_open_existing D s) as (mf & D1 & s1 & -> & E1 & L1 & Hf); [by rewrite Ef | lia |].
      destruct (shm_open_existing e name (dk_fs D)) as [g|x] eqn:Eo.
      2: { do 3 eexists. split; [done|]. split; [done|]. eapply later_weaken; [eassumption | lia]. }
      destruct (Hf g eq_refl) as [Hg Hb]. destruct L1 as (L1 & L2 & L3).
      destruct (disk_recover pp g mf D1 s1 Hg Hb) as (mf2 & D2 & s2 & E2 & F2 & L4);
        [destruct He; split; congruence | done | lia |].
      rewrite E1 in E2, F2. exists mf2, D2, s2. split; [exact E2|]. split; [exact F2|].
      by apply (later_trans D D1 D2 1 1).
    + destruct Hc as (mf & D1 & -> & E1 & L1 & Hg). cbn [do_mmap sys_ok se_create se_truncate].
      unfold fbind at 1, fret. unfold fbind at 1.
      assert (do_mmap e total = Ok tt) as -> by (unfold do_mmap; by destruct (Z.eqb_spec total 0); [lia|]).
      unfold l_lock_file_exclusive, fbind at 1, fget, fsys. cbn -[l_write_headers write_headers].
      destruct (disk_write (zero_file total) mf D1 s Hg (later_env _ _ _ L1 He)) as [s' E].
      do 3 eexists. split; [exact E|]. split; [|eapply later_weaken; [eassumption | lia]]. cbn. by rewrite E1.
  - unfold fbind at 1.
    destruct (disk_open_existing D s Hpos) as (mf & D1 & s1 & -> & E1 & L1 & Hf); [lia|].
    destruct (shm_open_existing e name (dk_fs D)) as [g|x] eqn:Eo.
    2: { do 3 eexists. split; [done|]. split; [done|]. eapply later_weaken; [eassumption | lia]. }
    destruct (Hf g eq_refl) as [Hg Hb]. unfold fbind. destruct (disk_validate g mf D1 s1 Hg Hb) as [s2 ->].
    destruct (validate_file g n cnt sz total); do 3 eexists;
      (split; [done|]; split; [done|]; eapply later_weaken; [eassumption | lia]).
Qed.
End Disk.

Definition sizes_ok (d : fs) : Prop := forall x f, d !! x = Some f -> 0 <= sf_bytes f.

Lemma sizes_insert d name f : sizes_ok d -> 0 <= sf_bytes f -> sizes_ok (<[name := f]> d).
Proof. intros H Hf x g [[_ <-]|[_ Hg]]%lookup_insert_Some; [done | by apply (H x)]. Qed.

Lemma reinit_sizes e name f n cnt sz total d :
  sizes_ok d -> 0 <= total -> sizes_ok (snd (reinit_file e name f n cnt sz total d)).
Proof. intros H Ht. unfold reinit_file. destruct (se_truncate e); [done|]. by apply sizes_insert. Qed.

Lemma map_file_sizes side e name n cnt sz total pp d :
  sizes_ok d -> 0 <= total -> sizes_ok (snd (map_file side e name n cnt sz total pp d)).
Proof.
  intros H Ht. unfold map_file. destruct side.
  2: { destruct (shm_open_existing e name d) as [g|]; [|done]. by destruct (validate_file _ _ _ _ _). }
  assert (Hc : sizes_ok (snd (shm_create e name total d))).
  { unfold shm_create. destruct (d !! name); [done|]. destruct (se_create e); [done|].
    destruct (se_truncate e); [done|]. destruct (do_mmap e total); by apply sizes_insert. }
  destruct (shm_create e name total d) as [[fresh|x] d1]; [|done]. cbn [snd] in Hc.
  destruct (if fresh then Ok (zero_file total) else shm_open_existing e name d1) as [f|] eqn:Ef; [|done].
  destruct (lock_file_exclusive e name); [|done].
  destruct fresh; [injection Ef as <-; by apply sizes_insert|].
  destruct (validate_file f n cnt sz total); cbn [negb].
  - destruct (peer_in_use e f pp); [done | by apply reinit_sizes].
  - destruct (if sf_bytes f =? total then _ else _); [by apply reinit_sizes | done].
Qed.

(** C33: the system calls of [map_all] implement the recovery of ShmRegion.v: on
    a kernel whose calls succeed, for every content of /dev/shm, either side
    ends with the result and the files that [map_all] of ShmRegion.v computes
    from the content alone. *)
Theorem map_all_refines side kill now p D s :
  params_ok p -> same_env kill now D -> (4 <= dk_room D)%nat -> sizes_ok (dk_fs D) ->
  exists r pr, l_map_all side (mkRegion p MappedFile0 MappedFile0) (mkProc D s)
      = (fst (map_all side (sys_ok kill now) (sys_ok kill now) p (dk_fs D)), r, pr)
    /\ dk_fs (pr_k pr) = snd (map_all side (sys_ok kill now) (sys_ok kill now) p (dk_fs D)).
Proof.
  intros Hp He Hr Hs. destruct (req_total_room p Hp) as [Hn Ht].
  unfold sizeof_ShmFileHeader, sizeof_RingHeader in Ht.
  unfold l_map_all, map_all. cbn [p_ req_ rsp_].
  destruct (disk_map_file kill now (shm_name_of p "_req") (u32 (p_workers p)) ReqRing_kSlotCount kReqSlotSize
    (req_total_bytes p) side true D s He) as (q & D1 & s1 & -> & E1 & L1); [lia | lia | apply Hs |].
  pose proof (map_file_sizes side (sys_ok kill now) (shm_name_of p "_req") (u32 (p_workers p)) ReqRing_kSlotCount
    kReqSlotSize (req_total_bytes p) true (dk_fs D) Hs ltac:(lia)) as Hs1.
  destruct (map_file side (sys_ok kill now) (shm_name_of p "_req") _ _ _ _ true (dk_fs D)) as [[[]|x] d1].
  2: { do 2 eexists. by split. }
  cbn [fst snd] in *. rewrite <-E1 in *.
  destruct (disk_map_file kill now (shm_name_of p "_rsp") 1 RspRing_kSlotCount kRspSlotSize
    rsp_total_bytes side false D1 s1) as (q' & D2 & s2 & -> & E2 & L2);
    [by eapply later_env | by vm_compute | destruct L1; lia | apply Hs1 |].
  destruct (map_file side (sys_ok kill now) (shm_name_of p "_rsp") _ _ _ _ false (dk_fs D1)) as [[[]|x] d2].
  2: { do 2 eexists. by split. }
  destruct (lock_pages p); do 2 eexists; by split.
Qed.

(** ** Runs *)

Definition disk0 (d : fs) (room : nat) : Disk := mkDisk d [] [] 3 4096 room (fun _ => None) (10 ^ 9).
Definition params0 : Params := mkParams "/dev/shm" "bike" 0 2 10000 true.

Lemma disk0_ok d room : disk_ok (disk0 d room).
Proof. split; cbn; [constructor | by intros x ?%elem_of_nil | lia | by intros x ?%elem_of_nil |].
  intros x l HP%Permutation_nil_l. done. Qed.

(** The dispatch process creates the region, moves it and ends. *)
Lemma regions_never_leak_witness :
  exists pr, oruns [OMake true params0; OMove 0; ODestroy 0; ODestroy 1] ([], mkProc (disk0 ∅ 4) 0)
      = Some ([None; None], pr)
    /\ (k_fds (pr_k pr) ≡ₚ [] /\ k_maps (pr_k pr) ≡ₚ []) /\ pr_stray pr = 0%nat.
Proof.
  destruct (oruns [OMake true params0; OMove 0; ODestroy 0; ODestroy 1] ([], mkProc (disk0 ∅ 4) 0))
    as [[objs pr]|] eqn:E; [|vm_compute in E; discriminate].
  destruct (regions_never_leak [OMake true params0; OMove 0; ODestroy 0; ODestroy 1] (mkProc (disk0 ∅ 4) 0) objs pr)
    as (_ & _ & _ & H & Hs).
  - apply disk0_ok.
  - repeat constructor; cbn; lia.
  - exact E.
  - assert (objs = [None; None]) as -> by (vm_compute in E; injection E as <- _; reflexivity).
    exists pr. split; [reflexivity|].
    split; [apply H; by repeat constructor|]. cbn [pr_stray] in Hs.
    assert (failed_creations [OMake true params0; OMove 0; ODestroy 0; ODestroy 1]
              ([], mkProc (disk0 ∅ 4) 0) = 0%nat) as E0 by (vm_compute; reflexivity).
    rewrite E0 in Hs. lia.
Defined.

(** A file that a former configuration left behind. *)
Definition left_over : fs := {[ "/bike0_req"%string := stale_file ]}.

Lemma map_all_refines_witness :
  exists r pr, l_map_all true (mkRegion params0 MappedFile0 MappedFile0) (mkProc (disk0 left_over 4) 0)
      = (Ok tt, r, pr)
    /\ sf_rings <$> (dk_fs (pr_k pr) !! "/bike0_req"%string) = Some [RingHeader0; RingHeader0].
Proof.
  destruct (map_all_refines true (fun _ => None) (10 ^ 9) params0 (disk0 left_over 4) 0) as (r & pr & E & Ef).
  - unfold params_ok. cbn. lia.
  - done.
  - cbn. lia.
  - intros x f Hx. unfold left_over in Hx. cbn in Hx. apply lookup_singleton_Some in Hx as [_ <-]. by vm_compute.
  - exists r, pr. rewrite E, Ef. split; by vm_compute.
Defined.

(** When mapping a left-over file of another size anew fails, the destructor
    unmaps the old address a second time: [base] still holds it. *)
Theorem failed_remap_unmaps_twice :
  exists pr, make true params0 (mkProc (disk0 left_over 1) 0) = (fail "mmap failed", pr) /\ pr_stray pr = 1%nat.
Proof. eexists. split; [vm_compute; reflexivity | reflexivity]. Qed.
