(* ===== verification/Config.v ===== *)
(** * Configuration

    server/src/config.cpp, config.hpp and the environment overrides of
    gateway_main.cpp and dispatch_main.cpp.  The TOML library and [atoi] are
    parameters: [as_table] finds a section, [value_int] and [value_str] return
    what a key's [value<std::int64_t>()] and [value<std::string>()] hold. *)

From S2P Require Import Prelude SpscRing Engine.

Record Server : Type := mkServer { s_listen : string; s_port : Z }.
Record Mysql : Type := mkMysql {
  m_host : string; m_port : Z; m_user : string; m_password : string; m_database : string;
  m_pool_size : Z }.
Record Redis : Type := mkRedis { r_host : string; r_port : Z; r_pool_size : Z }.
Record Log : Type := mkLog { l_level : string; l_file : string }.
Record Uring : Type := mkUring {
  u_sq_depth : Z; u_cq_depth : Z; u_workers : Z; u_rx_buf_bytes : Z;
  u_send_backlog_limit_bytes : Z; u_idle_timeout_ms : Z; u_accept_backlog : Z }.
Record Ipc : Type := mkIpc {
  i_mode : string; i_shm_root : string; i_shm_prefix : string; i_instance : Z;
  i_open_timeout_ms : Z; i_peer_timeout_ms : Z; i_spin_tries : Z; i_dispatch_workers : Z;
  i_req_ring_slots : Z; i_rsp_ring_slots : Z }.
Record Config : Type := mkConfig {
  server : Server; mysql : Mysql; redis : Redis; log : Log; uring : Uring; ipc : Ipc }.

Definition Config0 : Config :=
  mkConfig (mkServer "0.0.0.0" 8888)
    (mkMysql "127.0.0.1" 3306 "bike" "" "shared_bike" 8)
    (mkRedis "127.0.0.1" 6379 4)
    (mkLog "info" "/var/log/bike-server/server.log")
    (mkUring 256 512 8 65536 (Z.shiftl 1 20) 60000 1024)
    (mkIpc "ring" "/dev/shm" "bike" 0 10000 5000 64 8 512 256).

Definition bad {X} (msg : string) : result X := Err (RuntimeError ("invalid config: " ++ msg)).

Declare Scope cfg_scope.
Delimit Scope cfg_scope with cfg.
(** [require b msg in k]: [if (!b) bad(msg);] followed by [k]. *)
Notation "'require' b 'else' msg 'in' k" := (if b then k else bad msg)
  (at level 10, b at level 100, msg at level 100, k at level 200) : cfg_scope.
Open Scope cfg_scope.

Definition validate_uring (u : Uring) : result Uring :=
  require negb (u_sq_depth u <? 16) else "[uring].sq_depth must be >= 16" in
  let sq := if u_sq_depth u >? 65536 then 65536 else u_sq_depth u in
  require negb (u_cq_depth u <? 16) else "[uring].cq_depth must be >= 16" in
  let cq := if u_cq_depth u <? sq then sq else u_cq_depth u in
  let cq := if cq >? 131072 then 131072 else cq in
  require negb (u_workers u <? 1) else "[uring].workers must be >= 1" in
  let w := if u_workers u >? 1024 then 1024 else u_workers u in
  require negb (u_rx_buf_bytes u <? 4096) else "[uring].rx_buf_bytes must be >= 4096" in
  let rx := if u_rx_buf_bytes u >? 16 * 1024 * 1024 then 16 * 1024 * 1024 else u_rx_buf_bytes u in
  require negb (u_send_backlog_limit_bytes u <? 1)
    else "[uring].send_backlog_limit_bytes must be >= 1" in
  require negb (u_idle_timeout_ms u <? 0)
    else "[uring].idle_timeout_ms must be >= 0 (0 = disable sweep)" in
  let idle := if u_idle_timeout_ms u >? 3600000 then 3600000 else u_idle_timeout_ms u in
  require negb (u_accept_backlog u <? 1) else "[uring].accept_backlog must be >= 1" in
  let ab := if u_accept_backlog u >? 65535 then 65535 else u_accept_backlog u in
  Ok (mkUring sq cq w rx (u_send_backlog_limit_bytes u) idle ab).

Definition validate_ipc (i : Ipc) : result unit :=
  require bool_decide (i_mode i = "ring"%string) || bool_decide (i_mode i = "inprocess"%string)
    else "[ipc].mode must be ring or inprocess" in
  require negb (bool_decide (i_shm_prefix i = ""%string)) else "[ipc].shm_prefix must be non-empty" in
  require negb ((i_instance i <? 0) || (i_instance i >? 99)) else "[ipc].instance must be in [0, 99]" in
  require negb (i_open_timeout_ms i <? 100) else "[ipc].open_timeout_ms must be >= 100" in
  require negb (i_peer_timeout_ms i <? 100) else "[ipc].peer_timeout_ms must be >= 100" in
  require negb ((i_spin_tries i <? 0) || (i_spin_tries i >? 10000))
    else "[ipc].spin_tries must be in [0, 10000]" in
  require negb ((i_dispatch_workers i <? 1) || (i_dispatch_workers i >? 1024))
    else "[ipc].dispatch_workers must be in [1, 1024]" in
  require (i_req_ring_slots i =? ReqRing_kSlotCount)
    else "[ipc].req_ring_slots must equal compiled ReqRing::kSlotCount" in
  require (i_rsp_ring_slots i =? RspRing_kSlotCount)
    else "[ipc].rsp_ring_slots must equal compiled RspRing::kSlotCount" in
  Ok tt.

Section Load.
Context {Table : Type} (value_int : Table -> string -> option Z) (value_str : Table -> string -> option string).

Definition get_int (t : Table) (key : string) (def : Z) : Z := default def (value_int t key).
(** The value is assigned to an [int] member. *)
Definition get_int32 (t : Table) (key : string) (def : Z) : Z := i32 (get_int t key def).
Definition get_str (t : Table) (key : string) (def : string) : string := default def (value_str t key).

Definition read_server (t : Table) (s : Server) : Server :=
  mkServer (get_str t "listen" (s_listen s)) (get_int32 t "port" (s_port s)).
Definition read_mysql (t : Table) (m : Mysql) : Mysql :=
  mkMysql (get_str t "host" (m_host m)) (get_int32 t "port" (m_port m)) (get_str t "user" (m_user m))
    (get_str t "password" (m_password m)) (get_str t "database" (m_database m))
    (get_int32 t "pool_size" (m_pool_size m)).
Definition read_redis (t : Table) (r : Redis) : Redis :=
  mkRedis (get_str t "host" (r_host r)) (get_int32 t "port" (r_port r))
    (get_int32 t "pool_size" (r_pool_size r)).
Definition read_log (t : Table) (l : Log) : Log :=
  mkLog (get_str t "level" (l_level l)) (get_str t "file" (l_file l)).
Definition read_uring (t : Table) (u : Uring) : Uring :=
  mkUring (get_int32 t "sq_depth" (u_sq_depth u)) (get_int32 t "cq_depth" (u_cq_depth u))
    (get_int32 t "workers" (u_workers u)) (get_int t "rx_buf_bytes" (u_rx_buf_bytes u))
    (get_int t "send_backlog_limit_bytes" (u_send_backlog_limit_bytes u))
    (get_int32 t "idle_timeout_ms" (u_idle_timeout_ms u))
    (get_int32 t "accept_backlog" (u_accept_backlog u)).
Definition read_ipc (t : Table) (i : Ipc) : Ipc :=
  mkIpc (get_str t "mode" (i_mode i)) (get_str t "shm_root" (i_shm_root i))
    (get_str t "shm_prefix" (i_shm_prefix i)) (get_int32 t "instance" (i_instance i))
    (get_int32 t "open_timeout_ms" (i_open_timeout_ms i))
    (get_int32 t "peer_timeout_ms" (i_peer_timeout_ms i))
    (get_int32 t "spin_tries" (i_spin_tries i))
    (get_int32 t "dispatch_workers" (i_dispatch_workers i))
    (get_int32 t "req_ring_slots" (i_req_ring_slots i))
    (get_int32 t "rsp_ring_slots" (i_rsp_ring_slots i)).

Definition section_of {X} (o : option Table) (f : Table -> X -> X) (x : X) : X :=
  match o with Some t => f t x | None => x end.

(** [root] is the parsed file, or the parser's error. *)
Definition load_config (root : result (string -> option Table)) : result Config :=
  match root with
  | Err _ => Err (RuntimeError "config parse failed")
  | Ok root =>
      let c := Config0 in
      let sv := section_of (root "server"%string) read_server (server c) in
      require negb ((s_port sv <? 1) || (s_port sv >? 65535)) else "[server].port must be in [1, 65535]" in
      let my := section_of (root "mysql"%string) read_mysql (mysql c) in
      let re := section_of (root "redis"%string) read_redis (redis c) in
      let lg := section_of (root "log"%string) read_log (log c) in
      match validate_uring (section_of (root "uring"%string) read_uring (uring c)) with
      | Err x => Err x
      | Ok ur =>
          let ip := section_of (root "ipc"%string) read_ipc (ipc c) in
          match validate_ipc ip with
          | Err x => Err x
          | Ok _ => Ok (mkConfig sv my re lg ur ip)
          end
      end
  end.
End Load.

(** ** Environment overrides: [env] is the value [atoi] gave, if set *)

Definition override_instance (env : option Z) (inst : Z) : Z :=
  match env with Some v => if (v >=? 0) && (v <=? 99) then v else inst | None => inst end.
Definition override_workers (env : option Z) (w : Z) : Z :=
  match env with Some v => if v >? 0 then v else w | None => w end.

(** The options gateway_main.cpp hands to the engine; durations in
    nanoseconds. *)
Definition gateway_options (env_workers : option Z) (c : Config) : GatewayOptions :=
  mkOptions (s_listen (server c)) (s_port (server c)) (u_sq_depth (uring c)) (u_cq_depth (uring c))
    (override_workers env_workers (u_workers (uring c)))
    (Z.to_nat (u_rx_buf_bytes (uring c))) (u64 (u_send_backlog_limit_bytes (uring c)))
    (u_idle_timeout_ms (uring c) * 10 ^ 6) (u_accept_backlog (uring c)).
(** The number of request rings dispatch_main.cpp creates. *)
Definition dispatch_req_rings (env_workers : option Z) (c : Config) : Z :=
  override_workers env_workers (u_workers (uring c)).

(** ** Properties *)

Record uring_ok (u : Uring) : Prop := mk_uring_ok {
  uo_sq : 16 <= u_sq_depth u <= 65536;
  uo_cq : u_sq_depth u <= u_cq_depth u <= 131072;
  uo_workers : 1 <= u_workers u <= 1024;
  uo_rx : 4096 <= u_rx_buf_bytes u <= 16777216;
  uo_backlog : 1 <= u_send_backlog_limit_bytes u;
  uo_idle : 0 <= u_idle_timeout_ms u <= 3600000;
  uo_accept : 1 <= u_accept_backlog u <= 65535
}.

Record ipc_ok (i : Ipc) : Prop := mk_ipc_ok {
  io_mode : i_mode i = "ring"%string \/ i_mode i = "inprocess"%string;
  io_prefix : i_shm_prefix i <> ""%string;
  io_instance : 0 <= i_instance i <= 99;
  io_open : 100 <= i_open_timeout_ms i;
  io_peer : 100 <= i_peer_timeout_ms i;
  io_spin : 0 <= i_spin_tries i <= 10000;
  io_workers : 1 <= i_dispatch_workers i <= 1024;
  io_req : i_req_ring_slots i = 512;
  io_rsp : i_rsp_ring_slots i = 256
}.

(** Case analysis on one [require]. *)
Ltac require_step H :=
  match type of H with
  | (if negb ?b then _ else bad _) = Ok _ =>
      let E := fresh "E" in destruct b eqn:E; cbn [negb] in H; [discriminate H|]
  | (if ?b then _ else bad _) = Ok _ =>
      let E := fresh "E" in destruct b eqn:E; [|discriminate H]
  end.

Lemma validate_uring_ok u u' : validate_uring u = Ok u' -> uring_ok u'.
Proof.
  unfold validate_uring. intros H. repeat require_step H. injection H as <-.
  split; simpl; repeat case_if; blia.
Qed.

Lemma validate_ipc_ok i : validate_ipc i = Ok tt -> ipc_ok i.
Proof.
  unfold validate_ipc. change ReqRing_kSlotCount with 512. change RspRing_kSlotCount with 256.
  intros H. repeat require_step H.
  split; try (clear E E0; blia).
  - apply orb_true_iff in E. destruct E as [E|E]; [left|right]; by eapply bool_decide_eq_true_1.
  - intros He. by rewrite (bool_decide_eq_true_2 _ He) in *.
Qed.


Lemma load_config_parts {T} vi vs (root : string -> option T) c :
  load_config vi vs (Ok root) = Ok c ->
  1 <= s_port (server c) <= 65535 /\ uring_ok (uring c) /\ ipc_ok (ipc c).
Proof.
  unfold load_config, Config0. cbn [server uring ipc mysql redis log]. intros H. require_step H.
  destruct (validate_uring _) as [u|] eqn:Eu; [|discriminate H].
  destruct (validate_ipc _) as [[]|] eqn:Ei; [|discriminate H]. injection H as <-. cbn [server uring ipc] in *.
  split; [blia|]. split; [by eapply validate_uring_ok|by apply validate_ipc_ok].
Qed.

(** C21: every configuration that loads is within bounds, whatever the file
    holds: the port, the ring depths (the completion queue never below the
    submission queue), the worker counts, buffer sizes and timeouts, the mode,
    and ring sizes equal to the compiled ones.  The gateway and the dispatch
    process started with the same environment agree on the number of request
    rings, and the engine's backlog limit is the configured one, at least
    one. *)
Theorem load_config_sound {T} vi vs (root : string -> option T) c env :
  (forall t k v, vi t k = Some v -> - 2 ^ 63 <= v < 2 ^ 63) ->
  load_config vi vs (Ok root) = Ok c ->
  1 <= s_port (server c) <= 65535 /\ uring_ok (uring c) /\ ipc_ok (ipc c)
  /\ workers (gateway_options env c) = dispatch_req_rings env c /\ 1 <= workers (gateway_options env c)
  /\ send_backlog_limit (gateway_options env c) = u_send_backlog_limit_bytes (uring c)
  /\ 1 <= send_backlog_limit (gateway_options env c) < 2 ^ 64.
Proof.
  intros Hv H. destruct (load_config_parts vi vs root c H) as (H1 & H2 & H3).
  assert (Hb : u_send_backlog_limit_bytes (uring c) < 2 ^ 63).
  { clear H2 H3. revert H. unfold load_config. intros H. require_step H.
    destruct (validate_uring _) as [u|] eqn:Eu; [|discriminate H].
    destruct (validate_ipc _) as [[]|]; [|discriminate H]. injection H as <-. simpl.
    unfold validate_uring in Eu. repeat require_step Eu. injection Eu as <-. simpl.
    destruct (root "uring"%string) as [t|]; simpl; [|by vm_compute]. unfold get_int.
    destruct (vi t "send_backlog_limit_bytes") as [v|] eqn:Ev; simpl; [|by vm_compute].
    apply Hv in Ev. lia. }
  pose proof (uo_backlog _ H2). pose proof (uo_workers _ H2).
  split; [done|]. split; [done|]. split; [done|]. split; [done|].
  unfold gateway_options, override_workers. simpl. rewrite u64_small by lia.
  split; [|lia]. destruct env as [v|]; [case_if; blia|lia].
Qed.

(** A file with only [[uring] sq_depth = 64]. *)
Definition toml_demo (s : string) : option unit :=
  if bool_decide (s = "uring"%string) then Some tt else None.
Definition int_demo (t : unit) (k : string) : option Z :=
  if bool_decide (k = "sq_depth"%string) then Some 64 else None.
Definition str_demo (t : unit) (k : string) : option string := None.
Definition config_demo : Config :=
  mkConfig (server Config0) (mysql Config0) (redis Config0) (log Config0)
    (mkUring 64 512 8 65536 (2 ^ 20) 60000 1024) (ipc Config0).

Lemma load_config_sound_witness :
  load_config int_demo str_demo (Ok toml_demo) = Ok config_demo
  /\ send_backlog_limit (gateway_options None config_demo) = 2 ^ 20.
Proof.
  assert (H : load_config int_demo str_demo (Ok toml_demo) = Ok config_demo) by (vm_compute; reflexivity).
  split; [exact H|].
  destruct (load_config_sound int_demo str_demo toml_demo config_demo None) as (_ & _ & _ & _ & _ & Hl & _).
  - intros t k v. unfold int_demo. case_bool_decide; [|done]. intros [= <-]. lia.
  - exact H.
  - rewrite Hl. reflexivity.
Defined.

(** A submission-queue depth between 16 and 127 passes the configuration
    check, but the engine built from it refuses to start. *)
Lemma sq_depth_gap :
  load_config int_demo str_demo (Ok toml_demo) = Ok config_demo
  /\ forall env, validate_sq_capacity (gateway_options env config_demo)
                 = Err (RuntimeError "[uring] sq_depth too small").
Proof. split; [vm_compute; reflexivity|]. intros env. reflexivity. Qed.
