(* ===== verification/Channel.v ===== *)
(** * The channel between the two processes comes up

    dispatch_main.cpp and gateway_main.cpp up to the attached rings: the
    parameters both derive from configuration and environment, the creation of
    the files by the one and their attachment by the other, in either order of
    start.  And what happens when the gateway attaches to files of an earlier
    run before they are rebuilt. *)

From S2P Require Import Prelude ShmLayout SpscRing Engine ShmRegion Config.

(** ** Parameters *)

(** BIKE_INSTANCE, BIKE_GATEWAY_WORKERS, BIKE_IPC_MLOCK: what [atoi] made of
    them, when set. *)
Record Env : Type := mkEnv { env_instance : option Z; env_workers : option Z; env_mlock : option Z }.

Definition Params0 : Params := mkParams "/dev/shm" "bike" 0 8 10000 true.
Definition override_mlock (env : option Z) (b : bool) : bool :=
  match env with Some v => negb (v =? 0) | None => b end.

Definition dispatch_params (v : Env) (c : Config) : Params :=
  mkParams (i_shm_root (ipc c)) (i_shm_prefix (ipc c)) (override_instance (env_instance v) (i_instance (ipc c)))
    (dispatch_req_rings (env_workers v) c) (open_timeout Params0)
    (override_mlock (env_mlock v) (lock_pages Params0)).
Definition gateway_params (v : Env) (c : Config) : Params :=
  mkParams (i_shm_root (ipc c)) (i_shm_prefix (ipc c)) (override_instance (env_instance v) (i_instance (ipc c)))
    (workers (gateway_options (env_workers v) c)) (i_open_timeout_ms (ipc c))
    (override_mlock (env_mlock v) (lock_pages Params0)).

(** ** Creation, then attachment *)

(** A successful creation leaves a usable file under its name and touches no
    other. *)
Lemma create_usable kill now name n cnt sz total pp d d' :
  0 < total -> (forall f, d !! name = Some f -> 0 <= sf_bytes f) ->
  map_file true (sys_ok kill now) name n cnt sz total pp d = (Ok tt, d') ->
  exists f, d' = <[name := f]> d /\ usable n cnt sz total f.
Proof.
  intros Ht Hpos E. assert (Hok : exists k t, sys_ok kill now = sys_ok k t) by by do 2 eexists.
  destruct (d !! name) as [f|] eqn:Ef.
  - destruct (decide (sf_bytes f = 0)) as [Hz|Hz].
    { destruct (open_empty _ name Hok d f Ef Hz) as [x Hx]. unfold map_file, shm_create in E.
      rewrite Ef, Hx in E. discriminate. }
    specialize (Hpos f eq_refl). destruct (validate_file f n cnt sz total && peer_in_use (sys_ok kill now) f pp) eqn:Ev.
    + apply andb_true_iff in Ev as [Ev Ep].
      destruct (create_refused _ name n cnt sz total pp Hok d f Ef ltac:(lia) Ev Ep) as [x Hx].
      rewrite Hx in E. discriminate.
    + destruct (create_existing _ name n cnt sz total pp Hok Ht d f Ef ltac:(lia)) as (f' & H1 & H2).
      { intros Hv. by rewrite Hv in Ev. }
      rewrite H1 in E. injection E as <-. by exists f'.
  - destruct (create_missing _ name n cnt sz total pp Hok Ht d Ef) as (f' & H1 & H2).
    rewrite H1 in E. injection E as <-. by exists f'.
Qed.

Lemma attach_usable kill now name n cnt sz total pp d f :
  0 < total -> d !! name = Some f -> usable n cnt sz total f ->
  map_file false (sys_ok kill now) name n cnt sz total pp d = (Ok tt, d).
Proof.
  intros Ht Ef [Hv _]. unfold map_file.
  assert (sf_bytes f = total) as Hb.
  { unfold validate_file in Hv. apply andb_true_iff in Hv as [Hv _]. by apply Z.eqb_eq. }
  rewrite (open_ok _ name ltac:(by do 2 eexists) f d Ef) by lia. by rewrite Hv.
Qed.

Lemma shm_names_differ p : shm_name_of p "_req" <> shm_name_of p "_rsp".
Proof.
  unfold shm_name_of. intros H. do 3 apply (inj (String.append _)) in H. discriminate.
Qed.

(** The parameters that decide names, sizes and paths. *)
Definition same_channel (p q : Params) : Prop :=
  shm_root p = shm_root q /\ prefix p = prefix q /\ instance p = instance q /\ p_workers p = p_workers q.

Lemma params_agree v c : same_channel (dispatch_params v c) (gateway_params v c).
Proof. by repeat split. Qed.

Lemma same_channel_names p q s : same_channel p q -> shm_name_of p s = shm_name_of q s.
Proof. intros (_ & H1 & H2 & _). unfold shm_name_of. by rewrite H1, H2. Qed.
Lemma same_channel_paths p q :
  same_channel p q -> req_notify_path p = req_notify_path q /\ rsp_notify_path p = rsp_notify_path q.
Proof. intros (H0 & H1 & H2 & _). unfold req_notify_path, rsp_notify_path. by rewrite H0, H1, H2. Qed.
Lemma same_channel_total p q : same_channel p q -> req_total_bytes p = req_total_bytes q.
Proof. intros (_ & _ & _ & H). unfold req_total_bytes. by rewrite H. Qed.

Lemma totals_positive p : 0 < p_workers p < 2 ^ 16 -> 0 < req_total_bytes p /\ 0 < rsp_total_bytes.
Proof.
  intros Hw. split; [|by vm_compute]. unfold req_total_bytes. rewrite u32_small by lia.
  destruct (compute_file_layout_spec (p_workers p) kReqRegionBytes) as (_ & _ & E & _ & H); [lia | by vm_compute|].
  cbn zeta in *. rewrite E. assert (0 <= kReqRegionBytes) by by vm_compute. nia.
Qed.

(** What the creation of both files leaves. *)
Lemma create_all_usable kill now kill' now' p d d' :
  0 < p_workers p < 2 ^ 16 -> (forall x f, d !! x = Some f -> 0 <= sf_bytes f) ->
  create_or_recover (sys_ok kill now) (sys_ok kill' now') p d = (Ok tt, d') ->
  exists f g, d' !! shm_name_of p "_req" = Some f /\ d' !! shm_name_of p "_rsp" = Some g
    /\ usable (u32 (p_workers p)) ReqRing_kSlotCount kReqSlotSize (req_total_bytes p) f
    /\ usable 1 RspRing_kSlotCount kRspSlotSize rsp_total_bytes g.
Proof.
  intros Hw Hd. destruct (totals_positive p Hw) as [Ht Ht']. unfold create_or_recover, map_all.
  destruct (map_file true (sys_ok kill now) (shm_name_of p "_req") _ _ _ _ true d) as [[[]|x] d1] eqn:E1; [|done].
  intros E2. apply create_usable in E1 as (f & -> & Hf); [|done | by apply Hd].
  pose proof (shm_names_differ p) as Hne.
  apply create_usable in E2 as (g & -> & Hg); [|done|].
  2: { intros h [[? _]|[_ Hh]]%lookup_insert_Some; [done | by apply (Hd _ _ Hh)]. }
  exists f, g. split; [apply lookup_insert_Some; right; split; [done | apply lookup_insert_eq]|].
  split; [apply lookup_insert_eq | done].
Qed.

(** An attempt of the gateway that neither attaches nor is the last in time. *)
Definition retried (p : Params) (t : Sysenv * Sysenv * fs * bool) : Prop :=
  let '(er, ep, d, expired) := t in expired = false /\ is_ok (fst (map_all false er ep p d)) = false.

(** An attempt fails while there is no request file. *)
Lemma absent_retried p kill now kill' now' d :
  d !! shm_name_of p "_req" = None -> retried p (sys_ok kill now, sys_ok kill' now', d, false).
Proof.
  intros Hd. split; [done|]. unfold map_all, map_file, shm_open_existing. cbn. by rewrite Hd.
Qed.

(** C36: the two processes, started with the same configuration file and the
    same environment, meet: once the business process has created or recovered
    the files, in whatever state an earlier run left them, the next attempt of
    the gateway attaches to them, finds every ring empty, and both wake each
    other through the same FIFOs.  The gateway may have been started first, as
    long as its attempts before that failed, as they do while there is no
    request file ([absent_retried]).  If one finds usable files of an earlier
    run instead, it attaches to those ([early_gateway_replays]). *)
Theorem channel_comes_up {T} vi vs (root : string -> option T) c v kill now kill' now' d d' tries :
  load_config vi vs (Ok root) = Ok c -> workers (gateway_options (env_workers v) c) < 2 ^ 16 ->
  (forall x f, d !! x = Some f -> 0 <= sf_bytes f) ->
  create_or_recover (sys_ok kill now) (sys_ok kill now) (dispatch_params v c) d = (Ok tt, d') ->
  Forall (retried (gateway_params v c)) tries ->
  open_loop (gateway_params v c) (tries ++ [(sys_ok kill' now', sys_ok kill' now', d', true)]) = Some (Ok tt)
  /\ map_all false (sys_ok kill' now') (sys_ok kill' now') (gateway_params v c) d' = (Ok tt, d')
  /\ (exists f g, d' !! shm_name_of (gateway_params v c) "_req" = Some f
        /\ d' !! shm_name_of (gateway_params v c) "_rsp" = Some g
        /\ sf_rings f = replicate (Z.to_nat (workers (gateway_options (env_workers v) c))) RingHeader0
        /\ sf_rings g = [RingHeader0])
  /\ req_notify_path (dispatch_params v c) = req_notify_path (gateway_params v c)
  /\ rsp_notify_path (dispatch_params v c) = rsp_notify_path (gateway_params v c).
Proof.
  intros Hc Hw Hd Hcr Htr. destruct (load_config_parts vi vs root c Hc) as (_ & Hu & _).
  pose proof (uo_workers _ Hu) as Hw1.
  assert (Hpos : 0 < workers (gateway_options (env_workers v) c)).
  { unfold gateway_options, override_workers. simpl. destruct (env_workers v) as [x|]; [case_if; blia | lia]. }
  pose proof (params_agree v c) as Hs.
  apply create_all_usable in Hcr as (f & g & Hf & Hg & Uf & Ug); [|exact (conj Hpos Hw) | done].
  rewrite (same_channel_names _ _ _ Hs) in Hf. rewrite (same_channel_names _ _ _ Hs) in Hg.
  rewrite (same_channel_total _ _ Hs) in Uf.
  destruct (totals_positive (gateway_params v c)) as [Ht Ht']; [exact (conj Hpos Hw)|].
  assert (Hm : map_all false (sys_ok kill' now') (sys_ok kill' now') (gateway_params v c) d' = (Ok tt, d')).
  { unfold map_all. rewrite (attach_usable _ _ _ _ _ _ _ _ _ f); [|done..].
    by rewrite (attach_usable _ _ _ _ _ _ _ _ _ g). }
  split; [|split; [done|]; split; [|by apply same_channel_paths]].
  - induction Htr as [|[[[er ep] d0] ex] l Hx _ IH]; cbn [open_loop app]; [by rewrite Hm|].
    destruct Hx as [-> Hx]. by destruct (map_all false er ep (gateway_params v c) d0) as [[[]|] ?].
  - exists f, g. split; [done|]. split; [done|]. destruct Uf as [_ ->], Ug as [_ ->].
    split; [|done]. rewrite u32_small; [done|].
    change (p_workers (dispatch_params v c)) with (workers (gateway_options (env_workers v) c)). lia.
Qed.

Lemma channel_comes_up_witness :
  exists d', create_or_recover (sys_ok (fun _ => None) 7) (sys_ok (fun _ => None) 7)
        (dispatch_params (mkEnv (Some 3) None None) config_demo) ∅ = (Ok tt, d')
    /\ open_loop (gateway_params (mkEnv (Some 3) None None) config_demo)
         [(sys_ok (fun _ => None) 1, sys_ok (fun _ => None) 1, ∅, false);
          (sys_ok (fun _ => None) 9, sys_ok (fun _ => None) 9, d', true)] = Some (Ok tt).
Proof.
  destruct (create_or_recover (sys_ok (fun _ => None) 7) (sys_ok (fun _ => None) 7)
        (dispatch_params (mkEnv (Some 3) None None) config_demo) ∅) as [r d'] eqn:E.
  assert (r = Ok tt) as -> by (vm_compute in E; injection E as <- _; reflexivity).
  exists d'. split; [reflexivity|].
  destruct (channel_comes_up int_demo str_demo toml_demo config_demo (mkEnv (Some 3) None None) (fun _ => None) 7
    (fun _ => None) 9 ∅ d' [(sys_ok (fun _ => None) 1, sys_ok (fun _ => None) 1, ∅, false)]) as (H & _).
  - vm_compute. reflexivity.
  - by vm_compute.
  - intros x f Hx. by apply lookup_empty_Some in Hx.
  - exact E.
  - apply Forall_singleton. by apply absent_retried.
  - exact H.
Defined.

(** ** Attaching too early *)

(** gateway_main.cpp: every producer registers the pid; the first heartbeat
    comes later, from a thread of its own. *)
Definition register_gateway (pid : Z) (f : ShmFile) : ShmFile :=
  mkFile (sf_bytes f) (sf_hdr f) ((fun h => prod_register_pid h pid) <$> sf_rings f).

Section TooEarly.
Context (kill : Z -> option Z) (now pid : Z) (name : string) (n sz total : Z) (f : ShmFile) (h : RingHeader)
  (hs : list RingHeader).
(** A request file of an earlier run, whose last heartbeat is old. *)
Hypothesis Hn : 0 < n.
Hypothesis Htotal : 0 < total.
Hypothesis Hvalid : validate_file f n ReqRing_kSlotCount sz total = true.
Hypothesis Hrings : sf_rings f = h :: hs.
Hypothesis Hstale : rh_producer_heartbeat_ns h = 0 \/ kInUseHbLimitNs <= u64 (now - rh_producer_heartbeat_ns h).

(** The business process does not notice the gateway. *)
Lemma rebuilt_under_gateway (d : fs) :
  d !! name = Some (register_gateway pid f) ->
  exists g, map_file true (sys_ok kill now) name n ReqRing_kSlotCount sz total true d = (Ok tt, <[name := g]> d)
    /\ exists gs, sf_rings g = RingHeader0 :: gs.
Proof using Hn Htotal Hvalid Hrings Hstale.
  intros Hd.
  assert (sf_bytes f = total) as Hb.
  { unfold validate_file in Hvalid. apply andb_true_iff in Hvalid as [Hv _]. by apply Z.eqb_eq. }
  destruct (create_existing (sys_ok kill now) name n ReqRing_kSlotCount sz total true ltac:(by do 2 eexists) Htotal d
    (register_gateway pid f) Hd) as (g & E & _ & Hg); [cbn; lia | |].
  { intros _. unfold peer_in_use. cbn [register_gateway sf_rings]. rewrite Hrings. cbn.
    destruct (pid_alive _ _); cbn; [|done]. destruct (Z.eqb_spec (rh_producer_heartbeat_ns h) 0); [done|].
    destruct Hstale; [done|]. blia. }
  exists g. split; [done|]. rewrite Hg. destruct (Z.to_nat n) as [|m] eqn:Em; [lia|]. by eexists.
Qed.

(** The gateway's next request makes the requests of the earlier run readable
    again: the business process takes them from the slots, which the rebuild
    leaves as they are, in front of the new one. *)
Theorem early_gateway_replays (d : fs) (slots : list Slot) pkt payload max :
  let k := rh_head h in
  d !! name = Some (register_gateway pid f) ->
  0 <= k < 2 ^ 32 - 1 -> k <> 512 -> length slots = 512%nat -> 0 < max ->
  (exists g gs, map_file true (sys_ok kill now) name n ReqRing_kSlotCount sz total true d
                = (Ok tt, <[name := g]> d) /\ sf_rings g = RingHeader0 :: gs)
  /\ exists p' h' slots',
    push ReqRingBits (mk_producer (prod_register_pid h pid)) RingHeader0 slots (rh_tail RingHeader0) pkt payload
      = (true, p', h', slots')
    /\ let '(m, start) := pop_batch ReqRingBits (mk_consumer RingHeader0) (rh_head h') max in
       m = Z.min (Z.min max (k + 1)) 512 /\ start = 0%nat
       /\ forall i s, (i < Z.to_nat m)%nat -> i <> Z.to_nat (k mod 512) -> slots !! i = Some s ->
            read_batch slots' start m !! i = Some (slot_msg s).
Proof using Hn Htotal Hvalid Hrings Hstale.
  intros k Hd Hk Hne Hlen Hmax. split.
  { destruct (rebuilt_under_gateway d Hd) as (g & E & gs & Hg). by exists g, gs. }
  clear Hn Htotal Hvalid Hrings Hstale Hd. unfold push, begin_write, publish, pop_batch, mk_producer, mk_consumer.
  change (kSlotCount ReqRingBits) with 512. change (kMask ReqRingBits) with 511.
  cbn [head_local head_published unpublished prod_register_pid rh_head rh_tail RingHeader0 tail_local]. fold k.
  rewrite (u32_small (k - 0)) by lia. destruct (Z.eqb_spec (k - 0) 512); [lia|].
  do 3 eexists. split; [reflexivity|]. cbn [rh_head head_published].
  rewrite !(u32_small (k + 1)), !(u32_small (k + 1 - 0)) by lia.
  change (u32 (512 - Z.land 0 511)) with 512. change (Z.to_nat (Z.land 0 511)) with 0%nat.
  split; [lia|]. split; [done|]. intros i s Hi Hik Hs.
  unfold read_batch. rewrite list_lookup_fmap, drop_0, lookup_take_lt by lia.
  assert (Z.land k 511 = k mod 512) as -> by (change 511 with (Z.ones 9); by rewrite Z.land_ones).
  by rewrite list_lookup_alter_ne, Hs.
Qed.
End TooEarly.

(** Three requests of an earlier run are executed again. *)
Lemma early_gateway_replays_witness :
  exists h' slots', let old := mkSlot (mkPacket 7 0x13 0 1 0 0 0) [] in
    push ReqRingBits (mk_producer (mkRingHeader 3 9 5 3 8 5)) RingHeader0 (replicate 512 old) 0 IpcPacket0 []
      = (true, mkProducer 4 4 0, h', slots')
    /\ read_batch slots' 0 3 = [slot_msg old; slot_msg old; slot_msg old]
    /\ fst (pop_batch ReqRingBits (mk_consumer RingHeader0) (rh_head h') 64) = 4.
Proof.
  set (h := mkRingHeader 3 2 5 3 8 5). set (old := mkSlot (mkPacket 7 0x13 0 1 0 0 0) []).
  set (f := mkFile 4096 (mkFileHeader kShmMagic kShmVersion 1 512 4096 0 4096 0) [h]).
  destruct (early_gateway_replays (fun _ => None) (10 ^ 10) 9 "/bike0_req" 1 4096 4096 f h []
    ltac:(lia) ltac:(lia) ltac:(by vm_compute) eq_refl ltac:(right; by vm_compute)
    {[ "/bike0_req"%string := register_gateway 9 f ]} (replicate 512 old) IpcPacket0 [] 64)
    as [_ (p' & h' & slots' & E & H)].
  - apply lookup_singleton_eq.
  - by vm_compute.
  - by vm_compute.
  - apply length_replicate.
  - lia.
  - exists h', slots'. cbv zeta. vm_compute in E. injection E as <- <- <-.
    split; [by vm_compute|]. split; by vm_compute.
Defined.
