(* ===== verification/ClientNet.v ===== *)
(** * The client's network worker

    client/src/net/tcp_worker.cpp.  The Qt socket is part of the environment:
    [SockState] is its state, and the events say when its signals arrive.  Two
    documented behaviours of QAbstractSocket are used: [connectToHost] does
    nothing unless the socket is unconnected, and closing or aborting a
    connected socket emits [disconnected] before it returns. *)

From S2P Require Import Prelude Protocol FrameCut.

Inductive SockState : Type := Unconnected | Connecting | Connected.
#[export] Instance SockState_eq_dec : EqDecision SockState.
Proof. solve_decision. Defined.

Record TcpWorker : Type := mkWorker {
  host_ : string; port_ : Z; shutting_down_ : bool; connecting_ : bool;
  reconnect_scheduled_ : bool; backoff_ms_ : Z;
  sock_ : option SockState;      (* nullptr or the socket *)
  rx_ : list byte; pending_ : list (list byte);
  timers : nat                   (* single-shot timers not yet fired *)
}.

Inductive out : Type :=
| EmitConnected | EmitDisconnected | EmitError | EmitFrame (f : Frame)
| Write (wire : list byte) | StartTimer (ms : Z).

Definition kMaxPendingFrames : Z := 128.
Definition kBackoffInitMs : Z := 500.
Definition kBackoffCapMs : Z := 10000.

Definition worker0 : TcpWorker :=
  mkWorker "" 0 false false false kBackoffInitMs None [] [] 0.

Definition sock_state (w : TcpWorker) : SockState := default Unconnected (sock_ w).
Definition set_sock (s : option SockState) (w : TcpWorker) : TcpWorker :=
  mkWorker (host_ w) (port_ w) (shutting_down_ w) (connecting_ w) (reconnect_scheduled_ w)
    (backoff_ms_ w) s (rx_ w) (pending_ w) (timers w).
Definition set_connecting (b : bool) (w : TcpWorker) : TcpWorker :=
  mkWorker (host_ w) (port_ w) (shutting_down_ w) b (reconnect_scheduled_ w)
    (backoff_ms_ w) (sock_ w) (rx_ w) (pending_ w) (timers w).
Definition set_rx (r : list byte) (w : TcpWorker) : TcpWorker :=
  mkWorker (host_ w) (port_ w) (shutting_down_ w) (connecting_ w) (reconnect_scheduled_ w)
    (backoff_ms_ w) (sock_ w) r (pending_ w) (timers w).
Definition set_pending (q : list (list byte)) (w : TcpWorker) : TcpWorker :=
  mkWorker (host_ w) (port_ w) (shutting_down_ w) (connecting_ w) (reconnect_scheduled_ w)
    (backoff_ms_ w) (sock_ w) (rx_ w) q (timers w).

Definition ensureSocket (w : TcpWorker) : TcpWorker :=
  match sock_ w with Some _ => w | None => set_sock (Some Unconnected) w end.

(** [sock_->connectToHost(...)] *)
Definition connectToHost (w : TcpWorker) : TcpWorker :=
  match sock_ w with
  | Some Unconnected => set_sock (Some Connecting) w
  | _ => w
  end.

Definition connectToServer (host : string) (port : Z) (w : TcpWorker) : TcpWorker :=
  if shutting_down_ w then w
  else
    let w := mkWorker host port (shutting_down_ w) (connecting_ w) (reconnect_scheduled_ w)
               (backoff_ms_ w) (sock_ w) (rx_ w) (pending_ w) (timers w) in
    if connecting_ w || (match sock_ w with Some s => negb (bool_decide (s = Unconnected)) | None => false end)
    then w
    else connectToHost (set_connecting true (ensureSocket w)).

Definition sendFrame (eid seq : Z) (payload : list byte) (w : TcpWorker) : list out * TcpWorker :=
  match encode (mkFrame eid seq payload) with
  | Err _ => ([EmitError], w)
  | Ok wire =>
      if bool_decide (sock_state w = Connected) then ([Write wire], w)
      else if negb (eid =? event_id RidePositionReport) then ([], w)
      else
        let q := if size_of (pending_ w) >=? kMaxPendingFrames then drop 1 (pending_ w) else pending_ w in
        ([], set_pending (q ++ [wire]) w)
  end.

(** The sockets handled here are unconnected already: [abort] is silent. *)
Definition scheduleReconnect (w : TcpWorker) : list out * TcpWorker :=
  if shutting_down_ w || bool_decide (host_ w = ""%string) then ([], w)
  else if reconnect_scheduled_ w then ([], w)
  else
    ([StartTimer (backoff_ms_ w)],
     mkWorker (host_ w) (port_ w) (shutting_down_ w) (connecting_ w) true
       (Z.min (backoff_ms_ w * 2) kBackoffCapMs) (sock_ w) (rx_ w) (pending_ w) (S (timers w))).

(** The lambda of the single-shot timer. *)
Definition onTimer (w : TcpWorker) : TcpWorker :=
  let w := mkWorker (host_ w) (port_ w) (shutting_down_ w) (connecting_ w) false
             (backoff_ms_ w) (sock_ w) (rx_ w) (pending_ w) (pred (timers w)) in
  if shutting_down_ w then w
  else connectToHost (ensureSocket (set_connecting true w)).

Definition onDisconnected (w : TcpWorker) : list out * TcpWorker :=
  let w := if connecting_ w then set_connecting false w else w in
  let w := set_rx [] w in
  let '(o, w) := scheduleReconnect w in
  (EmitDisconnected :: o, w).

Definition flushPending (w : TcpWorker) : list out * TcpWorker :=
  match sock_ w, pending_ w with
  | None, _ | _, [] => ([], w)
  | Some _, q => (Write <$> q, set_pending [] w)
  end.

Definition onConnected (w : TcpWorker) : list out * TcpWorker :=
  let w := mkWorker (host_ w) (port_ w) (shutting_down_ w) false (reconnect_scheduled_ w)
             kBackoffInitMs (sock_ w) [] (pending_ w) (timers w) in
  let '(o, w) := flushPending w in
  (o ++ [EmitConnected], w).

(** Dropping a connected socket delivers its [disconnected] signal first. *)
Definition dropSocket (w : TcpWorker) : list out * TcpWorker :=
  match sock_ w with
  | None => ([], w)
  | Some s =>
      let '(o, w) := if bool_decide (s = Connected) then onDisconnected (set_sock (Some Unconnected) w)
                     else ([], w) in
      (o, set_sock None w)
  end.

Definition onReadyRead (bs : list byte) (w : TcpWorker) : list out * TcpWorker :=
  let '(ok, rest, fs) := consume_frames (rx_ w ++ bs) in
  let w := set_rx rest w in
  if ok : bool then (EmitFrame <$> fs, w)
  else
    let '(o1, w) := dropSocket w in
    let '(o2, w) := onDisconnected w in
    ((EmitFrame <$> fs) ++ [EmitError] ++ o1 ++ o2, w).

Definition onError (w : TcpWorker) : list out * TcpWorker :=
  if connecting_ w && negb (shutting_down_ w) && bool_decide (sock_ w = Some Unconnected)
  then
    let '(o, w) := scheduleReconnect (set_connecting false w) in (EmitError :: o, w)
  else ([EmitError], w).

Definition shutdown (w : TcpWorker) : list out * TcpWorker :=
  let w := mkWorker (host_ w) (port_ w) true (connecting_ w) (reconnect_scheduled_ w)
             (backoff_ms_ w) (sock_ w) (rx_ w) [] (timers w) in
  dropSocket w.

(** ** Events *)

Inductive net_event : Type :=
| CallConnect (host : string) (port : Z) | CallSend (eid seq : Z) (payload : list byte) | CallShutdown
| SigConnected | SigDisconnected | SigReadyRead (bs : list byte)
| SigConnectFailed          (* the attempt failed, errorOccurred *)
| SigError                  (* any other error *)
| TimerFired.

Definition net_enabled (w : TcpWorker) (ev : net_event) : bool :=
  match ev with
  | SigConnected | SigConnectFailed => bool_decide (sock_ w = Some Connecting)
  | SigDisconnected | SigReadyRead _ => bool_decide (sock_ w = Some Connected)
  | TimerFired => (0 <? timers w)%nat
  | CallConnect h _ => negb (bool_decide (h = ""%string))
  | _ => true
  end.

Definition net_handle (ev : net_event) (w : TcpWorker) : list out * TcpWorker :=
  match ev with
  | CallConnect h p => ([], connectToServer h p w)
  | CallSend e s p => sendFrame e s p w
  | CallShutdown => shutdown w
  | SigConnected => onConnected (set_sock (Some Connected) w)
  | SigDisconnected => onDisconnected (set_sock (Some Unconnected) w)
  | SigReadyRead bs => onReadyRead bs w
  | SigConnectFailed => onError (set_sock (Some Unconnected) w)
  | SigError => onError w
  | TimerFired => ([], onTimer w)
  end.

Inductive net_reachable : TcpWorker -> Prop :=
| nr_init : net_reachable worker0
| nr_step w ev : net_reachable w -> net_enabled w ev = true -> net_reachable (snd (net_handle ev w)).

(** ** Invariant *)

Definition position_wire (wire : list byte) : Prop :=
  exists seq p, encode (mkFrame (event_id RidePositionReport) seq p) = Ok wire.

Record net_inv (w : TcpWorker) : Prop := mk_net_inv {
  ni_backoff : 500 <= backoff_ms_ w <= 10000;
  ni_timer : timers w = if reconnect_scheduled_ w then 1%nat else 0%nat;
  ni_pending : (length (pending_ w) <= 128)%nat;
  ni_wires : Forall position_wire (pending_ w);
  ni_connecting : connecting_ w = true -> sock_ w = Some Connecting \/ sock_ w = Some Connected
                  \/ shutting_down_ w = true;
  ni_attempt : sock_ w = Some Connecting -> connecting_ w = true;
  ni_alive : shutting_down_ w = false -> host_ w <> ""%string ->
    sock_ w = Some Connecting \/ sock_ w = Some Connected \/ reconnect_scheduled_ w = true;
  ni_host : sock_ w = Some Connecting \/ sock_ w = Some Connected \/ reconnect_scheduled_ w = true ->
    host_ w <> ""%string
}.

(** [net_inv] without [ni_alive], in a state without an attempt under way. *)
Record net_pre (w : TcpWorker) : Prop := mk_net_pre {
  np_backoff : 500 <= backoff_ms_ w <= 10000;
  np_timer : timers w = if reconnect_scheduled_ w then 1%nat else 0%nat;
  np_pending : (length (pending_ w) <= 128)%nat;
  np_wires : Forall position_wire (pending_ w);
  np_sched : reconnect_scheduled_ w = true -> host_ w <> ""%string;
  np_idle : connecting_ w = false /\ sock_ w <> Some Connecting /\ sock_ w <> Some Connected
}.

Ltac net_inv := split; simpl in *; first [done | lia | congruence | intuition congruence].

Lemma schedule_inv w : net_pre w -> net_inv (snd (scheduleReconnect w)).
Proof.
  intros [P1 P2 P3 P4 P0 (P5 & P6 & P7)]. unfold scheduleReconnect, kBackoffCapMs.
  destruct w as [h p sd cn rs bo sk rx pd tm]. simpl in *.
  destruct sd; simpl; [net_inv|]. case_bool_decide; simpl; [net_inv|].
  destruct rs; simpl; net_inv.
Qed.

(** Losing the connection, or an attempt that failed. *)
Lemma lost_inv w b :
  net_inv w -> net_inv (snd (scheduleReconnect (set_rx b (set_connecting false (set_sock (Some Unconnected) w)))))
  /\ net_inv (snd (scheduleReconnect (set_rx b (set_connecting false (set_sock None w))))).
Proof.
  intros [P1 P2 P3 P4 P5 P6 P7 P8]. destruct w as [h p sd cn rs bo sk rx pd tm]. simpl in *.
  split; apply schedule_inv; split; simpl; intuition congruence.
Qed.

Lemma onDisconnected_eq w :
  onDisconnected w = (let '(o, w) := scheduleReconnect (set_rx [] (set_connecting false w)) in
                      (EmitDisconnected :: o, w)).
Proof. unfold onDisconnected. destruct w as [h p sd [] rs bo sk rx pd tm]; done. Qed.

Lemma disconnected_inv w : net_inv w ->
  net_inv (snd (onDisconnected (set_sock (Some Unconnected) w)))
  /\ net_inv (snd (onDisconnected (set_sock None w))).
Proof.
  intros I. rewrite !onDisconnected_eq. destruct (lost_inv w [] I) as [H1 H2].
  change (set_connecting false (set_sock ?s w)) with (set_connecting false (set_sock s w)).
  destruct (scheduleReconnect (set_rx [] (set_connecting false (set_sock (Some Unconnected) w)))).
  by destruct (scheduleReconnect (set_rx [] (set_connecting false (set_sock None w)))).
Qed.

Lemma schedule_sock w : sock_ (snd (scheduleReconnect w)) = sock_ w.
Proof. unfold scheduleReconnect. repeat case_match; done. Qed.
Lemma disconnected_sock w : sock_ (snd (onDisconnected w)) = sock_ w.
Proof.
  rewrite onDisconnected_eq. pose proof (schedule_sock (set_rx [] (set_connecting false w))) as H.
  by destruct (scheduleReconnect _).
Qed.
Lemma schedule_rx w r : snd (scheduleReconnect (set_rx r w)) = set_rx r (snd (scheduleReconnect w)).
Proof. unfold scheduleReconnect. simpl. repeat case_match; simplify_eq; done. Qed.

Lemma set_rx_inv r w : net_inv w -> net_inv (set_rx r w).
Proof. intros []. by split. Qed.

(** A bad frame: the socket is dropped, then [onDisconnected] runs. *)
Lemma bad_frame_inv w : net_inv w -> sock_ w = Some Connected ->
  net_inv (snd (onDisconnected (snd (dropSocket w)))).
Proof.
  intros I Hc. unfold dropSocket. rewrite Hc. rewrite bool_decide_eq_true_2 by done.
  destruct (disconnected_inv w I) as [I1 _].
  destruct (onDisconnected (set_sock (Some Unconnected) w)) as [o w']. simpl in *.
  by apply (disconnected_inv w').
Qed.

Lemma shutdown_inv w : net_inv w -> net_inv (snd (shutdown w)).
Proof.
  intros [P1 P2 P3 P4 P5 P6 P7 P8]. unfold shutdown, dropSocket, onDisconnected, scheduleReconnect.
  destruct w as [h p sd cn rs bo sk rx pd tm]. simpl in *.
  destruct sk as [[]|]; simpl; [net_inv|net_inv| |net_inv].
  destruct cn; simpl; net_inv.
Qed.

Lemma send_inv e q p w : net_inv w -> net_inv (snd (sendFrame e q p w)).
Proof.
  intros [P1 P2 P3 P4 P5 P6 P7 P8]. unfold sendFrame.
  destruct (encode (mkFrame e q p)) as [wire|] eqn:Ee; [|by split].
  case_bool_decide; [by split|]. destruct (Z.eqb_spec e (event_id RidePositionReport)) as [->|]; [|by split].
  simpl. assert (Hw : Forall position_wire [wire]) by (constructor; [by eexists _, _|done]).
  unfold kMaxPendingFrames, size_of in *. case_if; split; simpl; try done.
  - rewrite length_app, length_drop. simpl. lia.
  - apply Forall_app. split; [by apply Forall_drop|done].
  - rewrite length_app. simpl. blia.
  - by apply Forall_app.
Qed.

Lemma connected_inv w : net_inv w -> sock_ w = Some Connecting ->
  net_inv (snd (onConnected (set_sock (Some Connected) w))).
Proof.
  intros [P1 P2 P3 P4 P5 P6 P7 P8] Hs. unfold onConnected, flushPending, kBackoffInitMs.
  destruct w as [h p sd cn rs bo sk rx pd tm]. simpl in *. destruct pd; simpl; net_inv.
Qed.

Lemma error_inv w : net_inv w -> net_inv (snd (onError w)).
Proof.
  intros I. unfold onError. destruct (connecting_ w) eqn:Ec; simpl; [|done].
  destruct (shutting_down_ w) eqn:Es; simpl; [done|]. case_bool_decide as Hs; simpl; [|done].
  destruct (ni_connecting _ I Ec) as [?|[?|?]]; congruence.
Qed.

Lemma failed_inv w : net_inv w -> sock_ w = Some Connecting ->
  net_inv (snd (onError (set_sock (Some Unconnected) w))).
Proof.
  intros I Hs. unfold onError. simpl. rewrite (ni_attempt _ I Hs).
  destruct (shutting_down_ w) eqn:Es; simpl.
  - destruct I as [P1 P2 P3 P4 P5 P6 P7 P8]. net_inv.
  - destruct (lost_inv w (rx_ w) I) as [H _].
    replace (set_rx (rx_ w) (set_connecting false (set_sock (Some Unconnected) w)))
      with (set_connecting false (set_sock (Some Unconnected) w)) in H by (by destruct w).
    by destruct (scheduleReconnect (set_connecting false (set_sock (Some Unconnected) w))).
Qed.

Lemma connect_inv h p w : h <> ""%string -> net_inv w -> net_inv (connectToServer h p w).
Proof.
  intros Hh [P1 P2 P3 P4 P5 P6 P7 P8]. unfold connectToServer, ensureSocket, connectToHost.
  destruct w as [h' p' sd cn rs bo sk rx pd tm]. simpl in *. destruct sd; [net_inv|].
  destruct cn; simpl; [net_inv|]. destruct sk as [[]|]; simpl; net_inv.
Qed.

Lemma timer_inv w : net_inv w -> (0 < timers w)%nat -> net_inv (onTimer w).
Proof.
  intros [P1 P2 P3 P4 P5 P6 P7 P8] Ht. unfold onTimer, ensureSocket, connectToHost.
  destruct w as [h' p' sd cn rs bo sk rx pd tm]. simpl in *.
  destruct rs; simpl in *; [|lia]. subst tm. simpl.
  destruct sd; simpl; [net_inv|]. destruct sk as [[]|]; simpl; net_inv.
Qed.

Lemma net_inv_step w ev : net_inv w -> net_enabled w ev = true -> net_inv (snd (net_handle ev w)).
Proof.
  intros I. destruct ev; cbn [net_handle net_enabled]; intros Hen.
  - apply connect_inv; [|done]. by apply negb_true_iff, bool_decide_eq_false in Hen.
  - by apply send_inv.
  - by apply shutdown_inv.
  - apply bool_decide_eq_true in Hen. by apply connected_inv.
  - by apply (disconnected_inv w).
  - apply bool_decide_eq_true in Hen. unfold onReadyRead.
    destruct (consume_frames (rx_ w ++ bs)) as [[ok rest] fs]. destruct ok; simpl.
    + by apply set_rx_inv.
    + pose proof (bad_frame_inv (set_rx rest w) (set_rx_inv rest w I) Hen) as Hb.
      destruct (dropSocket (set_rx rest w)) as [o1 w1]. simpl in Hb.
      by destruct (onDisconnected w1).
  - apply bool_decide_eq_true in Hen. by apply failed_inv.
  - by apply error_inv.
  - apply timer_inv; [done|]. by apply Nat.ltb_lt.
Qed.

Lemma net_reachable_inv w : net_reachable w -> net_inv w.
Proof.
  induction 1 as [|w ev _ IH Hen]; [|by apply net_inv_step].
  split; simpl; try done; try lia. intros [?|[?|?]]; congruence.
Qed.

(** C23: the client never stays offline by itself.  In every state the worker
    can reach, unless it was shut down or never told a host, it is connected,
    an attempt is under way or exactly one reconnect timer is armed; the
    backoff lies between half a second and ten seconds; and what it buffers
    while offline is at most 128 frames, all position reports, so no request
    is ever replayed to a later connection. *)
Theorem client_net_invariant w :
  net_reachable w ->
  (shutting_down_ w = false -> host_ w <> ""%string ->
     sock_ w = Some Connecting \/ sock_ w = Some Connected \/ timers w = 1%nat)
  /\ (timers w <= 1)%nat /\ 500 <= backoff_ms_ w <= 10000
  /\ (length (pending_ w) <= 128)%nat /\ Forall position_wire (pending_ w).
Proof.
  intros R. destruct (net_reachable_inv w R) as [P1 P2 P3 P4 P5 P6 P7 P8].
  split; [|split; [rewrite P2; destruct (reconnect_scheduled_ w); lia|done]].
  intros Hs Hh. destruct (P7 Hs Hh) as [?|[?|E]]; [by left|by right; left|].
  right. right. by rewrite P2, E.
Qed.

Definition net_demo : TcpWorker :=
  snd (net_handle SigConnectFailed (snd (net_handle (CallConnect "10.0.0.1" 8888) worker0))).

Lemma client_net_invariant_witness : timers net_demo = 1%nat /\ backoff_ms_ net_demo = 1000.
Proof.
  destruct (client_net_invariant net_demo) as (H & _).
  - apply nr_step; [apply nr_step; [apply nr_init|reflexivity]|vm_compute; reflexivity].
  - split; [|reflexivity]. destruct H as [E|[E|E]]; [reflexivity|done|discriminate E|discriminate E|exact E].
Defined.
