(* ===== verification/Shell.v ===== *)
(** * The outer shell: descriptors of the engine, logging, client start-up

    - UringEngine and WorkerOutbox: what the constructor, the start of [run] and
      the destructor do with descriptors and the ring, on every path.
    - logging.cpp: which messages reach the log.
    - client/src/main.cpp, the construction of ApiBridge and MapBridge: where
      the client connects to. *)

From S2P Require Import Prelude Protocol FrameCut Connection Engine ClientNet Config.

(** ** Descriptors of the engine *)

(** [efd1], [efd2]: the two eventfds, [so], [ri]: the socket and the ring, as
    the calls return them ([None]: failed); [bi], [li]: bind and listen. *)
Record Calls : Type := mkCalls {
  efd1 : option Z; efd2 : option Z; so : option Z; bi : bool; li : bool; ri : bool
}.

Inductive dev : Type := DOpen (fd : Z) | DClose (fd : Z) | DRingInit | DRingExit | DJoin.

Record EngineFds : Type := mkFds { outbox_efd : Z; stop_efd : Z; listen_fd : Z; ring_ready : bool }.

Definition opened (o : option Z) : list dev := match o with Some f => [DOpen f] | None => [] end.
Definition fd_or (o : option Z) : Z := default (-1) o.
Definition closes (f : Z) : list dev := if 0 <=? f then [DClose f] else [].

(** The constructor, members first: outbox, workers, then the body.  When the
    body throws, the members are destroyed and the destructor is not run. *)
Definition engine_ctor (x : Calls) : result EngineFds * list dev :=
  match efd1 x with
  | None => (Err (RuntimeError "eventfd() failed"), [])
  | Some f =>
      match efd2 x with
      | None => (Err (RuntimeError "stop eventfd() failed"), [DOpen f; DJoin] ++ closes f)
      | Some g => (Ok (mkFds f g (-1) false), [DOpen f; DOpen g])
      end
  end.

Definition open_listen_socket (x : Calls) (e : EngineFds) : result unit * EngineFds * list dev :=
  let e := mkFds (outbox_efd e) (stop_efd e) (fd_or (so x)) (ring_ready e) in
  match so x with
  | None => (Err (RuntimeError "socket() failed"), e, [])
  | Some f =>
      (if negb (bi x) then Err (RuntimeError "bind() failed")
       else if negb (li x) then Err (RuntimeError "listen() failed") else Ok tt, e, [DOpen f])
  end.
Definition init_ring (x : Calls) (e : EngineFds) : result unit * EngineFds * list dev :=
  if ri x then (Ok tt, mkFds (outbox_efd e) (stop_efd e) (listen_fd e) true, [DRingInit])
  else (Err (RuntimeError "io_uring_queue_init failed"), e, []).

(** [run] up to the loop: the first call that throws ends it. *)
Definition run_start (o : GatewayOptions) (x : Calls) (e : EngineFds) : result unit * EngineFds * list dev :=
  let '(r, e, t) := open_listen_socket x e in
  match r with
  | Err y => (Err y, e, t)
  | Ok _ =>
      let '(r, e, t') := init_ring x e in
      match r with
      | Err y => (Err y, e, t ++ t')
      | Ok _ => (validate_sq_capacity o, e, t ++ t')
      end
  end.

(** [run] on entering the drain. *)
Definition drain_listen (e : EngineFds) : EngineFds * list dev :=
  if 0 <=? listen_fd e
  then (mkFds (outbox_efd e) (stop_efd e) (-1) (ring_ready e), [DClose (listen_fd e)])
  else (e, []).

(** The body of the destructor, then the members in reverse order. *)
Definition engine_dtor (e : EngineFds) : list dev :=
  (if ring_ready e then [DRingExit] else []) ++ closes (listen_fd e) ++ closes (stop_efd e)
  ++ [DJoin] ++ closes (outbox_efd e).

(** An engine from construction to destruction; [drains]: how often the loop
    enters the drain branch. *)
Definition engine_life (o : GatewayOptions) (x : Calls) (drains : nat) : list dev :=
  match engine_ctor x with
  | (Err _, t) => t
  | (Ok e, t) =>
      let '(r, e, t1) := run_start o x e in
      let '(e, t2) := match r with
                      | Ok _ => Nat.iter drains (fun '(e, t) => let '(e, t') := drain_listen e in (e, t ++ t')) (e, [])
                      | Err _ => (e, [])
                      end in
      t ++ t1 ++ t2 ++ engine_dtor e
  end.

(** What is open after a trace: [None] when something is closed that is not
    open, the ring is left before it was set up, or a descriptor is opened that
    is open already. *)
Fixpoint watch (t : list dev) (fds : list Z) (ring : bool) : option (list Z * bool) :=
  match t with
  | [] => Some (fds, ring)
  | DOpen f :: t => if bool_decide (f ∈ fds) then None else watch t (f :: fds) ring
  | DClose f :: t => if bool_decide (f ∈ fds) then watch t (List.filter (fun g => negb (g =? f)) fds) ring else None
  | DRingInit :: t => if ring then None else watch t fds true
  | DRingExit :: t => if ring then watch t fds false else None
  | DJoin :: t => watch t fds ring
  end.

(** The kernel hands out descriptors that are not open. *)
Record calls_ok (x : Calls) : Prop := {
  co_pos f : Some f ∈ [efd1 x; efd2 x; so x] -> 0 <= f;
  co_12 f : efd1 x = Some f -> efd2 x = Some f -> False;
  co_1s f : efd1 x = Some f -> so x = Some f -> False;
  co_2s f : efd2 x = Some f -> so x = Some f -> False
}.

Lemma drain_once drains e :
  Nat.iter (S drains) (fun '(e, t) => let '(e, t') := drain_listen e in (e, t ++ t')) (e, [])
  = (fst (drain_listen e), snd (drain_listen e)).
Proof.
  induction drains as [|n IH].
  - cbn. by destruct (drain_listen e) as [e' t'].
  - rewrite Nat.iter_succ, IH. unfold drain_listen. destruct (Z.leb_spec 0 (listen_fd e)) as [H|H]; cbn.
    + done.
    + destruct (Z.leb_spec 0 (listen_fd e)); [lia|]. cbn. done.
Qed.

Lemma closes_fd f : 0 <= f -> closes f = [DClose f].
Proof. intros H. unfold closes. by destruct (Z.leb_spec 0 f); [|lia]. Qed.

Lemma here (a : Z) l : bool_decide (a ∈ a :: l) = true.
Proof. apply bool_decide_eq_true_2. by left. Qed.

(** Plays a trace whose descriptors are told apart by hypotheses. *)
Ltac watch :=
  repeat (cbn -[bool_decide]; rewrite ?here, ?Z.eqb_refl;
          repeat match goal with |- context [?a =? ?b] => destruct (Z.eqb_spec a b); [congruence|] end);
  try reflexivity.

(** The destructor on what is open. *)
Lemma dtor_balanced f g k ready :
  f <> g -> f <> k -> g <> k -> 0 <= f -> 0 <= g ->
  watch (engine_dtor (mkFds f g k ready)) ((if 0 <=? k then [k] else []) ++ [g; f]) ready = Some ([], false).
Proof.
  intros Hfg Hfk Hgk Hf Hg. unfold engine_dtor. cbn [ring_ready listen_fd stop_efd outbox_efd].
  rewrite (closes_fd f), (closes_fd g) by done. unfold closes.
  destruct (0 <=? k), ready; watch.
Qed.

Lemma watch_app t t' fds ring :
  watch (t ++ t') fds ring
  = match watch t fds ring with Some (fds, ring) => watch t' fds ring | None => None end.
Proof.
  revert fds ring. induction t as [|[f|f| | |] t IH]; intros fds ring; cbn; try done.
  - by destruct (bool_decide _).
  - by destruct (bool_decide _).
  - by destruct ring.
  - by destruct ring.
Qed.

(** The start of [run]: what it opened, the object knows. *)
Lemma start_known o x f g :
  calls_ok x -> efd1 x = Some f -> efd2 x = Some g ->
  let '(r, e, t) := run_start o x (mkFds f g (-1) false) in
  exists k ready, e = mkFds f g k ready /\ f <> k /\ g <> k
    /\ watch t [g; f] false = Some ((if 0 <=? k then [k] else []) ++ [g; f], ready).
Proof.
  intros [Hp H12 H1s H2s] Ef Eg. assert (0 <= f) by (apply Hp; rewrite Ef; set_solver).
  assert (0 <= g) by (apply Hp; rewrite Eg; set_solver).
  unfold run_start, open_listen_socket, init_ring. destruct (so x) as [k|] eqn:Es; cbn [fd_or default].
  2: { exists (-1), false. repeat split; lia || done. }
  assert (0 <= k) by (apply Hp; set_solver).
  assert (f <> k) by (intros ->; by apply (H1s k)). assert (g <> k) by (intros ->; by apply (H2s k)).
  destruct (bi x), (li x), (ri x); cbn -[bool_decide];
    (eexists k, _; split; [reflexivity|]; split; [done|]; split; [done|]);
    rewrite bool_decide_eq_false_2 by (rewrite !elem_of_cons, elem_of_nil; intuition congruence);
    by destruct (Z.leb_spec 0 k); [|lia].
Qed.

(** Whatever fails, construction, start, drain and destruction leave no
    descriptor and no ring behind and close nothing twice. *)
Theorem engine_descriptors_balanced o x drains :
  calls_ok x -> watch (engine_life o x drains) [] false = Some ([], false).
Proof.
  intros Hx. pose proof Hx as [Hp H12 H1s H2s]. unfold engine_life, engine_ctor.
  destruct (efd1 x) as [f|] eqn:Ef; [|done]. assert (0 <= f) by (apply Hp; set_solver).
  destruct (efd2 x) as [g|] eqn:Eg; [|rewrite closes_fd by done; watch].
  assert (0 <= g) by (apply Hp; set_solver). assert (f <> g) by (intros ->; by apply (H12 g)).
  pose proof (start_known o x f g Hx Ef Eg) as Hs.
  destruct (run_start o x (mkFds f g (-1) false)) as [[r e] t1]. destruct Hs as (k & ready & -> & Hfk & Hgk & Ht).
  assert (Hboth : watch [DOpen f; DOpen g] [] false = Some ([g; f], false)).
  { cbn -[bool_decide]. rewrite !bool_decide_eq_false_2; [done | |]; rewrite ?elem_of_cons, elem_of_nil; intuition congruence. }
  pose proof (dtor_balanced f g k ready) as Hd.
  destruct r as [[]|y].
  2: { rewrite watch_app, Hboth, watch_app, Ht. cbn. by apply Hd. }
  destruct drains as [|n]; [cbn -[watch engine_dtor app]; rewrite watch_app, Hboth, watch_app, Ht; by apply Hd|].
  rewrite drain_once. unfold drain_listen. cbn [listen_fd].
  destruct (Z.leb_spec 0 k); cbn [fst snd outbox_efd stop_efd ring_ready listen_fd].
  - rewrite watch_app, Hboth, watch_app, Ht. cbn -[bool_decide engine_dtor]. rewrite here. cbn -[bool_decide engine_dtor].
    rewrite Z.eqb_refl. destruct (Z.eqb_spec g k), (Z.eqb_spec f k); [congruence..|].
    apply (dtor_balanced f g (-1) ready); lia || done.
  - rewrite watch_app, Hboth, watch_app, Ht. by apply Hd.
Qed.

(** bind fails; the socket is closed by the destructor. *)
Lemma engine_descriptors_balanced_witness :
  watch (engine_life (mkOptions "0.0.0.0" 8888 1024 4096 4 64 0 0 512) (mkCalls (Some 4) (Some 5) (Some 6) false true true) 1)
    [] false = Some ([], false).
Proof.
  apply (engine_descriptors_balanced (mkOptions "0.0.0.0" 8888 1024 4096 4 64 0 0 512)
    (mkCalls (Some 4) (Some 5) (Some 6) false true true) 1).
  split; cbn; [|congruence..]. intros f. rewrite !elem_of_cons, elem_of_nil. intros Hf.
  destruct Hf as [Hf|[Hf|[Hf|[]]]]; injection Hf as ->; lia.
Defined.

(** ** The listening address *)

Section Listen.
(** [inet_pton(AF_INET, ...)]: the address in network order, when the text is
    one. *)
Context (inet_pton : string -> option Z).

Definition INADDR_ANY : Z := 0.
Definition listen_addr (o : GatewayOptions) : Z * Z := (default INADDR_ANY (inet_pton (listen o)), u16 (port o)).

(** The engine of a configuration that loads binds the configured port; the
    address is the configured one, or all interfaces when it is not a dotted
    quad (a host name, an IPv6 address, a typing error). *)
Theorem listen_addr_of_config {T} vi vs (root : string -> option T) c env :
  load_config vi vs (Ok root) = Ok c ->
  snd (listen_addr (gateway_options env c)) = s_port (server c)
  /\ fst (listen_addr (gateway_options env c))
     = match inet_pton (s_listen (server c)) with Some a => a | None => INADDR_ANY end.
Proof.
  intros H. destruct (load_config_parts vi vs root c H) as (Hp & _ & _).
  split; [|by cbn; destruct (inet_pton _)]. unfold listen_addr. cbn [snd gateway_options port].
  apply u16_small. lia.
Qed.
End Listen.

Lemma listen_addr_of_config_witness :
  listen_addr (fun _ => None) (gateway_options None config_demo) = (0, 8888).
Proof.
  destruct (listen_addr_of_config (fun _ => None) int_demo str_demo toml_demo config_demo None) as [H1 H2].
  - vm_compute. reflexivity.
  - rewrite (surjective_pairing (listen_addr _ _)), H1, H2. reflexivity.
Defined.

(** ** Logging *)

Inductive LogLevel : Type := Debug | Info | Warn | Error.
Definition severity (l : LogLevel) : Z :=
  match l with Debug => 1 | Info => 2 | Warn => 3 | Error => 4 end.

(** The level [init_logging] sets. *)
Definition init_logging (level : string) : LogLevel :=
  if bool_decide (level = "debug"%string) then Debug
  else if bool_decide (level = "info"%string) then Info
  else if bool_decide (level = "warn"%string) then Warn
  else if bool_decide (level = "error"%string) then Error
  else Info.

(** The BIKE_LOG macros: a level below [active] (SPDLOG_ACTIVE_LEVEL) is not
    compiled in. *)
Definition BIKE_LOG (active : LogLevel) (level : string) (m : LogLevel) : bool :=
  (severity active <=? severity m) && (severity (init_logging level) <=? severity m).

(** Errors are logged whatever the configuration says; in a build with the
    default level, "debug" logs what "info" does. *)
Theorem logging_levels active level m :
  BIKE_LOG active level Error = true
  /\ BIKE_LOG Info "debug" m = BIKE_LOG Info "info" m
  /\ (BIKE_LOG Info level Warn = true <-> level <> "error"%string).
Proof.
  split; [|split].
  - unfold BIKE_LOG. destruct active, (init_logging level); reflexivity.
  - by destruct m.
  - unfold BIKE_LOG, init_logging. repeat case_bool_decide; cbn; subst; intuition congruence.
Qed.

(** ** Client start-up *)

Section ClientMain.
(** [QString::toUInt] *)
Context (toUInt : string -> option Z).

Definition server_host (env : option string) : string := default "124.220.92.243"%string env.
Definition server_port (env : option string) : Z := u16 (default 0 (toUInt (default "8888"%string env))).

(** ApiBridge: the started thread makes the worker connect. *)
Definition ApiBridge_ctor (host : string) (port : Z) : TcpWorker := connectToServer host port worker0.

(** [main]: the worker it starts, and the exit status given the one of the
    event loop. *)
Definition client_main (env_host env_port : option string) (root_objects : nat) (exec : Z) : TcpWorker * Z :=
  (ApiBridge_ctor (server_host env_host) (server_port env_port),
   match root_objects with O => -1 | S _ => exec end).

(** The client connects to the port of the environment modulo 65536, and to
    port 0 when the text is no number. *)
Theorem client_main_connects env_host env_port roots exec :
  (forall s v, toUInt s = Some v -> 0 <= v < 2 ^ 32) ->
  let w := fst (client_main env_host env_port roots exec) in
  connecting_ w = true /\ host_ w = server_host env_host
  /\ port_ w = match toUInt (default "8888"%string env_port) with Some v => v mod 2 ^ 16 | None => 0 end
  /\ (forall v, toUInt (default "8888"%string env_port) = Some v -> v < 2 ^ 16 -> port_ w = v).
Proof.
  intros Hr w. subst w. split; [done|]. split; [done|].
  assert (E : port_ (fst (client_main env_host env_port roots exec))
              = match toUInt (default "8888"%string env_port) with Some v => v mod 2 ^ 16 | None => 0 end).
  { change (port_ _) with (server_port env_port). unfold server_port. by destruct (toUInt _). }
  split; [exact E|]. intros v Hv Hlt. rewrite E, Hv. pose proof (Hr _ _ Hv). apply Z.mod_small. lia.
Qed.
End ClientMain.

Lemma client_main_connects_witness :
  port_ (fst (client_main (fun s => if bool_decide (s = "8888"%string) then Some 8888 else None) None None 1 0)) = 8888.
Proof.
  destruct (client_main_connects (fun s => if bool_decide (s = "8888"%string) then Some 8888 else None) None None 1 0)
    as (_ & _ & _ & H).
  - intros s v. case_bool_decide; [|done]. intros [= <-]. lia.
  - apply H; [reflexivity | lia].
Defined.

(** MapBridge: every slot emits the signal of the same content. *)
Inductive MapCall : Type := onBikeClicked (bike_no : string) | onBikeCountsUpdated (idle damaged : Z).
Inductive MapSignal : Type := bikeClicked (bike_no : string) | bikeCountsUpdated (idle damaged : Z).
Definition map_bridge (c : MapCall) : list MapSignal :=
  match c with
  | onBikeClicked b => [bikeClicked b]
  | onBikeCountsUpdated i d => [bikeCountsUpdated i d]
  end.
