(* ===== verification/ClientApi.v ===== *)
(** * The client's API bridge

    client/src/net/api_bridge.cpp: the GUI-side facade that turns calls into
    request frames and responses into result signals.  Serialisation of the
    requests is generated code and a parameter; parsing of the responses comes
    from the class [Pb].  [settings_] is the persistent key of QSettings.  The
    hash of in-flight requests is a map; its iteration order is not relied
    upon. *)

From S2P Require Import Prelude Protocol Double Messages.

Inductive api_request : Type :=
| ReqMobile (m : mobile_request) | ReqLogin (m : login_request) | ReqRecharge (m : recharge_request)
| ReqBalance (m : account_balance_request) | ReqRecords (m : list_account_records_request)
| ReqNearby (m : list_nearby_bikes_request) | ReqUnlock (m : scan_unlock_request)
| ReqPosition (m : ride_position_report) | ReqEnd (m : end_ride_request)
| ReqDamage (m : report_damage_request) | ReqDetail (m : get_ride_detail_request)
| ReqRides (m : list_rides_request).

Record RideDetail : Type := mkDetail {
  d_ride_no : string; d_duration_sec : Z; d_distance_m : Z; d_amount_cent : Z;
  d_start_tm : string; d_end_tm : string; d_points : list ride_point
}.

Inductive signal : Type :=
| sessionChanged | linkStateChanged
| requestSend (eid seq : Z) (payload : list byte)
| mobileCodeResult (ok : bool) (icode : Z) (desc : string)
| loginResult (ok : bool) (desc : string)
| balanceReady (ok : bool) (balance_cent : Z) (desc : string)
| recordsReady (ok : bool) (rows : list account_record) (desc : string)
| nearbyBikesReady (ok : bool) (bikes : list bike_info) (desc : string)
| unlockResult (ok : bool) (ride_no desc : string)
| rideEnded (ok : bool) (amount_cent balance_after : Z) (desc : string)
| damageResult (ok : bool) (desc : string)
| rideDetailReady (ok : bool) (detail : option RideDetail) (desc : string)
| ridesReady (ok : bool) (rides : list ride_summary) (desc : string).

Record ApiBridge : Type := mkBridge {
  token_ : string; mobile_ : string; pending_mobile_ : string; active_ride_ : string;
  link_up_ : bool; seq_counter_ : Z; in_flight_ : gmap Z Z; settings_ : string
}.
Definition bridge0 (saved_ride : string) : ApiBridge := mkBridge "" "" "" "" false 0 ∅ saved_ride.

Definition set_flight (f : gmap Z Z) (b : ApiBridge) : ApiBridge :=
  mkBridge (token_ b) (mobile_ b) (pending_mobile_ b) (active_ride_ b) (link_up_ b) (seq_counter_ b)
    f (settings_ b).
Definition set_ride (active saved : string) (b : ApiBridge) : ApiBridge :=
  mkBridge (token_ b) (mobile_ b) (pending_mobile_ b) active (link_up_ b) (seq_counter_ b)
    (in_flight_ b) saved.

Definition isKnownResponse (rsp : Z) : bool :=
  existsb (Z.eqb rsp) [0x02; 0x04; 0x06; 0x08; 0x10; 0x12; 0x14; 0x18; 0x1A; 0x1C; 0x1E].

Definition rspToReq (rsp : Z) : Z :=
  if rsp =? event_id ListAccountRecordsResponse then event_id ListAccountRecordsRequest
  else u16 (rsp - 1).

Definition nextSeq (b : ApiBridge) : Z * ApiBridge :=
  let s := u32 (seq_counter_ b + 1) in
  let s := if s =? 0 then u32 (s + 1) else s in
  (s, mkBridge (token_ b) (mobile_ b) (pending_mobile_ b) (active_ride_ b) (link_up_ b) s
        (in_flight_ b) (settings_ b)).

Definition busy_desc : string := "上一个请求仍在处理".
Definition parse_desc : string := "响应解析失败".

Section Bridge.
Context {pb : Pb} (serialize : api_request -> list byte).

Definition beginRequest (req_eid : Z) (b : ApiBridge) : bool :=
  match in_flight_ b !! req_eid with Some _ => false | None => true end.

Definition sendRequest (req_eid : Z) (req : api_request) (b : ApiBridge) : list signal * ApiBridge :=
  let '(seq, b) := nextSeq b in
  ([requestSend req_eid seq (serialize req)], set_flight (<[req_eid := seq]> (in_flight_ b)) b).

(** [if (!beginRequest(...)) { emit busy; return; } ... sendRequest(...)] *)
Definition request (ev : Event) (busy : signal) (req : api_request) (b : ApiBridge)
  : list signal * ApiBridge :=
  if beginRequest (event_id ev) b then sendRequest (event_id ev) req b else ([busy], b).

Definition sendMobileCode (mobile : string) (b : ApiBridge) :=
  request MobileRequest (mobileCodeResult false 0 busy_desc) (ReqMobile (mk_mobile_request mobile)) b.
Definition login (mobile : string) (icode : Z) (b : ApiBridge) :=
  if beginRequest (event_id LoginRequest) b then
    let b := mkBridge (token_ b) (mobile_ b) mobile (active_ride_ b) (link_up_ b) (seq_counter_ b)
               (in_flight_ b) (settings_ b) in
    sendRequest (event_id LoginRequest) (ReqLogin (mk_login_request mobile icode)) b
  else ([loginResult false busy_desc], b).
Definition recharge (amount_cent : Z) (b : ApiBridge) :=
  request RechargeRequest (balanceReady false 0 busy_desc)
    (ReqRecharge (mk_recharge_request (token_ b) amount_cent)) b.
Definition refreshBalance (b : ApiBridge) :=
  request AccountBalanceRequest (balanceReady false 0 busy_desc)
    (ReqBalance (mk_account_balance_request (token_ b))) b.
Definition listRecords (b : ApiBridge) :=
  request ListAccountRecordsRequest (recordsReady false [] busy_desc)
    (ReqRecords (mk_list_account_records_request (token_ b))) b.
Definition refreshNearbyBikes (lat lng : double) (b : ApiBridge) :=
  request ListNearbyBikesRequest (nearbyBikesReady false [] busy_desc)
    (ReqNearby (mk_list_nearby_bikes_request (token_ b) lat lng (d_of_Z 1000))) b.
Definition scanUnlock (bike_no : string) (lat lng : double) (b : ApiBridge) :=
  request ScanUnlockRequest (unlockResult false "" busy_desc)
    (ReqUnlock (mk_scan_unlock_request (token_ b) bike_no lat lng)) b.
Definition reportPosition (ride_no : string) (seq_i : Z) (lat lng : double) (elapsed : Z) (b : ApiBridge) :=
  let '(seq, b) := nextSeq b in
  ([requestSend (event_id RidePositionReport) seq
      (serialize (ReqPosition (mk_ride_position_report ride_no seq_i lat lng elapsed)))], b).
Definition endRide (lat lng : double) (b : ApiBridge) :=
  if bool_decide (active_ride_ b = ""%string) then ([rideEnded false 0 0 "当前没有进行中的订单"], b)
  else request EndRideRequest (rideEnded false 0 0 busy_desc)
         (ReqEnd (mk_end_ride_request (token_ b) (active_ride_ b) lat lng)) b.
Definition reportDamage (bike_no note : string) (b : ApiBridge) :=
  request ReportDamageRequest (damageResult false busy_desc)
    (ReqDamage (mk_report_damage_request (token_ b) bike_no note)) b.
Definition rideDetail (ride_no : string) (b : ApiBridge) :=
  request GetRideDetailRequest (rideDetailReady false None busy_desc)
    (ReqDetail (mk_get_ride_detail_request (token_ b) ride_no)) b.
Definition listRides (limit : Z) (b : ApiBridge) :=
  request ListRidesRequest (ridesReady false [] busy_desc)
    (ReqRides (mk_list_rides_request (token_ b) limit)) b.
Definition clearActiveRide (b : ApiBridge) : list signal * ApiBridge :=
  ([sessionChanged], set_ride "" "" b).

(** ** Link state *)

Definition fail_signal (msg : string) (req : Z) : list signal :=
  if req =? 0x01 then [mobileCodeResult false 0 msg]
  else if req =? 0x03 then [loginResult false msg]
  else if (req =? 0x05) || (req =? 0x07) then [balanceReady false 0 msg]
  else if req =? 0x09 then [recordsReady false [] msg]
  else if req =? 0x11 then [nearbyBikesReady false [] msg]
  else if req =? 0x13 then [unlockResult false "" msg]
  else if req =? 0x17 then [rideEnded false 0 0 msg]
  else if req =? 0x19 then [damageResult false msg]
  else if req =? 0x1B then [rideDetailReady false None msg]
  else if req =? 0x1D then [ridesReady false [] msg]
  else [].
Definition failInFlight (msg : string) (b : ApiBridge) : list signal * ApiBridge :=
  (flat_map (fun kv => fail_signal msg (fst kv)) (map_to_list (in_flight_ b)), set_flight ∅ b).

Definition onWorkerConnected (b : ApiBridge) : list signal * ApiBridge :=
  let b := mkBridge (token_ b) (mobile_ b) (pending_mobile_ b) (active_ride_ b) (link_up_ b) 0
             (in_flight_ b) (settings_ b) in
  let '(o, b) := failInFlight "连接已重建, 请重试" b in
  (o ++ [linkStateChanged],
   mkBridge (token_ b) (mobile_ b) (pending_mobile_ b) (active_ride_ b) true (seq_counter_ b)
     (in_flight_ b) (settings_ b)).
Definition onWorkerDisconnected (reason : string) (b : ApiBridge) : list signal * ApiBridge :=
  let '(o, b) := failInFlight ("连接中断: " ++ reason) b in
  (o ++ [linkStateChanged],
   mkBridge (token_ b) (mobile_ b) (pending_mobile_ b) (active_ride_ b) false (seq_counter_ b)
     (in_flight_ b) (settings_ b)).

(** ** Responses *)

Definition on_mobile (payload : list byte) (b : ApiBridge) : list signal * ApiBridge :=
  match pb_parse_response payload : option mobile_response with
  | None => ([mobileCodeResult false 0 parse_desc], b)
  | Some r => ([mobileCodeResult true (mrsp_icode r) (mrsp_data r)], b)
  end.
Definition on_login (payload : list byte) (b : ApiBridge) : list signal * ApiBridge :=
  match pb_parse_response payload : option login_response with
  | None => ([loginResult false parse_desc], b)
  | Some r =>
      if (lrsp_code r =? 200) && negb (bool_decide (lrsp_session_token r = ""%string)) then
        ([sessionChanged; loginResult true (lrsp_desc r)],
         mkBridge (lrsp_session_token r) (pending_mobile_ b) (pending_mobile_ b) (settings_ b)
           (link_up_ b) (seq_counter_ b) (in_flight_ b) (settings_ b))
      else ([loginResult false (lrsp_desc r)], b)
  end.
Definition on_recharge (payload : list byte) (b : ApiBridge) : list signal * ApiBridge :=
  match pb_parse_response payload : option recharge_response with
  | None => ([balanceReady false 0 parse_desc], b)
  | Some r => ([balanceReady (rrsp_code r =? 200) (rrsp_balance r)
                  (if rrsp_code r =? 200 then "充值成功" else rrsp_desc r)], b)
  end.
Definition on_balance (payload : list byte) (b : ApiBridge) : list signal * ApiBridge :=
  match pb_parse_response payload : option account_balance_response with
  | None => ([balanceReady false 0 parse_desc], b)
  | Some r => ([balanceReady (abrsp_code r =? 200) (abrsp_balance r) ""], b)
  end.
Definition on_records (payload : list byte) (b : ApiBridge) : list signal * ApiBridge :=
  match pb_parse_response payload : option list_account_records_response with
  | None => ([recordsReady false [] parse_desc], b)
  | Some r => ([recordsReady (lars_code r =? 200) (lars_records r) ""], b)
  end.
Definition on_nearby (payload : list byte) (b : ApiBridge) : list signal * ApiBridge :=
  match pb_parse_response payload : option list_nearby_bikes_response with
  | None => ([nearbyBikesReady false [] parse_desc], b)
  | Some r => ([nearbyBikesReady (nbrsp_code r =? 200) (nbrsp_bikes r) ""], b)
  end.
Definition on_unlock (payload : list byte) (b : ApiBridge) : list signal * ApiBridge :=
  match pb_parse_response payload : option scan_unlock_response with
  | None => ([unlockResult false "" parse_desc], b)
  | Some r =>
      if sursp_code r =? 200
      then ([sessionChanged; unlockResult true (sursp_ride_no r) (sursp_desc r)],
            set_ride (sursp_ride_no r) (sursp_ride_no r) b)
      else ([unlockResult false "" (sursp_desc r)], b)
  end.
Definition on_end (payload : list byte) (b : ApiBridge) : list signal * ApiBridge :=
  match pb_parse_response payload : option end_ride_response with
  | None => ([rideEnded false 0 0 parse_desc], b)
  | Some r =>
      let res := rideEnded (errsp_code r =? 200) (errsp_amount_cent r) (errsp_balance_after r) (errsp_desc r) in
      if errsp_code r =? 200 then ([sessionChanged; res], set_ride "" "" b) else ([res], b)
  end.
Definition on_damage (payload : list byte) (b : ApiBridge) : list signal * ApiBridge :=
  match pb_parse_response payload : option report_damage_response with
  | None => ([damageResult false parse_desc], b)
  | Some r => ([damageResult (rdrsp_code r =? 200) (rdrsp_desc r)], b)
  end.
Definition on_detail (payload : list byte) (b : ApiBridge) : list signal * ApiBridge :=
  match pb_parse_response payload : option get_ride_detail_response with
  | None => ([rideDetailReady false None parse_desc], b)
  | Some r =>
      ([rideDetailReady (gdrsp_code r =? 200)
          (Some (mkDetail (gdrsp_ride_no r) (gdrsp_duration_sec r) (gdrsp_distance_m r)
                   (gdrsp_amount_cent r) (gdrsp_start_tm r) (gdrsp_end_tm r) (gdrsp_points r))) ""], b)
  end.
Definition on_rides (payload : list byte) (b : ApiBridge) : list signal * ApiBridge :=
  match pb_parse_response payload : option list_rides_response with
  | None => ([ridesReady false [] parse_desc], b)
  | Some r => ([ridesReady (lrrsp_code r =? 200) (lrrsp_rides r) ""], b)
  end.

Definition handleFrame (rsp_eid : Z) (payload : list byte) (b : ApiBridge) : list signal * ApiBridge :=
  if rsp_eid =? 0x02 then on_mobile payload b
  else if rsp_eid =? 0x04 then on_login payload b
  else if rsp_eid =? 0x06 then on_recharge payload b
  else if rsp_eid =? 0x08 then on_balance payload b
  else if rsp_eid =? 0x10 then on_records payload b
  else if rsp_eid =? 0x12 then on_nearby payload b
  else if rsp_eid =? 0x14 then on_unlock payload b
  else if rsp_eid =? 0x18 then on_end payload b
  else if rsp_eid =? 0x1A then on_damage payload b
  else if rsp_eid =? 0x1C then on_detail payload b
  else if rsp_eid =? 0x1E then on_rides payload b
  else ([], b).

Definition onFrameReady (rsp_eid seq : Z) (payload : list byte) (b : ApiBridge) : list signal * ApiBridge :=
  if negb (isKnownResponse rsp_eid) then ([], b)
  else
    let req_eid := rspToReq rsp_eid in
    match in_flight_ b !! req_eid with
    | None => ([], b)
    | Some s =>
        if negb (s =? seq) then ([], b)
        else handleFrame rsp_eid payload (set_flight (delete req_eid (in_flight_ b)) b)
    end.

(** ** Runs of the bridge *)

Inductive api_event : Type :=
| CallMobile (mobile : string) | CallLogin (mobile : string) (icode : Z) | CallRecharge (amount : Z)
| CallBalance | CallRecords | CallNearby (lat lng : double) | CallUnlock (bike_no : string) (lat lng : double)
| CallPosition (ride_no : string) (seq : Z) (lat lng : double) (elapsed : Z)
| CallEnd (lat lng : double) | CallDamage (bike_no note : string) | CallDetail (ride_no : string)
| CallRides (limit : Z) | CallClear
| FrameReady (eid seq : Z) (payload : list byte) | LinkUp | LinkDown (reason : string).

Definition api_step (ev : api_event) : ApiBridge -> list signal * ApiBridge :=
  match ev with
  | CallMobile m => sendMobileCode m | CallLogin m c => login m c | CallRecharge a => recharge a
  | CallBalance => refreshBalance | CallRecords => listRecords
  | CallNearby lat lng => refreshNearbyBikes lat lng
  | CallUnlock n lat lng => scanUnlock n lat lng
  | CallPosition n s lat lng t => reportPosition n s lat lng t
  | CallEnd lat lng => endRide lat lng | CallDamage n t => reportDamage n t
  | CallDetail n => rideDetail n | CallRides l => listRides l | CallClear => clearActiveRide
  | FrameReady e s p => onFrameReady e s p
  | LinkUp => onWorkerConnected | LinkDown r => onWorkerDisconnected r
  end.

Fixpoint api_run (evs : list api_event) (b : ApiBridge) : list signal * ApiBridge :=
  match evs with
  | [] => ([], b)
  | ev :: evs =>
      let '(o, b) := api_step ev b in
      let '(os, b) := api_run evs b in (o ++ os, b)
  end.

(** Result signals by kind (recharge and balance share one), requests by the
    kind of result they get, and the in-flight requests of a kind. *)
Definition result_kind (s : signal) : option Z :=
  match s with
  | sessionChanged | linkStateChanged | requestSend _ _ _ => None
  | mobileCodeResult _ _ _ => Some 0x01 | loginResult _ _ => Some 0x03 | balanceReady _ _ _ => Some 0x05
  | recordsReady _ _ _ => Some 0x09 | nearbyBikesReady _ _ _ => Some 0x11 | unlockResult _ _ _ => Some 0x13
  | rideEnded _ _ _ _ => Some 0x17 | damageResult _ _ => Some 0x19 | rideDetailReady _ _ _ => Some 0x1B
  | ridesReady _ _ _ => Some 0x1D
  end.
Definition req_kind (eid : Z) : Z := if eid =? 0x07 then 0x05 else eid.
Definition call_kind (ev : api_event) : option Z :=
  match ev with
  | CallMobile _ => Some 0x01 | CallLogin _ _ => Some 0x03 | CallRecharge _ | CallBalance => Some 0x05
  | CallRecords => Some 0x09 | CallNearby _ _ => Some 0x11 | CallUnlock _ _ _ => Some 0x13
  | CallEnd _ _ => Some 0x17 | CallDamage _ _ => Some 0x19 | CallDetail _ => Some 0x1B | CallRides _ => Some 0x1D
  | _ => None
  end.

Definition is_kind (k : Z) (o : option Z) : nat := match o with Some k' => if k' =? k then 1 else 0 | None => 0 end.
Definition results (k : Z) (os : list signal) : nat := sum_list_with (fun s => is_kind k (result_kind s)) os.
Definition calls (k : Z) (evs : list api_event) : nat := sum_list_with (fun ev => is_kind k (call_kind ev)) evs.
Definition flying (k : Z) (b : ApiBridge) : nat :=
  sum_list_with (fun kv => is_kind k (Some (req_kind (fst kv)))) (map_to_list (in_flight_ b)).

Definition known_request (eid : Z) : bool :=
  existsb (Z.eqb eid) [0x01; 0x03; 0x05; 0x07; 0x09; 0x11; 0x13; 0x17; 0x19; 0x1B; 0x1D].
Definition flight_ok (b : ApiBridge) : Prop :=
  forall e s, in_flight_ b !! e = Some s -> known_request e = true.

Lemma results_app k o1 o2 : results k (o1 ++ o2) = (results k o1 + results k o2)%nat.
Proof. apply sum_list_with_app. Qed.

Lemma flying_insert k e s b : in_flight_ b !! e = None ->
  flying k (set_flight (<[e := s]> (in_flight_ b)) b) = (is_kind k (Some (req_kind e)) + flying k b)%nat.
Proof.
  intros H. unfold flying. simpl.
  by rewrite (map_to_list_insert _ e s H).
Qed.

Lemma flying_delete k e s b : in_flight_ b !! e = Some s ->
  flying k b = (is_kind k (Some (req_kind e)) + flying k (set_flight (delete e (in_flight_ b)) b))%nat.
Proof.
  intros H. unfold flying. simpl.
  by rewrite <- (map_to_list_delete _ e s H).
Qed.

(** ** Every call gets exactly one result *)

(** [o] and [b'] account for a step from [b] that takes [n] calls of kind [k]. *)
Definition balanced (k : Z) (n : nat) (b : ApiBridge) (r : list signal * ApiBridge) : Prop :=
  flight_ok (snd r) /\ (results k (fst r) + flying k (snd r) = flying k b + n)%nat.

Lemma flying_flight k b b' : in_flight_ b' = in_flight_ b -> flying k b' = flying k b.
Proof. intros E. unfold flying. by rewrite E. Qed.

Lemma balanced_same k n b b' o :
  flight_ok b -> in_flight_ b' = in_flight_ b -> results k o = n -> balanced k n b (o, b').
Proof.
  intros Hok E Hr. split; simpl; [unfold flight_ok; by rewrite E|].
  rewrite (flying_flight k b b' E). lia.
Qed.

Lemma send_balanced k e req b :
  flight_ok b -> known_request e = true -> in_flight_ b !! e = None ->
  balanced k (is_kind k (Some (req_kind e))) b (sendRequest e req b).
Proof.
  intros Hok Hk Hn. unfold sendRequest. destruct (nextSeq b) as [s b1] eqn:E.
  assert (Ef : in_flight_ b1 = in_flight_ b) by (by injection E as _ <-).
  split; simpl.
  - intros e' s'. simpl. rewrite Ef, lookup_insert_Some. intros [[<- _]|[_ H]]; [done|by eapply Hok].
  - pose proof (flying_insert k e s b Hn) as H. unfold flying in *. simpl in *. rewrite Ef. lia.
Qed.

Lemma request_balanced k ev busy req b :
  flight_ok b -> known_request (event_id ev) = true ->
  result_kind busy = Some (req_kind (event_id ev)) ->
  balanced k (is_kind k (Some (req_kind (event_id ev)))) b (request ev busy req b).
Proof.
  intros Hok Hk Hb. unfold request, beginRequest.
  destruct (in_flight_ b !! event_id ev) eqn:E; [|by apply send_balanced].
  apply balanced_same; [done|done|]. unfold results. cbn [sum_list_with]. rewrite Hb. lia.
Qed.

(** The eleven request and response numbers. *)
Lemma known_request_cases (P : Z -> Prop) e :
  known_request e = true -> Forall P [0x01; 0x03; 0x05; 0x07; 0x09; 0x11; 0x13; 0x17; 0x19; 0x1B; 0x1D] -> P e.
Proof.
  unfold known_request. rewrite existsb_exists. intros (x & Hx & ->%Z.eqb_eq) HP.
  by apply (proj1 (List.Forall_forall _ _) HP).
Qed.
Lemma known_response_cases (P : Z -> Prop) e :
  isKnownResponse e = true -> Forall P [0x02; 0x04; 0x06; 0x08; 0x10; 0x12; 0x14; 0x18; 0x1A; 0x1C; 0x1E] -> P e.
Proof.
  unfold isKnownResponse. rewrite existsb_exists. intros (x & Hx & ->%Z.eqb_eq) HP.
  by apply (proj1 (List.Forall_forall _ _) HP).
Qed.

Lemma fail_signal_result k msg e :
  known_request e = true -> results k (fail_signal msg e) = is_kind k (Some (req_kind e)).
Proof.
  intros H. apply (known_request_cases (fun e => results k (fail_signal msg e) = is_kind k (Some (req_kind e))) e H).
  repeat constructor; unfold results, fail_signal, req_kind; simpl; lia.
Qed.

Lemma fail_balanced k msg b : flight_ok b -> balanced k 0 b (failInFlight msg b).
Proof.
  intros Hok. split; [done|]. unfold failInFlight. simpl.
  assert (H : Forall (fun kv => known_request (fst kv) = true) (map_to_list (in_flight_ b))).
  { apply Forall_forall. intros [e s] Hin. apply elem_of_map_to_list in Hin. by eapply Hok. }
  unfold flying. simpl. rewrite map_to_list_empty. simpl. rewrite !Nat.add_0_r.
  induction H as [|kv l Hk _ IH]; [done|]. simpl. rewrite results_app, IH.
  by rewrite fail_signal_result.
Qed.

Lemma handle_result k e p b :
  isKnownResponse e = true ->
  in_flight_ (snd (handleFrame e p b)) = in_flight_ b
  /\ results k (fst (handleFrame e p b)) = is_kind k (Some (req_kind (rspToReq e))).
Proof.
  intros H. apply (known_response_cases (fun e => in_flight_ (snd (handleFrame e p b)) = in_flight_ b
    /\ results k (fst (handleFrame e p b)) = is_kind k (Some (req_kind (rspToReq e)))) e H).
  repeat apply Forall_cons_2; [..|done];
    (match goal with |- context [req_kind (rspToReq ?n)] =>
       let v := eval vm_compute in (req_kind (rspToReq n)) in change (req_kind (rspToReq n)) with v end);
    unfold handleFrame, results; generalize (eq_refl : is_kind k None = 0%nat);
    generalize (is_kind k); intros f Hf; simpl;
    unfold on_mobile, on_login, on_recharge, on_balance, on_records, on_nearby, on_unlock, on_end,
      on_damage, on_detail, on_rides;
    repeat case_match; simpl; (split; [done|lia]).
Qed.

Lemma frame_balanced k e s p b : flight_ok b -> balanced k 0 b (onFrameReady e s p b).
Proof.
  intros Hok. unfold onFrameReady. destruct (isKnownResponse e) eqn:Hk; [|by apply balanced_same].
  simpl. destruct (in_flight_ b !! rspToReq e) as [s'|] eqn:Hf; [|by apply balanced_same].
  destruct (s' =? s); [|by apply balanced_same]. simpl.
  set (b1 := set_flight _ b). destruct (handle_result k e p b1 Hk) as [Ef Er].
  pose proof (flying_delete k _ _ b Hf) as Hd. fold b1 in Hd.
  destruct (handleFrame e p b1) as [o b']. cbn [fst snd] in *. split; cbn [fst snd].
  - intros e' s0. rewrite Ef. simpl. rewrite lookup_delete_Some. intros [_ H]. by eapply Hok.
  - rewrite Er, (flying_flight k b1 b' Ef), Hd. lia.
Qed.

Lemma step_balanced k ev b :
  flight_ok b -> balanced k (is_kind k (call_kind ev)) b (api_step ev b).
Proof.
  intros Hok. destruct ev; cbn [api_step call_kind].
  - by apply request_balanced.
  - unfold login, beginRequest. destruct (in_flight_ b !! event_id LoginRequest) eqn:E.
    + apply balanced_same; [done|done|]. unfold results. simpl. lia.
    + by apply (send_balanced k 0x03 _ (mkBridge _ _ _ _ _ _ _ _)).
  - by apply request_balanced.
  - by apply request_balanced.
  - by apply request_balanced.
  - by apply request_balanced.
  - by apply request_balanced.
  - unfold reportPosition. destruct (nextSeq b) as [q b'] eqn:E. apply balanced_same; [done| |done].
    unfold nextSeq in E. by injection E as _ <-.
  - unfold endRide. case_bool_decide; [|by apply request_balanced].
    apply balanced_same; [done|done|]. unfold results. simpl. lia.
  - by apply request_balanced.
  - by apply request_balanced.
  - by apply request_balanced.
  - by apply balanced_same.
  - by apply frame_balanced.
  - unfold onWorkerConnected.
    match goal with |- context [failInFlight ?m ?b1] => pose proof (fail_balanced k m b1 Hok) as [H1 H2];
      destruct (failInFlight m b1) as [o b2] end.
    split; [done|]. simpl in *. rewrite results_app. unfold flying in *. simpl in *. lia.
  - unfold onWorkerDisconnected.
    match goal with |- context [failInFlight ?m ?b1] => pose proof (fail_balanced k m b1 Hok) as [H1 H2];
      destruct (failInFlight m b1) as [o b2] end.
    split; [done|]. simpl in *. rewrite results_app. unfold flying in *. simpl in *. lia.
Qed.

Lemma run_balanced k evs : forall b,
  flight_ok b -> (results k (fst (api_run evs b)) + flying k (snd (api_run evs b))
                  = flying k b + calls k evs)%nat.
Proof.
  induction evs as [|ev evs IH]; intros b Hok; simpl; [unfold results, calls; simpl; lia|].
  destruct (step_balanced k ev b Hok) as [Hok' Hs]. destruct (api_step ev b) as [o b1]. simpl in *.
  specialize (IH b1 Hok'). destruct (api_run evs b1) as [os b2]. simpl in *.
  rewrite results_app. unfold calls in *. simpl. lia.
Qed.

(** C22: every call of the client API is answered exactly once.  Over any
    sequence of calls, frames from the server (expected, stale, duplicated,
    malformed) and link changes, the result signals of a kind are exactly as
    many as the calls of that kind, less the requests of it still in flight:
    no call is lost or answered twice, so no button stays disabled and no
    result appears out of nothing. *)
Theorem one_result_per_call evs saved k :
  let '(os, b) := api_run evs (bridge0 saved) in
  (results k os + flying k b = calls k evs)%nat.
Proof.
  pose proof (run_balanced k evs (bridge0 saved)) as H.
  destruct (api_run evs (bridge0 saved)) as [os b]. apply H. intros e s. done.
Qed.

(** ** The open ride *)

Definition ride_saved (b : ApiBridge) : Prop := token_ b <> ""%string -> active_ride_ b = settings_ b.

Lemma step_ride_saved ev b : ride_saved b -> ride_saved (snd (api_step ev b)).
Proof.
  intros H. destruct ev; cbn [api_step]; try (
    unfold sendMobileCode, login, recharge, refreshBalance, listRecords, refreshNearbyBikes, scanUnlock,
      endRide, reportDamage, rideDetail, listRides, request, beginRequest, sendRequest, nextSeq;
    repeat case_match; exact H).
  - done.
  - unfold onFrameReady, handleFrame, on_mobile, on_login, on_recharge, on_balance, on_records, on_nearby,
      on_unlock, on_end, on_damage, on_detail, on_rides. repeat case_match; try exact H; done.
Qed.

(** the open ride survives a restart of the client.  In every state the
    bridge can reach, once a user is logged in, the ride shown as active is
    the one kept in the persistent settings, so ending or unlocking a ride
    updates both and a ride left open by an earlier run is restored. *)
Theorem active_ride_is_saved evs saved :
  let b := snd (api_run evs (bridge0 saved)) in
  token_ b <> ""%string -> active_ride_ b = settings_ b.
Proof.
  assert (H : forall b, ride_saved b -> ride_saved (snd (api_run evs b))).
  { induction evs as [|ev evs IH]; intros b Hb; [done|]. simpl.
    pose proof (step_ride_saved ev b Hb) as H1. destruct (api_step ev b) as [o b1].
    specialize (IH b1 H1). by destruct (api_run evs b1). }
  intros b. apply H. intros Hne. by destruct Hne.
Qed.

(** The sequence counter restarts when the link comes up.  A request sent
    before the notification is processed and one sent after it carry the same
    number, so the answer to the first is taken for the answer to the second. *)
Lemma seq_reused_after_link_up :
  let '(os, b) := api_run [CallRecharge 100; LinkUp; CallRecharge 500] (bridge0 "") in
  flat_map (fun s => match s with requestSend e q _ => [(e, q)] | _ => [] end) os = [(5, 1); (5, 1)]
  /\ in_flight_ b !! 5 = Some 1.
Proof.
  destruct (api_run _ _) as [os b] eqn:E. vm_compute in E. injection E as <- <-. split; reflexivity.
Qed.
End Bridge.

(** Parsers for a concrete run: every login response is accepted. *)
Definition login_pb : Pb := {|
  pb_mobile_request := constant_request None; pb_login_request := constant_request None;
  pb_recharge_request := constant_request None; pb_account_balance_request := constant_request None;
  pb_list_account_records_request := constant_request None;
  pb_list_nearby_bikes_request := constant_request None; pb_scan_unlock_request := constant_request None;
  pb_ride_position_report := constant_request None; pb_end_ride_request := constant_request None;
  pb_report_damage_request := constant_request None; pb_get_ride_detail_request := constant_request None;
  pb_list_rides_request := constant_request None;
  pb_mobile_response := constant_response []; 
  pb_login_response := {| pb_serialize := fun _ => [];
                          pb_parse_response := fun _ => Some (mk_login_response 200 "" "tok") |};
  pb_recharge_response := constant_response []; pb_account_balance_response := constant_response [];
  pb_list_account_records_response := constant_response [];
  pb_list_nearby_bikes_response := constant_response []; pb_scan_unlock_response := constant_response [];
  pb_end_ride_response := constant_response []; pb_report_damage_response := constant_response [];
  pb_get_ride_detail_response := constant_response []; pb_list_rides_response := constant_response [] |}.

Lemma active_ride_is_saved_witness :
  active_ride_ (snd (@api_run login_pb (fun _ => []) [CallLogin "139" 1; FrameReady 4 1 []] (bridge0 "R1")))
  = "R1"%string.
Proof.
  rewrite (@active_ride_is_saved login_pb (fun _ => []) [CallLogin "139" 1; FrameReady 4 1 []] "R1").
  - reflexivity.
  - vm_compute. discriminate.
Defined.
