(* ===== verification/CText.v ===== *)
(** * C text: printf conversions, atoi and atof

    The conversions of <cstdio> and <cstdlib> with which the MySQL and Redis
    repositories write statements and read rows: [%d], [%lld], [%.7f], [atoi],
    [atoll] and [atof], on [list ascii].  The theorems bound the length of what
    is written and read numbers back. *)

From S2P Require Import Prelude Double Common.
From Stdlib Require Import Ascii.

Abbreviation text := (list ascii).
Definition txt : string -> text := chars_of_string.

(** A C string ends at its first NUL. *)
Fixpoint cstr (t : text) : text :=
  match t with
  | [] => []
  | c :: t => if bool_decide (c = Ascii.zero) then [] else c :: cstr t
  end.

(** [%d] and [%lld]. *)
Definition fmt_d (z : Z) : text := fmt_0d 0 z.

(** [n / d] rounded to nearest, ties to even: what printf does with the exact
    value of a double. *)
Definition round_half_even (n d : Z) : Z :=
  let q := n / d in
  let r := n mod d in
  if 2 * r <? d then q
  else if d <? 2 * r then q + 1
  else if Z.even q then q else q + 1.

(** The absolute value of a finite double times 10^7, rounded. *)
Definition scaled7 (m : positive) (e : Z) : Z :=
  if 0 <=? e then Z.pos m * 2 ^ e * 10 ^ 7
  else round_half_even (Z.pos m * 10 ^ 7) (2 ^ (- e)).

Definition fixed7 (s : bool) (n : Z) : text :=
  (if s then ["-"%char] else []) ++ dec 320 (n / 10 ^ 7) [] ++ "."%char :: fmt_0d 7 (n mod 10 ^ 7).

(** [%.7f]. *)
Definition fmt_f7 (x : double) : text :=
  match x with
  | S754_zero s => fixed7 s 0
  | S754_infinity s => txt (if s then "-inf" else "inf")
  | S754_nan => txt "nan"
  | S754_finite s m e => fixed7 s (scaled7 m e)
  end.

(** ** Reading numbers *)

Definition is_digit (c : ascii) : bool := (0 <=? digit_value c) && (digit_value c <=? 9).
Definition is_space (c : ascii) : bool :=
  bool_decide (c = " "%char) || ((9 <=? Z.of_N (N_of_ascii c)) && (Z.of_N (N_of_ascii c) <=? 13)).

Fixpoint skip_space (t : text) : text :=
  match t with c :: t' => if is_space c then skip_space t' else t | [] => [] end.
Fixpoint span_digits (t : text) : text * text :=
  match t with
  | c :: t' => if is_digit c then let '(ds, r) := span_digits t' in (c :: ds, r) else ([], t)
  | [] => ([], [])
  end.
(** An optional sign. *)
Definition take_sign (t : text) : bool * text :=
  match t with
  | "-"%char :: t => (true, t)
  | "+"%char :: t => (false, t)
  | _ => (false, t)
  end.

(** The number [strtol] reads in base ten. *)
Definition read_int (t : text) : Z :=
  let '(neg, t) := take_sign (skip_space (cstr t)) in
  let v := undec (fst (span_digits t)) in
  if neg then - v else v.

(** [atoi] and [atoll]: a value the result type cannot hold is undefined. *)
Definition atoi (t : text) : result Z := int_checked (read_int t).
Definition atoll (t : text) : result Z :=
  let v := read_int t in
  if (- 2 ^ 63 <=? v) && (v <? 2 ^ 63) then Ok v else Err (UndefinedBehaviour "atoll").

(** [atof] on the text of a DECIMAL column: sign, digits and an optional
    fraction of fewer than 2^53 units, for which one division is the correctly
    rounded value. *)
Definition atof (t : text) : double :=
  let '(neg, t) := take_sign (skip_space (cstr t)) in
  let '(ip, t) := span_digits t in
  let fp := match t with "."%char :: t => fst (span_digits t) | _ => [] end in
  let v := d_lit (undec (ip ++ fp)) (Z.of_nat (length fp)) in
  if neg then SFopp v else v.

(** ** Lengths *)

Lemma length_dec fuel n k :
  (k <= fuel)%nat -> (0 < k)%nat -> 0 <= n < 10 ^ Z.of_nat k ->
  (1 <= length (dec fuel n []) <= k)%nat.
Proof.
  intros. destruct (dec_spec fuel n [] k) as (ds & -> & Hl & _); [done.. |].
  by rewrite app_nil_r.
Qed.

Lemma fmt_d_eq z : fmt_d z = (if z <? 0 then ["-"%char] else []) ++ decimal (Z.abs z).
Proof. unfold fmt_d, fmt_0d. by destruct (z <? 0). Qed.

Lemma length_fmt_d z k :
  (k <= 20)%nat -> (0 < k)%nat -> Z.abs z < 10 ^ Z.of_nat k -> (length (fmt_d z) <= S k)%nat.
Proof.
  intros Hk Hk0 Hz. rewrite fmt_d_eq, length_app. unfold decimal.
  pose proof (length_dec 20 (Z.abs z) k Hk Hk0 (conj (Z.abs_nonneg z) Hz)) as Hd.
  destruct (z <? 0); cbn [length]; lia.
Qed.

Lemma length_fmt_int z : in_int z = true -> (length (fmt_d z) <= 11)%nat.
Proof.
  intros H. apply in_int_iff in H. unfold INT_MIN, INT_MAX in H.
  apply length_fmt_d; [lia | lia | simpl; lia].
Qed.

Lemma length_fmt_int64 z : - 2 ^ 63 <= z < 2 ^ 63 -> (length (fmt_d z) <= 20)%nat.
Proof. intros H. apply length_fmt_d; [lia | lia | simpl; lia]. Qed.

Lemma length_fixed7 s n :
  0 <= n <= 180 * 10 ^ 7 -> (length (fixed7 s n) <= 12)%nat.
Proof.
  intros H. unfold fixed7. rewrite !length_app. cbn [length].
  assert (0 <= n / 10 ^ 7 < 10 ^ Z.of_nat 3).
  { split; [apply Z.div_pos; lia|]. apply Z.div_lt_upper_bound; simpl; lia. }
  pose proof (length_dec 320 (n / 10 ^ 7) 3 ltac:(lia) ltac:(lia) ltac:(done)) as Hd.
  destruct (fmt_0d_spec 7 (n mod 10 ^ 7)) as [-> _];
    [lia | apply Z.mod_pos_bound; lia|].
  destruct s; cbn [length]; lia.
Qed.

(** *** Coordinates *)

(** A double that the format binary64 has: its significand is normalised. *)
Definition is_binary64 (x : double) : bool := valid_binary prec emax x.

Lemma round_half_even_le n d b : 0 < d -> 0 <= n <= b * d -> 0 <= round_half_even n d <= b.
Proof.
  intros Hd Hn. unfold round_half_even.
  pose proof (Z.div_mod n d ltac:(lia)) as Hdm. pose proof (Z.mod_pos_bound n d Hd) as Hm.
  assert (Hq : 0 <= n / d) by (apply Z.div_pos; lia).
  assert (Hb : n / d <= b) by (apply Z.div_le_upper_bound; lia).
  assert (Hb' : 0 < n mod d -> n / d < b) by nia.
  repeat case_if; blia.
Qed.

Lemma valid_mantissa m e :
  is_binary64 (S754_finite false m e) = true -> Z.pos m < 2 ^ 53.
Proof.
  unfold is_binary64, valid_binary, bounded, canonical_mantissa, fexp, prec, emin. intros H.
  apply andb_true_iff in H as [H _]. apply Z.eqb_eq in H.
  assert (Hd : Z.pos (digits2_pos m) <= 53) by (unfold emax in H; lia).
  clear H.
  assert (Hlt : forall p, Z.pos p < 2 ^ Z.pos (digits2_pos p)).
  { induction p as [p IH|p IH|]; cbn [digits2_pos]; [| |lia];
      rewrite Pos2Z.inj_succ, Z.pow_succ_r by lia; lia. }
  pose proof (Hlt m). pose proof (Z.pow_le_mono_r 2 (Z.pos (digits2_pos m)) 53). lia.
Qed.

Lemma d_le_pos m e m0 e0 :
  d_le (S754_finite false m e) (S754_finite false m0 e0) = true ->
  e < e0 \/ e = e0 /\ Z.pos m <= Z.pos m0.
Proof.
  unfold d_le, SFleb. cbn [SFcompare].
  destruct (Z.compare_spec e e0) as [->|He|He]; [| by left | discriminate].
  intros Hc. right. split; [done|]. change (Pos.compare_cont Eq m m0) with (Pos.compare m m0) in Hc.
  destruct (Pos.compare_spec m m0); [lia | lia | discriminate].
Qed.

Lemma d_le_opp m e m0 e0 :
  d_le (S754_finite true m0 e0) (S754_finite true m e)
  = d_le (S754_finite false m e) (S754_finite false m0 e0).
Proof.
  unfold d_le, SFleb. cbn [SFcompare]. rewrite (Z.compare_antisym e e0).
  destruct (e ?= e0); simpl; try done.
  change (Pos.compare_cont Eq m0 m) with (Pos.compare m0 m).
  change (Pos.compare_cont Eq m m0) with (Pos.compare m m0).
  rewrite (Pos.compare_antisym m m0). by destruct (Pos.compare m m0).
Qed.

Lemma d_180 : d_of_Z 180 = S754_finite false 6333186975989760 (-45).
Proof. reflexivity. Qed.
Lemma d_m180 : d_of_Z (-180) = S754_finite true 6333186975989760 (-45).
Proof. reflexivity. Qed.

(** What [|x| <= 180] says of the bits of a binary64 value. *)
Lemma scaled7_180 s m e :
  is_binary64 (S754_finite s m e) = true ->
  d_le (S754_finite false m e) (d_of_Z 180) = true -> 0 <= scaled7 m e <= 180 * 10 ^ 7.
Proof.
  intros Hv. assert (Hm : Z.pos m < 2 ^ 53) by (apply (valid_mantissa m e); exact Hv).
  rewrite d_180. intros H. unfold scaled7.
  destruct (d_le_pos _ _ _ _ H) as [He|[-> Hle]]; clear H.
  - destruct (0 <=? e) eqn:E; [blia|].
    assert (Hp : 2 ^ 46 <= 2 ^ (- e)) by (apply Z.pow_le_mono_r; lia).
    apply round_half_even_le; [lia|]. simpl in *. lia.
  - change (0 <=? -45) with false. cbn iota. apply round_half_even_le; simpl; lia.
Qed.

Lemma length_fmt_f7_180 x :
  is_binary64 x = true -> valid_lng x = true -> (length (fmt_f7 x) <= 12)%nat.
Proof.
  unfold valid_lng. intros Hv H. apply andb_true_iff in H as [H1 H2].
  destruct x as [s|s| |s m e]; [destruct s; simpl; lia | destruct s; simpl; lia | simpl; lia |].
  apply length_fixed7, (scaled7_180 s); [done|]. destruct s; [|done].
  rewrite d_m180, d_le_opp in H1. by rewrite d_180.
Qed.

Lemma d_le_lt_exp s m e s0 m0 e0 :
  e < e0 -> s = false -> s0 = false -> d_le (S754_finite s m e) (S754_finite s0 m0 e0) = true.
Proof. intros He -> ->. unfold d_le, SFleb. cbn [SFcompare]. by rewrite (proj2 (Z.compare_lt_iff _ _) He). Qed.

(** A latitude is in the range of a longitude. *)
Lemma valid_lat_lng x : valid_lat x = true -> valid_lng x = true.
Proof.
  unfold valid_lat, valid_lng. rewrite d_180, d_m180.
  replace (d_of_Z 90) with (S754_finite false 6333186975989760 (-46)) by reflexivity.
  replace (d_of_Z (-90)) with (S754_finite true 6333186975989760 (-46)) by reflexivity.
  intros H. apply andb_true_iff in H as [H1 H2]. destruct x as [s|[]| |[] m e]; try done;
    apply andb_true_iff; (split; [|]).
  - rewrite d_le_opp in *. apply d_le_pos in H1. apply d_le_lt_exp; [lia | done | done].
  - done.
  - done.
  - apply d_le_pos in H2. apply d_le_lt_exp; [lia | done | done].
Qed.

(** ** Reading back *)

Lemma digit_chars c : 0 <= digit_value c < 10 ->
  is_digit c = true /\ is_space c = false /\ c <> Ascii.zero /\ c <> "-"%char /\ c <> "+"%char
  /\ c <> "."%char.
Proof.
  intros H. unfold is_digit, is_space, digit_value in *.
  split; [apply andb_true_iff; split; apply Z.leb_le; lia|].
  split; [|repeat split; intros ->; simpl in H; lia].
  rewrite bool_decide_false by (intros ->; simpl in H; lia). simpl.
  apply andb_false_iff. right. apply Z.leb_gt. lia.
Qed.

Lemma cstr_digits ds r :
  Forall (fun c => 0 <= digit_value c < 10) ds -> cstr (ds ++ r) = ds ++ cstr r.
Proof.
  induction 1 as [|c ds Hc _ IH]; [done|]. simpl. apply digit_chars in Hc.
  rewrite bool_decide_false by tauto. by rewrite IH.
Qed.

(** The text goes on with something else than a digit, or ends. *)
Definition no_digit (r : text) : bool := match r with c :: _ => negb (is_digit c) | [] => true end.

Lemma no_digit_cstr r : no_digit r = true -> no_digit (cstr r) = true.
Proof. destruct r as [|c r]; [done|]. simpl. by case_bool_decide. Qed.

Lemma span_digits_all ds r :
  Forall (fun c => 0 <= digit_value c < 10) ds -> no_digit r = true -> span_digits (ds ++ r) = (ds, r).
Proof.
  intros Hd Hr. induction Hd as [|c ds Hc _ IH]; simpl.
  - destruct r as [|c r]; [done|]. simpl in *. by destruct (is_digit c).
  - apply digit_chars in Hc as [-> _]. by rewrite IH.
Qed.

(** A number printed with [%d] is read back by [strtol], also from the middle
    of a text. *)
Lemma read_int_fmt_app z r : Z.abs z < 10 ^ 20 -> no_digit r = true -> read_int (fmt_d z ++ r) = z.
Proof.
  intros Hz Hr. apply no_digit_cstr in Hr. rewrite fmt_d_eq. unfold read_int, decimal.
  destruct (dec_spec 20 (Z.abs z) [] 20) as (ds & -> & Hl & Hu & Hds); [lia.. |].
  rewrite app_nil_r. destruct (z <? 0) eqn:E; bool_to_prop.
  - cbn [app cstr]. rewrite bool_decide_false by discriminate. rewrite cstr_digits by done.
    change (skip_space ("-"%char :: ?x)) with ("-"%char :: x).
    change (take_sign ("-"%char :: ?x)) with (true, x). cbn iota.
    rewrite span_digits_all by done. simpl. lia.
  - rewrite app_nil_l, cstr_digits by done.
    destruct Hds as [|c ds Hc Hds]; [simpl in Hl; lia|].
    pose proof (digit_chars c Hc) as (Hdg & Hsp & _ & Hm & Hp & _).
    cbn [skip_space app]. rewrite Hsp.
    assert (forall x, take_sign (c :: x) = (false, c :: x)) as ->.
    { destruct c as [[] [] [] [] [] [] [] []]; try reflexivity; done. }
    cbn iota. change (c :: ds ++ cstr r) with ((c :: ds) ++ cstr r).
    rewrite span_digits_all by (done || by constructor). cbn [fst]. lia.
Qed.

Lemma read_int_fmt_d z : Z.abs z < 10 ^ 20 -> read_int (fmt_d z) = z.
Proof. intros Hz. rewrite <- (app_nil_r (fmt_d z)). by apply read_int_fmt_app. Qed.

(** [atoi] and [atoll] undo [%d] and [%lld] on every value of their types, so
    ids, amounts and timestamps survive the way into a statement and back out
    of a row. *)
Theorem atoi_fmt_d z : in_int z = true -> atoi (fmt_d z) = Ok z.
Proof.
  intros H. unfold atoi. rewrite read_int_fmt_d.
  - apply in_int_iff in H. by apply int_checked_ok.
  - apply in_int_iff in H. unfold INT_MIN, INT_MAX in H. lia.
Qed.

Lemma atoll_fmt_d z : - 2 ^ 63 <= z < 2 ^ 63 -> atoll (fmt_d z) = Ok z.
Proof.
  intros H. unfold atoll. rewrite read_int_fmt_d by lia.
  by rewrite (proj2 (Z.leb_le _ _)), (proj2 (Z.ltb_lt _ _)) by lia.
Qed.
