(* ===== verification/MysqlPool.v ===== *)
(** * The MySQL connection pool (server/include/server/db/mysql_pool.hpp,
      server/src/db/mysql_pool.cpp)

    A repository method is a [dprog]: it leases connections, sends statements
    on them and gives the leases back.  [drun] runs one alone against an
    arbitrary server; [sys_step] interleaves the threads of the business
    process on one pool, with the mutex, the condition variable and its
    spurious wakeups.  The theorems: a connection belongs to one thread at a
    time, no wakeup is lost, and threads that hold at most one lease while
    they wait for another cannot block each other as long as the pool has more
    connections than there are threads. *)

From S2P Require Import Prelude Double Common CText.
From Stdlib Require Import Ascii.

(** ** Statements, replies and programs *)

Abbreviation conn := nat (only parsing).
Abbreviation row := (list (option text)) (only parsing).

(** What the client library shows after [mysql_real_query]: an error, or the
    stored result ([None] when [mysql_store_result] is null) with the number of
    fields, the affected rows and the insert id. *)
Inductive reply : Type :=
| QErr
| QOk (rows : option (nat * list (list (option text)))) (affected insert_id : Z).

(** [DNotify] is the second half of [MysqlPool::return_], after the mutex is
    released. *)
Inductive dprog (X : Type) : Type :=
| DRet (x : X)
| DFault (e : exn)
| DAcquire (k : conn -> dprog X)
| DRelease (c : conn) (k : dprog X)
| DNotify (k : dprog X)
| DQuery (c : conn) (sql : text) (k : reply -> dprog X).
Arguments DRet {X}.
Arguments DFault {X}.
Arguments DAcquire {X}.
Arguments DRelease {X}.
Arguments DNotify {X}.
Arguments DQuery {X}.

Fixpoint dbind {X Y} (p : dprog X) (f : X -> dprog Y) : dprog Y :=
  match p with
  | DRet x => f x
  | DFault e => DFault e
  | DAcquire k => DAcquire (fun c => dbind (k c) f)
  | DRelease c k => DRelease c (dbind k f)
  | DNotify k => DNotify (dbind k f)
  | DQuery c sql k => DQuery c sql (fun r => dbind (k r) f)
  end.

(** A block with [auto lease = pool_->acquire();]: the destructor returns the
    connection when the block is left. *)
Definition with_lease {X} (body : conn -> dprog X) : dprog X :=
  DAcquire (fun c => dbind (body c) (fun x => DRelease c (DRet x))).

Definition dlift {X} (r : result X) : dprog X :=
  match r with Ok x => DRet x | Err e => DFault e end.

Notation "'sql!' r := ( c , s ) 'in' k" := (DQuery c s (fun r => k))
  (at level 10, r pattern, k at level 200).
Notation "'let+' x := p 'in' k" := (dbind p (fun x => k))
  (at level 10, x pattern, p at level 100, k at level 200).

(** ** One program alone *)

Inductive outcome (X : Type) : Type :=
| Finished (x : X)
| Faulted (e : exn)
| Blocked.
Arguments Finished {X}.
Arguments Faulted {X}.
Arguments Blocked {X}.

Record stmt : Type := mkStmt { st_conn : nat; st_sql : text; st_reply : reply }.

(** The server answers each statement knowing all that was sent before.  A
    program that waits for a connection of an empty pool is blocked: no other
    thread is there to return one. *)
Definition server : Type := list stmt -> conn -> text -> reply.

Fixpoint drun {X} (sv : server) (p : dprog X) (pool : list conn) (log : list stmt)
  : outcome X * list conn * list stmt :=
  match p with
  | DRet x => (Finished x, pool, log)
  | DFault e => (Faulted e, pool, log)
  | DAcquire k =>
      match pool with
      | [] => (Blocked, [], log)
      | c :: pool => drun sv (k c) pool log
      end
  | DRelease c k => drun sv k (pool ++ [c]) log
  | DNotify k => drun sv k pool log
  | DQuery c s k =>
      let r := sv log c s in drun sv (k r) pool (log ++ [mkStmt c s r])
  end.

Lemma drun_bind {X Y} sv (p : dprog X) (f : X -> dprog Y) pool log :
  drun sv (dbind p f) pool log =
    match drun sv p pool log with
    | (Finished x, pool, log) => drun sv (f x) pool log
    | (Faulted e, pool, log) => (Faulted e, pool, log)
    | (Blocked, pool, log) => (Blocked, pool, log)
    end.
Proof.
  revert pool log. induction p as [x|e|k IH|c k IH|k IH|c s k IH]; intros pool log;
    cbn [dbind drun]; try done.
  destruct pool; [done | apply IH].
Qed.

Lemma drun_lease {X} sv (body : conn -> dprog X) c pool log :
  drun sv (with_lease body) (c :: pool) log =
    match drun sv (body c) pool log with
    | (Finished x, pool, log) => (Finished x, pool ++ [c], log)
    | o => o
    end.
Proof.
  unfold with_lease. cbn [drun]. rewrite drun_bind.
  destruct (drun sv (body c) pool log) as [[[x|e|] p] l]; reflexivity.
Qed.

(** ** Threads *)

Inductive waiting : Type := Running | Asleep | Woken.
#[export] Instance waiting_eq_dec : EqDecision waiting.
Proof. solve_decision. Defined.

(** [th_held] records the leases a thread owns. *)
Record thread (X : Type) : Type := mkThread {
  th_held : list nat; th_wait : waiting; th_prog : dprog X }.
Arguments mkThread {X}.
Arguments th_held {X}.
Arguments th_wait {X}.
Arguments th_prog {X}.

Record sys (X : Type) : Type := mkSys { sy_pool : list nat; sy_threads : list (thread X) }.
Arguments mkSys {X}.
Arguments sy_pool {X}.
Arguments sy_threads {X}.

(** [MysqlPool::MysqlPool]: [pool_size] connections or an exception; a
    non-positive size opens none. *)
Fixpoint open_conns (connect : nat -> option nat) (i n : nat) : result (list nat) :=
  match n with
  | O => Ok []
  | S n =>
      match connect i with
      | None => Err (RuntimeError "mysql_real_connect")
      | Some c => rbind (open_conns connect (S i) n) (fun cs => Ok (c :: cs))
      end
  end.
Definition MysqlPool_ctor (connect : nat -> option nat) (pool_size : Z) : result (list nat) :=
  open_conns connect 0 (Z.to_nat pool_size).

Section Steps.

Context {X : Type}.
Implicit Types t : thread X.
Implicit Types p : dprog X.

(** [acquire] takes the front connection, or waits on the condition variable;
    [return_] pushes under the mutex and notifies one waiter after it. *)
Inductive act_step : sys X -> sys X -> Prop :=
| st_acquire ts i t k c pool :
    ts !! i = Some t -> th_prog t = DAcquire k -> th_wait t <> Asleep ->
    act_step (mkSys (c :: pool) ts)
             (mkSys pool (<[i := mkThread (c :: th_held t) Running (k c)]> ts))
| st_sleep ts i t k :
    ts !! i = Some t -> th_prog t = DAcquire k -> th_wait t <> Asleep ->
    act_step (mkSys [] ts) (mkSys [] (<[i := mkThread (th_held t) Asleep (DAcquire k)]> ts))
| st_return pool ts i t c held k :
    ts !! i = Some t -> th_prog t = DRelease c k -> th_held t ≡ₚ c :: held ->
    act_step (mkSys pool ts)
             (mkSys (pool ++ [c]) (<[i := mkThread held Running (DNotify k)]> ts))
| st_notify_none pool ts i t k :
    ts !! i = Some t -> th_prog t = DNotify k -> Forall (fun t => th_wait t <> Asleep) ts ->
    act_step (mkSys pool ts) (mkSys pool (<[i := mkThread (th_held t) Running k]> ts))
| st_notify_one pool ts i t k j tj :
    ts !! i = Some t -> th_prog t = DNotify k ->
    ts !! j = Some tj -> th_wait tj = Asleep -> i <> j ->
    act_step (mkSys pool ts)
             (mkSys pool (<[j := mkThread (th_held tj) Woken (th_prog tj)]>
                            (<[i := mkThread (th_held t) Running k]> ts)))
| st_query pool ts i t c s k r :
    ts !! i = Some t -> th_prog t = DQuery c s k ->
    act_step (mkSys pool ts) (mkSys pool (<[i := mkThread (th_held t) Running (k r)]> ts)).

(** The standard also permits a wait to return spuriously. *)
Inductive sys_step : sys X -> sys X -> Prop :=
| st_act s s' : act_step s s' -> sys_step s s'
| st_spurious pool ts i t :
    ts !! i = Some t -> th_wait t = Asleep ->
    sys_step (mkSys pool ts) (mkSys pool (<[i := mkThread (th_held t) Woken (th_prog t)]> ts)).

Definition finished t : bool := match th_prog t with DRet _ => true | _ => false end.

(** ** Lease discipline *)

(** [leases d fin held p]: [p], owning [held], waits for a connection only
    while it owns at most [d], uses and returns only what it owns, and owns
    [fin] at the end. *)
Fixpoint leases (d : nat) (fin held : list nat) p : Prop :=
  match p with
  | DRet _ => held ≡ₚ fin
  | DFault _ => True
  | DAcquire k => (length held <= d)%nat /\ forall c, leases d fin (c :: held) (k c)
  | DRelease c k => exists held', held ≡ₚ c :: held' /\ leases d fin held' k
  | DNotify k => leases d fin held k
  | DQuery c s k => c ∈ held /\ forall r, leases d fin held (k r)
  end.

Lemma leases_perm d fin p : forall h h', h ≡ₚ h' -> leases d fin h p -> leases d fin h' p.
Proof.
  induction p as [x|e|k IH|c k IH|k IH|c s k IH]; intros h h' E; cbn [leases]; try done.
  - by rewrite E.
  - intros [Hl Hk]. rewrite <- E. split; [done|]. intros c. apply (IH c (c :: h)); [by rewrite E | done].
  - intros (h1 & E1 & Hk). exists h1. by rewrite <- E.
  - apply IH, E.
  - intros [Hc Hk]. rewrite <- E. split; [done|]. intros r. by apply (IH r h).
Qed.

End Steps.

Lemma leases_bind {X Y} d fin mid (p : dprog X) (f : X -> dprog Y) : forall held,
  leases d mid held p -> (forall x, leases d fin mid (f x)) -> leases d fin held (dbind p f).
Proof.
  induction p as [x|e|k IH|c k IH|k IH|c s k IH]; intros held Hp Hf; cbn [leases dbind] in *; try done.
  - apply (leases_perm d fin _ mid); [by symmetry | apply Hf].
  - destruct Hp as [Hl Hk]. split; [done|]. intros c. by apply IH.
  - destruct Hp as (h & E & Hk). exists h. split; [done | by apply IH].
  - by apply IH.
  - destruct Hp as [Hc Hk]. split; [done|]. intros r. by apply IH.
Qed.

(** A lease block is disciplined if its body leaves its leases alone. *)
Lemma leases_with {X} d held (body : conn -> dprog X) :
  (length held <= d)%nat -> (forall c, leases d (c :: held) (c :: held) (body c)) ->
  leases d held held (with_lease body).
Proof.
  intros Hl Hb. split; [done|]. intros c. eapply leases_bind; [apply Hb|].
  intros x. exists held. split; [done|]. cbn [leases]. done.
Qed.

Lemma list_insert_middle {A} (l1 l2 : list A) x y :
  <[length l1 := y]> (l1 ++ x :: l2) = l1 ++ y :: l2.
Proof. induction l1; simpl; congruence. Qed.

Lemma held_insert {X} (l : list (thread X)) i t :
  l !! i = Some t -> exists R, concat (th_held <$> l) ≡ₚ th_held t ++ R
    /\ forall t', concat (th_held <$> <[i := t']> l) ≡ₚ th_held t' ++ R.
Proof.
  revert i. induction l as [|a l IH]; intros [|i] H; simplify_eq/=.
  - by exists (concat (th_held <$> l)).
  - destruct (IH i H) as (R & H1 & H2). exists (th_held a ++ R). split.
    + rewrite H1, !app_assoc. by rewrite (Permutation_app_comm (th_held a)).
    + intros t'. rewrite H2, !app_assoc. by rewrite (Permutation_app_comm (th_held a)).
Qed.

(** ** The pool's invariant *)

Section Invariant.

Context {X : Type}.
Implicit Types t : thread X.
Implicit Types s : sys X.

Definition is_waiting (w : waiting) t : nat :=
  match w, th_wait t with Asleep, Asleep | Woken, Woken | Running, Running => 1 | _, _ => 0 end.
Definition is_notifying t : nat := match th_prog t with DNotify _ => 1 | _ => 0 end.
Abbreviation count f s := (sum_list_with f (sy_threads s)).

Definition th_ok (d : nat) t : Prop :=
  leases d [] (th_held t) (th_prog t)
  /\ (th_wait t <> Running -> exists k, th_prog t = DAcquire k).

(** Every connection is in the pool or leased to one thread, and threads keep
    the lease discipline. *)
Definition sys_own (d : nat) (conns : list nat) s : Prop :=
  sy_pool s ++ concat (th_held <$> sy_threads s) ≡ₚ conns /\ Forall (th_ok d) (sy_threads s).

(** While somebody sleeps, each pooled connection has a thread on its way to
    it, woken or about to be. *)
Definition sys_wakeups s : Prop :=
  (0 < count (is_waiting Asleep) s)%nat ->
  (length (sy_pool s) <= count (is_waiting Woken) s + count is_notifying s)%nat.

Definition sys_inv (d : nat) (conns : list nat) s : Prop := sys_own d conns s /\ sys_wakeups s.

Lemma sys_own_insert d conns pool ts i t t' pool' :
  sys_own d conns (mkSys pool ts) -> ts !! i = Some t ->
  (forall R, pool ++ th_held t ++ R ≡ₚ pool' ++ th_held t' ++ R) -> th_ok d t' ->
  sys_own d conns (mkSys pool' (<[i := t']> ts)).
Proof.
  intros [Hc Ht] Hi Hp Ht'. cbn [sy_pool sy_threads] in *.
  destruct (held_insert ts i t Hi) as (R & H1 & H2). split; cbn [sy_pool sy_threads].
  - rewrite H2, <- Hp, <- H1. done.
  - by apply Forall_insert.
Qed.

Lemma th_ok_running d held p : leases d [] held p -> th_ok d (mkThread held Running p).
Proof. intros H. split; [done|]. by intros []. Qed.

(** The counts before and after thread [i] changes from [t] to [t']. *)
Ltac counts Hi t' :=
  match type of Hi with
  | ?ts !! ?i = Some ?t =>
      pose proof (sum_insert (is_waiting Asleep) ts i t t' Hi);
      pose proof (sum_insert (is_waiting Woken) ts i t t' Hi);
      pose proof (sum_insert is_notifying ts i t t' Hi)
  end.
Ltac count_solve :=
  unfold is_waiting, is_notifying in *;
  cbn [sy_pool sy_threads th_held th_wait th_prog length] in *; try lia.

(** What a step shows of the thread that takes it. *)
Ltac step_cases Hs Hok :=
  destruct Hs as [s s' Hs|pool ts i t Hi Ha];
  [destruct Hs as [ts i t k c pool Hi Hp Ha|ts i t k Hi Hp Ha
    |pool ts i t c held k Hi Hp Hh|pool ts i t k Hi Hp Hn|pool ts i t k j tj Hi Hp Hj Ha Hij
    |pool ts i t c sq k r Hi Hp]|]; destruct (Hok _ _ Hi) as [Hl Hr];
  destruct t as [h wt p]; cbn [th_prog th_held th_wait sy_pool sy_threads] in *; subst;
  cbn [leases] in Hl; try (destruct wt; try (destruct (Hr ltac:(discriminate)) as [? [=]]; fail)); try contradiction.

Lemma sys_own_step d conns s s' : sys_step s s' -> sys_own d conns s -> sys_own d conns s'.
Proof.
  intros Hs Hown. pose proof (proj1 (Forall_lookup _ _) (proj2 Hown)) as Hok.
  step_cases Hs Hok; try (eapply sys_own_insert; [exact Hown | exact Hi | done | ]);
    try (split; [done | intros _; eexists; reflexivity]); try (apply th_ok_running; (done || apply Hl)).
  - eapply sys_own_insert; [exact Hown | exact Hi | | apply th_ok_running, Hl].
    intros R. cbn [th_held app]. by rewrite <- Permutation_middle.
  - eapply sys_own_insert; [exact Hown | exact Hi | | apply th_ok_running, Hl].
    intros R. cbn [th_held app]. by rewrite <- Permutation_middle.
  - destruct Hl as (h' & E & Hk). assert (E' : h' ≡ₚ held).
    { apply (Permutation_cons_inv (a := c)). by rewrite <- E. }
    eapply sys_own_insert; [exact Hown | exact Hi | |].
    + intros R. cbn [th_held]. rewrite Hh, <- app_assoc. done.
    + apply th_ok_running. cbn [leases]. by eapply leases_perm.
  - destruct (Hok _ _ Hj) as [Hlj Hrj].
    eapply sys_own_insert; [| by rewrite list_lookup_insert_ne | done | split; [done|]].
    + eapply sys_own_insert; [exact Hown | exact Hi | done | by apply th_ok_running].
    + intros _. apply Hrj. by rewrite Ha.
  - split; [done|]. intros _. apply Hr. discriminate.
Qed.

Lemma sys_wakeups_step d conns s s' :
  sys_step s s' -> sys_own d conns s -> sys_wakeups s -> sys_wakeups s'.
Proof.
  intros Hs Hown Hw. pose proof (proj1 (Forall_lookup _ _) (proj2 Hown)) as Hok.
  unfold sys_wakeups in *. step_cases Hs Hok; try (cbn [sy_pool length]; lia).
  - counts Hi (mkThread (c :: h) Running (k c)). count_solve; destruct (k c); lia.
  - counts Hi (mkThread (c :: h) Running (k c)). count_solve; destruct (k c); lia.
  - counts Hi (mkThread held Running (DNotify k)). cbn [sy_pool]. rewrite length_app. count_solve.
  - intros Hpos. exfalso. assert (Hz : sum_list_with (is_waiting Asleep) ts = 0%nat).
    { clear -Hn. induction Hn as [|t ts Ht _ IH]; [done|]. simpl. rewrite IH.
      unfold is_waiting. by destruct (th_wait t). }
    counts Hi (mkThread h Running k). count_solve.
  - destruct (Hok _ _ Hj) as [_ Hrj]. destruct tj as [hj wj pj]. cbn in Ha; subst wj.
    destruct (Hrj ltac:(discriminate)) as [kj Ej]. cbn in Ej; subst pj.
    assert (Hj' : <[i := mkThread h Running k]> ts !! j = Some (mkThread hj Asleep (DAcquire kj)))
      by by rewrite list_lookup_insert_ne.
    pose proof (sum_lookup (is_waiting Asleep) ts j _ Hj).
    counts Hi (mkThread h Running k). counts Hj' (mkThread hj Woken (DAcquire kj)).
    count_solve.
  - counts Hi (mkThread h Running (k r)). count_solve.
  - counts Hi (mkThread h Woken p). destruct (Hr ltac:(discriminate)) as [k ->]. count_solve.
Qed.

Lemma sys_inv_steps d conns s s' : rtc sys_step s s' -> sys_inv d conns s -> sys_inv d conns s'.
Proof.
  induction 1 as [|s s1 s' Hs _ IH]; [done|]. intros [Ho Hw]. apply IH.
  split; [by eapply sys_own_step | by eapply sys_wakeups_step].
Qed.

(** A thread that is not asleep and not at its end can act. *)
Lemma awake_acts d conns s i t :
  sys_own d conns s -> sy_threads s !! i = Some t -> th_wait t <> Asleep ->
  (exists x, th_prog t = DRet x) \/ (exists e, th_prog t = DFault e) \/ exists s', act_step s s'.
Proof.
  destruct s as [pool ts]. cbn [sy_threads]. intros Hown Hi Ha.
  destruct (proj1 (Forall_lookup _ _) (proj2 Hown) _ _ Hi) as [Hl _].
  destruct (th_prog t) as [x|e|k|c k|k|c sq k] eqn:Hp; [left; by eexists | right; left; by eexists | ..];
    right; right.
  - destruct pool as [|c pool]; eexists; [by eapply st_sleep | by eapply st_acquire].
  - destruct Hl as (h & E & _). eexists. by eapply st_return.
  - destruct (decide (Forall (fun t => th_wait t <> Asleep) ts)) as [Hn|Hn].
    { eexists. by eapply st_notify_none. }
    apply not_Forall_Exists in Hn; [|intros ?; apply _].
    apply Exists_exists in Hn as (tj & Hin & Hj). apply list_elem_of_lookup in Hin as [j Hj'].
    eexists. eapply (st_notify_one pool ts i t k j tj); try done.
    + destruct (decide (th_wait tj = Asleep)) as [E|E]; [done | by destruct Hj].
    + intros ->. simplify_eq. by apply Hj.
  - eexists. by eapply (st_query _ _ _ _ _ _ _ QErr).
Qed.

(** No wakeup is lost: while connections are pooled and a thread sleeps, some
    thread is able to act. *)
Lemma sleeper_served d conns s :
  sys_inv d conns s -> (0 < count (is_waiting Asleep) s)%nat -> sy_pool s <> [] ->
  exists s', act_step s s'.
Proof.
  intros [Ho Hw] Hs Hp. specialize (Hw Hs).
  assert (Hpos : (0 < length (sy_pool s))%nat) by (destruct (sy_pool s); [done | simpl; lia]).
  assert (H : (0 < count (is_waiting Woken) s)%nat \/ (0 < count is_notifying s)%nat) by lia.
  destruct H as [H|H]; apply sum_pos in H as (i & t & Hi & Ht);
    destruct (proj1 (Forall_lookup _ _) (proj2 Ho) _ _ Hi) as [_ Hr];
    unfold is_waiting, is_notifying in Ht;
    assert (Ha : th_wait t <> Asleep) by (intros E; rewrite E in *;
      first [lia | by destruct (Hr ltac:(discriminate)) as [k Ek]; rewrite Ek in Ht; lia]);
    destruct (awake_acts _ _ _ _ _ Ho Hi Ha) as [[x E]|[[e E]|?]]; try done; exfalso.
  1,2: destruct (th_wait t); try lia; destruct (Hr ltac:(discriminate)); congruence.
  all: rewrite E in Ht; lia.
Qed.

(** The number of leases that threads with at most one each hold. *)
Lemma held_bound d conns s :
  sys_own d conns s -> Forall (fun t => (length (th_held t) <= 1)%nat) (sy_threads s) ->
  (length conns <= length (sy_pool s) + length (sy_threads s))%nat.
Proof.
  intros [Hp _] Hf. apply Permutation_length in Hp. rewrite length_app in Hp.
  assert (length (concat (th_held <$> sy_threads s)) <= length (sy_threads s))%nat; [|lia].
  clear Hp. induction Hf as [|t ts Ht _ IH]; [simpl; lia|].
  rewrite fmap_cons. cbn [concat length]. rewrite length_app. lia.
Qed.

End Invariant.

(** ** Start of a run *)

Definition fresh {X} (p : dprog X) : thread X := mkThread [] Running p.

Lemma fresh_inv {X} d conns (ps : list (dprog X)) :
  Forall (leases d [] []) ps -> sys_inv d conns (mkSys conns (fresh <$> ps)).
Proof.
  intros H. split; [split|]; cbn [sy_pool sy_threads].
  - replace (concat (th_held <$> (fresh <$> ps))) with (@nil nat); [by rewrite app_nil_r|].
    clear H. induction ps as [|p ps IH]; [done|]. rewrite !fmap_cons. exact IH.
  - apply Forall_fmap. eapply Forall_impl; [exact H|]. intros p Hp. by apply th_ok_running.
  - intros Hpos. exfalso. cbn [sy_threads] in Hpos. apply sum_pos in Hpos as (i & t & Hi & Ht).
    rewrite list_lookup_fmap in Hi. apply fmap_Some in Hi as (p & _ & ->). simpl in Ht. lia.
Qed.

(** ** Deadlock *)

(** [asks p]: with some answers of the server [p] comes to wait for another
    connection. *)
Inductive asks {X} : dprog X -> Prop :=
| asks_here k : asks (DAcquire k)
| asks_query c s k r : asks (k r) -> asks (DQuery c s k).

Definition at_acquire {X} (t : thread X) : Prop := exists k, th_prog t = DAcquire k.
(** Nobody has a connection to spare and everybody wants one. *)
Definition dead {X} (s : sys X) : Prop := sy_pool s = [] /\ Forall at_acquire (sy_threads s).

(** A dead pool stays dead. *)
Lemma dead_steps {X} (s s' : sys X) : rtc sys_step s s' -> dead s -> dead s'.
Proof.
  induction 1 as [|s s1 s' Hs _ IH]; [done|]. intros [Hp Hf]. apply IH.
  assert (Hat : forall i t, sy_threads s !! i = Some t -> at_acquire t)
    by apply (proj1 (Forall_lookup _ _) Hf).
  destruct Hs as [s s1 Hs|pool ts i t Hi Ha];
    [destruct Hs as [? ? ? ? ? ? Hi ?|? ? ? k Hi ?|? ? ? ? ? ? ? Hi E
      |? ? ? ? ? Hi E|? ? ? ? ? ? ? Hi E|? ? ? ? ? ? ? ? Hi E]|]; try done;
    cbn [sy_threads sy_pool] in *; destruct (Hat _ _ Hi) as [k' Hk']; try congruence.
  - split; [done|]. apply Forall_insert; [done | by eexists].
  - split; [done|]. apply Forall_insert; [done | by eexists].
Qed.

Lemma asks_run {X} (p : dprog X) (pool h : list nat) ts1 ts2 :
  asks p -> exists k,
    rtc sys_step (mkSys pool (ts1 ++ mkThread h Running p :: ts2))
                 (mkSys pool (ts1 ++ mkThread h Running (DAcquire k) :: ts2)).
Proof.
  induction 1 as [k|c s k r _ [k' IH]]; [exists k; apply rtc_refl|]. exists k'.
  eapply rtc_l; [|exact IH]. apply st_act.
  rewrite <- (list_insert_middle ts1 ts2 (mkThread h Running (DQuery c s k))
                (mkThread h Running (k r))).
  eapply (st_query pool _ (length ts1) (mkThread h Running (DQuery c s k))); [|done].
  by rewrite list_lookup_middle.
Qed.

(** Threads that each take a connection and then ask for a second one can take
    all connections between them. *)
Lemma nested_deadlock {X} (conns : list nat) (ts : list (thread X)) :
  (length conns <= length ts)%nat ->
  Forall (fun t => th_wait t <> Asleep /\ exists k, th_prog t = DAcquire k /\ forall c, asks (k c)) ts ->
  exists s, rtc sys_step (mkSys conns ts) s /\ dead s.
Proof.
  intros Hl Hts.
  enough (H : forall conns todo fin, (length conns <= length todo)%nat ->
    Forall (fun t => th_wait t <> Asleep /\ exists k, th_prog t = DAcquire k /\ forall c, asks (k c)) todo ->
    Forall at_acquire fin ->
    exists s : sys X, rtc sys_step (mkSys conns (fin ++ todo)) s /\ dead s)
    by (apply (H conns ts []); [done | done | constructor]).
  clear conns ts Hl Hts. induction conns as [|c conns IH]; intros todo fin Hl Ht Hf.
  - eexists. split; [apply rtc_refl|]. split; [done|]. cbn [sy_threads]. apply Forall_app.
    split; [done|]. eapply Forall_impl; [exact Ht|]. intros t (_ & k & Hk & _). by exists k.
  - destruct todo as [|t todo]; [simpl in Hl; lia|].
    apply Forall_cons in Ht as [(Ha & k & Hk & Has) Ht].
    destruct (asks_run (k c) conns (c :: th_held t) fin todo (Has c)) as [k' Hrun].
    destruct (IH todo (fin ++ [mkThread (c :: th_held t) Running (DAcquire k')])) as (s & Hs & Hd);
      [simpl in Hl; lia | done | apply Forall_app; split; [done | repeat constructor; by eexists] |].
    exists s. split; [|done]. eapply rtc_l; [|etrans; [exact Hrun|]].
    + apply st_act. rewrite <- (list_insert_middle fin todo t
        (mkThread (c :: th_held t) Running (k c))).
      eapply st_acquire; [by rewrite list_lookup_middle | done | done].
    + by rewrite <- app_assoc in Hs.
Qed.

(** ** Ownership and progress *)

Lemma steps_length {X} (s s' : sys X) :
  rtc sys_step s s' -> length (sy_threads s') = length (sy_threads s).
Proof.
  induction 1 as [|s s1 s' Hs _ IH]; [done|]. rewrite IH.
  destruct Hs as [? ? []|]; cbn [sy_threads]; by rewrite ?length_insert.
Qed.

Lemma owners {X} (conns : list nat) (ps : list (dprog X)) s :
  Forall (leases 1 [] []) ps -> rtc sys_step (mkSys conns (fresh <$> ps)) s -> sys_own 1 conns s.
Proof. intros Hps Hs. apply (sys_inv_steps 1 conns _ _ Hs (fresh_inv _ _ _ Hps)). Qed.

Lemma all_returned {X} (conns : list nat) (ps : list (dprog X)) s :
  Forall (leases 1 [] []) ps -> rtc sys_step (mkSys conns (fresh <$> ps)) s ->
  Forall (fun t => finished t = true) (sy_threads s) -> sy_pool s ≡ₚ conns.
Proof.
  intros Hps Hs Hd. destruct (owners conns ps s Hps Hs) as [Hp Hf]. rewrite <- Hp.
  replace (concat (th_held <$> sy_threads s)) with (@nil nat); [by rewrite app_nil_r|].
  clear -Hf Hd. induction Hd as [|t ts Ht _ IH]; [done|].
  apply Forall_cons in Hf as [[Hl _] Hf]. rewrite fmap_cons. cbn [concat]. rewrite <- IH by done.
  unfold finished in Ht. destruct (th_prog t); try done. cbn [leases] in Hl.
  by apply Permutation_nil_r in Hl as ->.
Qed.

(** In every reachable state each connection is in the pool or
    leased to exactly one thread, and a thread sends statements only on a
    connection it leases. *)
Lemma leases_exclusive {X} (conns : list nat) (ps : list (dprog X)) s :
  NoDup conns -> Forall (leases 1 [] []) ps -> rtc sys_step (mkSys conns (fresh <$> ps)) s ->
  NoDup (sy_pool s ++ concat (th_held <$> sy_threads s))
  /\ (forall i t c sq k, sy_threads s !! i = Some t -> th_prog t = DQuery c sq k -> c ∈ th_held t).
Proof.
  intros Hn Hps Hs. destruct (owners conns ps s Hps Hs) as [Hp Hf]. split; [by rewrite Hp|].
  intros i t c sq k Hi Hk. destruct (proj1 (Forall_lookup _ _) Hf _ _ Hi) as [Hl _].
  rewrite Hk in Hl. apply Hl.
Qed.

(** Threads that own at most one connection while they wait for
    another never block each other on a pool with more connections than there
    are threads: in every reachable state some thread can act without relying
    on a spurious wakeup, or all have finished (or one has run into undefined
    behaviour). *)
Lemma pool_progress {X} (conns : list nat) (ps : list (dprog X)) s :
  Forall (leases 1 [] []) ps -> (length ps < length conns)%nat ->
  rtc sys_step (mkSys conns (fresh <$> ps)) s ->
  (exists s', act_step s s')
  \/ Forall (fun t => finished t = true) (sy_threads s)
  \/ Exists (fun t => exists e, th_prog t = DFault e) (sy_threads s).
Proof.
  intros Hps Hlt Hs. pose proof (sys_inv_steps 1 conns _ _ Hs (fresh_inv _ _ _ Hps)) as Hinv.
  pose proof (steps_length _ _ Hs) as Hlen. cbn [sy_threads] in Hlen. rewrite length_fmap in Hlen.
  destruct Hinv as [Ho Hw] eqn:E; clear E.
  destruct (decide (Exists (fun t => th_wait t <> Asleep /\ finished t = false) (sy_threads s)))
    as [H|H].
  { apply Exists_exists in H as (t & Hin & Ha & Hf). apply list_elem_of_lookup in Hin as [i Hi].
    destruct (awake_acts _ _ _ _ _ Ho Hi Ha) as [[x Ex]|[[e Ee]|H]].
    - unfold finished in Hf. by rewrite Ex in Hf.
    - right; right. apply Exists_exists. exists t. split; [by eapply list_elem_of_lookup_2 | by exists e].
    - by left. }
  apply not_Exists_Forall in H; [|intros ?; apply _].
  destruct (decide (0 < sum_list_with (is_waiting Asleep) (sy_threads s))%nat) as [Hsl|Hsl].
  - left. eapply sleeper_served; [exact Hinv | done|]. intros Hnil.
    assert (Hone : Forall (fun t => (length (th_held t) <= 1)%nat) (sy_threads s)).
    { apply Forall_lookup. intros i t Hi. destruct (proj1 (Forall_lookup _ _) (proj2 Ho) _ _ Hi) as [Hl Hr].
      pose proof (proj1 (Forall_lookup _ _) H _ _ Hi) as Hna.
      destruct (decide (th_wait t = Asleep)) as [Ea|Ea].
      - destruct (Hr ltac:(by rewrite Ea)) as [k Hk]. rewrite Hk in Hl. apply Hl.
      - destruct (finished t) eqn:Ef; [|by destruct Hna]. unfold finished in Ef.
        destruct (th_prog t); try done. cbn [leases] in Hl. apply Permutation_nil_r in Hl as ->.
        simpl. lia. }
    pose proof (held_bound _ _ _ Ho Hone) as Hb. rewrite Hnil in Hb. simpl in Hb. lia.
  - right; left. apply Forall_lookup. intros i t Hi.
    pose proof (proj1 (Forall_lookup _ _) H _ _ Hi) as Hna.
    pose proof (sum_lookup (is_waiting Asleep) _ _ _ Hi) as Hle.
    destruct (finished t) eqn:Ef; [done|]. destruct Hna. split; [|done]. intros Ea.
    unfold is_waiting in Hle at 1. rewrite Ea in Hle. lia.
Qed.
