(* ===== verification/MysqlRepos.v ===== *)
(** * The MySQL repositories (server/src/db/mysql_*_repo.cpp)

    Every method of MysqlAccountRepo, MysqlUserRepo, MysqlBikeRepo and
    MysqlRideRepo as a [dprog]: the lease it takes, the statements it formats
    into its fixed buffers, the branches on the server's answers and the rows
    it reads.  The server is arbitrary; of the client library only
    [mysql_real_escape_string] is used beyond the protocol of MysqlPool.v, as
    the operation [my_escape]. *)

From S2P Require Import Prelude Double Common Repo CText MysqlPool.
From Stdlib Require Import Ascii.

(** The escaped text, without its terminating NUL. *)
Class MysqlClient : Type := { my_escape : text -> text }.

(** What the reference manual says of it: every byte becomes one or two. *)
Class MysqlClientLaws `{MysqlClient} : Prop := {
  escape_grows : forall s, (length s <= length (my_escape s))%nat;
  escape_doubles : forall s, (length (my_escape s) <= 2 * length s)%nat
}.

(** ** Buffers and cells *)

(** [snprintf] into [char buf\[n\]], then [strlen]. *)
Definition sqlbuf (n : nat) (t : text) : text := cstr (snprintf n t).

(** [mysql_real_escape_string] into [char esc\[size\]]: it writes the escaped
    text and a NUL without knowing the size. *)
Definition escape_into `{MysqlClient} {X} (size : nat) (s : string) (k : text -> dprog X) : dprog X :=
  let e := my_escape (chars_of_string s) in
  if (length e + 1 <=? size)%nat then k e
  else DFault (UndefinedBehaviour "stack buffer overflow").

(** [row\[i\]]; [None] is SQL NULL. *)
Definition cell (r : list (option text)) (i : nat) : result (option text) :=
  match r !! i with
  | Some c => Ok c
  | None => Err (UndefinedBehaviour "row index")
  end.

(** [std::atoi(row\[i\])] without a null check. *)
Definition cell_num (f : text -> result Z) (r : list (option text)) (i : nat) : result Z :=
  try! c := cell r i in
  match c with Some t => f t | None => Err (UndefinedBehaviour "null row") end.

(** [row\[i\] ? f(row\[i\]) : dflt]. *)
Definition cell_or {A} (dflt : A) (f : text -> result A) (r : list (option text)) (i : nat) : result A :=
  try! c := cell r i in
  match c with Some t => f t | None => Ok dflt end.
Definition cell_double (r : list (option text)) (i : nat) : result double :=
  cell_or d_zero (fun t => Ok (atof t)) r i.
(** [std::string(row\[i\], lengths\[i\])]. *)
Definition cell_string (r : list (option text)) (i : nat) : result string :=
  cell_or ""%string (fun t => Ok (string_of_chars t)) r i.

Fixpoint rmap {A B} (f : A -> result B) (l : list A) : result (list B) :=
  match l with
  | [] => Ok []
  | a :: l => try! b := f a in try! bs := rmap f l in Ok (b :: bs)
  end.

Definition query_ok (r : reply) : bool := match r with QErr => false | QOk _ _ _ => true end.

(** ** MysqlAccountRepo *)

Definition read_balance (r : reply) : result Z :=
  match r with
  | QErr => Ok 0
  | QOk None _ _ => Ok 0
  | QOk (Some (_, [])) _ _ => Ok 0
  | QOk (Some (_, row :: _)) _ _ => cell_num atoi row 0
  end.

Definition my_get_balance (uid : Z) : dprog Z :=
  with_lease (fun c =>
    sql! r := (c, sqlbuf 128 (txt "SELECT balance FROM account WHERE user_id=" ++ fmt_d uid)) in
    dlift (read_balance r)).

Definition START : text := txt "START TRANSACTION".
Definition COMMIT : text := txt "COMMIT".
Definition ROLLBACK : text := txt "ROLLBACK".

Definition sql_open_account (uid : Z) : text :=
  sqlbuf 128 (txt "INSERT IGNORE INTO account (user_id, balance) VALUES (" ++ fmt_d uid ++ txt ", 0)").
Definition sql_add (uid amount : Z) : text :=
  sqlbuf 256 (txt "UPDATE account SET balance = balance + " ++ fmt_d amount
              ++ txt " WHERE user_id = " ++ fmt_d uid).
Definition sql_record (uid type amount : Z) : text :=
  sqlbuf 256 (txt "INSERT INTO account_record (user_id, type, amount, balance_after) SELECT "
              ++ fmt_d uid ++ txt ", " ++ fmt_d type ++ txt ", " ++ fmt_d amount
              ++ txt ", balance FROM account WHERE user_id = " ++ fmt_d uid).

(** [run(buf1) && run(buf2) && run(buf3)]. *)
Fixpoint run_all {X} (c : conn) (sqls : list text) (k : bool -> dprog X) : dprog X :=
  match sqls with
  | [] => k true
  | s :: sqls => sql! r := (c, s) in if query_ok r then run_all c sqls k else k false
  end.

Definition my_add_balance (uid : Z) (type : RecordType) (amount : Z) : dprog Z :=
  with_lease (fun c =>
    sql! r := (c, START) in
    if negb (query_ok r) then my_get_balance uid
    else
      run_all c [sql_open_account uid; sql_add uid amount;
                 sql_record uid (record_type_code type) amount] (fun ok =>
        if negb ok then sql! _ := (c, ROLLBACK) in my_get_balance uid
        else
          sql! r := (c, COMMIT) in
          if negb (query_ok r) then sql! _ := (c, ROLLBACK) in my_get_balance uid
          else my_get_balance uid)).

Definition row_to_record (row : list (option text)) : result AccountRecord :=
  try! ty := cell_num atoi row 0 in
  try! am := cell_num atoi row 1 in
  try! ba := cell_num atoll row 2 in
  try! ts := cell_num atoll row 3 in
  Ok (mkAccountRecord ty am ba ts).

(** Rows of a SELECT, or none when the query or the result failed. *)
Definition rows_of (r : reply) : list (list (option text)) :=
  match r with QOk (Some (_, rows)) _ _ => rows | _ => [] end.

Definition my_list_records (uid limit : Z) : dprog (list AccountRecord) :=
  with_lease (fun c =>
    sql! r := (c, sqlbuf 256 (txt "SELECT type, amount, balance_after, UNIX_TIMESTAMP(tm) FROM account_record WHERE user_id="
                 ++ fmt_d uid ++ txt " ORDER BY tm DESC LIMIT " ++ fmt_d limit)) in
    dlift (rmap row_to_record (rows_of r))).

Section Escaping.

Context `{MysqlClient}.

(** ** MysqlUserRepo *)

Definition row_to_user (row : list (option text)) : result User :=
  try! id := cell_num atoi row 0 in
  try! mob := cell_or ""%string (fun t => Ok (string_of_chars (cstr t))) row 1 in
  Ok (mkUser id mob).

Definition first_row {A} (f : list (option text) -> result A) (r : reply) : result (option A) :=
  match rows_of r with
  | [] => Ok None
  | row :: _ => try! a := f row in Ok (Some a)
  end.

Definition my_find_by_mobile (mobile : string) : dprog (option User) :=
  with_lease (fun c =>
    escape_into 64 mobile (fun esc =>
      sql! r := (c, sqlbuf 256 (txt "SELECT id, mobile FROM userinfo WHERE mobile='" ++ cstr esc
                                ++ txt "'")) in
      dlift (first_row row_to_user r))).

Definition my_find_or_create (mobile : string) : dprog User :=
  let+ existing := my_find_by_mobile mobile in
  match existing with
  | Some u => DRet u
  | None =>
      with_lease (fun c =>
        escape_into 64 mobile (fun esc =>
          sql! r := (c, sqlbuf 256 (txt "INSERT INTO userinfo (mobile) VALUES ('" ++ cstr esc
                                    ++ txt "')")) in
          match r with
          | QErr =>
              let+ u := my_find_by_mobile mobile in
              DRet (default (mkUser 0 ""%string) u)
          | QOk _ _ id => DRet (mkUser (i32 id) mobile)
          end))
  end.

(** ** MysqlBikeRepo

    The status of a row is kept as the value of the enumeration's underlying
    type: [static_cast<BikeStatus>] checks nothing. *)

Record BikeRow : Type := mkBikeRow {
  br_id : Z; br_no : string; br_lat : double; br_lng : double; br_status : Z }.

Definition row_to_bike (row : list (option text)) : result BikeRow :=
  try! id := cell_or 0 atoi row 0 in
  try! no := cell_string row 1 in
  try! la := cell_double row 2 in
  try! lo := cell_double row 3 in
  try! st := cell_or 0 atoi row 4 in
  Ok (mkBikeRow id no la lo st).

Definition my_get_for_update (bike_no : string) : dprog (option BikeRow) :=
  with_lease (fun c =>
    escape_into 64 bike_no (fun esc =>
      sql! r := (c, sqlbuf 256 (txt "SELECT id, bike_no, lat, lng, status FROM bike WHERE bike_no='"
                                ++ cstr esc ++ txt "' FOR UPDATE")) in
      dlift (first_row row_to_bike r))).

Definition affected (r : reply) : bool :=
  match r with QErr => false | QOk _ n _ => n >? 0 end.

Definition my_update_status (bike_id : Z) (s : BikeStatus) : dprog bool :=
  with_lease (fun c =>
    sql! r := (c, sqlbuf 128 (txt "UPDATE bike SET status=" ++ fmt_d (bike_status_code s)
                              ++ txt " WHERE id=" ++ fmt_d bike_id)) in
    DRet (affected r)).

Definition my_update_location (bike_id : Z) (lat lng : double) : dprog bool :=
  with_lease (fun c =>
    sql! r := (c, sqlbuf 160 (txt "UPDATE bike SET lat=" ++ fmt_f7 lat ++ txt ", lng=" ++ fmt_f7 lng
                              ++ txt " WHERE id=" ++ fmt_d bike_id)) in
    DRet (affected r)).

Definition my_list_in_bounds (la_min la_max lo_min lo_max : double) : dprog (list BikeRow) :=
  with_lease (fun c =>
    sql! r := (c, sqlbuf 256 (txt "SELECT id, bike_no, lat, lng, status FROM bike WHERE status IN (0,2) AND lat BETWEEN "
                 ++ fmt_f7 la_min ++ txt " AND " ++ fmt_f7 la_max ++ txt " AND lng BETWEEN "
                 ++ fmt_f7 lo_min ++ txt " AND " ++ fmt_f7 lo_max)) in
    match r with
    | QOk (Some (n_fields, rows)) _ _ =>
        if (n_fields <? 5)%nat then DRet [] else dlift (rmap row_to_bike rows)
    | _ => DRet []
    end).

Definition my_insert_bike (b : Bike) : dprog (option Bike) :=
  with_lease (fun c =>
    escape_into 80 (b_no b) (fun esc =>
      sql! r := (c, sqlbuf 256 (txt "INSERT INTO bike (bike_no, lat, lng, status) VALUES ('" ++ cstr esc
                   ++ txt "', " ++ fmt_f7 (b_lat b) ++ txt ", " ++ fmt_f7 (b_lng b) ++ txt ", "
                   ++ fmt_d (bike_status_code (b_status b)) ++ txt ")")) in
      match r with
      | QErr => DRet None
      | QOk _ _ id => DRet (Some (mkBike (i32 id) (b_no b) (b_lat b) (b_lng b) (b_status b)))
      end)).

(** ** MysqlRideRepo *)

Definition Ride0 : Ride :=
  mkRide 0 ""%string 0 0 0 0 d_zero d_zero d_zero d_zero 0 0 0 0.

Definition row_to_ride (row : list (option text)) : result Ride :=
  try! id := cell_or 0 atoll row 0 in
  try! no := cell_string row 1 in
  try! user := cell_or 0 atoi row 2 in
  try! bike := cell_or 0 atoi row 3 in
  try! sts := cell_or 0 atoll row 4 in
  try! ets := cell_or 0 atoll row 5 in
  try! sla := cell_double row 6 in
  try! slo := cell_double row 7 in
  try! ela := cell_double row 8 in
  try! elo := cell_double row 9 in
  try! dur := cell_or 0 atoi row 10 in
  try! dist := cell_or 0 atoi row 11 in
  try! amt := cell_or 0 atoi row 12 in
  try! st := cell_or 0 atoi row 13 in
  Ok (mkRide (i32 id) no user bike sts ets sla slo ela elo dur dist amt st).

(** [run_sql]: one statement, its success. *)
Definition run_sql {X} (c : conn) (s : text) (k : bool -> dprog X) : dprog X :=
  sql! r := (c, s) in k (query_ok r).

Definition ride_text (esc : text) (ci : CreateRideInput) : text :=
  txt "INSERT INTO ride(ride_no, user_id, bike_id, start_tm, end_tm, start_lat, start_lng, end_lat, end_lng, duration_sec, distance_m, amount_cent, status) VALUES('"
  ++ cstr esc ++ txt "', " ++ fmt_d (ci_user_id ci) ++ txt ", " ++ fmt_d (ci_bike_id ci)
  ++ txt ", FROM_UNIXTIME(" ++ fmt_d (ci_start_ts ci) ++ txt "), FROM_UNIXTIME("
  ++ fmt_d (ci_end_ts ci) ++ txt "), "
  ++ fmt_f7 (ci_start_lat ci) ++ txt ", " ++ fmt_f7 (ci_start_lng ci) ++ txt ", "
  ++ fmt_f7 (ci_end_lat ci) ++ txt ", " ++ fmt_f7 (ci_end_lng ci) ++ txt ", "
  ++ fmt_d (ci_duration_sec ci) ++ txt ", " ++ fmt_d (ci_distance_m ci) ++ txt ", "
  ++ fmt_d (ci_amount_cent ci) ++ txt ", 0)".
Definition sql_ride (esc : text) (ci : CreateRideInput) : text := sqlbuf 512 (ride_text esc ci).

Definition point_text (ride_id : Z) (p : RidePoint) : text :=
  txt "INSERT INTO ride_position(ride_id, seq, lat, lng, elapsed_sec) VALUES("
  ++ fmt_d ride_id ++ txt ", " ++ fmt_d (p_seq p) ++ txt ", " ++ fmt_f7 (p_lat p) ++ txt ", "
  ++ fmt_f7 (p_lng p) ++ txt ", " ++ fmt_d (p_elapsed_sec p) ++ txt ")".
Definition sql_point (ride_id : Z) (p : RidePoint) : text := sqlbuf 256 (point_text ride_id p).

Definition ride_of_input (ride_id : Z) (ci : CreateRideInput) : Ride :=
  mkRide (i32 ride_id) (ci_no ci) (ci_user_id ci) (ci_bike_id ci) (ci_start_ts ci) (ci_end_ts ci)
         (ci_start_lat ci) (ci_start_lng ci) (ci_end_lat ci) (ci_end_lng ci)
         (ci_duration_sec ci) (ci_distance_m ci) (ci_amount_cent ci) 0.

(** The unsigned 64-bit insert id as [long long]. *)
Definition as_long_long (n : Z) : Z := (n + 2 ^ 63) mod 2 ^ 64 - 2 ^ 63.

(** The loop over the points: it stops at the first failure. *)
Fixpoint insert_points {X} (c : conn) (ride_id : Z) (ps : list RidePoint) (k : bool -> dprog X) : dprog X :=
  match ps with
  | [] => k true
  | p :: ps =>
      run_sql c (sql_point ride_id p) (fun ok =>
        if ok then insert_points c ride_id ps k else k false)
  end.

Definition my_create_with_points (ci : CreateRideInput) : dprog Ride :=
  with_lease (fun c =>
    escape_into 64 (ci_no ci) (fun esc =>
      run_sql c START (fun ok =>
        if negb ok then DRet Ride0
        else
          sql! r := (c, sql_ride esc ci) in
          match r with
          | QErr => run_sql c ROLLBACK (fun _ => DRet Ride0)
          | QOk _ _ id =>
              let ride_id := as_long_long id in
              insert_points c ride_id (ci_points ci) (fun ok =>
                if negb ok then run_sql c ROLLBACK (fun _ => DRet Ride0)
                else
                  run_sql c COMMIT (fun ok =>
                    if negb ok then run_sql c ROLLBACK (fun _ => DRet Ride0)
                    else DRet (ride_of_input ride_id ci)))
          end))).

Definition ride_columns : text :=
  txt "SELECT id, ride_no, user_id, bike_id, UNIX_TIMESTAMP(start_tm) AS start_ts, UNIX_TIMESTAMP(end_tm) AS end_ts, start_lat, start_lng, end_lat, end_lng, duration_sec, distance_m, amount_cent, status ".

Definition my_find_by_no (no : string) : dprog (option Ride) :=
  with_lease (fun c =>
    escape_into 64 no (fun esc =>
      sql! r := (c, sqlbuf 256 (ride_columns ++ txt "FROM ride WHERE ride_no='" ++ cstr esc ++ txt "'")) in
      dlift (first_row row_to_ride r))).

Definition row_to_point (row : list (option text)) : result RidePoint :=
  try! seq := cell_or 0 atoi row 0 in
  try! la := cell_double row 1 in
  try! lo := cell_double row 2 in
  try! el := cell_or 0 atoi row 3 in
  Ok (mkPoint seq la lo el).

Definition my_list_points (ride_id : Z) : dprog (list RidePoint) :=
  with_lease (fun c =>
    sql! r := (c, sqlbuf 160 (txt "SELECT seq, lat, lng, elapsed_sec FROM ride_position WHERE ride_id="
                              ++ fmt_d ride_id ++ txt " ORDER BY seq")) in
    dlift (rmap row_to_point (rows_of r))).

Definition my_list_by_user (uid limit : Z) : dprog (list Ride) :=
  with_lease (fun c =>
    sql! r := (c, sqlbuf 256 (ride_columns ++ txt "FROM ride WHERE user_id=" ++ fmt_d uid
                              ++ txt " ORDER BY start_tm DESC LIMIT " ++ fmt_d limit)) in
    dlift (rmap row_to_ride (rows_of r))).

End Escaping.
