(* ===== verification/MysqlProps.v ===== *)
(** * Properties of the MySQL repositories

    Transactions (MysqlAccountRepo::add_balance, MysqlRideRepo::
    create_with_points), the connections the methods lease and when the
    threads of the business process can block each other, and the fixed
    buffers into which the methods escape and format text. *)

From S2P Require Import Prelude Double Common Repo CText MysqlPool MysqlRepos.
From Stdlib Require Import Ascii.

(** ** Transactions *)

(** The statements [sqls] were sent on [c] and all acknowledged. *)
Definition acked (c : nat) (sqls : list text) (ss : list stmt) : Prop :=
  Forall2 (fun q s => st_conn s = c /\ st_sql s = q /\ query_ok (st_reply s) = true) sqls ss.

(** The traces of a transaction [full] (START first, COMMIT last): all of it
    acknowledged; START refused; or cut at the first refused statement and
    rolled back. *)
Inductive txn (c : nat) (full : list text) : list stmt -> bool -> Prop :=
| txn_committed ss : acked c full ss -> txn c full ss true
| txn_not_started q rest r :
    full = q :: rest -> query_ok r = false -> txn c full [mkStmt c q r] false
| txn_rolled_back sent q rest ss r r2 :
    full = sent ++ q :: rest -> sent <> [] -> acked c sent ss -> query_ok r = false ->
    txn c full (ss ++ [mkStmt c q r; mkStmt c ROLLBACK r2]) false.

Lemma acked_app c l1 l2 s1 s2 : acked c l1 s1 -> acked c l2 s2 -> acked c (l1 ++ l2) (s1 ++ s2).
Proof. apply Forall2_app. Qed.
Lemma acked_one c q r : query_ok r = true -> acked c [q] [mkStmt c q r].
Proof. intros H. by repeat constructor. Qed.
#[export] Hint Resolve acked_app acked_one : bike.

Lemma run_all_spec {X} sv c sqls (k : bool -> dprog X) pool : forall log,
  (exists ss, acked c sqls ss /\ drun sv (run_all c sqls k) pool log = drun sv (k true) pool (log ++ ss))
  \/ (exists sent q rest ss r, sqls = sent ++ q :: rest /\ acked c sent ss /\ query_ok r = false
      /\ drun sv (run_all c sqls k) pool log = drun sv (k false) pool (log ++ ss ++ [mkStmt c q r])).
Proof.
  induction sqls as [|q sqls IH]; intros log; cbn [run_all drun].
  - left. exists []. split; [constructor | by rewrite app_nil_r].
  - destruct (query_ok (sv log c q)) eqn:E.
    + destruct (IH (log ++ [mkStmt c q (sv log c q)])) as [(ss & Ha & Hr)|(sent & q' & rest & ss & r & -> & Ha & Hq & Hr)].
      * left. exists (mkStmt c q (sv log c q) :: ss). split; [by constructor|].
        rewrite Hr, <- app_assoc. done.
      * right. exists (q :: sent), q', rest, (mkStmt c q (sv log c q) :: ss), r.
        split; [done|]. split; [by constructor|]. split; [done|].
        rewrite Hr, <- app_assoc. done.
    + right. exists [], q, sqls, [], (sv log c q). split; [done|]. by split; [constructor|].
Qed.

Lemma insert_points_run_all {X} c id ps (k : bool -> dprog X) sv pool : forall log,
  drun sv (insert_points c id ps k) pool log = drun sv (run_all c (sql_point id <$> ps) k) pool log.
Proof.
  induction ps as [|p ps IH]; intros log; [done|]. cbn [insert_points fmap list_fmap run_all drun].
  unfold run_sql. cbn [drun]. destruct (query_ok _); [apply IH | done].
Qed.

(** The way both repositories end a transaction once START is acknowledged. *)
Definition txn_body {X} (c : nat) (body : list text) (failed done : dprog X) : dprog X :=
  run_all c body (fun ok =>
    if negb ok then sql! _ := (c, ROLLBACK) in failed
    else
      sql! r := (c, COMMIT) in
      if negb (query_ok r) then sql! _ := (c, ROLLBACK) in failed else done).

Lemma txn_body_spec {X} sv c body (failed done : dprog X) pool log r0 :
  query_ok r0 = true ->
  exists ss ok, txn c ([START] ++ body ++ [COMMIT]) ss ok
    /\ drun sv (txn_body c body failed done) pool (log ++ [mkStmt c START r0])
       = drun sv (if ok : bool then done else failed) pool (log ++ ss).
Proof.
  intros E. set (log1 := log ++ [mkStmt c START r0]). unfold txn_body.
  match goal with |- context [run_all c body ?k] => destruct (run_all_spec sv c body k pool log1)
    as [(ss & Ha & Hr)|(sent & q & rest & ss & r & -> & Ha & Hq & Hr)] end; rewrite Hr; cbn [negb drun].
  - set (log2 := log1 ++ ss). destruct (query_ok (sv log2 c COMMIT)) eqn:Ec; cbn [negb drun].
    + exists ([mkStmt c START r0] ++ ss ++ [mkStmt c COMMIT (sv log2 c COMMIT)]), true.
      split; [|unfold log2, log1; by rewrite <- !app_assoc]. apply txn_committed. auto with bike.
    + eexists (([mkStmt c START r0] ++ ss) ++ [mkStmt c COMMIT (sv log2 c COMMIT); mkStmt c ROLLBACK _]), false.
      split; [|unfold log2, log1; by rewrite <- !app_assoc].
      eapply (txn_rolled_back c _ ([START] ++ body) COMMIT []); [reflexivity | done | | done].
      auto with bike.
  - eexists (([mkStmt c START r0] ++ ss) ++ [mkStmt c q r; mkStmt c ROLLBACK _]), false.
    split; [|unfold log1; by rewrite <- !app_assoc].
    eapply (txn_rolled_back c _ ([START] ++ sent) q (rest ++ [COMMIT])); [|done| |done]; auto with bike.
    by rewrite <- !app_assoc.
Qed.

(** The statements of one [add_balance]. *)
Definition account_body (uid : Z) (ty : RecordType) (amount : Z) : list text :=
  [sql_open_account uid; sql_add uid amount; sql_record uid (record_type_code ty) amount].
Definition account_txn (uid : Z) (ty : RecordType) (amount : Z) : list text :=
  [START] ++ account_body uid ty amount ++ [COMMIT].

(** [add_balance] sends its transaction, whole or rolled back, on
    the connection it leased, without looking at the balance; whatever became
    of the transaction, its result is what [get_balance] then reads on a second
    connection.  Nothing it returns tells the caller whether the movement was
    booked. *)
Theorem add_balance_outcome sv uid ty amount c c2 pool log :
  exists ss ok, txn c (account_txn uid ty amount) ss ok
    /\ drun sv (my_add_balance uid ty amount) (c :: c2 :: pool) log
       = match drun sv (my_get_balance uid) (c2 :: pool) (log ++ ss) with
         | (Finished b, pool', log') => (Finished b, pool' ++ [c], log')
         | o => o
         end.
Proof.
  unfold my_add_balance. rewrite drun_lease. cbn [drun].
  destruct (query_ok (sv log c START)) eqn:E; cbn [negb].
  - destruct (txn_body_spec sv c (account_body uid ty amount) (my_get_balance uid)
      (my_get_balance uid) (c2 :: pool) log _ E)
      as (ss & ok & Ht & Hr).
    exists ss, ok. split; [exact Ht|]. unfold txn_body, account_body in Hr. rewrite Hr. by destruct ok.
  - exists [mkStmt c START (sv log c START)], false. split; [by eapply txn_not_started | done].
Qed.

Section Escaping.

Context `{!MysqlClient, !MysqlClientLaws}.

Lemma string_chars s : length (chars_of_string s) = String.length s.
Proof. induction s; simpl; congruence. Qed.

(** A text of which every byte may be doubled fits with its NUL. *)
Lemma escape_fits {X} size s (k : text -> dprog X) :
  (2 * String.length s + 1 <= size)%nat ->
  escape_into size s k = k (my_escape (chars_of_string s)).
Proof.
  intros Hs. unfold escape_into. pose proof (escape_doubles (chars_of_string s)) as Hd.
  rewrite string_chars in Hd. by rewrite (proj2 (Nat.leb_le _ _)) by lia.
Qed.

(** The statements of one [create_with_points] whose ride row got [id]. *)
Definition ride_txn (ci : CreateRideInput) (id : Z) : list text :=
  [START] ++ (sql_ride (my_escape (chars_of_string (ci_no ci))) ci :: (sql_point id <$> ci_points ci))
  ++ [COMMIT].

(** C26: [create_with_points] is one transaction on one connection.  It
    returns the ride exactly when the ride row, every position and the COMMIT
    were acknowledged; otherwise it returns the empty ride, and unless START
    itself was refused its last statement is ROLLBACK.  The connection goes
    back to the pool either way. *)
Theorem create_with_points_atomic sv ci c pool log :
  (String.length (ci_no ci) <= 31)%nat ->
  exists id ss ok, txn c (ride_txn ci id) ss ok
    /\ drun sv (my_create_with_points ci) (c :: pool) log
       = (Finished (if ok : bool then ride_of_input id ci else Ride0), pool ++ [c], log ++ ss).
Proof.
  intros Hn. unfold my_create_with_points. rewrite drun_lease, escape_fits by lia.
  set (esc := my_escape _). unfold run_sql at 1. cbn [drun].
  destruct (query_ok (sv log c START)) eqn:E; cbn [negb].
  2:{ exists 0, [mkStmt c START (sv log c START)], false. split; [by eapply txn_not_started | done]. }
  set (log1 := log ++ [mkStmt c START (sv log c START)]).
  set (id := match sv log1 c (sql_ride esc ci) with QOk _ _ id => as_long_long id | QErr => 0 end).
  destruct (txn_body_spec sv c (sql_ride esc ci :: (sql_point id <$> ci_points ci))
    (DRet Ride0) (DRet (ride_of_input id ci)) pool log _ E) as (ss & ok & Ht & Hr).
  exists id, ss, ok. split; [exact Ht|].
  assert (Hd : forall b : bool, drun sv (if b then DRet (ride_of_input id ci) else DRet Ride0) pool (log ++ ss)
    = (Finished (if b then ride_of_input id ci else Ride0), pool, log ++ ss)) by by intros [].
  rewrite Hd in Hr. fold log1 in Hr. unfold txn_body in Hr. cbn [run_all drun] in Hr |- *.
  subst id. destruct (sv log1 c (sql_ride esc ci)) as [|rs aff i]; cbn [query_ok] in Hr.
  - cbn [negb] in Hr. unfold run_sql. by rewrite Hr.
  - rewrite insert_points_run_all. unfold run_sql. by rewrite Hr.
Qed.

End Escaping.

(** ** Leases *)

Lemma leases_dlift {X} d held (r : result X) : leases d held held (dlift r).
Proof. destruct r; cbn [dlift leases]; [reflexivity | exact I]. Qed.
Lemma leases_query {X} d fin held c s (k : reply -> dprog X) :
  c ∈ held -> (forall r, leases d fin held (k r)) -> leases d fin held (DQuery c s k).
Proof. done. Qed.
Lemma leases_run_all {X} d fin held c sqls (k : bool -> dprog X) :
  c ∈ held -> (forall b, leases d fin held (k b)) -> leases d fin held (run_all c sqls k).
Proof.
  intros Hc Hk. induction sqls as [|s sqls IH]; [apply Hk|]. split; [done|]. intros r.
  destruct (query_ok r); [exact IH | apply Hk].
Qed.
Lemma leases_insert_points {X} d fin held c id ps (k : bool -> dprog X) :
  c ∈ held -> (forall b, leases d fin held (k b)) -> leases d fin held (insert_points c id ps k).
Proof.
  intros Hc Hk. induction ps as [|p ps IH]; [apply Hk|]. split; [done|]. intros r.
  destruct (query_ok r); [exact IH | apply Hk].
Qed.
Lemma leases_escape `{MysqlClient} {X} d fin held size s (k : text -> dprog X) :
  (forall e, leases d fin held (k e)) -> leases d fin held (escape_into size s k).
Proof. intros Hk. unfold escape_into. by case_if. Qed.
Lemma leases_ret {X} d held (x : X) : leases d held held (DRet x).
Proof. cbn [leases]. reflexivity. Qed.

(** Walks through a method's body down to the leases of the methods it calls. *)
Ltac lease_go :=
  repeat first
    [ apply leases_query; [apply list_elem_of_here | intros ?]
    | apply leases_run_all; [apply list_elem_of_here | intros ?]
    | apply leases_insert_points; [apply list_elem_of_here | intros ?]
    | apply leases_escape; intros ?
    | apply leases_dlift | apply leases_ret | apply leases_with; [simpl; lia | intros ?]
    | progress (unfold run_sql; cbv zeta)
    | match goal with |- leases _ _ _ (match ?b with _ => _ end) => destruct b end ].

Lemma leases_get_balance uid held : (length held <= 1)%nat -> leases 1 held held (my_get_balance uid).
Proof. intros. unfold my_get_balance. apply leases_with; [done|]. intros c. lease_go. Qed.

Lemma leases_add_balance uid ty amt : leases 1 [] [] (my_add_balance uid ty amt).
Proof. unfold my_add_balance. lease_go; by apply leases_get_balance. Qed.

Section Methods.

Context `{!MysqlClient}.

Lemma leases_find_by_mobile m held :
  (length held <= 1)%nat -> leases 1 held held (my_find_by_mobile m).
Proof. intros. unfold my_find_by_mobile. apply leases_with; [done|]. intros c. lease_go. Qed.

Lemma leases_find_or_create m : leases 1 [] [] (my_find_or_create m).
Proof.
  unfold my_find_or_create. eapply leases_bind; [apply leases_find_by_mobile; simpl; lia|].
  intros [u|]; lease_go. eapply leases_bind; [apply leases_find_by_mobile; simpl; lia|].
  intros ?. apply leases_ret.
Qed.

(** ** The calls a handler can make *)

Inductive db_call : Type :=
| CGetBalance (uid : Z) | CAddBalance (uid : Z) (ty : RecordType) (amount : Z)
| CListRecords (uid limit : Z) | CFindByMobile (m : string) | CFindOrCreate (m : string)
| CGetForUpdate (no : string) | CUpdateStatus (id : Z) (st : BikeStatus)
| CUpdateLocation (id : Z) (la lo : double) | CListInBounds (a b c d : double)
| CInsertBike (b : Bike) | CCreateRide (ci : CreateRideInput) | CFindByNo (no : string)
| CListPoints (id : Z) | CListByUser (uid limit : Z).

Definition ignore {X} (p : dprog X) : dprog unit := let+ _ := p in DRet tt.
Definition db_prog (c : db_call) : dprog unit :=
  match c with
  | CGetBalance uid => ignore (my_get_balance uid)
  | CAddBalance uid ty amount => ignore (my_add_balance uid ty amount)
  | CListRecords uid limit => ignore (my_list_records uid limit)
  | CFindByMobile m => ignore (my_find_by_mobile m)
  | CFindOrCreate m => ignore (my_find_or_create m)
  | CGetForUpdate no => ignore (my_get_for_update no)
  | CUpdateStatus id st => ignore (my_update_status id st)
  | CUpdateLocation id la lo => ignore (my_update_location id la lo)
  | CListInBounds a b c d => ignore (my_list_in_bounds a b c d)
  | CInsertBike b => ignore (my_insert_bike b)
  | CCreateRide ci => ignore (my_create_with_points ci)
  | CFindByNo no => ignore (my_find_by_no no)
  | CListPoints id => ignore (my_list_points id)
  | CListByUser uid limit => ignore (my_list_by_user uid limit)
  end.

(** A thread makes its calls one after the other. *)
Fixpoint db_thread (cs : list db_call) : dprog unit :=
  match cs with [] => DRet tt | c :: cs => let+ _ := db_prog c in db_thread cs end.

Lemma leases_db_prog c : leases 1 [] [] (db_prog c).
Proof.
  destruct c; unfold db_prog, ignore; (eapply leases_bind; [|intros ?; apply leases_ret]);
    first [ by apply leases_get_balance | by apply leases_add_balance
          | by apply leases_find_by_mobile | by apply leases_find_or_create | idtac ];
    unfold my_list_records, my_get_for_update, my_update_status, my_update_location,
      my_list_in_bounds, my_insert_bike, my_create_with_points, my_find_by_no, my_list_points,
      my_list_by_user; lease_go.
Qed.

Lemma leases_db_thread cs : leases 1 [] [] (db_thread cs).
Proof.
  induction cs as [|c cs IH]; [apply leases_ret|]. cbn [db_thread].
  eapply leases_bind; [apply leases_db_prog | by intros ?].
Qed.

Lemma leases_calls (calls : list (list db_call)) : Forall (leases 1 [] []) (db_thread <$> calls).
Proof. apply Forall_fmap, Forall_true. intros cs. apply leases_db_thread. Qed.

(** C24: Whatever calls the threads of the business process make and
    whatever the server answers, in every reachable state each connection is in
    the pool or leased to exactly one thread; and if the pool has more
    connections than there are threads no thread waits in vain: a thread can
    act without a spurious wakeup, or all have finished and every connection is
    back in the pool, or a thread has overflowed a buffer or read a bad row. *)
Theorem mysql_pool_live (conns : list nat) (calls : list (list db_call)) s :
  NoDup conns -> rtc sys_step (mkSys conns (fresh <$> (db_thread <$> calls))) s ->
  NoDup (sy_pool s ++ concat (th_held <$> sy_threads s))
  /\ ((length calls < length conns)%nat ->
      (exists s', act_step s s')
      \/ (Forall (fun t => finished t = true) (sy_threads s) /\ sy_pool s ≡ₚ conns)
      \/ Exists (fun t => exists e, th_prog t = DFault e) (sy_threads s)).
Proof.
  intros Hn Hs. split; [by eapply leases_exclusive, Hs; [|apply leases_calls]|]. intros Hlt.
  destruct (pool_progress conns _ s (leases_calls calls) ltac:(by rewrite length_fmap) Hs)
    as [Ha|[Hd|Hf]]; auto.
  right; left. split; [done|]. eapply all_returned; [apply leases_calls | exact Hs | done].
Qed.

(** ** The deadlock of nested leases *)

Lemma asks_bind {X Y} (p : dprog X) (f : X -> dprog Y) : asks p -> asks (dbind p f).
Proof. induction 1 as [k|c s k r _ IH]; [constructor | by apply (asks_query c s _ r)]. Qed.

(** With the server refusing START, or accepting everything, add_balance comes
    to ask for a second connection while it has one. *)
Lemma asks_add_balance uid ty amt :
  exists k, my_add_balance uid ty amt = DAcquire k /\ forall c, asks (k c).
Proof.
  unfold my_add_balance, with_lease. eexists. split; [reflexivity|]. intros c.
  apply asks_bind. apply (asks_query _ _ _ (QOk None 0 0)). cbn [query_ok negb].
  do 4 (cbn [run_all]; apply (asks_query _ _ _ (QOk None 0 0)); cbn [query_ok negb]).
  unfold my_get_balance. constructor.
Qed.

(** A thread that changes a balance and then makes more calls. *)
Definition charging (x : Z * RecordType * Z * list db_call) : list db_call :=
  let '(uid, ty, amount, later) := x in CAddBalance uid ty amount :: later.

(** C25: [n] threads that charge or recharge at the same time can block
    a pool of at most [n] connections for good: a state is reachable from which
    no continuation frees a connection or lets a thread finish, so no later
    request that needs MySQL is answered either. *)
Theorem add_balance_deadlock (conns : list nat) (charges : list (Z * RecordType * Z * list db_call)) :
  (1 <= length conns <= length charges)%nat ->
  exists s, rtc sys_step (mkSys conns (fresh <$> (db_thread <$> (charging <$> charges)))) s
    /\ forall s', rtc sys_step s s' ->
         sy_pool s' = [] /\ Forall (fun t => finished t = false) (sy_threads s').
Proof.
  intros Hl.
  destruct (nested_deadlock conns (fresh <$> (db_thread <$> (charging <$> charges)))) as (s & Hs & Hd).
  { rewrite !length_fmap. lia. }
  { rewrite !Forall_fmap. apply Forall_true. intros [[[u ty] a] later]. split; [done|].
    destruct (asks_add_balance u ty a) as (k & Hk & Ha).
    cbn [compose charging db_thread db_prog fresh th_prog]. unfold ignore. rewrite Hk.
    eexists. split; [reflexivity|]. intros c. by apply asks_bind, asks_bind. }
  exists s. split; [exact Hs|]. intros s' Hs'. destruct (dead_steps _ _ Hs' Hd) as [Hp Hf].
  split; [done|]. eapply Forall_impl; [exact Hf|]. intros t [k Hk]. unfold finished. by rewrite Hk.
Qed.

End Methods.

(** ** Concrete client library and servers *)

(** The escape table of the manual. *)
Definition escape_char (c : ascii) : text :=
  match c with
  | "'"%char => ["\"%char; "'"%char]
  | "\"%char => ["\"%char; "\"%char]
  | _ =>
      if bool_decide (c = Ascii.zero) then ["\"%char; "0"%char]
      else if bool_decide (c = "010"%char) then ["\"%char; "n"%char]
      else if bool_decide (c = "013"%char) then ["\"%char; "r"%char]
      else if bool_decide (c = "026"%char) then ["\"%char; "Z"%char]
      else if bool_decide (c = "034"%char) then ["\"%char; c]
      else [c]
  end.
Definition manual_client : MysqlClient := {| my_escape := flat_map escape_char |}.

Lemma escape_char_length c : (1 <= length (escape_char c) <= 2)%nat.
Proof. destruct c as [[] [] [] [] [] [] [] []]; vm_compute; lia. Qed.

Lemma manual_client_laws : @MysqlClientLaws manual_client.
Proof.
  split; intros s; induction s as [|c s IH]; try (simpl; lia);
    cbn [my_escape manual_client flat_map] in *; rewrite length_app; cbn [length];
    pose proof (escape_char_length c); lia.
Qed.

(** A server that acknowledges everything and stores nothing. *)
Definition server_ok : server := fun _ _ _ => QOk None 1 1.

Lemma create_with_points_atomic_witness :
  exists id ss ok,
    txn 3 (@ride_txn manual_client (mkCreateRide "R20240101000001" 1 2 10 20 d_zero d_zero d_zero d_zero
            10 5 100 [mkPoint 1 d_zero d_zero 0]) id) ss ok
    /\ drun server_ok (@my_create_with_points manual_client
         (mkCreateRide "R20240101000001" 1 2 10 20 d_zero d_zero d_zero d_zero
            10 5 100 [mkPoint 1 d_zero d_zero 0])) [3%nat] []
       = (Finished (if ok : bool then ride_of_input id (mkCreateRide "R20240101000001" 1 2 10 20
            d_zero d_zero d_zero d_zero 10 5 100 [mkPoint 1 d_zero d_zero 0]) else Ride0),
          [3%nat], ss).
Proof.
  exact (@create_with_points_atomic manual_client manual_client_laws server_ok
    (mkCreateRide "R20240101000001" 1 2 10 20 d_zero d_zero d_zero d_zero
       10 5 100 [mkPoint 1 d_zero d_zero 0]) 3 [] [] ltac:(simpl; lia)).
Defined.

Lemma add_balance_deadlock_witness :
  exists s, rtc sys_step (mkSys (seq 0 8) (fresh <$> (@db_thread manual_client <$>
      (charging <$> replicate 8 (7, Recharge, 500, []))))) s
    /\ forall s', rtc sys_step s s' ->
         sy_pool s' = [] /\ Forall (fun t => finished t = false) (sy_threads s').
Proof. apply add_balance_deadlock. simpl. lia. Defined.

(** Two connections and one thread that reads a balance, at the start. *)
Definition pool_demo : sys unit :=
  mkSys [0;1]%nat (fresh <$> (@db_thread manual_client <$> [[CGetBalance 1]])).

Lemma mysql_pool_live_witness :
  NoDup (sy_pool pool_demo ++ concat (th_held <$> sy_threads pool_demo))
  /\ ((length [[CGetBalance 1]] < length [0;1])%nat ->
      (exists s', act_step pool_demo s')
      \/ (Forall (fun t => finished t = true) (sy_threads pool_demo) /\ sy_pool pool_demo ≡ₚ [0;1]%nat)
      \/ Exists (fun t => exists e, th_prog t = DFault e) (sy_threads pool_demo)).
Proof.
  apply (@mysql_pool_live manual_client [0;1]%nat [[CGetBalance 1]] pool_demo).
  - exact (NoDup_seq 0 2).
  - apply rtc_refl.
Defined.

(** ** Buffers *)

Lemma snprintf_fits n t : (length t < n)%nat -> snprintf n t = t.
Proof. intros. unfold snprintf. apply take_ge. lia. Qed.

(** Text without NUL. *)
Definition clean (t : text) : Prop := Forall (fun c => c <> Ascii.zero) t.
Lemma clean_cstr t : clean t -> cstr t = t.
Proof.
  induction 1 as [|c t Hc _ IH]; [done|]. simpl. rewrite bool_decide_false by done. by rewrite IH.
Qed.
Lemma clean_app a b : clean a -> clean b -> clean (a ++ b).
Proof. intros. by apply Forall_app. Qed.
Lemma clean_take n t : clean t -> clean (take n t).
Proof. apply Forall_take. Qed.
Lemma cstr_clean t : clean (cstr t).
Proof. induction t as [|c t IH]; [constructor|]. simpl. case_bool_decide; [constructor | by constructor]. Qed.
Lemma digits_clean ds : Forall (fun c => 0 <= digit_value c < 10) ds -> clean ds.
Proof. intros Hd. eapply Forall_impl; [exact Hd|]. intros c Hc. apply digit_chars in Hc. tauto. Qed.
Lemma clean_txt s : forallb (fun c => negb (bool_decide (c = Ascii.zero))) (txt s) = true -> clean (txt s).
Proof.
  intros H. apply Forall_forall. intros c Hc. apply list_elem_of_In in Hc.
  rewrite forallb_forall in H. specialize (H c Hc). intros ->.
  by rewrite bool_decide_true in H.
Qed.

Lemma decimal_spec n k :
  (0 < k <= 20)%nat -> 0 <= n < 10 ^ Z.of_nat k ->
  exists ds, decimal n = ds /\ (1 <= length ds <= k)%nat /\ undec ds = n
    /\ Forall (fun c => 0 <= digit_value c < 10) ds.
Proof.
  intros Hk Hn. destruct (dec_spec 20 n [] k) as (ds & H1 & H2 & H3 & H4); [lia | lia | done |].
  exists ds. unfold decimal. by rewrite H1, app_nil_r.
Qed.

Lemma clean_fmt_d z : Z.abs z < 10 ^ 20 -> clean (fmt_d z).
Proof.
  intros Hz. rewrite fmt_d_eq. apply clean_app; [destruct (z <? 0); by repeat constructor|].
  destruct (decimal_spec (Z.abs z) 20) as (ds & -> & _ & _ & Hd); [lia | simpl; lia |].
  by apply digits_clean.
Qed.

Lemma undec_lt ds :
  Forall (fun c => 0 <= digit_value c < 10) ds -> 0 <= undec ds < 10 ^ Z.of_nat (length ds).
Proof.
  intros Hd. induction ds as [|c ds IH] using rev_ind; [unfold undec; simpl; lia|].
  apply Forall_app in Hd as [Hd Hc]. apply Forall_cons in Hc as [Hc _].
  unfold undec in *. rewrite undec_app, length_app. specialize (IH Hd). cbn [fold_left length].
  rewrite Nat2Z.inj_add, Z.pow_add_r by lia. change (10 ^ Z.of_nat 1) with 10. lia.
Qed.

(** The number of characters [%d] writes for a positive number. *)
Lemma length_fmt_pos z k :
  (0 < k <= 20)%nat -> 10 ^ Z.of_nat (k - 1) <= z < 10 ^ Z.of_nat k -> length (fmt_d z) = k.
Proof.
  intros Hk Hz. assert (0 < 10 ^ Z.of_nat (k - 1)) by (apply Z.pow_pos_nonneg; lia).
  rewrite fmt_d_eq, Z.abs_eq by lia. destruct (z <? 0) eqn:E; [blia|]. rewrite app_nil_l.
  destruct (decimal_spec z k) as (ds & -> & Hl & Hu & Hd); [lia | lia|].
  pose proof (undec_lt ds Hd) as Hb. rewrite Hu in Hb.
  destruct (decide (length ds = k)) as [?|Hne]; [done|]. exfalso.
  assert (10 ^ Z.of_nat (length ds) <= 10 ^ Z.of_nat (k - 1)) by (apply Z.pow_le_mono_r; lia). lia.
Qed.

(** *** The statement of MysqlRideRepo::list_by_user *)

Definition list_by_user_text (uid limit : Z) : text :=
  ride_columns ++ txt "FROM ride WHERE user_id=" ++ fmt_d uid
  ++ txt " ORDER BY start_tm DESC LIMIT " ++ fmt_d limit.

(** The statement a method sends first on the connection it leases. *)
Definition first_sql {X} (p : dprog X) : option text :=
  match p with
  | DAcquire k => match k 0%nat with DQuery _ s _ => Some s | _ => None end
  | _ => None
  end.

Lemma first_list_by_user uid limit :
  first_sql (my_list_by_user uid limit) = Some (sqlbuf 256 (list_by_user_text uid limit)).
Proof. reflexivity. Qed.

Lemma list_by_user_clean uid limit :
  in_int uid = true -> in_int limit = true -> clean (list_by_user_text uid limit).
Proof.
  intros Hu Hl. apply in_int_iff in Hu, Hl. unfold INT_MIN, INT_MAX in *.
  unfold list_by_user_text, ride_columns.
  repeat first [ apply clean_txt; vm_compute; reflexivity | apply clean_fmt_d; lia | apply clean_app ].
Qed.

Lemma fmt_two_digits n : 10 <= n <= 99 -> fmt_d n = fmt_d (n / 10) ++ [digit (n mod 10)].
Proof.
  intros Hn. rewrite !fmt_d_eq.
  assert (1 <= n / 10 <= 9) by (Z.to_euclidean_division_equations; lia).
  rewrite !Z.abs_eq by lia.
  rewrite !(proj2 (Z.ltb_ge _ _)) by lia. rewrite !app_nil_l.
  unfold decimal. cbn [dec]. rewrite (Z.div_small (n / 10) 10) by lia.
  destruct (n / 10 =? 0) eqn:E; [blia|]. done.
Qed.

(** the statement of list_by_user has 250 fixed characters in a
    buffer of 256.  It is sent whole when user id and limit have at most five
    digits together; for a four-digit user id a two-digit limit loses its last
    digit, so a page of 20 rides comes back as 2; for a five-digit user id the
    limit is lost altogether and what is sent ends in LIMIT. *)
Theorem list_by_user_truncated uid limit :
  in_int uid = true -> 1 <= limit <= 100 ->
  ((length (fmt_d uid) + length (fmt_d limit) <= 5)%nat ->
     first_sql (my_list_by_user uid limit) = Some (list_by_user_text uid limit))
  /\ (1000 <= uid <= 9999 -> 10 <= limit <= 99 ->
     first_sql (my_list_by_user uid limit) = Some (list_by_user_text uid (limit / 10)))
  /\ (10000 <= uid <= 99999 ->
     first_sql (my_list_by_user uid limit)
     = Some (ride_columns ++ txt "FROM ride WHERE user_id=" ++ fmt_d uid
             ++ txt " ORDER BY start_tm DESC LIMIT ")).
Proof.
  rewrite first_list_by_user.
  intros Hu Hl. assert (Hli : in_int limit = true) by (apply in_int_iff; unfold INT_MIN, INT_MAX; lia).
  pose proof (list_by_user_clean uid limit Hu Hli) as Hc. unfold sqlbuf, snprintf. cbn [Nat.sub].
  rewrite (clean_cstr _ (clean_take 255 _ Hc)). clear Hc Hli.
  assert (Hlen : forall l t, length (ride_columns ++ txt "FROM ride WHERE user_id=" ++ l
            ++ txt " ORDER BY start_tm DESC LIMIT " ++ t) = (250 + length l + length t)%nat).
  { intros l t. rewrite !length_app.
    change (length ride_columns) with 196%nat.
    change (length (txt "FROM ride WHERE user_id=")) with 24%nat.
    change (length (txt " ORDER BY start_tm DESC LIMIT ")) with 30%nat. lia. }
  unfold list_by_user_text. split; [|split].
  - intros H5. f_equal. apply take_ge. rewrite Hlen. lia.
  - intros H4 H2. f_equal. rewrite (fmt_two_digits limit) by lia.
    assert (Hl4 : length (fmt_d uid) = 4%nat) by (apply length_fmt_pos; [lia | simpl; lia]).
    assert (Hl1 : length (fmt_d (limit / 10)) = 1%nat).
    { apply length_fmt_pos; [lia|]. simpl.
      split; [apply Z.div_le_lower_bound | apply Z.div_lt_upper_bound]; lia. }
    rewrite !app_assoc. apply take_app_exact. rewrite <- !app_assoc, Hlen. lia.
  - intros H5. f_equal. assert (Hl5 : length (fmt_d uid) = 5%nat) by (apply length_fmt_pos; [lia | simpl; lia]).
    rewrite !app_assoc. apply take_app_exact.
    pose proof (Hlen (fmt_d uid) []) as E. rewrite app_nil_r in E. rewrite <- !app_assoc, E. simpl. lia.
Qed.

Lemma list_by_user_truncated_witness :
  first_sql (my_list_by_user 1000 20) = Some (list_by_user_text 1000 2)
  /\ first_sql (my_list_by_user 999 20) = Some (list_by_user_text 999 20).
Proof.
  split.
  - apply (list_by_user_truncated 1000 20); [reflexivity | lia | lia | lia].
  - apply (list_by_user_truncated 999 20); [reflexivity | lia |].
    vm_compute. lia.
Defined.

(** *** Escape buffers *)

Section Escape.

Context `{!MysqlClient, !MysqlClientLaws}.

Lemma escape_overflows {X} size s (k : text -> dprog X) :
  (size <= String.length s)%nat ->
  escape_into size s k = DFault (UndefinedBehaviour "stack buffer overflow").
Proof.
  intros Hs. unfold escape_into. pose proof (escape_grows (chars_of_string s)) as Hd.
  rewrite string_chars in Hd. by rewrite (proj2 (Nat.leb_gt _ _)) by lia.
Qed.

Definition overflow {X} : outcome X := Faulted (UndefinedBehaviour "stack buffer overflow").

(** C30: mysql_real_escape_string writes up to 2n+1 bytes for n, the
    buffers have 64.  A mobile number or ride number of 64 bytes or more, which
    no handler limits, is written past the end of the stack buffer before any
    statement is sent, whatever the server does; 31 bytes or fewer are safe; a
    valid bike number, up to 32 bytes, overflows the buffer of get_for_update
    by the terminating NUL exactly when all of its 32 bytes are escaped, and
    never the buffer of insert. *)
Theorem escape_buffer_bounds sv (s : string) c pool log :
  ((64 <= String.length s)%nat ->
     drun sv (my_find_by_mobile s) (c :: pool) log = (overflow, pool, log)
     /\ drun sv (my_find_or_create s) (c :: pool) log = (overflow, pool, log)
     /\ drun sv (my_find_by_no s) (c :: pool) log = (overflow, pool, log))
  /\ ((String.length s <= 31)%nat -> forall X (k : text -> dprog X),
        escape_into 64 s k = k (my_escape (chars_of_string s)))
  /\ (valid_bike_no s = true ->
        (drun sv (my_get_for_update s) (c :: pool) log = (overflow, pool, log)
         <-> length (my_escape (chars_of_string s)) = 64%nat)
        /\ forall X (k : text -> dprog X), escape_into 80 s k = k (my_escape (chars_of_string s))).
Proof.
  split; [|split].
  - intros Hs. unfold my_find_or_create. rewrite drun_bind. unfold my_find_by_mobile, my_find_by_no.
    by rewrite !drun_lease, !escape_overflows.
  - intros Hs X k. apply escape_fits. lia.
  - unfold valid_bike_no. intros Hv. apply andb_true_iff in Hv as [_ Hv]. apply Z.leb_le in Hv.
    pose proof (escape_doubles (chars_of_string s)) as Hd. rewrite string_chars in Hd.
    split; [|intros X k; apply escape_fits; lia].
    unfold my_get_for_update. rewrite drun_lease. unfold escape_into.
    destruct (length (my_escape (chars_of_string s)) + 1 <=? 64)%nat eqn:E.
    + apply Nat.leb_le in E. split; [|lia]. cbn [drun].
      destruct (first_row row_to_bike _); cbn [dlift drun]; intros Hr; apply (f_equal snd) in Hr;
        cbn [snd] in Hr; apply (f_equal length) in Hr; rewrite length_app in Hr; simpl in Hr; lia.
    + apply Nat.leb_gt in E. split; [lia | done].
Qed.

End Escape.

(** A valid bike number of 32 apostrophes. *)
Definition quotes32 : string := string_of_chars (replicate 32 "'"%char).

Lemma escape_buffer_bounds_witness :
  (64 <= String.length (string_of_chars (replicate 64 "1"%char)))%nat
  /\ drun server_ok (@my_find_or_create manual_client (string_of_chars (replicate 64 "1"%char))) [1%nat] []
     = (overflow, [], [])
  /\ valid_bike_no quotes32 = true
  /\ drun server_ok (@my_get_for_update manual_client quotes32) [1%nat] [] = (overflow, [], []).
Proof.
  split; [vm_compute; lia|]. split; [|split; [reflexivity|]].
  - apply (@escape_buffer_bounds manual_client manual_client_laws). vm_compute. lia.
  - apply (@escape_buffer_bounds manual_client manual_client_laws); reflexivity.
Defined.

(** *** Buffers of the ride transaction *)

(** The values a ride has when every input was checked. *)
Definition coord_ok (x : double) : bool := is_binary64 x && valid_lng x.
Definition int64_ok (z : Z) : bool := (- 2 ^ 63 <=? z) && (z <? 2 ^ 63).
Definition ride_ok (ci : CreateRideInput) : bool :=
  forallb in_int [ci_user_id ci; ci_bike_id ci; ci_duration_sec ci; ci_distance_m ci; ci_amount_cent ci]
  && forallb int64_ok [ci_start_ts ci; ci_end_ts ci]
  && forallb coord_ok [ci_start_lat ci; ci_start_lng ci; ci_end_lat ci; ci_end_lng ci].
Definition point_ok (p : RidePoint) : bool :=
  forallb in_int [p_seq p; p_elapsed_sec p] && forallb coord_ok [p_lat p; p_lng p].

Lemma length_coord x : coord_ok x = true -> (length (fmt_f7 x) <= 12)%nat.
Proof. intros H. apply andb_true_iff in H as [H1 H2]. by apply length_fmt_f7_180. Qed.
Lemma length_int64 z : int64_ok z = true -> (length (fmt_d z) <= 20)%nat.
Proof. intros H. apply length_fmt_int64. unfold int64_ok in H. blia. Qed.
Lemma length_cstr t : (length (cstr t) <= length t)%nat.
Proof. induction t as [|c t IH]; simpl; [lia|]. case_bool_decide; simpl; lia. Qed.

Ltac text_lengths :=
  repeat match goal with
  | H : in_int ?z = true |- _ => apply length_fmt_int in H
  | H : coord_ok ?x = true |- _ => apply length_coord in H
  | H : int64_ok ?z = true |- _ => apply length_int64 in H
  end.

Ltac text_consts :=
  repeat match goal with |- context [length (txt ?s)] =>
    let n := eval vm_compute in (length (txt s)) in change (length (txt s)) with n end.

(** With checked inputs the statements of the ride transaction fit
    their buffers whole: 512 bytes for the ride with an escaped number of up to
    62 bytes, 256 for a position.  A position report is not checked by its
    handler, and a latitude of 10^300 is cut off in the middle, so the server
    refuses the statement and the whole ride is rolled back. *)
Theorem ride_statements_fit ci esc id p :
  ride_ok ci = true -> point_ok p = true -> (length esc <= 62)%nat -> int64_ok id = true ->
  snprintf 512 (ride_text esc ci) = ride_text esc ci
  /\ snprintf 256 (point_text id p) = point_text id p
  /\ last (point_text id (mkPoint (p_seq p) (d_of_Z (10 ^ 300)) (p_lng p) (p_elapsed_sec p))) = Some ")"%char
  /\ last (snprintf 256 (point_text 1 (mkPoint 1 (d_of_Z (10 ^ 300)) d_zero 1))) <> Some ")"%char.
Proof.
  unfold ride_ok, point_ok. cbn [forallb]. intros Hci Hp He Hid.
  repeat match goal with
  | H : (_ && _) = true |- _ => apply andb_true_iff in H as [? ?] end.
  text_lengths. pose proof (length_cstr esc) as Hesc.
  split; [|split; [|split]].
  - apply snprintf_fits. unfold ride_text. rewrite !length_app.
    text_consts. lia.
  - apply snprintf_fits. unfold point_text. rewrite !length_app.
    text_consts. lia.
  - unfold point_text. rewrite !app_assoc. apply last_snoc.
  - vm_compute. discriminate.
Qed.

Lemma ride_statements_fit_witness :
  snprintf 512 (ride_text (txt "R20240101000001") (mkCreateRide "R20240101000001" 1 2 10 20
     (d_of_Z 39) (d_of_Z 116) (d_of_Z 40) (d_of_Z 117) 10 5 100 []))
  = ride_text (txt "R20240101000001") (mkCreateRide "R20240101000001" 1 2 10 20
     (d_of_Z 39) (d_of_Z 116) (d_of_Z 40) (d_of_Z 117) 10 5 100 []).
Proof.
  apply (ride_statements_fit (mkCreateRide "R20240101000001" 1 2 10 20
     (d_of_Z 39) (d_of_Z 116) (d_of_Z 40) (d_of_Z 117) 10 5 100 []) (txt "R20240101000001") 7
     (mkPoint 1 (d_of_Z 39) (d_of_Z 116) 3)); try reflexivity. vm_compute. lia.
Defined.
