(* ===== verification/MysqlAccounts.v ===== *)
(** * The handlers on the MySQL account repository

    The business process of production runs the handlers of Handlers.v on
    MysqlAccountRepo.  Here that repository becomes an instance of
    [IAccountRepo]: its state is the idle connections of the pool and the
    statements sent so far, its operations run the methods of MysqlRepos.v
    against the server.  [AccountDb] states what the MySQL manual promises of
    the statements on one account; under it the contract [AccountLaws] the
    handlers are written for fails in two ways, which [end_ride] makes
    visible: a charge the balance does not cover is booked and refused at the
    same time, and a charge that was rolled back counts as paid. *)

From S2P Require Import Prelude Protocol Double Common Repo Messages Prog Handlers HandlerSteps HandlerProps CText MysqlPool MysqlRepos MysqlProps.
From S2P Require Import ServerSafety InMemory Scenario.
From Stdlib Require Import Ascii.
Open Scope prog_scope.

(** ** The repository *)

Record MysqlRepo : Type := mkMysqlRepo {
  mr_pool : list conn;
  mr_log : list stmt
}.

(** A method that waits for ever on an empty pool has no result; the exception
    only marks it. *)
Definition db_op {X} (sv : server) (p : dprog X) : op MysqlRepo X := fun a w =>
  match drun sv p (mr_pool a) (mr_log a) with
  | (Finished x, pool, log) => (Ok x, mkMysqlRepo pool log, w)
  | (Faulted e, pool, log) => (Err e, mkMysqlRepo pool log, w)
  | (Blocked, pool, log) => (Err (RuntimeError "blocked"), mkMysqlRepo pool log, w)
  end.

Lemma db_op_finished {X} sv (p : dprog X) a w x pool log :
  drun sv p (mr_pool a) (mr_log a) = (Finished x, pool, log) ->
  db_op sv p a w = (Ok x, mkMysqlRepo pool log, w).
Proof. intros E. unfold db_op. by rewrite E. Qed.

Definition mysql_accounts (sv : server) : IAccountRepo MysqlRepo := {|
  get_balance uid := db_op sv (my_get_balance uid);
  add_balance uid type amount := db_op sv (my_add_balance uid type amount);
  Repo.list_records uid limit := db_op sv (my_list_records uid limit)
|}.

(** ** What the server promises of one account *)

Definition sql_balance (uid : Z) : text :=
  sqlbuf 128 (txt "SELECT balance FROM account WHERE user_id=" ++ fmt_d uid).

(** The statements [qs] sent in a row on [c], with their answers. *)
Fixpoint answers (sv : server) (log : list stmt) (c : conn) (qs : list text) : list stmt :=
  match qs with
  | [] => []
  | q :: qs => let s := mkStmt c q (sv log c q) in s :: answers sv (log ++ [s]) c qs
  end.
Definition ack (s : stmt) : bool := query_ok (st_reply s).

(** [db_bal log] is the committed balance of [uid] after the statements of
    [log], [db_idle log] says that they leave no transaction open.  A SELECT
    outside a transaction reads the committed balance and changes nothing; an
    acknowledged transaction adds its amount; one that was refused before its
    COMMIT, and rolled back, changes nothing. *)
Class AccountDb (sv : server) (uid : Z) : Type := {
  db_bal : list stmt -> Z;
  db_idle : list stmt -> Prop;
  db_read log c :
    db_idle log ->
    let r := sv log c (sql_balance uid) in
    let log' := log ++ [mkStmt c (sql_balance uid) r] in
    (exists af id, r = QOk (Some (1%nat, [[Some (fmt_d (db_bal log))]])) af id)
    /\ db_idle log' /\ db_bal log' = db_bal log;
  db_commit log c ty amt ss :
    db_idle log -> in_int amt = true -> in_int (db_bal log + amt) = true ->
    acked c (account_txn uid ty amt) ss ->
    db_idle (log ++ ss) /\ db_bal (log ++ ss) = db_bal log + amt;
  db_rollback log c ty amt ss :
    db_idle log -> in_int amt = true ->
    txn c (account_txn uid ty amt) ss false -> COMMIT ∉ st_sql <$> ss ->
    db_idle (log ++ ss) /\ db_bal (log ++ ss) = db_bal log
}.

(** The server acknowledges every statement of a movement the column can hold. *)
Definition healthy (sv : server) (uid : Z) `{!AccountDb sv uid} : Prop :=
  forall log c ty amt, db_idle log -> in_int amt = true -> in_int (db_bal log + amt) = true ->
    Forall (fun s => ack s = true) (answers sv log c (account_txn uid ty amt)).

(** ** A movement *)

Lemma answers_app sv c qs1 qs2 : forall log,
  answers sv log c (qs1 ++ qs2)
  = answers sv log c qs1 ++ answers sv (log ++ answers sv log c qs1) c qs2.
Proof.
  induction qs1 as [|q qs IH]; intros log; cbn [answers app]; [by rewrite app_nil_r|].
  by rewrite IH, <- app_assoc.
Qed.

Lemma answers_acked sv c qs : forall log,
  Forall (fun s => ack s = true) (answers sv log c qs) -> acked c qs (answers sv log c qs).
Proof.
  induction qs as [|q qs IH]; intros log H; cbn [answers] in *; constructor.
  - by apply Forall_cons in H as [H _].
  - apply Forall_cons in H as [_ H]. by apply IH.
Qed.

Lemma run_all_answers {X} sv c qs (k : bool -> dprog X) pool : forall log,
  Forall (fun s => ack s = true) (answers sv log c qs) ->
  drun sv (run_all c qs k) pool log = drun sv (k true) pool (log ++ answers sv log c qs).
Proof.
  induction qs as [|q qs IH]; intros log H; cbn [answers run_all drun] in *; [by rewrite app_nil_r|].
  apply Forall_cons in H as [E H]. unfold ack in E. cbn [st_reply] in E. rewrite E, IH by done.
  by rewrite <- app_assoc.
Qed.

(** A refused statement: everything before it was acknowledged. *)
Lemma run_all_refused {X} sv c qs (k : bool -> dprog X) pool : forall log,
  ~ Forall (fun s => ack s = true) (answers sv log c qs) ->
  exists sent q rest ss r, qs = sent ++ q :: rest /\ acked c sent ss /\ query_ok r = false
    /\ drun sv (run_all c qs k) pool log = drun sv (k false) pool (log ++ ss ++ [mkStmt c q r]).
Proof.
  induction qs as [|q qs IH]; intros log H; cbn [answers run_all drun] in *; [by destruct H|].
  destruct (query_ok (sv log c q)) eqn:E.
  - destruct (IH (log ++ [mkStmt c q (sv log c q)]))
      as (sent & q' & rest & ss & r & -> & Ha & Hq & Hr); [intros Hf; by apply H; constructor|].
    exists (q :: sent), q', rest, (mkStmt c q (sv log c q) :: ss), r.
    split; [done|]. split; [by constructor|]. split; [done|]. rewrite Hr, <- app_assoc. done.
  - exists [], q, qs, [], (sv log c q). split; [done|]. by split; [constructor|].
Qed.

Lemma body_no_commit uid ty amt : Forall (fun q => q <> COMMIT) (account_body uid ty amt).
Proof.
  repeat constructor; intros H%(f_equal head); vm_compute in H; discriminate.
Qed.

Lemma acked_sqls c qs ss : acked c qs ss -> st_sql <$> ss = qs.
Proof. induction 1 as [|q s qs ss (_ & Hq & _) _ IH]; [done|]. cbn. by rewrite Hq, IH. Qed.

Section Movement.
Context (sv : server) (uid : Z) `{!AccountDb sv uid}.

Lemma drun_get_balance c pool log :
  db_idle log -> in_int (db_bal log) = true ->
  exists log', drun sv (my_get_balance uid) (c :: pool) log
      = (Finished (db_bal log), pool ++ [c], log')
    /\ db_idle log' /\ db_bal log' = db_bal log.
Proof.
  intros Hi Hb. unfold my_get_balance. rewrite drun_lease. cbn [drun].
  fold (sql_balance uid). destruct (db_read log c Hi) as ((af & id & E) & Hi' & Hb').
  eexists. split; [|split; [exact Hi' | exact Hb']].
  rewrite E at 1. cbn [read_balance]. unfold cell_num, cell. cbn [lookup list_lookup].
  cbn. rewrite atoi_fmt_d by done. reflexivity.
Qed.

(** A movement the server takes: the new balance, whatever its sign. *)
Lemma drun_add_booked ty amt c c2 pool log :
  db_idle log -> in_int amt = true -> in_int (db_bal log + amt) = true ->
  Forall (fun s => ack s = true) (answers sv log c (account_txn uid ty amt)) ->
  exists log', drun sv (my_add_balance uid ty amt) (c :: c2 :: pool) log
      = (Finished (db_bal log + amt), (pool ++ [c2]) ++ [c], log')
    /\ db_idle log' /\ db_bal log' = db_bal log + amt.
Proof.
  intros Hi Ha Hb Hok. unfold my_add_balance. rewrite drun_lease. cbn [drun].
  destruct (db_commit log c ty amt _ Hi Ha Hb (answers_acked _ _ _ _ Hok)) as (Hi' & Hb').
  destruct (drun_get_balance c2 pool _ Hi') as (log' & Hr & Hi2 & Hb2); [by rewrite Hb'|].
  rewrite Hb' in Hr, Hb2. exists log'. split; [|by split].
  unfold account_txn in Hok, Hr. cbn [app answers] in Hok, Hr.
  set (s0 := mkStmt c START (sv log c START)) in *.
  apply Forall_cons in Hok as [E Hok]. unfold ack in E. cbn [st_reply s0] in E. rewrite E. cbn [negb].
  fold (account_body uid ty amt). rewrite answers_app in Hok, Hr.
  apply Forall_app in Hok as [Hok Hc]. rewrite run_all_answers by exact Hok. cbn [negb drun].
  set (l1 := (log ++ [s0]) ++ answers sv (log ++ [s0]) c (account_body uid ty amt)) in *.
  cbn [answers] in Hc, Hr. apply Forall_cons in Hc as [Ec _]. unfold ack in Ec.
  cbn [st_reply] in Ec. rewrite Ec. cbn [negb].
  match type of Hr with drun _ _ _ ?l = _ =>
    replace (l1 ++ [mkStmt c COMMIT (sv l1 c COMMIT)]) with l end; [by rewrite Hr|].
  unfold l1 at 2. by rewrite <- !app_assoc.
Qed.

(** A movement refused before its COMMIT: the old balance. *)
Lemma drun_add_refused ty amt c c2 pool log :
  db_idle log -> in_int amt = true -> in_int (db_bal log) = true ->
  ~ Forall (fun s => ack s = true) (answers sv log c (START :: account_body uid ty amt)) ->
  exists log', drun sv (my_add_balance uid ty amt) (c :: c2 :: pool) log
      = (Finished (db_bal log), (pool ++ [c2]) ++ [c], log')
    /\ db_idle log' /\ db_bal log' = db_bal log.
Proof.
  intros Hi Ha Hb Hno. unfold my_add_balance. rewrite drun_lease. cbn [drun].
  assert (Hrest : forall ss, txn c (account_txn uid ty amt) ss false -> COMMIT ∉ st_sql <$> ss ->
    exists log', drun sv (my_get_balance uid) (c2 :: pool) (log ++ ss)
      = (Finished (db_bal log), pool ++ [c2], log') /\ db_idle log' /\ db_bal log' = db_bal log).
  { intros ss Ht Hnc. destruct (db_rollback log c ty amt ss Hi Ha Ht Hnc) as (Hi' & Hb').
    destruct (drun_get_balance c2 pool _ Hi') as (log' & Hr & Hi2 & Hb2); [by rewrite Hb'|].
    exists log'. by rewrite Hr, Hb2, Hb'. }
  destruct (query_ok (sv log c START)) eqn:E; cbn [negb].
  - fold (account_body uid ty amt).
    match goal with |- context [run_all c _ ?k] =>
      destruct (run_all_refused sv c (account_body uid ty amt) k (c2 :: pool)
                  (log ++ [mkStmt c START (sv log c START)]))
        as (sent & q & rest & ss & r & Hq & Hs & Hr & ->) end.
    { cbn [answers] in Hno. intros Hf. by apply Hno; constructor. }
    cbn [negb drun].
    match goal with |- context [mkStmt c ROLLBACK ?x] => set (r2 := x) end.
    destruct (Hrest (([mkStmt c START (sv log c START)] ++ ss) ++ [mkStmt c q r; mkStmt c ROLLBACK r2]))
      as (log' & Hd & Hl).
    + eapply (txn_rolled_back c _ ([START] ++ sent) q (rest ++ [COMMIT])); [|done| |done].
      * unfold account_txn. rewrite Hq. by rewrite <- !app_assoc.
      * auto with bike.
    + pose proof (body_no_commit uid ty amt) as Hnc. rewrite Hq in Hnc.
      rewrite !fmap_app, (acked_sqls _ _ _ Hs). cbn. rewrite Forall_app, Forall_cons in Hnc.
      destruct Hnc as (Hn1 & Hn2 & _). rewrite Forall_forall in Hn1.
      rewrite !not_elem_of_cons, not_elem_of_app. repeat split; try done; [by intros ?%Hn1|].
      rewrite !not_elem_of_cons. split; [intros <-; by apply Hn2|]. by split; [|apply not_elem_of_nil].
    + exists log'. match type of Hd with drun _ _ _ ?l = _ =>
        match goal with |- context [drun sv (my_get_balance uid) _ ?l'] => replace l' with l end end.
      * by rewrite Hd.
      * by rewrite <- !app_assoc.
  - destruct (Hrest [mkStmt c START (sv log c START)]) as (log' & Hd & Hl).
    + by eapply txn_not_started.
    + cbn. rewrite not_elem_of_cons. by split; [|apply not_elem_of_nil].
    + exists log'. by rewrite Hd.
Qed.

End Movement.

(** ** Ending a ride *)

Section EndRide.
Context (sv : server) (uid : Z) `{!AccountDb sv uid}.
Context {U T B R : Type}.
Context `{!IUserRepo U, !ISessionStore T, !IBikeRepo B, !IRideRepo R}.
Context `{!UserLaws U, !SessionLaws T}.
Context {pb : Pb} {libm : Libm} {std_sort : StdSort}.
#[local] Instance accounts_on_mysql : IAccountRepo MysqlRepo := mysql_accounts sv.
Abbreviation C := (Ctx U MysqlRepo T B R).
Implicit Types (c : C) (w : World).

(** The committed balance of the user. *)
Definition booked c : Z := db_bal (mr_log (accounts c)).
(** The repository between two requests: two connections are idle, no
    transaction is open. *)
Definition between c : Prop :=
  (2 <= length (mr_pool (accounts c)))%nat /\ db_idle (mr_log (accounts c)).

Lemma charge_booked c w t s :
  between c -> healthy sv uid -> in_int (booked c - fee s t) = true ->
  exists a', on_accounts (add_balance uid Consume (- fee s t)) c w
      = (Ok (booked c - fee s t), with_accounts a' c, w)
    /\ between (with_accounts a' c) /\ booked (with_accounts a' c) = booked c - fee s t.
Proof.
  intros [Hp Hi] Hh Hin. pose proof (fee_range s t) as Hf.
  assert (Ha : in_int (- fee s t) = true) by (apply in_int_iff; unfold INT_MIN, INT_MAX in *; lia).
  destruct c as [u [[|c1 [|c2 pool]] log] ss b r rs]; cbn in Hp, Hi |- *; [lia.. |].
  unfold booked in *. cbn in Hin |- *.
  destruct (drun_add_booked sv uid Consume (- fee s t) c1 c2 pool log Hi Ha Hin)
    as (log' & E & Hi' & Hb'); [by apply Hh|].
  exists (mkMysqlRepo ((pool ++ [c2]) ++ [c1]) log').
  split; [by apply on_accounts_eq, db_op_finished|]. split; [|exact Hb']. split; [cbn; rewrite !length_app; cbn; lia | exact Hi'].
Qed.

(** What one attempt needs: the session and the ride are the user's own and
    the coordinates are in range. *)
Record own_ride (req : end_ride_request) (s : RideSession) c w : Prop := {
  or_users : user_wf (users c);
  or_auth : authenticated c w (erreq_session_token req) uid;
  or_coords : coords_ok req = true;
  or_session : ride_sessions c !! erreq_ride_no req = Some s;
  or_user : s_user_id s = uid;
  or_seq : INT_MIN <= s_last_seq s < INT_MAX
}.

Lemma end_ride_charging p req s c w :
  pb_parse p = Some req -> own_ride req s c w ->
  let t := w_unix w (w_unix_n w) in
  exists pts w1,
    ride_points s (erreq_end_lat req) (erreq_end_lng req) (ride_duration (s_start_ts s) t) = Ok pts
    /\ run (end_ride p) c w =
      run (do! new_bal := on_accounts (add_balance uid Consume (- fee s t)) in
           if new_bal <? 0
           then Handlers.reply EndRideResponse (mk_end_ride_response 406 "余额不足" 0 0 0 0)
           else settle req s t pts new_bal) c w1.
Proof.
  intros Hp [H1 H2 H3 H4 H5 H6] t.
  assert (Hpts : exists pts, ride_points s (erreq_end_lat req) (erreq_end_lng req)
                               (ride_duration (s_start_ts s) t) = Ok pts).
  { unfold ride_points, int_add. rewrite int_checked_ok by lia. by eexists. }
  destruct Hpts as [pts Hpts]. exists pts.
  destruct (end_ride_to_charge p req c w uid s pts) as (w1 & _ & E); try done. by exists w1.
Qed.

Lemma end_ride_overdraws p req s c w :
  pb_parse p = Some req -> own_ride req s c w -> between c -> healthy sv uid ->
  let f := fee s (w_unix w (w_unix_n w)) in
  booked c < f -> in_int (booked c - f) = true ->
  exists a' w', run (end_ride p) c w
      = (frame EndRideResponse (mk_end_ride_response 406 "余额不足" 0 0 0 0), with_accounts a' c, w')
    /\ between (with_accounts a' c) /\ booked (with_accounts a' c) = booked c - f.
Proof.
  intros Hp Ho Hb Hh f Hlt Hin. destruct (end_ride_charging p req s c w Hp Ho) as (pts & w1 & _ & ->).
  fold f. destruct (charge_booked c w1 _ s Hb Hh Hin) as (a' & E & Hb' & Hk).
  exists a', w1. split; [|by split]. act (exact E). fold f.
  destruct (Z.ltb_spec (booked c - f) 0); [apply run_reply | lia].
Qed.

(** The client tries again: the same request, at each of the times [ws]. *)
Fixpoint attempts (p : list byte) c (ws : list World) : list (result (list byte)) * C :=
  match ws with
  | [] => ([], c)
  | w :: ws =>
      let '(r, c', _) := run (end_ride p) c w in
      let '(rs, c'') := attempts p c' ws in (r :: rs, c'')
  end.

Definition fees (s : RideSession) (ws : list World) : Z :=
  foldr Z.add 0 ((fun w => fee s (w_unix w (w_unix_n w))) <$> ws).

Lemma fees_pos s ws : 0 <= fees s ws.
Proof.
  unfold fees. induction ws as [|w ws IH]; [done|]. cbn.
  pose proof (fee_range s (w_unix w (w_unix_n w))). lia.
Qed.

(** C27: on the MySQL accounts of production, ending a ride the balance does
    not cover is refused with 406 and charged all the same: the fee is taken
    below zero while the ride stays open, the bike rented and nothing is
    recorded.  Every retry takes the fee of its own moment again. *)
Theorem mysql_retries_overdraw p req s c ws :
  pb_parse p = Some req -> between c -> healthy sv uid ->
  Forall (own_ride req s c) ws ->
  (forall w, head ws = Some w -> booked c < fee s (w_unix w (w_unix_n w))) ->
  INT_MIN <= booked c - fees s ws -> booked c <= INT_MAX ->
  exists a', attempts p c ws
      = (replicate (length ws) (frame EndRideResponse (mk_end_ride_response 406 "余额不足" 0 0 0 0)),
         with_accounts a' c)
    /\ booked (with_accounts a' c) = booked c - fees s ws.
Proof.
  intros Hp Hb Hh. revert c Hb. induction ws as [|w ws IH]; intros c Hb Ho Hlt Hmin Hmax.
  { exists (accounts c). rewrite with_accounts_id. cbn. split; [done|]. unfold fees; cbn. lia. }
  apply Forall_cons in Ho as [Ho Hos]. pose proof (fees_pos s ws) as Hpos.
  pose proof (fee_range s (w_unix w (w_unix_n w))) as Hf.
  change (fees s (w :: ws)) with (fee s (w_unix w (w_unix_n w)) + fees s ws) in *.
  specialize (Hlt w eq_refl).
  destruct (end_ride_overdraws p req s c w Hp Ho Hb Hh Hlt) as (a1 & w1 & E & Hb1 & Hk1);
    [apply in_int_iff; lia|].
  destruct (IH (with_accounts a1 c) Hb1) as (a' & E' & Hk'); rewrite ?Hk1; try lia.
  - eapply Forall_impl; [exact Hos|]. by intros w' [? ? ? ? ? ?].
  - intros w' _. pose proof (fee_range s (w_unix w' (w_unix_n w'))). lia.
  - exists a'. cbn [attempts length replicate]. rewrite E, E'. split; [done|]. rewrite Hk1 in Hk'.
    change (with_accounts a' (with_accounts a1 c)) with (with_accounts a' c) in Hk'. lia.
Qed.

(** a charge the database refuses before its COMMIT is rolled back, and
    [end_ride] takes the old balance it then reads for the new one: it answers
    200 with the fee and the unchanged balance, records the ride as paid,
    frees the bike and closes the session.  The ride was free. *)
Theorem mysql_failed_charge_free `{!BikeLaws B, !RideLaws R} p req s c w dist conn1 :
  pb_parse p = Some req -> own_ride req s c w -> between c ->
  bike_wf (bikes c) -> ride_wf (rides c) -> ride_room (rides c) ->
  s_ride_no s = erreq_ride_no req ->
  let t := w_unix w (w_unix_n w) in
  let dur := ride_duration (s_start_ts s) t in
  (forall pts, ride_points s (erreq_end_lat req) (erreq_end_lng req) dur = Ok pts ->
     d_to_int (path_m d_zero pts) = Ok dist) ->
  head (mr_pool (accounts c)) = Some conn1 ->
  ~ Forall (fun st => ack st = true)
      (answers sv (mr_log (accounts c)) conn1 (START :: account_body uid Consume (- fee s t))) ->
  0 <= booked c <= INT_MAX ->
  exists pts a' r' b' w',
    run (end_ride p) c w
      = (frame EndRideResponse (mk_end_ride_response 200 (to_string ErrOk) dur dist (fee s t) (booked c)),
         with_ride_sessions (delete (erreq_ride_no req) (ride_sessions c))
           (with_bikes b' (with_rides r' (with_accounts a' c))), w')
    /\ settled req s t dist pts (rides c) (bikes c) r' b'
    /\ booked (with_accounts a' c) = booked c.
Proof.
  intros Hp Ho [Hpl Hi] Hbw Hrw Hroom Hno t dur Hdist Hc1 Hrefused Hbal.
  destruct (end_ride_charging p req s c w Hp Ho) as (pts & w1 & Hpts & ->). fold t.
  pose proof (fee_range s t) as Hf.
  assert (Hch : exists a', on_accounts (add_balance uid Consume (- fee s t)) c w1
      = (Ok (booked c), with_accounts a' c, w1) /\ booked (with_accounts a' c) = booked c).
  { clear Ho Hbw Hrw Hroom. destruct c as [u [[|conn1' [|c2 pool]] log] ss b r rs];
      cbn in Hpl, Hi, Hc1, Hrefused; [lia.. |]. injection Hc1 as ->. unfold booked in *. cbn in Hbal |- *.
    destruct (drun_add_refused sv uid Consume (- fee s t) conn1 c2 pool log Hi) as (log' & E & _ & Hb');
      [apply in_int_iff; unfold INT_MIN, INT_MAX in *; lia
      |apply in_int_iff; unfold INT_MIN, INT_MAX in *; lia | exact Hrefused |].
    exists (mkMysqlRepo ((pool ++ [c2]) ++ [conn1]) log').
    split; [by apply on_accounts_eq, db_op_finished | exact Hb']. }
  destruct Hch as (a' & E & Hb'). act (exact E). destruct (Z.ltb_spec (booked c) 0); [lia|].
  destruct (settle_done req s t pts (booked c) dist (with_accounts a' c) w1)
    as (r' & b' & Es & Hs); try done; [by apply Hdist|].
  exists pts, a', r', b', w1. by split; [exact Es|].
Qed.

End EndRide.

(** ** One account on a small server

    A server that knows the account statements of user 1 and can be told to
    refuse some: the account starts with [b0]. *)

Fixpoint strip (p t : text) : option text :=
  match p, t with
  | [], _ => Some t
  | a :: p, b :: t => if bool_decide (a = b) then strip p t else None
  | _, [] => None
  end.

Definition UPDATE : text := txt "UPDATE account SET balance = balance + ".

(** The committed balance and what the open transaction adds to it. *)
Definition bank_step (st : Z * Z) (s : stmt) : Z * Z :=
  let '(b, pending) := st in
  if bool_decide (st_sql s = COMMIT) then if ack s then (b + pending, 0) else (b, pending)
  else if bool_decide (st_sql s = START) || bool_decide (st_sql s = ROLLBACK) then (b, 0)
  else match strip UPDATE (st_sql s) with
       | Some t => (b, if ack s then pending + read_int t else pending)
       | None => (b, pending)
       end.
Definition bank_bal (b0 : Z) (log : list stmt) : Z := fst (foldl bank_step (b0, 0) log).

Definition bank (b0 : Z) (refuses : text -> bool) : server := fun log _ s =>
  if bool_decide (s = sql_balance 1) then QOk (Some (1%nat, [[Some (fmt_d (bank_bal b0 log))]])) 0 0
  else if refuses s then QErr else QOk None 1 0.

Lemma bank_step_uncommitted st s : st_sql s <> COMMIT -> fst (bank_step st s) = fst st.
Proof.
  destruct st as [b pending]. intros H. unfold bank_step. rewrite bool_decide_false by done.
  destruct (_ || _); [done|]. by destruct (strip _ _).
Qed.

Lemma bank_uncommitted ss : forall st, COMMIT ∉ st_sql <$> ss -> fst (foldl bank_step st ss) = fst st.
Proof.
  induction ss as [|s ss IH]; intros st H; [done|]. cbn in *.
  apply not_elem_of_cons in H as [H1 H2]. rewrite IH by done. by apply bank_step_uncommitted, not_eq_sym.
Qed.

Lemma strip_app p t : strip p (p ++ t) = Some t.
Proof. induction p as [|a p IH]; [done|]. cbn. by rewrite bool_decide_true. Qed.

Lemma sql_add_text amt :
  in_int amt = true -> sql_add 1 amt = UPDATE ++ fmt_d amt ++ txt " WHERE user_id = 1".
Proof.
  intros H. unfold sql_add, sqlbuf. pose proof (length_fmt_int amt H) as Hl.
  apply in_int_iff in H. unfold INT_MIN, INT_MAX in H.
  change (txt " WHERE user_id = " ++ fmt_d 1) with (txt " WHERE user_id = 1").
  fold UPDATE. rewrite snprintf_fits.
  2: { rewrite !length_app. change (length UPDATE) with 39%nat.
       change (length (txt " WHERE user_id = 1")) with 18%nat. lia. }
  apply clean_cstr, clean_app; [by apply clean_txt|].
  apply clean_app; [apply clean_fmt_d; lia | by apply clean_txt].
Qed.

(** The effect of each statement of a movement. *)
Lemma bank_start b n s : st_sql s = START -> bank_step (b, n) s = (b, 0).
Proof. intros H. unfold bank_step. by rewrite H. Qed.
Lemma bank_other b n s q :
  st_sql s = q -> head q = Some "I"%char -> bank_step (b, n) s = (b, n).
Proof.
  intros H Hh. unfold bank_step. rewrite H. destruct q as [|a q]; [done|]. injection Hh as ->.
  rewrite !bool_decide_false by discriminate. done.
Qed.
Lemma bank_update b n s amt :
  in_int amt = true -> st_sql s = sql_add 1 amt -> ack s = true -> bank_step (b, n) s = (b, n + amt).
Proof.
  intros Ha H Hk. unfold bank_step. rewrite H, sql_add_text, strip_app, Hk by done.
  rewrite !bool_decide_false by (intros E%(f_equal head); discriminate). cbn [orb].
  apply in_int_iff in Ha. unfold INT_MIN, INT_MAX in Ha.
  rewrite read_int_fmt_app; [done | lia | done].
Qed.
Lemma bank_commit b n s : st_sql s = COMMIT -> ack s = true -> bank_step (b, n) s = (b + n, 0).
Proof. intros H Hk. unfold bank_step. by rewrite H, Hk. Qed.

Lemma bank_txn st c ty amt ss :
  in_int amt = true -> acked c (account_txn 1 ty amt) ss ->
  fst (foldl bank_step st ss) = fst st + amt.
Proof.
  intros Ha H. destruct st as [b n]. unfold acked, account_txn, account_body in H. cbn [app] in H.
  apply Forall2_cons_inv_l in H as (s1 & ? & (_ & Q1 & _) & H & ->).
  apply Forall2_cons_inv_l in H as (s2 & ? & (_ & Q2 & _) & H & ->).
  apply Forall2_cons_inv_l in H as (s3 & ? & (_ & Q3 & K3) & H & ->).
  apply Forall2_cons_inv_l in H as (s4 & ? & (_ & Q4 & _) & H & ->).
  apply Forall2_cons_inv_l in H as (s5 & ? & (_ & Q5 & K5) & H & ->).
  apply Forall2_nil_inv_l in H as ->. cbn [foldl].
  rewrite (bank_start _ _ s1 Q1), (bank_other _ _ s2 _ Q2 eq_refl), (bank_update _ _ s3 _ Ha Q3 K3),
    (bank_other _ _ s4 _ Q4 eq_refl), (bank_commit _ _ s5 Q5 K5). done.
Qed.

#[refine] Definition bank_db (b0 : Z) (refuses : text -> bool) : AccountDb (bank b0 refuses) 1 :=
  {| db_bal := bank_bal b0; db_idle := fun _ => True |}.
Proof.
  - intros log c _. cbv zeta. unfold bank at 1. rewrite bool_decide_true by done.
    split; [by do 2 eexists|]. split; [done|]. unfold bank_bal. rewrite foldl_app.
    apply (bank_uncommitted [_]). cbn. rewrite not_elem_of_cons. by split; [|apply not_elem_of_nil].
  - intros log c ty amt ss _ Ha _ Hs. split; [done|]. unfold bank_bal. rewrite foldl_app.
    by eapply bank_txn.
  - intros log c ty amt ss _ _ _ Hn. split; [done|]. unfold bank_bal. rewrite foldl_app.
    by apply bank_uncommitted.
Defined.

(** User 1 has been riding bike B1 for 20 minutes, which costs 150; the server
    has two connections. *)
Definition ctx_db : Ctx InMemoryUserRepo MysqlRepo InMemorySessionStore InMemoryBikeRepo InMemoryRideRepo :=
  mkCtx (users ctx0) (mkMysqlRepo [0%nat; 1%nat] []) (sessions ctx0) (bikes ctx0) (rides ctx0)
        {[ ride0 := session1 ]}.
Definition req_end : end_ride_request := mk_end_ride_request "t1" ride0 lat0 lng0.

Lemma ctx_db_own : own_ride 1 req_end session1 ctx_db world1.
Proof.
  split; [apply ctx0_ok | | by vm_compute | by vm_compute | done | by vm_compute].
  destruct auth_t1 as (m & H1 & H2). by exists m.
Qed.

(** With 120 cents the first attempt leaves 30 cents of debt, the second 180. *)
Lemma mysql_retries_overdraw_witness :
  exists a', attempts (bank 120 (fun _ => false)) [x01] ctx_db [world1; world1]
      = (replicate 2 (frame EndRideResponse (mk_end_ride_response 406 "余额不足" 0 0 0 0)),
         with_accounts a' ctx_db)
    /\ bank_bal 120 (mr_log a') = -180.
Proof.
  destruct (@mysql_retries_overdraw (bank 120 (fun _ => false)) 1 (bank_db 120 (fun _ => false))
    _ _ _ _ _ _ _ _ _ _ _ _ _ [x01] req_end session1 ctx_db [world1; world1])
    as (a' & E & Hb).
  - reflexivity.
  - split; [by vm_compute | done].
  - intros log c ty amt _ _ _. unfold account_txn, account_body. cbn [app answers].
    assert (Hq : forall l c q, query_ok (bank 120 (fun _ => false) l c q) = true).
    { intros. unfold bank. by destruct (bool_decide _). }
    repeat constructor; apply Hq.
  - do 2 (apply Forall_cons; split; [exact ctx_db_own|]). constructor.
  - intros w [= <-]. by vm_compute.
  - by vm_compute.
  - by vm_compute.
  - exists a'. split; [exact E|]. exact Hb.
Defined.

(** The UPDATE hits a lock timeout. *)
Definition busy : text -> bool := fun q => bool_decide (is_Some (strip UPDATE q)).

Lemma mysql_failed_charge_free_witness :
  exists c' w', run (@end_ride _ _ _ _ _ _ (mysql_accounts (bank 500 busy)) _ _ _ _ _ _ [x01]) ctx_db world1
      = (frame EndRideResponse (mk_end_ride_response 200 (to_string ErrOk) 1200 0 150 500), c', w')
    /\ bank_bal 500 (mr_log (accounts c')) = 500.
Proof.
  destruct (@mysql_failed_charge_free (bank 500 busy) 1 (bank_db 500 busy)
    _ _ _ _ _ _ _ _ _ _ _ _ _ _ _ [x01] req_end session1 ctx_db world1 0 0%nat)
    as (pts & a' & r' & b' & w' & E & _ & Hb).
  - reflexivity.
  - apply ctx_db_own.
  - split; [by vm_compute | done].
  - apply ctx0_ok.
  - apply ctx0_ok.
  - done.
  - done.
  - intros pts Hp. vm_compute in Hp. injection Hp as <-. by vm_compute.
  - done.
  - intros H. apply Forall_cons in H as [_ H]. apply Forall_cons in H as [_ H].
    apply Forall_cons in H as [H _]. vm_compute in H. discriminate.
  - by vm_compute.
  - do 2 eexists. split; [exact E | exact Hb].
Defined.
