(* ===== verification/MysqlUsers.v ===== *)
(** * The handlers on the MySQL user repository

    MysqlUserRepo as an instance of [IUserRepo], in the way of
    MysqlAccounts.v.  [UserDb] states what the server promises of the table
    userinfo of docker/mysql-init/schema.sql; under it every mobile number of
    at most 16 digits gets one id, once, and every longer one becomes the user
    0.  So does everybody when the server refuses statements, and the handlers
    go on: a recharge is acknowledged although nothing was
    stored. *)

From S2P Require Import Prelude Protocol Double Common Repo Messages Prog Handlers HandlerSteps HandlerProps CText MysqlPool MysqlRepos MysqlProps MysqlAccounts.
From S2P Require Import InMemory Scenario.
From Stdlib Require Import Ascii.
Open Scope prog_scope.

Section Users.
Context `{!MysqlClient, !MysqlClientLaws}.

Definition mysql_users (sv : server) : IUserRepo MysqlRepo := {|
  find_by_mobile m := db_op sv (my_find_by_mobile m);
  find_or_create m := db_op sv (my_find_or_create m)
|}.

Definition sql_find_user (m : string) : text :=
  sqlbuf 256 (txt "SELECT id, mobile FROM userinfo WHERE mobile='" ++ cstr (my_escape (chars_of_string m))
              ++ txt "'").
Definition sql_new_user (m : string) : text :=
  sqlbuf 256 (txt "INSERT INTO userinfo (mobile) VALUES ('" ++ cstr (my_escape (chars_of_string m)) ++ txt "')").

(** A mobile number the buffers hold and a C string can carry. *)
Definition plain (m : string) : Prop :=
  (String.length m <= 31)%nat /\ clean (chars_of_string m).

(** A number of at most 31 digits, and one that the column takes: mobile is a
    varchar(16) (docker/mysql-init/schema.sql). *)
Definition digits (m : string) : Prop :=
  (String.length m <= 31)%nat /\ Forall (fun c => is_digit c = true) (chars_of_string m).
Definition fits_column (m : string) : bool := (String.length m <=? 16)%nat.

Lemma digits_plain m : digits m -> plain m.
Proof.
  intros [Hl Hd]. split; [done|]. unfold clean. eapply Forall_impl; [exact Hd|]. by intros c Hc ->.
Qed.

(** ** A server that keeps the table *)

(** [du_id log m] is the id of the row of [m] after the statements of [log],
    [du_free log] how many values the auto-increment column has left.  The
    table starts empty.  A SELECT returns the row and changes nothing; an
    INSERT of a new number that fits the column adds a row with an id that no
    other row has; one that does not fit is refused, the table stays as it is
    (strict mode, the default). *)
Class UserDb (sv : server) : Type := {
  du_id : list stmt -> string -> option Z;
  du_free : list stmt -> nat;
  du_empty m : du_id [] m = None;
  du_select log c m :
    digits m ->
    let r := sv log c (sql_find_user m) in
    (exists af id, r = QOk (Some (2%nat, match du_id log m with
                                         | Some i => [[Some (fmt_d i); Some (chars_of_string m)]]
                                         | None => []
                                         end)) af id)
    /\ du_free (log ++ [mkStmt c (sql_find_user m) r]) = du_free log
    /\ forall m', du_id (log ++ [mkStmt c (sql_find_user m) r]) m' = du_id log m';
  du_insert log c m :
    digits m -> fits_column m = true -> du_free log <> 0%nat -> du_id log m = None ->
    let r := sv log c (sql_new_user m) in
    exists id af, r = QOk None af id /\ 0 < id <= INT_MAX /\ (forall m', du_id log m' <> Some id)
      /\ (du_free log <= S (du_free (log ++ [mkStmt c (sql_new_user m) r])))%nat
      /\ forall m', du_id (log ++ [mkStmt c (sql_new_user m) r]) m' = if decide (m' = m) then Some id else du_id log m';
  du_too_long log c m :
    digits m -> fits_column m = false ->
    let r := sv log c (sql_new_user m) in
    r = QErr /\ du_free (log ++ [mkStmt c (sql_new_user m) r]) = du_free log
    /\ forall m', du_id (log ++ [mkStmt c (sql_new_user m) r]) m' = du_id log m'
}.

Lemma string_round m : string_of_chars (chars_of_string m) = m.
Proof. induction m; cbn; congruence. Qed.

Section Healthy.
Context (sv : server) `{!UserDb sv}.

(** The rows have ids in the range of the column, no two the same, and every
    number in the table fits it. *)
Record table_ok (log : list stmt) : Prop := mk_table_ok {
  to_range m i : du_id log m = Some i -> 0 < i <= INT_MAX;
  to_key m1 m2 i : du_id log m1 = Some i -> du_id log m2 = Some i -> m1 = m2;
  to_width m i : du_id log m = Some i -> fits_column m = true
}.

Lemma table_ok_same log log' :
  (forall m, du_id log' m = du_id log m) -> table_ok log -> table_ok log'.
Proof.
  intros E [H1 H2 H3]. split.
  - intros m i. rewrite E. apply H1.
  - intros m1 m2 i. rewrite !E. apply H2.
  - intros m i. rewrite E. apply H3.
Qed.

Lemma find_user_run m c pool log :
  digits m -> table_ok log ->
  exists log', drun sv (my_find_by_mobile m) (c :: pool) log
      = (Finished ((fun i => mkUser i m) <$> du_id log m), pool ++ [c], log')
    /\ du_free log' = du_free log /\ forall m', du_id log' m' = du_id log m'.
Proof.
  intros Hd Hok. destruct (digits_plain m Hd) as [Hlen Hcl].
  unfold my_find_by_mobile. rewrite drun_lease, escape_fits by lia. cbn [drun].
  fold (sql_find_user m).
  destruct (du_select log c m Hd) as ((af & id & E) & Hfree & Hpure).
  eexists. split; [|split; [exact Hfree | exact Hpure]]. rewrite E at 1.
  destruct (du_id log m) as [i|] eqn:Ei; cbn; [|done].
  unfold row_to_user, cell_num, cell_or, cell. cbn. apply to_range in Ei; [|done].
  rewrite atoi_fmt_d by (unfold in_int, INT_MIN, INT_MAX in *; lia). cbn. by rewrite clean_cstr, string_round.
Qed.

(** One call for a number that fits the column. *)
Lemma find_or_create_fits m c c2 pool log :
  digits m -> fits_column m = true -> du_free log <> 0%nat -> table_ok log ->
  exists i pool' log', drun sv (my_find_or_create m) (c :: c2 :: pool) log = (Finished (mkUser i m), pool', log')
    /\ length pool' = S (S (length pool)) /\ table_ok log' /\ du_id log' m = Some i
    /\ (forall m' j, du_id log m' = Some j -> du_id log' m' = Some j)
    /\ (du_free log <= S (du_free log'))%nat.
Proof.
  intros Hd Hfit Hfree Hok. unfold my_find_or_create. rewrite drun_bind.
  destruct (find_user_run m c (c2 :: pool) log Hd Hok) as (log1 & -> & Hfree1 & H1).
  pose proof (table_ok_same _ _ H1 Hok) as Hok1.
  destruct (du_id log m) as [i|] eqn:Ei; cbn [fmap option_fmap option_map].
  - exists i. do 2 eexists. split; [reflexivity|]. rewrite length_app, H1, Hfree1. cbn.
    split; [lia|]. split; [done|]. split; [done|]. split; [|lia]. intros m' j. by rewrite H1.
  - change ((c2 :: pool) ++ [c]) with (c2 :: (pool ++ [c])).
    rewrite drun_lease. pose proof (proj1 (digits_plain m Hd)) as Hlen. rewrite escape_fits by lia. cbn [drun].
    fold (sql_new_user m).
    destruct (du_insert log1 c2 m Hd Hfit) as (id & af & E & Hid & Hnew & Hlow & Hset);
      [by rewrite Hfree1 | by rewrite H1|].
    exists id. do 2 eexists. rewrite E at 1. cbn [drun]. split.
    { rewrite i32_small by (unfold INT_MAX in Hid; lia). reflexivity. }
    rewrite !length_app. cbn. split; [lia|]. split.
    { destruct Hok1 as [T1 T2 T3]. split.
      - intros m' j. rewrite Hset. case_decide; [by intros [= <-] | apply T1].
      - intros m1 m2 j. rewrite !Hset. case_decide as D1; case_decide as D2; subst; try done.
        + intros [= <-] Hj. by apply Hnew in Hj.
        + intros Hj [= <-]. by apply Hnew in Hj.
        + apply T2.
      - intros m' j. rewrite Hset. case_decide; [by subst | apply T3]. }
    split; [by rewrite Hset, decide_True|]. split; [|by rewrite <- Hfree1].
    intros m' j Hj. rewrite Hset, decide_False; [by rewrite H1|]. intros ->. congruence.
Qed.

Lemma pool_rotate (c : nat) pool :
  exists c3 pool3, pool ++ [c] = c3 :: pool3 /\ length pool3 = length pool.
Proof.
  destruct pool as [|c3 pool]; [by exists c, []|]. exists c3, (pool ++ [c]).
  rewrite length_app. cbn. split; [done|lia].
Qed.

(** One call for a longer one. *)
Lemma find_or_create_long m c c2 pool log :
  digits m -> fits_column m = false -> table_ok log ->
  exists pool' log', drun sv (my_find_or_create m) (c :: c2 :: pool) log = (Finished (mkUser 0 ""), pool', log')
    /\ length pool' = S (S (length pool)) /\ du_free log' = du_free log
    /\ forall m', du_id log' m' = du_id log m'.
Proof.
  intros Hd Hfit Hok. unfold my_find_or_create. rewrite drun_bind.
  assert (Hnone : forall l, table_ok l -> du_id l m = None).
  { intros l Hl. destruct (du_id l m) as [i|] eqn:Ei; [|done]. apply (to_width l Hl) in Ei. congruence. }
  destruct (find_user_run m c (c2 :: pool) log Hd Hok) as (log1 & -> & Hfree1 & H1).
  pose proof (table_ok_same _ _ H1 Hok) as Hok1. rewrite (Hnone log Hok). cbn [fmap option_fmap option_map].
  change ((c2 :: pool) ++ [c]) with (c2 :: (pool ++ [c])).
  rewrite drun_lease. pose proof (proj1 (digits_plain m Hd)) as Hlen. rewrite escape_fits by lia. cbn [drun].
  fold (sql_new_user m). destruct (du_too_long log1 c2 m Hd Hfit) as (E & Hfree2 & H2).
  rewrite E in Hfree2, H2 |- *. rewrite drun_bind.
  destruct (pool_rotate c pool) as (c3 & pool3 & -> & Hl3).
  pose proof (table_ok_same _ _ H2 Hok1) as Hok2.
  match type of Hok2 with table_ok ?l =>
    destruct (find_user_run m c3 pool3 l Hd Hok2) as (log3 & -> & Hfree3 & H3); rewrite (Hnone l Hok2) end.
  cbn. do 2 eexists. split; [reflexivity|]. rewrite !length_app. cbn. split; [lia|].
  split; [congruence|]. intros m'. congruence.
Qed.

(** A sequence of calls. *)
Fixpoint ask (ms : list string) (pool : list nat) (log : list stmt)
  : option (list User * list nat * list stmt) :=
  match ms with
  | [] => Some ([], pool, log)
  | m :: ms =>
      match drun sv (my_find_or_create m) pool log with
      | (Finished u, pool, log) =>
          match ask ms pool log with
          | Some (us, pool, log) => Some (u :: us, pool, log)
          | None => None
          end
      | _ => None
      end
  end.

(** The answer to [m], as far as the final table [log] determines it. *)
Definition answer_ok (log : list stmt) (m : string) (u : User) : Prop :=
  if fits_column m then u_mobile u = m /\ du_id log m = Some (u_id u) else u = mkUser 0 "".

Lemma ask_spec ms : forall c c2 pool log,
  Forall digits ms -> (length ms <= du_free log)%nat -> table_ok log ->
  exists us pool' log', ask ms (c :: c2 :: pool) log = Some (us, pool', log')
    /\ table_ok log' /\ Forall2 (answer_ok log') ms us
    /\ forall m j, du_id log m = Some j -> du_id log' m = Some j.
Proof.
  induction ms as [|m ms IH]; intros c c2 pool log Hms Hfree Hok.
  { do 3 eexists. split; [reflexivity|]. split; [done|]. by split. }
  apply Forall_cons in Hms as [Hd Hms]. cbn [ask length] in *.
  destruct (fits_column m) eqn:Hfit.
  - destruct (find_or_create_fits m c c2 pool log Hd Hfit) as (i & pool1 & log1 & -> & Hl & Hok1 & Hi & Hk & Hf);
      [lia | done|].
    destruct pool1 as [|c' [|c2' pool1]]; [cbn in Hl; lia.. |].
    destruct (IH c' c2' pool1 log1 Hms) as (us & pool' & log' & -> & Hok' & Hus & Hkeep); [lia | done|].
    do 3 eexists. split; [reflexivity|]. split; [done|]. split; [|by auto].
    constructor; [|done]. unfold answer_ok. rewrite Hfit. cbn. by auto.
  - destruct (find_or_create_long m c c2 pool log Hd Hfit Hok) as (pool1 & log1 & -> & Hl & Hf & Hk).
    destruct pool1 as [|c' [|c2' pool1]]; [cbn in Hl; lia.. |].
    destruct (IH c' c2' pool1 log1 Hms) as (us & pool' & log' & -> & Hok' & Hus & Hkeep);
      [lia | by eapply table_ok_same|].
    do 3 eexists. split; [reflexivity|]. split; [done|].
    split; [constructor; [unfold answer_ok; by rewrite Hfit | done]|].
    intros m' j Hj. apply Hkeep. by rewrite Hk.
Qed.

(** C29: whoever logs in, in whatever order and however often, on a server that
    keeps the table of the schema: as long as it has ids left, two calls of
    [find_or_create] with numbers of at most 16 digits return the same id
    exactly when the numbers are the same, that id is positive and the user
    carries the number; every number of 17 to 31 digits is answered with the
    user 0, which has no number.  (The column takes 16 characters; no handler
    checks the length.) *)
Theorem mysql_users_map ms c c2 pool :
  Forall digits ms -> (length ms <= du_free [])%nat ->
  exists us pool' log', ask ms (c :: c2 :: pool) [] = Some (us, pool', log')
    /\ length us = length ms
    /\ forall (i j : nat) m1 m2 u1 u2,
         ms !! i = Some m1 -> us !! i = Some u1 -> ms !! j = Some m2 -> us !! j = Some u2 ->
         (fits_column m1 = true -> u_mobile u1 = m1 /\ 0 < u_id u1 <= INT_MAX)
         /\ (fits_column m1 = true -> fits_column m2 = true -> (u_id u1 = u_id u2 <-> m1 = m2))
         /\ (fits_column m1 = false -> u1 = mkUser 0 "").
Proof.
  intros Hms Hfree.
  destruct (ask_spec ms c c2 pool [] Hms Hfree) as (us & pool' & log' & E & Hok & Hus & _).
  { by split; intros *; rewrite du_empty. }
  exists us, pool', log'. split; [done|]. split; [symmetry; by eapply Forall2_length|].
  intros i j m1 m2 u1 u2 Hm1 Hu1 Hm2 Hu2.
  pose proof (Forall2_lookup_lr _ _ _ _ _ _ Hus Hm1 Hu1) as A1.
  pose proof (Forall2_lookup_lr _ _ _ _ _ _ Hus Hm2 Hu2) as A2. unfold answer_ok in *.
  split; [intros F1; rewrite F1 in A1; destruct A1 as [? A1]; split; [done|]; by eapply to_range|].
  split; [|intros F1; by rewrite F1 in A1].
  intros F1 F2. rewrite F1 in A1. rewrite F2 in A2. destruct A1 as [_ A1], A2 as [_ A2]. split.
  - intros Eid. rewrite Eid in A1. by eapply to_key.
  - intros ->. congruence.
Qed.

End Healthy.

(** ** A server that refuses *)

(** Statements sent since [log], all refused. *)
Definition refused_since (log log' : list stmt) : Prop :=
  exists ss, log' = log ++ ss /\ Forall (fun s => ack s = false) ss.

Lemma refused_refl log : refused_since log log.
Proof. exists []. by rewrite app_nil_r. Qed.
Lemma refused_more log log' c q r :
  query_ok r = false -> refused_since log log' -> refused_since log (log' ++ [mkStmt c q r]).
Proof.
  intros Hr (ss & -> & Hs). exists (ss ++ [mkStmt c q r]). rewrite app_assoc. split; [done|].
  apply Forall_app. by repeat constructor.
Qed.
#[local] Hint Resolve refused_refl refused_more : bike.

Section Down.
Context (sv : server) (down : forall log c q, sv log c q = QErr).

Lemma find_user_down m c pool log :
  (String.length m <= 31)%nat ->
  exists log', drun sv (my_find_by_mobile m) (c :: pool) log = (Finished None, pool ++ [c], log')
    /\ forall log0, refused_since log0 log -> refused_since log0 log'.
Proof.
  intros Hlen. unfold my_find_by_mobile. rewrite drun_lease, escape_fits by lia. cbn [drun].
  rewrite down. cbn. eexists. split; [done|]. auto with bike.
Qed.

Lemma find_or_create_down m c c2 pool log :
  (String.length m <= 31)%nat ->
  exists pool' log', drun sv (my_find_or_create m) (c :: c2 :: pool) log
      = (Finished (mkUser 0 ""), pool', log')
    /\ length pool' = S (S (length pool)) /\ refused_since log log'.
Proof.
  intros Hlen. unfold my_find_or_create. rewrite drun_bind.
  destruct (find_user_down m c (c2 :: pool) log Hlen) as (log1 & -> & H1).
  change ((c2 :: pool) ++ [c]) with (c2 :: (pool ++ [c])). rewrite drun_lease, escape_fits by lia.
  cbn [drun]. rewrite down. rewrite drun_bind.
  destruct (pool_rotate c pool) as (c3 & pool3 & -> & Hl).
  match goal with |- context [drun sv (my_find_by_mobile m) _ ?l] =>
    destruct (find_user_down m c3 pool3 l Hlen) as (log3 & -> & H3) end.
  cbn. do 2 eexists. split; [done|]. rewrite !length_app. cbn. split; [lia|]. auto with bike.
Qed.

Lemma add_balance_down uid ty amt c c2 pool log :
  exists pool' log', drun sv (my_add_balance uid ty amt) (c :: c2 :: pool) log = (Finished 0, pool', log')
    /\ length pool' = S (S (length pool)) /\ refused_since log log'.
Proof.
  unfold my_add_balance. rewrite drun_lease. cbn [drun]. rewrite down. cbn [query_ok negb].
  unfold my_get_balance. rewrite drun_lease. cbn [drun]. rewrite down. cbn [read_balance dlift drun].
  do 2 eexists. split; [done|]. rewrite !length_app. cbn. split; [lia|]. auto with bike.
Qed.

Context {A T B R : Type}.
Context `{!ISessionStore T, !IBikeRepo B, !IRideRepo R, !SessionLaws T}.
Context {pb : Pb} {libm : Libm} {std_sort : StdSort}.
#[local] Instance users_on_mysql : IUserRepo MysqlRepo := mysql_users sv.

Definition two_idle (r : MysqlRepo) : Prop := (2 <= length (mr_pool r))%nat.

(** Who asks makes no difference. *)
Lemma user_zero {A' : Type} m (c : Ctx MysqlRepo A' T B R) w :
  (String.length m <= 31)%nat -> two_idle (users c) ->
  exists u', on_users (find_or_create m) c w = (Ok (mkUser 0 ""), with_users u' c, w)
    /\ two_idle u' /\ refused_since (mr_log (users c)) (mr_log u').
Proof.
  intros Hlen H2. destruct (users c) as [[|c1 [|c2 pool]] log] eqn:Eu; unfold two_idle in H2; cbn in H2; [lia.. |].
  destruct (find_or_create_down m c1 c2 pool log Hlen) as (pool' & log' & E & Hl & Hr).
  exists (mkMysqlRepo pool' log'). split; [|split; [unfold two_idle; cbn in *; lia | done]].
  apply on_users_eq. rewrite Eu. by apply db_op_finished.
Qed.

Section Recharge.
#[local] Instance accounts_down : IAccountRepo MysqlRepo := mysql_accounts sv.

(** while MySQL refuses every statement, a recharge of anybody with a live
    session is answered with 200: the user becomes the user 0 of the failed
    lookup and the failed booking returns the balance 0 of a failed SELECT.
    Nothing was stored; every statement sent was refused. *)
Theorem mysql_down_recharge_ok p req m (c : Ctx MysqlRepo MysqlRepo T B R) w :
  pb_parse p = Some req -> 0 < rreq_amount req ->
  session_of (sessions c) w (rreq_session_token req) = Some m -> (String.length m <= 31)%nat ->
  two_idle (users c) -> two_idle (accounts c) ->
  exists u' a' w', run (recharge p) c w
      = (frame RechargeResponse (mk_recharge_response 200 0 (to_string ErrOk)),
         with_accounts a' (with_users u' c), w')
    /\ refused_since (mr_log (users c)) (mr_log u')
    /\ refused_since (mr_log (accounts c)) (mr_log a').
Proof.
  intros Hp Hpos Hs Hlen Hu Ha. destruct (lookup_session_found _ m c w Hs) as (w1 & E1 & _).
  destruct (user_zero m c w1 Hlen Hu) as (u' & E2 & _ & Hr).
  destruct (accounts c) as [[|c1 [|c2 pool]] log] eqn:Ea; unfold two_idle in Ha; cbn in Ha; [lia.. |].
  destruct (add_balance_down 0 Recharge (rreq_amount req) c1 c2 pool log) as (pool' & log' & E3 & _ & Hr2).
  exists u', (mkMysqlRepo pool' log'), w1. split; [|by split].
  unfold recharge. rewrite Hp. cbv zeta. destruct (Z.leb_spec (rreq_amount req) 0); [lia|].
  act (exact E1). act (exact E2). cbn [u_id].
  act (apply on_accounts_eq; cbn [accounts with_users]; rewrite Ea; by apply db_op_finished).
  apply run_reply.
Qed.
End Recharge.

(** When only the user table is out of reach, the money goes to the account 0,
    whoever pays. *)
Theorem mysql_recharge_wrong_account `{!IAccountRepo A, !AccountLaws A} p req m
    (c : Ctx MysqlRepo A T B R) w :
  pb_parse p = Some req -> 0 < rreq_amount req ->
  session_of (sessions c) w (rreq_session_token req) = Some m -> (String.length m <= 31)%nat ->
  two_idle (users c) -> acct_wf (accounts c) -> bal (accounts c) 0 + rreq_amount req <= INT_MAX ->
  exists u' a' w', run (recharge p) c w
      = (frame RechargeResponse (mk_recharge_response 200 (bal (accounts c) 0 + rreq_amount req) (to_string ErrOk)),
         with_accounts a' (with_users u' c), w')
    /\ forall v, bal a' v = if decide (v = 0) then bal (accounts c) 0 + rreq_amount req else bal (accounts c) v.
Proof.
  intros Hp Hpos Hs Hlen Hu Hw Hmax. destruct (lookup_session_found _ m c w Hs) as (w1 & E1 & _).
  destruct (user_zero m c w1 Hlen Hu) as (u' & E2 & _ & _).
  pose proof (bal_range (accounts c) 0 Hw).
  destruct (add_balance_done 0 Recharge (rreq_amount req) (accounts c) w1) as (a' & w2 & Ea & Hb);
    [done | lia | unfold INT_MIN in *; lia |].
  exists u', a', w2. split; [|done].
  unfold recharge. rewrite Hp. cbv zeta. destruct (Z.leb_spec (rreq_amount req) 0); [lia|].
  act (exact E1). act (exact E2). cbn [u_id]. act (apply on_accounts_eq, Ea). apply run_reply.
Qed.

End Down.
End Users.

(** ** A small registry

    A client library that escapes nothing and a server that knows the two
    statements: it numbers the inserted mobile numbers from 1 on. *)

Definition plain_client : MysqlClient := {| my_escape := fun s => s |}.
Lemma plain_client_laws : @MysqlClientLaws plain_client.
Proof. split; intros s; cbn; lia. Qed.
#[local] Existing Instance plain_client.
#[local] Existing Instance plain_client_laws.

Definition SELECT_USER : text := txt "SELECT id, mobile FROM userinfo WHERE mobile='".
Definition INSERT_USER : text := txt "INSERT INTO userinfo (mobile) VALUES ('".

(** The mobile number of an INSERT; one that does not fit is refused. *)
Definition inserted (q : text) : option string :=
  m ← (fun t => string_of_chars (take (length t - 2) t)) <$> strip INSERT_USER q;
  if fits_column m then Some m else None.
Definition registered (log : list stmt) : list string :=
  omap (fun s => if ack s then inserted (st_sql s) else None) log.
Definition reg_id (log : list stmt) (m : string) : option Z :=
  (fun x => Z.of_nat (S (fst x))) <$> list_find (m =.) (registered log).

Definition registry : server := fun log _ q =>
  match strip SELECT_USER q with
  | Some t =>
      let m := take (length t - 1) t in
      QOk (Some (2%nat, match reg_id log (string_of_chars m) with
                        | Some i => [[Some (fmt_d i); Some m]]
                        | None => []
                        end)) 0 0
  | None =>
      match inserted q with
      | Some m => QOk None 1 (Z.of_nat (S (length (registered log))))
      | None => QErr
      end
  end.

Lemma chars_round t : chars_of_string (string_of_chars t) = t.
Proof. induction t; cbn; congruence. Qed.

Lemma user_statements m :
  plain m -> sql_find_user m = SELECT_USER ++ chars_of_string m ++ ["'"%char]
    /\ sql_new_user m = INSERT_USER ++ chars_of_string m ++ ["'"; ")"]%char.
Proof.
  intros [Hlen Hcl]. pose proof (string_chars m) as Hc.
  unfold sql_find_user, sql_new_user, sqlbuf. cbn [my_escape plain_client].
  rewrite (clean_cstr (chars_of_string m)) by exact Hcl.
  fold SELECT_USER INSERT_USER. rewrite !snprintf_fits.
  - split; (apply clean_cstr, clean_app; [by apply clean_txt|]); (apply clean_app; [exact Hcl|]);
      by repeat constructor.
  - rewrite !length_app, Hc. change (length INSERT_USER) with 39%nat. cbn. lia.
  - rewrite !length_app, Hc. change (length SELECT_USER) with 46%nat. cbn. lia.
Qed.

Lemma inserted_new m : plain m -> inserted (sql_new_user m) = if fits_column m then Some m else None.
Proof.
  intros Hm. destruct (user_statements m Hm) as [_ ->]. unfold inserted. rewrite strip_app. cbn [fmap option_fmap option_map mbind option_bind].
  rewrite length_app. cbn [length]. rewrite Nat.add_sub, take_app_length. by rewrite string_round.
Qed.
Lemma inserted_select m : plain m -> inserted (sql_find_user m) = None.
Proof. intros Hm. by destruct (user_statements m Hm) as [-> _]. Qed.

Lemma registered_app log s :
  registered (log ++ [s]) = registered log ++ (if ack s then option_list (inserted (st_sql s)) else []).
Proof.
  unfold registered. rewrite omap_app. cbn. destruct (ack s); [|done]. by destruct (inserted (st_sql s)).
Qed.

Lemma list_find_snoc {A} (P : A -> Prop) `{!forall x, Decision (P x)} l x :
  list_find P (l ++ [x])
  = match list_find P l with
    | Some y => Some y
    | None => if decide (P x) then Some (length l, x) else None
    end.
Proof.
  induction l as [|y l IH]; cbn; [done|]. destruct (decide (P y)); [done|]. rewrite IH.
  destruct (list_find P l) as [[]|]; [done|]. by destruct (decide (P x)).
Qed.

Lemma reg_id_bound log m i : reg_id log m = Some i -> 0 < i <= Z.of_nat (length (registered log)).
Proof.
  unfold reg_id. intros ((k & x) & (Hk & _)%list_find_Some & ->)%fmap_Some. cbn.
  apply lookup_lt_Some in Hk. lia.
Qed.

Lemma reg_id_same log s : registered (log ++ [s]) = registered log -> forall m, reg_id (log ++ [s]) m = reg_id log m.
Proof. unfold reg_id. by intros ->. Qed.

Lemma registry_select log c m :
  plain m ->
  registry log c (sql_find_user m)
  = QOk (Some (2%nat, match reg_id log m with
                      | Some i => [[Some (fmt_d i); Some (chars_of_string m)]]
                      | None => []
                      end)) 0 0.
Proof.
  intros Hm. destruct (user_statements m Hm) as [-> _]. unfold registry. rewrite strip_app, length_app.
  cbn [length]. by rewrite Nat.add_sub, take_app_length, string_round.
Qed.
Lemma registry_insert log c m :
  plain m ->
  registry log c (sql_new_user m)
  = if fits_column m then QOk None 1 (Z.of_nat (S (length (registered log)))) else QErr.
Proof.
  intros Hm. unfold registry. rewrite inserted_new by done.
  destruct (user_statements m Hm) as [_ ->]. by destruct (fits_column m).
Qed.

#[refine] Definition registry_db : UserDb registry := {|
  du_id := reg_id;
  du_free log := (Z.to_nat INT_MAX - length (registered log))%nat
|}.
Proof.
  - done.
  - intros log c m Hd. pose proof (digits_plain m Hd) as Hm. cbv zeta. rewrite registry_select by done.
    assert (forall r, registered (log ++ [mkStmt c (sql_find_user m) r]) = registered log) as Hsame.
    { intros r. rewrite registered_app. cbn [st_sql]. rewrite inserted_select by done.
      destruct (ack _); apply app_nil_r. }
    split; [by do 2 eexists|]. rewrite Hsame. split; [done|]. by apply reg_id_same.
  - intros log c m Hd Hfit Hfree Hnew. pose proof (digits_plain m Hd) as Hm. cbv zeta.
    rewrite registry_insert, Hfit by done.
    do 2 eexists. split; [done|]. split; [lia|]. split; [intros m' [_ H]%reg_id_bound; lia|].
    unfold reg_id. rewrite registered_app.
    cbn [ack query_ok st_reply st_sql]. rewrite inserted_new, Hfit by done.
    change (option_list (Some m)) with [m]. split; [rewrite length_app; cbn [length]; lia|].
    intros m'. rewrite list_find_snoc.
    destruct (decide (m' = m)) as [->|Hne].
    + unfold reg_id in Hnew. apply fmap_None in Hnew. by rewrite Hnew.
    + by destruct (list_find (m' =.) _).
  - intros log c m Hd Hfit. pose proof (digits_plain m Hd) as Hm. cbv zeta.
    rewrite registry_insert, Hfit by done.
    assert (registered (log ++ [mkStmt c (sql_new_user m) QErr]) = registered log) as Hsame.
    { rewrite registered_app. apply app_nil_r. }
    split; [done|]. rewrite Hsame. split; [done|]. by apply reg_id_same.
Defined.

(** Two numbers, one of them twice, and two that are too long. *)
Definition mobile1 : string := "13800000001".
Definition mobile2 : string := "13800000002".
Definition asked : list string :=
  [mobile1; mobile2; "12345678901234567"; mobile1; "22345678901234567"].

Lemma asked_digits : Forall digits asked.
Proof. repeat (constructor; [split; [cbn; lia | by repeat constructor]|]). constructor. Qed.

Lemma mysql_users_map_witness :
  exists us pool' log', ask registry asked [0%nat; 1%nat] [] = Some (us, pool', log')
    /\ (fun u => u_id u) <$> us = [1; 2; 0; 1; 0].
Proof.
  destruct (@mysql_users_map _ plain_client_laws registry registry_db asked 0%nat 1%nat [])
    as (us & pool' & log' & E & Hlen & H).
  - exact asked_digits.
  - change (length asked) with 5%nat. change (du_free (UserDb := registry_db) [])
      with (Z.to_nat INT_MAX - 0)%nat. unfold INT_MAX. lia.
  - exists us, pool', log'. split; [exact E|]. vm_compute in E. by injection E as <- _ _.
Defined.

(** The sessions of the concrete server, its users and accounts on a MySQL
    server that refuses everything. *)
Definition down : server := fun _ _ _ => QErr.
Definition ctx_down : Ctx MysqlRepo MysqlRepo InMemorySessionStore InMemoryBikeRepo InMemoryRideRepo :=
  mkCtx (mkMysqlRepo [0; 1]%nat []) (mkMysqlRepo [0; 1]%nat []) (sessions ctx0) (bikes ctx0) (rides ctx0) ∅.

Lemma mysql_down_recharge_ok_witness :
  exists c' w', run (@recharge _ _ _ _ _ (mysql_users down) (mysql_accounts down) _ _ [x01]) ctx_down world1
      = (frame RechargeResponse (mk_recharge_response 200 0 (to_string ErrOk)), c', w')
    /\ Forall (fun s => ack s = false) (mr_log (accounts c')).
Proof.
  destruct (@mysql_down_recharge_ok _ plain_client_laws down (fun _ _ _ => eq_refl)
    _ _ _ _ _ _ [x01] (mk_recharge_request "t1" 500) mobile1 ctx_down world1)
    as (u' & a' & w' & E & _ & (ss & Hl & Hs)).
  - done.
  - done.
  - by vm_compute.
  - by vm_compute; lia.
  - unfold two_idle. cbn. lia.
  - unfold two_idle. cbn. lia.
  - do 2 eexists. split; [exact E|]. cbn [accounts with_accounts]. rewrite Hl. exact Hs.
Defined.
