(* ===== verification/RedisStore.v ===== *)
(** * The Redis session store (server/src/cache/redis_session_store.cpp)

    Verification codes and sessions as keys of a Redis server.  The server and
    the hiredis client are the operations of [RedisServer]; a command is the
    list of its arguments, as [redisCommand] builds it from its format (each
    [%s] is one argument and ends at the first NUL).  [RedisLaws] states what
    the commands SET, GET and DEL do on a usable connection and that a context
    with an error answers nothing any more. *)

From S2P Require Import Prelude Double Common Repo InMemory CText.
From Stdlib Require Import Ascii.

Inductive redis_reply : Type := RString (t : text) | ROther.

Class RedisServer (R : Type) : Type := {
  (** [redisConnectWithTimeout]: null, or a context and whether it has an error *)
  redis_connect : R -> option (nat * bool) * R;
  (** [redisCommand]: null on a connection error *)
  redis_command : nat -> list text -> R -> option redis_reply * R
}.

(** [pool] is a vector used from its back. *)
Record RedisSessionStore (R : Type) : Type := mkRedis { rd_pool : list nat; rd_srv : R }.
Arguments mkRedis {R}.
Arguments rd_pool {R}.
Arguments rd_srv {R}.

Section Store.

Context {R : Type} `{!RedisServer R}.
Implicit Types s : RedisSessionStore R.

(** [Impl::acquire]: a new connection when none is pooled. *)
Definition rd_acquire s : option nat * RedisSessionStore R :=
  match last (rd_pool s) with
  | None =>
      let '(c, r) := redis_connect (rd_srv s) in
      (match c with Some (c, false) => Some c | _ => None end, mkRedis (rd_pool s) r)
  | Some c => (Some c, mkRedis (removelast (rd_pool s)) (rd_srv s))
  end.
Definition rd_release (c : nat) s : RedisSessionStore R := mkRedis (rd_pool s ++ [c]) (rd_srv s).

(** The constructor keeps the connections that could be made. *)
Fixpoint redis_open (n : nat) (pool : list nat) (r : R) : RedisSessionStore R :=
  match n with
  | O => mkRedis pool r
  | S n =>
      let '(c, r) := redis_connect r in
      match c with
      | Some (c, false) => redis_open n (pool ++ [c]) r
      | _ => redis_open n pool r
      end
  end.
Definition RedisSessionStore_ctor (pool_size : Z) (r : R) : RedisSessionStore R :=
  redis_open (Z.to_nat pool_size) [] r.

Definition rd_command (c : nat) (args : list text) s : option redis_reply * RedisSessionStore R :=
  let '(rep, r) := redis_command c args (rd_srv s) in (rep, mkRedis (rd_pool s) r).

(** The shape of every method: no context, no work. *)
Definition with_ctx {X} (dflt : X) (body : nat -> op (RedisSessionStore R) X)
  : op (RedisSessionStore R) X :=
  fun s w =>
    let '(c, s) := rd_acquire s in
    match c with
    | None => (Ok dflt, s, w)
    | Some c => let '(x, s, w) := body c s w in (x, rd_release c s, w)
    end.

Definition code_key (m : string) : text := cstr (txt "code:" ++ chars_of_string m).
Definition session_key (t : string) : text := cstr (txt "session:" ++ chars_of_string t).

Definition rd_set_code (m : string) : op (RedisSessionStore R) Z :=
  with_ctx 0 (fun c s w =>
    let '(code, w) := uniform_int 100000 999999 w in
    let '(_, s) := rd_command c [txt "SET"; code_key m; fmt_d code; txt "EX"; txt "300"] s in
    (Ok code, s, w)).

Definition rd_get_code (m : string) : op (RedisSessionStore R) (option Z) :=
  with_ctx None (fun c s w =>
    let '(rep, s) := rd_command c [txt "GET"; code_key m] s in
    match rep with
    | Some (RString t) =>
        match atoi t with Ok v => (Ok (Some v), s, w) | Err e => (Err e, s, w) end
    | _ => (Ok None, s, w)
    end).

Definition rd_delete_code (m : string) : op (RedisSessionStore R) unit :=
  with_ctx tt (fun c s w =>
    let '(_, s) := rd_command c [txt "DEL"; code_key m] s in (Ok tt, s, w)).

Definition rd_create_session (m : string) : op (RedisSessionStore R) string :=
  with_ctx ""%string (fun c s w =>
    let '(a, w) := uniform_int 0 (2 ^ 64 - 1) w in
    let '(b, w) := uniform_int 0 (2 ^ 64 - 1) w in
    let token := string_of_chars (to_hex a ++ to_hex b) in
    let '(_, s) := rd_command c
      [txt "SET"; session_key token; cstr (chars_of_string m); txt "EX"; txt "604800"] s in
    (Ok token, s, w)).

Definition rd_lookup_session (t : string) : op (RedisSessionStore R) (option string) :=
  with_ctx None (fun c s w =>
    let '(rep, s) := rd_command c [txt "GET"; session_key t] s in
    (Ok (match rep with Some (RString v) => Some (string_of_chars v) | _ => None end), s, w)).

Definition rd_destroy_session (t : string) : op (RedisSessionStore R) unit :=
  with_ctx tt (fun c s w =>
    let '(_, s) := rd_command c [txt "DEL"; session_key t] s in (Ok tt, s, w)).

#[export] Instance RedisSessionStore_ISessionStore : ISessionStore (RedisSessionStore R) := {
  set_code := rd_set_code; get_code := rd_get_code; delete_code := rd_delete_code;
  create_session := rd_create_session; lookup_session := rd_lookup_session;
  destroy_session := rd_destroy_session }.

End Store.

(** ** What the server promises *)

Class RedisLaws (R : Type) `{!RedisServer R} : Type := {
  (** the context has no error *)
  rd_live : R -> nat -> bool;
  (** the keys that have not expired *)
  rd_kv : R -> text -> option text;
  redis_set_law r c k v ttl :
    rd_live r c = true ->
    exists rep r', redis_command c [txt "SET"; k; v; txt "EX"; ttl] r = (Some rep, r')
      /\ (forall k', rd_kv r' k' = if decide (k' = k) then Some v else rd_kv r k')
      /\ (forall c', rd_live r' c' = rd_live r c');
  redis_get_law r c k :
    rd_live r c = true ->
    redis_command c [txt "GET"; k] r
    = (Some (match rd_kv r k with Some v => RString v | None => ROther end), r);
  redis_del_law r c k :
    rd_live r c = true ->
    exists rep r', redis_command c [txt "DEL"; k] r = (Some rep, r')
      /\ (forall k', rd_kv r' k' = if decide (k' = k) then None else rd_kv r k')
      /\ (forall c', rd_live r' c' = rd_live r c');
  redis_broken_law r c args :
    rd_live r c = false -> redis_command c args r = (None, r)
}.

Section Laws.

Context {R : Type} `{!RedisServer R, !RedisLaws R}.
Implicit Types s : RedisSessionStore R.

(** A method on a non-empty pool works on the last context and leaves the pool
    as it was. *)
Lemma with_ctx_pooled {X} (dflt : X) body pool c r w :
  (forall s w x s' w', body c s w = (x, s', w') -> rd_pool s' = rd_pool s) ->
  with_ctx dflt body (mkRedis (pool ++ [c]) r) w
  = let '(x, s', w') := body c (mkRedis pool r) w in (x, mkRedis (pool ++ [c]) (rd_srv s'), w').
Proof.
  intros Hb. unfold with_ctx, rd_acquire. cbn [rd_pool rd_srv]. rewrite last_snoc, removelast_last.
  destruct (body c (mkRedis pool r) w) as [[x s'] w'] eqn:E. apply Hb in E. cbn [rd_pool] in E.
  unfold rd_release. by rewrite E.
Qed.

Lemma rd_command_pool c args s rep s' : rd_command c args s = (rep, s') -> rd_pool s' = rd_pool s.
Proof. unfold rd_command. destruct (redis_command _ _ _). by intros [= <- <-]. Qed.


Lemma hex_nonempty fuel : forall n acc, acc <> [] -> hex fuel n acc <> [].
Proof.
  induction fuel as [|fuel IH]; intros n acc Hacc; [done|]. cbn [hex].
  destruct (n / 16 =? 0); [done | by apply IH].
Qed.
Lemma to_hex_nonempty n : to_hex n <> [].
Proof.
  unfold to_hex. change (hex 16 n []) with
    (if n / 16 =? 0 then [hex_digit (n mod 16)] else hex 15 (n / 16) [hex_digit (n mod 16)]).
  destruct (n / 16 =? 0); [done | by apply hex_nonempty].
Qed.

(** Evaluates a method on a store whose last context is [c]. *)
Ltac pooled :=
  rewrite with_ctx_pooled;
  [ unfold rd_command; cbn [rd_srv rd_pool]
  | intros ? ? ? ? ?; repeat (case_match; simplify_eq);
    repeat match goal with
    | E : rd_command _ _ _ = _ |- _ => apply rd_command_pool in E
    end; intros; simplify_eq/=; congruence ].









(** When the pooled context in use has an error, every method leaves
    the store exactly as it is: the context goes back to the pool unrepaired, so
    the store stays out of order even after the server is back.  No code and no
    session is found, yet set_code still reports a code and create_session a
    token, of which nothing is stored. *)
Theorem redis_never_reconnects m pool c r w :
  rd_live r c = false ->
  let s := mkRedis (pool ++ [c]) r in
  rd_get_code m s w = (Ok None, s, w)
  /\ rd_lookup_session m s w = (Ok None, s, w)
  /\ rd_delete_code m s w = (Ok tt, s, w)
  /\ rd_destroy_session m s w = (Ok tt, s, w)
  /\ (exists code w', rd_set_code m s w = (Ok code, s, w') /\ 100000 <= code)
  /\ (exists t w', rd_create_session m s w = (Ok t, s, w') /\ t <> ""%string).
Proof.
  intros Hl s. unfold s.
  unfold rd_get_code, rd_lookup_session, rd_delete_code, rd_destroy_session, rd_set_code,
    rd_create_session.
  split; [pooled; by rewrite redis_broken_law|]. split; [pooled; by rewrite redis_broken_law|].
  split; [pooled; by rewrite redis_broken_law|]. split; [pooled; by rewrite redis_broken_law|].
  split; pooled.
  - pose proof (uniform_int_range 100000 999999 w ltac:(lia)) as Hc.
    destruct (uniform_int 100000 999999 w) as [code w']. rewrite redis_broken_law by done.
    exists code, w'. by split; [|simpl in Hc; lia].
  - destruct (uniform_int 0 (2 ^ 64 - 1) w) as [a w1]. destruct (uniform_int 0 (2 ^ 64 - 1) w1) as [b w2].
    rewrite redis_broken_law by done. eexists _, w2. split; [done|].
    destruct (to_hex a) eqn:Eh; [by destruct (to_hex_nonempty a) | done].
Qed.

End Laws.

(** ** A server in which the laws hold: context 0 is usable, the others are not *)

Record toy_redis : Type := mkToy { toy_kv : text -> option text }.
Definition toy_put (k : text) (v : option text) (r : toy_redis) : toy_redis :=
  mkToy (fun k' => if decide (k' = k) then v else toy_kv r k').
#[export] Instance toy_server : RedisServer toy_redis := {
  redis_connect r := (Some (0%nat, false), r);
  redis_command c args r :=
    match c with
    | O =>
        match args with
        | [_; k; v; _; _] => (Some ROther, toy_put k (Some v) r)
        | [cmd; k] =>
            if decide (cmd = txt "GET")
            then (Some (match toy_kv r k with Some v => RString v | None => ROther end), r)
            else (Some ROther, toy_put k None r)
        | _ => (Some ROther, r)
        end
    | S _ => (None, r)
    end }.
#[export, refine] Instance toy_laws : RedisLaws toy_redis := {
  rd_live _ c := (c =? 0)%nat; rd_kv := toy_kv }.
Proof.
  - intros r [|c] k v ttl; [|done]. intros _. by eexists _, _.
  - intros r [|c] k; [|done]. done.
  - intros r [|c] k; [|done]. intros _. by eexists _, _.
  - by intros r [|c] args.
Defined.

Definition toy0 : toy_redis := mkToy (fun _ => None).
Definition toy_world : World := mkWorld (fun _ => 0) 0 (fun _ => 0) 0 (fun _ => 41) 0.


Lemma redis_never_reconnects_witness :
  rd_get_code "13800000000" (mkRedis ([] ++ [1%nat]) toy0) toy_world
  = (Ok None, mkRedis ([] ++ [1%nat]) toy0, toy_world).
Proof. apply (redis_never_reconnects "13800000000" [] 1 toy0 toy_world). reflexivity. Defined.
