(* ===== verification/ClientRide.v ===== *)
(** * The client's ride simulation (client/src/trajectory_sim.cpp,
      client/src/trajectory_model.cpp)

    TrajectorySim advances a position once a second; TrajectoryModel drives it
    with a timer and emits the reports the client sends to the server.  The
    random draws and [asin] are the operations of [SimEnv].  The theorems
    compose the reports with the ride session of the server (Repo.v). *)

From S2P Require Import Prelude Double Common Repo.

(** [mt_real seed n lo hi]: the [n]-th draw of a mt19937 seeded with [seed],
    through uniform_real_distribution(lo, hi). *)
Class SimEnv : Type := {
  mt_real : Z -> nat -> double -> double -> double;
  m_asin : double -> double
}.

(** [std::fmod]: the exact remainder, with the sign of the dividend. *)
Definition d_fmod (x y : double) : double :=
  match x, y with
  | S754_nan, _ | _, S754_nan | S754_infinity _, _ | _, S754_zero _ => S754_nan
  | S754_zero s, _ => S754_zero s
  | _, S754_infinity _ => x
  | S754_finite s m e, S754_finite _ m' e' =>
      let e0 := Z.min e e' in
      let r := (Z.pos m * 2 ^ (e - e0)) mod (Z.pos m' * 2 ^ (e' - e0)) in
      binary_normalize prec emax (if s then - r else r) e0 s
  end.

Definition kMinSpeedKmh : double := d_of_Z 8.
Definition kMaxSpeedKmh : double := d_of_Z 15.
Definition kBearingJitterDeg : double := d_of_Z 15.

Definition to_deg (r : double) : double := d_div (d_mul r (d_of_Z 180)) kPi.
Definition kmh_to_mps (v : double) : double := d_div (d_mul v (d_of_Z 1000)) (d_of_Z 3600).

Section Sim.

Context `{!Libm, !SimEnv}.

Definition advance (lat_deg lng_deg bearing_deg dist_m : double) : double * double :=
  let lat1 := to_rad lat_deg in
  let lng1 := to_rad lng_deg in
  let brg := to_rad bearing_deg in
  let dr := d_div dist_m kEarthRadiusM in
  let lat2 := m_asin (d_add (d_mul (m_sin lat1) (m_cos dr))
                            (d_mul (d_mul (m_cos lat1) (m_sin dr)) (m_cos brg))) in
  let lng2 := d_add lng1 (m_atan2 (d_mul (d_mul (m_sin brg) (m_sin dr)) (m_cos lat1))
                                  (d_sub (m_cos dr) (d_mul (m_sin lat1) (m_sin lat2)))) in
  (to_deg lat2, to_deg lng2).

(** Speed and bearing are not initialised before [start], and not read. *)
Record TrajectorySim : Type := mkSim {
  seed_ : Z; speed_mps_ : double; bearing_deg_ : double; current_ : double * double;
  distance_m_ : double; seq_ : Z; started_ : bool }.
Definition TrajectorySim_ctor (seed : Z) : TrajectorySim :=
  mkSim seed d_zero d_zero (d_zero, d_zero) d_zero 0 false.

Definition sim_start (lat0 lng0 : double) (s : TrajectorySim) : TrajectorySim :=
  let speed := kmh_to_mps (mt_real (seed_ s) 0 kMinSpeedKmh kMaxSpeedKmh) in
  let bearing := mt_real (seed_ s) 1 d_zero (d_of_Z 360) in
  mkSim (seed_ s) speed bearing (lat0, lng0) d_zero 0 true.

Definition sim_step (s : TrajectorySim) : result (double * double * TrajectorySim) :=
  if negb (started_ s) then Ok (current_ s, s)
  else
    let rng := u32 (seed_ s + u32 (seq_ s) + 1) in
    let jit := mt_real rng 0 (SFopp kBearingJitterDeg) kBearingJitterDeg in
    let bearing := d_fmod (d_add (d_add (bearing_deg_ s) jit) (d_of_Z 360)) (d_of_Z 360) in
    let speed := kmh_to_mps (mt_real rng 1 kMinSpeedKmh kMaxSpeedKmh) in
    let next := advance (fst (current_ s)) (snd (current_ s)) bearing speed in
    let seg := haversine_m (fst (current_ s)) (snd (current_ s)) (fst next) (snd next) in
    try! seq := int_add (seq_ s) 1 in
    Ok (next, mkSim (seed_ s) speed bearing next (d_add (distance_m_ s) seg) seq true).

(** ** TrajectoryModel *)

Record TrajectoryModel : Type := mkModel {
  timer_ : bool; sim_ : TrajectorySim; ride_no_ : string; elapsed_sec_ : Z; active_ : bool }.
Definition TrajectoryModel_ctor : TrajectoryModel :=
  mkModel false (TrajectorySim_ctor 0) ""%string 0 false.

Inductive signal : Type :=
| stateChanged
| tick (lat lng : double) (seq elapsedSec : Z) (distanceM : double).

Definition tm_start (ride_no : string) (lat lng : double) (seed : Z) (m : TrajectoryModel)
  : list signal * TrajectoryModel :=
  ([stateChanged], mkModel true (sim_start lat lng (TrajectorySim_ctor seed)) ride_no 0 true).

Definition tm_stop (m : TrajectoryModel) : list signal * TrajectoryModel :=
  if negb (active_ m) then ([], m)
  else ([stateChanged], mkModel false (sim_ m) (ride_no_ m) (elapsed_sec_ m) false).

Definition tm_onTick (m : TrajectoryModel) : result (list signal * TrajectoryModel) :=
  if negb (active_ m) then Ok ([], m)
  else
    try! el := int_add (elapsed_sec_ m) 1 in
    try! r := sim_step (sim_ m) in
    let '(p, sim) := r in
    Ok ([tick (fst p) (snd p) (seq_ sim) el (distance_m_ sim)],
        mkModel (timer_ m) sim (ride_no_ m) el (active_ m)).

(** [n] seconds with the timer running: the signals in order. *)
Fixpoint tm_ticks (n : nat) (m : TrajectoryModel) : result (list signal * TrajectoryModel) :=
  match n with
  | O => Ok ([], m)
  | S n =>
      try! r := tm_onTick m in
      try! r' := tm_ticks n (snd r) in
      Ok (fst r ++ fst r', snd r')
  end.

(** What RidePane.qml reports to the server for a tick. *)
Definition reports (sigs : list signal) : list RidePoint :=
  omap (fun s => match s with
                 | tick lat lng seq el _ => Some (mkPoint seq lat lng el)
                 | stateChanged => None
                 end) sigs.

(** ** Sequence numbers *)

Definition riding (n : Z) (m : TrajectoryModel) : Prop :=
  active_ m = true /\ started_ (sim_ m) = true /\ seq_ (sim_ m) = n /\ elapsed_sec_ m = n.

Lemma onTick_riding n m :
  riding n m -> 0 <= n < INT_MAX ->
  exists d m', tm_onTick m = Ok ([tick (fst (current_ (sim_ m'))) (snd (current_ (sim_ m'))) (n + 1) (n + 1) d], m')
    /\ riding (n + 1) m'.
Proof.
  intros (Ha & Hs & Hq & He) Hn. unfold tm_onTick, sim_step. rewrite Ha, Hs, Hq, He. cbn [negb].
  unfold int_add. rewrite int_checked_ok by (unfold INT_MIN, INT_MAX in *; lia). cbn [rbind].
  match goal with |- exists d m', Ok (_, ?x) = _ /\ _ => eexists _, x end.
  split; [reflexivity|]. by repeat split.
Qed.

Lemma ticks_riding k : forall n m,
  riding n m -> 0 <= n -> n + Z.of_nat k <= INT_MAX ->
  exists sigs m', tm_ticks k m = Ok (sigs, m') /\ riding (n + Z.of_nat k) m'
    /\ (p_seq <$> reports sigs) = (fun i => n + 1 + Z.of_nat i) <$> seq 0 k
    /\ (p_elapsed_sec <$> reports sigs) = p_seq <$> reports sigs
    /\ (forall p, last (reports sigs) = Some p -> (p_lat p, p_lng p) = current_ (sim_ m')).
Proof.
  induction k as [|k IH]; intros n m Hr Hn Hk.
  - exists [], m. by rewrite Z.add_0_r.
  - destruct (onTick_riding n m Hr ltac:(lia)) as (d & m1 & E & Hr1).
    destruct (IH (n + 1) m1 Hr1 ltac:(lia) ltac:(lia)) as (sigs & m' & Et & Hr' & Hq & He & Hl).
    cbn [tm_ticks]. rewrite E. cbn [rbind fst snd]. rewrite Et. cbn [rbind fst snd].
    eexists _, m'. split; [reflexivity|]. split; [by replace (n + Z.of_nat (S k)) with (n + 1 + Z.of_nat k) by lia|].
    cbn [app reports omap list_omap]. fold (reports sigs). rewrite !fmap_cons, Hq, He, Hq.
    split; [|split; [done|]].
    + cbn [seq]. rewrite fmap_cons, <- fmap_S_seq, <- list_fmap_compose. f_equal; [simpl; lia|].
      apply list_fmap_ext. intros i x _. unfold compose. lia.
    + destruct (reports sigs) as [|q qs] eqn:Eq.
      * intros p [= <-]. simpl. destruct k; [|discriminate]. cbn in Et. injection Et as <- <-.
        by destruct (current_ (sim_ m1)).
      * intros p Hp. apply Hl. exact Hp.
Qed.

(** ** The reports at the server *)

Lemma increasing_new_maxima (l : list RidePoint) a :
  (p_seq <$> l) = (fun i => a + Z.of_nat i) <$> seq 0 (length l) -> new_maxima l = l.
Proof.
  induction l as [|p l IH] using rev_ind; [done|].
  rewrite length_app, fmap_app. cbn [length]. rewrite Nat.add_1_r, seq_S, fmap_app. cbn [fmap list_fmap].
  intros Hs. apply app_inj_2 in Hs as [Hl Hp]; [|done]. injection Hp as Hp.
  rewrite new_maxima_snoc, IH by done. rewrite (proj2 (forallb_forall _ _)); [done|].
  intros q Hq. apply Z.ltb_lt. rewrite Hp. apply list_elem_of_In, list_elem_of_lookup in Hq as [i Hi].
  pose proof (f_equal (fun x => x !! i) Hl) as E. cbn beta in E.
  rewrite !list_lookup_fmap, Hi in E. pose proof (lookup_lt_Some _ _ _ Hi).
  rewrite lookup_seq_lt in E by done. cbn [fmap option_fmap option_map] in E. injection E as ->. lia.
Qed.

Lemma riding_start ride_no lat lng seed m : riding 0 (snd (tm_start ride_no lat lng seed m)).
Proof. by repeat split. Qed.

(** Reports the session has already passed change nothing. *)
Lemma reports_ignored (s : RideSession) l :
  0 < s_last_seq s -> Forall (fun p => p_seq p <= s_last_seq s) l -> fold_left report l s = s.
Proof.
  intros Hpos Hl. induction Hl as [|p l Hp Hl IH]; [done|]. cbn [fold_left].
  assert (report s p = s) as ->; [|done]. unfold report, session_update.
  destruct (s_last_seq s =? 0) eqn:E; [blia|]. cbn [negb orb andb].
  by rewrite (proj2 (Z.leb_le _ _)).
Qed.

(** C32: From the start of a ride every tick of the client is a report
    the server keeps: after [n] seconds the session of the ride holds the last
    3600 of the reports 1 to n, and its last position is where the client is.
    If the client then starts the simulation again for the same ride, as it
    does when ending the ride failed, its sequence numbers begin at 1 again and
    the server drops everything reported in the next [n] seconds. *)
Theorem trajectory_reports_accepted (n k : nat) s ride_no lat lng seed m lat' lng' seed' :
  fresh_session s -> (1 <= n)%nat -> Z.of_nat n <= INT_MAX -> (k <= n)%nat ->
  exists sigs m1 sigs' m2,
    tm_ticks n (snd (tm_start ride_no lat lng seed m)) = Ok (sigs, m1)
    /\ tm_ticks k (snd (tm_start ride_no lat' lng' seed' (snd (tm_stop m1)))) = Ok (sigs', m2)
    /\ let s1 := fold_left report (reports sigs) s in
       length (reports sigs) = n
       /\ s_points s1 = lastn kMaxPoints (reports sigs)
       /\ s_last_seq s1 = Z.of_nat n
       /\ (s_last_lat s1, s_last_lng s1) = current_ (sim_ m1)
       /\ length (reports sigs') = k
       /\ fold_left report (reports sigs') s1 = s1.
Proof.
  intros Hf Hn1 Hn Hk.
  destruct (ticks_riding n 0 _ (riding_start ride_no lat lng seed m) ltac:(lia) ltac:(lia))
    as (sigs & m1 & E1 & _ & Hq & _ & Hl).
  destruct (ticks_riding k 0 _ (riding_start ride_no lat' lng' seed' (snd (tm_stop m1)))
    ltac:(lia) ltac:(lia)) as (sigs' & m2 & E2 & _ & Hq' & _ & _).
  exists sigs, m1, sigs', m2. split; [done|]. split; [done|]. cbv zeta.
  assert (Hlen : length (reports sigs) = n).
  { rewrite <- (length_fmap p_seq), Hq, length_fmap, length_seq. done. }
  assert (Hlen' : length (reports sigs') = k).
  { rewrite <- (length_fmap p_seq), Hq', length_fmap, length_seq. done. }
  destruct (reports_points s (reports sigs) Hf) as [Hp Hlast].
  rewrite (increasing_new_maxima _ 1) in Hp, Hlast by (rewrite Hlen; exact Hq).
  destruct (last (reports sigs)) as [p|] eqn:El.
  2:{ apply last_None in El. rewrite El in Hlen. simpl in Hlen. lia. }
  destruct Hlast as (Hs & Hla & Hlo).
  assert (Hpn : p_seq p = Z.of_nat n).
  { assert (Hfl : last (p_seq <$> reports sigs) = Some (p_seq p)) by by rewrite fmap_last, El.
    rewrite Hq in Hfl. destruct n as [|n]; [lia|]. rewrite seq_S, fmap_app in Hfl.
    cbn [fmap list_fmap] in Hfl. rewrite last_snoc in Hfl. injection Hfl as <-. lia. }
  rewrite Hs, Hla, Hlo, Hpn. split; [done|]. split; [done|]. split; [done|].
  split; [by apply Hl|]. split; [done|].
  apply reports_ignored; [rewrite Hs; lia|]. rewrite Hs, Hpn.
  apply Forall_lookup. intros i q Hi. pose proof (f_equal (fun x => x !! i) Hq') as E. cbn beta in E.
  pose proof (lookup_lt_Some _ _ _ Hi) as Hlt. rewrite Hlen' in Hlt.
  rewrite !list_lookup_fmap, Hi, lookup_seq_lt in E by done. cbn [fmap option_fmap option_map] in E.
  injection E as ->. lia.
Qed.

End Sim.

(** A ride that stays where it is. *)
Definition still_env : SimEnv := {| mt_real _ _ lo _ := lo; m_asin x := x |}.
Definition still_libm : Libm := {| m_sin x := x; m_cos _ := d_of_Z 1; m_atan2 _ _ := d_zero |}.

Lemma trajectory_reports_accepted_witness :
  exists sigs m1 sigs' m2,
    @tm_ticks still_libm still_env 3 (snd (@tm_start still_env "R" d_zero d_zero 7 TrajectoryModel_ctor)) = Ok (sigs, m1)
    /\ @tm_ticks still_libm still_env 2 (snd (@tm_start still_env "R" d_zero d_zero 9 (snd (tm_stop m1)))) = Ok (sigs', m2)
    /\ let s1 := fold_left report (reports sigs) (mkSession "R" 1 1 d_zero d_zero 0 d_zero d_zero 0 []) in
       length (reports sigs) = 3%nat
       /\ s_points s1 = lastn kMaxPoints (reports sigs)
       /\ s_last_seq s1 = Z.of_nat 3
       /\ (s_last_lat s1, s_last_lng s1) = current_ (sim_ m1)
       /\ length (reports sigs') = 2%nat
       /\ fold_left report (reports sigs') s1 = s1.
Proof.
  apply (@trajectory_reports_accepted still_libm still_env 3 2); [by split | lia | unfold INT_MAX; lia | lia].
Defined.
