(* ===== verification/ClientLocation.v ===== *)
(** * The client's location provider (client/src/location_provider.cpp)

    The subscription to the positioning source, the watchdog of the first fix
    and the one-shot requests.  The source and the timers are events; an
    operation returns the signals it emits, the callbacks it calls and the
    requests it makes of the source, in order. *)

From S2P Require Import Prelude Double Common.

Definition default_lat : double := d_lit 399821 4.
Definition default_lng : double := d_lit 1163145 4.
Definition kFirstFixTimeoutMs : Z := 8000.

(** A pending [request_once]: the flag its two lambdas share and whether the
    lambda on positionUpdated is still connected. *)
Record waiter : Type := mkWaiter { w_cb : nat; w_done : bool; w_connected : bool }.

Record LocationProvider : Type := mkProvider {
  src_ : bool;              (* a source exists *)
  updating_ : bool;         (* startUpdates is in effect *)
  first_fix_timer_ : bool;  (* running *)
  status_ : string;
  last_lat_ : double; last_lng_ : double; has_fix_ : bool;
  waiters : list waiter
}.

Inductive output : Type :=
| positionReady (lat lng : double)
| locationError (message : string)
| statusChanged
| callback (cb : nat) (lat lng : double)
| requestUpdate (timeout_ms : Z).

Inductive GeoError : Type := AccessError | UpdateTimeoutError | OtherError.

Definition upd (p : LocationProvider) (upd_ timer : bool) (st : string) : LocationProvider :=
  mkProvider (src_ p) upd_ timer st (last_lat_ p) (last_lng_ p) (has_fix_ p) (waiters p).

Definition set_status (st : string) (p : LocationProvider) : list output * LocationProvider :=
  if bool_decide (status_ p = st) then ([], p)
  else ([statusChanged], upd p (updating_ p) (first_fix_timer_ p) st).

Definition LocationProvider_ctor (has_source : bool) : list output * LocationProvider :=
  let p := mkProvider has_source false false "初始化" default_lat default_lng false [] in
  if negb has_source then
    let '(o, p) := set_status "定位不可用" p in
    (o ++ [locationError "定位服务不可用, 使用默认坐标"], p)
  else
    let p := upd p true false (status_ p) in
    let '(o, p) := set_status "定位中" p in
    (o, upd p (updating_ p) true (status_ p)).

(** The lambda [finish] of one request. *)
Definition finish (lat lng : double) (w : waiter) : list output * waiter :=
  if w_done w then ([], w) else ([callback (w_cb w) lat lng], mkWaiter (w_cb w) true false).

Definition set_waiters (p : LocationProvider) (ws : list waiter) : LocationProvider :=
  mkProvider (src_ p) (updating_ p) (first_fix_timer_ p) (status_ p) (last_lat_ p) (last_lng_ p)
             (has_fix_ p) ws.

(** The connected requests, in the order in which they were connected. *)
Fixpoint deliver (lat lng : double) (ws : list waiter) : list output * list waiter :=
  match ws with
  | [] => ([], [])
  | w :: ws =>
      let '(o, w') := if w_connected w then finish lat lng w else ([], w) in
      let '(os, ws') := deliver lat lng ws in (o ++ os, w' :: ws')
  end.

(** positionUpdated: the provider's own lambda, then those of the requests. *)
Definition onPositionUpdated (valid : bool) (lat lng : double) (p : LocationProvider)
  : list output * LocationProvider :=
  if negb valid then ([], p)
  else
    let p := mkProvider (src_ p) (updating_ p) false (status_ p) lat lng true (waiters p) in
    let '(o, p) := set_status "已定位" p in
    let '(os, ws) := deliver lat lng (waiters p) in
    (o ++ [positionReady lat lng] ++ os, set_waiters p ws).

Definition onError (e : GeoError) (p : LocationProvider) : list output * LocationProvider :=
  match e with
  | AccessError =>
      let '(o, p) := set_status "定位被拒绝" (upd p false (first_fix_timer_ p) (status_ p)) in
      (o ++ [locationError "定位权限被拒绝"], p)
  | UpdateTimeoutError => if negb (has_fix_ p) then set_status "定位超时" p else ([], p)
  | OtherError => ([locationError "定位异常"], p)
  end.

(** The watchdog fires once. *)
Definition onFirstFixTimeout (p : LocationProvider) : list output * LocationProvider :=
  let p := upd p (updating_ p) false (status_ p) in
  if has_fix_ p then ([], p)
  else
    let '(o, p) := set_status "定位超时" p in
    (o ++ [locationError "首次定位超时, 仍在持续尝试"], p).

Definition requestOnce (p : LocationProvider) : list output * LocationProvider :=
  ((if has_fix_ p then [positionReady (last_lat_ p) (last_lng_ p)] else [])
   ++ (if src_ p then [requestUpdate kFirstFixTimeoutMs] else []), p).

Definition request_once (cb : nat) (p : LocationProvider) : list output * LocationProvider :=
  if has_fix_ p then ([callback cb (last_lat_ p) (last_lng_ p)], p)
  else if negb (src_ p) then ([callback cb default_lat default_lng], p)
  else ([requestUpdate kFirstFixTimeoutMs], set_waiters p (waiters p ++ [mkWaiter cb false true])).

(** The timer of the [i]-th pending request. *)
Definition onRequestTimeout (i : nat) (p : LocationProvider) : list output * LocationProvider :=
  match waiters p !! i with
  | None => ([], p)
  | Some w => let '(o, w) := finish default_lat default_lng w in (o, set_waiters p (<[i := w]> (waiters p)))
  end.

Inductive event : Type :=
| EvPosition (valid : bool) (lat lng : double)
| EvError (e : GeoError)
| EvFirstFixTimeout
| EvRequestOnce
| EvRequest (cb : nat)
| EvRequestTimeout (i : nat).

Definition handle (ev : event) (p : LocationProvider) : list output * LocationProvider :=
  match ev with
  | EvPosition v la lo => onPositionUpdated v la lo p
  | EvError e => onError e p
  | EvFirstFixTimeout => if first_fix_timer_ p then onFirstFixTimeout p else ([], p)
  | EvRequestOnce => requestOnce p
  | EvRequest cb => request_once cb p
  | EvRequestTimeout i => onRequestTimeout i p
  end.

Fixpoint run_events (evs : list event) (p : LocationProvider) : list output * LocationProvider :=
  match evs with
  | [] => ([], p)
  | ev :: evs =>
      let '(o, p) := handle ev p in
      let '(os, p) := run_events evs p in (o ++ os, p)
  end.

(** ** Every request is answered once *)

Definition is_call (cb : nat) (o : output) : nat :=
  match o with callback c _ _ => if (c =? cb)%nat then 1 else 0 | _ => 0 end.
Definition is_waiting (cb : nat) (w : waiter) : nat :=
  if negb (w_done w) && (w_cb w =? cb)%nat then 1 else 0.
Definition is_request (cb : nat) (ev : event) : nat :=
  match ev with EvRequest c => if (c =? cb)%nat then 1 else 0 | _ => 0 end.

Abbreviation calls cb os := (sum_list_with (is_call cb) os).
Abbreviation waiting cb p := (sum_list_with (is_waiting cb) (waiters p)).

(** A request stays connected exactly until it is answered, and none waits
    once there is a fix. *)
Definition provider_ok (p : LocationProvider) : Prop :=
  Forall (fun w => w_connected w = negb (w_done w)) (waiters p)
  /\ (has_fix_ p = true -> Forall (fun w => w_done w = true) (waiters p)).

Lemma set_status_calls st p cb :
  calls cb (fst (set_status st p)) = 0%nat /\ waiters (snd (set_status st p)) = waiters p
  /\ has_fix_ (snd (set_status st p)) = has_fix_ p.
Proof. unfold set_status. by case_bool_decide. Qed.

Lemma deliver_spec lat lng cb ws :
  Forall (fun w => w_connected w = negb (w_done w)) ws ->
  (calls cb (fst (deliver lat lng ws)) = sum_list_with (is_waiting cb) ws
   /\ sum_list_with (is_waiting cb) (snd (deliver lat lng ws)) = 0
   /\ Forall (fun w => w_connected w = negb (w_done w)) (snd (deliver lat lng ws))
   /\ Forall (fun w => w_done w = true) (snd (deliver lat lng ws)))%nat.
Proof.
  induction 1 as [|w ws Hw _ (IH1 & IH2 & IH3 & IH4)]; [done|]. cbn [deliver].
  destruct (deliver lat lng ws) as [os ws']. cbn [fst snd] in *. rewrite Hw. unfold finish.
  destruct w as [c [] k]; simpl in *; subst k; cbn.
  - split; [done|]. split; [done|]. split; by constructor.
  - rewrite IH1. unfold is_waiting at 2. cbn [w_done w_cb negb andb]. split; [lia|]. split; [done|]. split; by constructor.
Qed.

Lemma waiters_insert cb ws i w w' :
  ws !! i = Some w ->
  (sum_list_with (is_waiting cb) (<[i := w']> ws) + is_waiting cb w
   = sum_list_with (is_waiting cb) ws + is_waiting cb w')%nat.
Proof.
  revert i. induction ws as [|a ws IH]; intros [|i] H; simplify_eq/=; [lia|].
  apply IH in H. lia.
Qed.

Lemma all_done_waiting cb ws :
  Forall (fun w => w_done w = true) ws -> sum_list_with (is_waiting cb) ws = 0%nat.
Proof. induction 1 as [|w ws Hw _ IH]; [done|]. simpl. rewrite IH. unfold is_waiting. by rewrite Hw. Qed.

(** One event: a request is answered at once or becomes a waiter, and only an
    answer ends its waiting. *)
Definition event_ok (ev : event) (p : LocationProvider) : Prop :=
  forall cb, provider_ok p ->
  provider_ok (snd (handle ev p))
  /\ (calls cb (fst (handle ev p)) + waiting cb (snd (handle ev p))
      = waiting cb p + is_request cb ev)%nat.

Lemma position_ok v la lo p : event_ok (EvPosition v la lo) p.
Proof.
  intros cb [Hc Hf]. cbn [handle is_request].
  unfold onPositionUpdated. destruct v; cbn [negb]; [|by split; [split | simpl; lia]].
  set (q := mkProvider _ _ _ _ _ _ _ _).
  destruct (set_status "已定位" q) as [o p1] eqn:E.
  destruct (set_status_calls "已定位" q cb) as (H1 & H2 & H3). rewrite E in H1, H2, H3. cbn [fst snd] in *.
  rewrite H2. cbn [q waiters]. destruct (deliver_spec la lo cb (waiters p) Hc) as (D1 & D2 & D3 & D4).
  destruct (deliver la lo (waiters p)) as [os ws]. cbn [fst snd] in *.
  split; [by split|]. rewrite !sum_list_with_app, H1, D1. cbn [set_waiters waiters]. simpl. lia.
Qed.

Lemma error_ok e p : event_ok (EvError e) p.
Proof.
  intros cb [Hc Hf]. destruct e; cbn [handle is_request onError].
  - set (q := upd p false _ _). destruct (set_status "定位被拒绝" q) as [o p1] eqn:E.
    destruct (set_status_calls "定位被拒绝" q cb) as (H1 & H2 & H3). rewrite E in H1, H2, H3.
    cbn [fst snd] in *. unfold provider_ok. rewrite sum_list_with_app, H1, H2, H3.
    split; [done | simpl; lia].
  - destruct (has_fix_ p) eqn:Efix; cbn [negb fst snd];
      [by split; [split; [|rewrite Efix] | simpl; lia]|].
    destruct (set_status_calls "定位超时" p cb) as (H1 & H2 & H3). unfold provider_ok.
    rewrite H1, H2, H3, Efix. split; [done | lia].
  - by split; [split | simpl; lia].
Qed.

Lemma first_fix_ok p : event_ok EvFirstFixTimeout p.
Proof.
  intros cb [Hc Hf]. cbn [handle is_request].
  destruct (first_fix_timer_ p); [|by split; [split | simpl; lia]].
  unfold onFirstFixTimeout. set (q := upd p _ false _). change (has_fix_ q) with (has_fix_ p).
  destruct (has_fix_ p) eqn:Efix; [by split; [split; [|intros _; by apply Hf] | simpl; lia]|].
  destruct (set_status "定位超时" q) as [o p1] eqn:E.
  destruct (set_status_calls "定位超时" q cb) as (H1 & H2 & H3). rewrite E in H1, H2, H3.
  cbn [fst snd] in *. unfold provider_ok. rewrite sum_list_with_app, H1, H2, H3.
  cbn [q upd has_fix_ waiters]. rewrite Efix. split; [done | simpl; lia].
Qed.

Lemma request_ok c p : event_ok (EvRequest c) p.
Proof.
  intros cb [Hc Hf]. cbn [handle is_request]. unfold request_once. destruct (has_fix_ p) eqn:Efix.
  { cbn [fst snd]. split; [by split; [|rewrite Efix]|]. simpl. lia. }
  destruct (src_ p); cbn [negb fst snd]; [|split; [by split; [|rewrite Efix]|]; simpl; lia].
  split.
  - split; cbn [set_waiters waiters has_fix_]; [|by rewrite Efix].
    apply Forall_app. split; [done|]. by repeat constructor.
  - cbn [set_waiters waiters]. rewrite sum_list_with_app. simpl. unfold is_waiting at 2. simpl. lia.
Qed.

Lemma request_timeout_ok i p : event_ok (EvRequestTimeout i) p.
Proof.
  intros cb [Hc Hf]. cbn [handle is_request].
  unfold onRequestTimeout. destruct (waiters p !! i) as [w|] eqn:Ei; [|by split; [split | simpl; lia]].
  unfold finish. destruct (w_done w) eqn:Ed; cbn [fst snd set_waiters waiters].
  - rewrite list_insert_id by done. split; [by split | simpl; lia].
  - split.
    + split; cbn [waiters has_fix_ set_waiters]; [by apply Forall_insert|].
      intros Hx. apply Forall_insert; [by apply Hf | done].
    + pose proof (waiters_insert cb _ i w (mkWaiter (w_cb w) true false) Ei) as Hs.
      unfold is_waiting in Hs at 2 4. rewrite Ed in Hs. simpl in *.
      destruct (w_cb w =? cb)%nat; simpl in *; lia.
Qed.

Lemma handle_spec ev p : event_ok ev p.
Proof.
  destruct ev; auto using position_ok, error_ok, first_fix_ok, request_ok, request_timeout_ok.
  intros cb Hp. cbn [handle is_request]. unfold requestOnce. cbn [fst snd]. split; [done|].
  rewrite sum_list_with_app. destruct (has_fix_ p), (src_ p); simpl; lia.
Qed.

Lemma run_events_spec evs cb : forall p,
  provider_ok p ->
  provider_ok (snd (run_events evs p))
  /\ (calls cb (fst (run_events evs p)) + waiting cb (snd (run_events evs p))
      = waiting cb p + sum_list_with (is_request cb) evs)%nat.
Proof.
  induction evs as [|ev evs IH]; intros p Hp; [by split; [|simpl; lia]|]. cbn [run_events].
  destruct (handle_spec ev p cb Hp) as [H1 H2]. destruct (handle ev p) as [o p1]. cbn [fst snd] in *.
  destruct (IH p1 H1) as [H3 H4]. destruct (run_events evs p1) as [os p2]. cbn [fst snd] in *.
  split; [done|]. rewrite sum_list_with_app. cbn [sum_list_with]. lia.
Qed.

(** Over any sequence of fixes, errors, timeouts and requests, the
    callback of a request has been called exactly as often as it was requested,
    less the requests that still wait; nobody waits once there is a fix or
    without a source; and when the timer of a waiting request fires it is
    answered, so no request is answered twice and none is left behind. *)
Theorem one_answer_per_request (has_source : bool) evs cb :
  let p := snd (run_events evs (snd (LocationProvider_ctor has_source))) in
  let os := fst (run_events evs (snd (LocationProvider_ctor has_source))) in
  (calls cb os + waiting cb p = sum_list_with (is_request cb) evs)%nat
  /\ (has_fix_ p = true -> waiting cb p = 0%nat)
  /\ (forall i w, waiters (snd (handle (EvRequestTimeout i) p)) !! i = Some w -> w_done w = true).
Proof.
  intros p os. destruct (run_events_spec evs cb (snd (LocationProvider_ctor has_source))) as [[Hc Hf] Hs].
  { destruct has_source; by repeat constructor. }
  fold p in Hc, Hf, Hs. fold os in Hs. split; [by rewrite Hs; destruct has_source|].
  split; [intros Hx; by apply all_done_waiting, Hf|].
  intros i w. cbn [handle]. unfold onRequestTimeout. destruct (waiters p !! i) as [w0|] eqn:Ei.
  - unfold finish. destruct (w_done w0) eqn:Ed; cbn [snd set_waiters waiters];
      rewrite list_lookup_insert_eq by (by eapply lookup_lt_Some); intros [= <-]; done.
  - cbn [snd]. rewrite Ei. discriminate.
Qed.

(** A permission error in the first eight seconds stops the updates, but not
    the watchdog: it replaces the status that was to tell the user so and
    announces that positioning goes on. *)
Lemma access_denied_overwritten :
  let p := snd (run_events [EvError AccessError; EvFirstFixTimeout] (snd (LocationProvider_ctor true))) in
  updating_ p = false /\ status_ p = "定位超时"%string
  /\ fst (handle EvFirstFixTimeout (snd (run_events [EvError AccessError] (snd (LocationProvider_ctor true)))))
     = [statusChanged; locationError "首次定位超时, 仍在持续尝试"].
Proof. vm_compute. auto. Qed.
