(* ===== verification/Startup.v ===== *)
(** * Start, supervision and stop of the two processes

    gateway_main.cpp: the life of the engine, of the pointer to it that the
    signal handler reads and of the threads that a signal can interrupt, in
    both modes.  dispatch_main.cpp: the once-a-second part of the reader loop,
    which sends heartbeats, watches the gateway and decides to exit, and the
    stop flag. *)

From S2P Require Import Prelude.

(** ** gateway_main.cpp: the signal handler and the engine *)

(** [main] from the construction of the engine on, by what has been executed.
    The heartbeat thread exists in ring mode only. *)
Inductive gphase : Type :=
| GStart        (* engine not constructed *)
| GEngine       (* engine constructed, its pool threads run; attach_ipc done *)
| GHeartbeat    (* heartbeat thread started *)
| GPublished    (* g_engine stored *)
| GInstalled    (* handlers installed; engine.run() entered *)
| GReturned     (* engine.run() returned *)
| GCleared      (* g_engine stored null *)
| GHbStop       (* hb_stop stored *)
| GJoined       (* heartbeat joined *)
| GClosed       (* body of ~UringEngine: stop_efd_ closed *)
| GPoolJoined   (* ~ThreadPool of workers_ returned *)
| GDone.        (* the engine is gone, main returned *)
#[export] Instance gphase_eq_dec : EqDecision gphase.
Proof. solve_decision. Defined.

(** The threads besides [main] that a signal can interrupt. *)
Inductive helper : Type := Heartbeat | Pool.
#[export] Instance helper_eq_dec : EqDecision helper.
Proof. solve_decision. Defined.

(** [in_handler]: the handlers that have interrupted a helper thread and have
    loaded the pointer ([true]: not null) but not used it yet.  [stale_writes]
    counts writes to the number of the closed [stop_efd_]. *)
Record Gateway : Type := mkGateway {
  phase : gphase;
  g_engine : bool; handlers_installed : bool;
  stop_requested : bool; hb_running : bool; hb_stop : bool; pool_running : bool;
  in_handler : list (helper * bool);
  stale_writes : nat
}.
Definition Gateway0 : Gateway := mkGateway GStart false false false false false false [] 0.

(** The storage of the engine exists; its eventfd is open. *)
Definition engine_alive (g : Gateway) : bool :=
  match phase g with GStart | GDone => false | _ => true end.
Definition efd_open (g : Gateway) : bool :=
  match phase g with GStart | GClosed | GPoolJoined | GDone => false | _ => true end.

Inductive gstep_result : Type :=
| GNext (g : Gateway)
| GKilled            (* the default action of SIGTERM *)
| GTerminated        (* an exception left main: std::terminate *)
| GDangling          (* request_stop on a destroyed engine *)
| GWaits.            (* the step is not possible now *)

(** The next statement of [main].  A join returns only when the thread has
    ended, so not while it is inside a handler. *)
Definition main_step (ring : bool) (g : Gateway) : gstep_result :=
  let '(mkGateway ph ge inst st hb hs pl ih sw) := g in
  match ph with
  | GStart => GNext (mkGateway GEngine ge inst st hb hs true ih sw)
  | GEngine =>
      if ring then GNext (mkGateway GHeartbeat ge inst st true hs pl ih sw)
      else GNext (mkGateway GPublished true inst st hb hs pl ih sw)
  | GHeartbeat => GNext (mkGateway GPublished true inst st hb hs pl ih sw)
  | GPublished => GNext (mkGateway GInstalled ge true st hb hs pl ih sw)
  | GInstalled => GNext (mkGateway GReturned ge inst st hb hs pl ih sw)
  | GReturned => GNext (mkGateway GCleared false inst st hb hs pl ih sw)
  | GCleared =>
      if ring then GNext (mkGateway GHbStop ge inst st hb true pl ih sw)
      else GNext (mkGateway GClosed ge inst st hb hs pl ih sw)
  | GHbStop => if hb then GWaits else GNext (mkGateway GJoined ge inst st hb hs pl ih sw)
  | GJoined => GNext (mkGateway GClosed ge inst st hb hs pl ih sw)
  | GClosed => if pl then GWaits else GNext (mkGateway GPoolJoined ge inst st hb hs pl ih sw)
  | GPoolJoined => GNext (mkGateway GDone ge inst st hb hs pl ih sw)
  | GDone => GWaits
  end.

(** [UringEngine::request_stop]. *)
Definition request_stop (g : Gateway) : gstep_result :=
  if engine_alive g then
    GNext (mkGateway (phase g) (g_engine g) (handlers_installed g) true (hb_running g) (hb_stop g)
             (pool_running g) (in_handler g)
             (if efd_open g then stale_writes g else S (stale_writes g)))
  else GDangling.

(** [on_term] with the pointer it loaded. *)
Definition on_term (loaded : bool) (g : Gateway) : gstep_result :=
  if loaded then request_stop g else GNext g.

Definition running (h : helper) (g : Gateway) : bool :=
  match h with Heartbeat => hb_running g | Pool => pool_running g end.
Definition set_handlers (ih : list (helper * bool)) (g : Gateway) : Gateway :=
  mkGateway (phase g) (g_engine g) (handlers_installed g) (stop_requested g) (hb_running g)
    (hb_stop g) (pool_running g) ih (stale_writes g).
Definition quiet (h : helper) (g : Gateway) : bool :=
  forallb (fun x => negb (bool_decide (fst x = h))) (in_handler g).

Inductive gevent : Type :=
| EMain                  (* main goes on *)
| EThrow                 (* the engine's constructor or run() throws *)
| ESignalMain            (* SIGTERM or SIGINT delivered to the main thread *)
| ESignal (h : helper)   (* delivered to another thread: the handler loads g_engine *)
| EHandler (i : nat)     (* the i-th of those handlers goes on and returns *)
| EHbExit                (* the heartbeat thread sees hb_stop and ends *)
| EPoolExit.             (* ~ThreadPool set stop_: the pool threads have ended *)

Definition gstep (ring : bool) (e : gevent) (g : Gateway) : gstep_result :=
  match e with
  | EMain => main_step ring g
  | EThrow => if bool_decide (phase g = GStart \/ phase g = GInstalled) then GTerminated else GWaits
  | ESignalMain => if handlers_installed g then on_term (g_engine g) g else GKilled
  | ESignal h =>
      if negb (running h g) then GWaits
      else if handlers_installed g then GNext (set_handlers ((h, g_engine g) :: in_handler g) g)
      else GKilled
  | EHandler i =>
      match in_handler g !! i with
      | None => GWaits
      | Some (_, loaded) => on_term loaded (set_handlers (delete i (in_handler g)) g)
      end
  | EHbExit =>
      if hb_running g && hb_stop g && quiet Heartbeat g then
        GNext (mkGateway (phase g) (g_engine g) (handlers_installed g) (stop_requested g) false
                 (hb_stop g) (pool_running g) (in_handler g) (stale_writes g))
      else GWaits
  | EPoolExit =>
      if bool_decide (phase g = GClosed) && pool_running g && quiet Pool g then
        GNext (mkGateway (phase g) (g_engine g) (handlers_installed g) (stop_requested g)
                 (hb_running g) (hb_stop g) false (in_handler g) (stale_writes g))
      else GWaits
  end.

(** A run: events that are not possible are skipped. *)
Fixpoint grun (ring : bool) (es : list gevent) (g : Gateway) : gstep_result :=
  match es with
  | [] => GNext g
  | e :: es =>
      match gstep ring e g with
      | GNext g => grun ring es g
      | GWaits => grun ring es g
      | r => r
      end
  end.

Record gateway_ok (ring : bool) (g : Gateway) : Prop := {
  ok_mode : hb_running g = true -> ring = true;
  ok_pointer : g_engine g
    = bool_decide (phase g = GPublished \/ phase g = GInstalled \/ phase g = GReturned);
  ok_installed : handlers_installed g
    = negb (bool_decide (phase g = GStart \/ phase g = GEngine \/ phase g = GHeartbeat
                         \/ phase g = GPublished));
  ok_hb : hb_running g = true ->
    match phase g with
    | GStart | GEngine | GJoined | GClosed | GPoolJoined | GDone => False
    | _ => True
    end;
  ok_pool : pool_running g = true ->
    match phase g with GStart | GPoolJoined | GDone => False | _ => True end;
  ok_handlers h l : (h, l) ∈ in_handler g -> running h g = true;
  ok_stale : (0 < stale_writes g)%nat ->
    phase g = GClosed \/ phase g = GPoolJoined \/ phase g = GDone
}.

Lemma elem_of_delete {A} (l : list A) i x : x ∈ delete i l -> x ∈ l.
Proof.
  intros H. apply list_elem_of_lookup in H as [j Hj]. apply list_elem_of_lookup.
  destruct (decide (j < i)%nat).
  - rewrite list_lookup_delete_lt in Hj by done. by exists j.
  - rewrite list_lookup_delete_ge in Hj by lia. by exists (S j).
Qed.

(** A helper thread that is not running is inside no handler. *)
Lemma quiet_absent h g l : quiet h g = true -> (h, l) ∈ in_handler g -> False.
Proof.
  unfold quiet. rewrite forallb_forall. intros H Hin.
  specialize (H (h, l) (proj1 (list_elem_of_In _ _) Hin)). simpl in H.
  by rewrite bool_decide_true in H.
Qed.

Lemma main_step_ok ring g :
  gateway_ok ring g -> match main_step ring g with GNext g' => gateway_ok ring g' | GWaits => True | _ => False end.
Proof.
  destruct g as [ph ge inst st hb hs pl ih sw]. intros [H0 H1 H2 H3 H4 H5 H6]. cbn in *. subst ge inst.
  destruct ph, ring, hb, pl; cbn in *; try done; try (specialize (H0 eq_refl); done);
    constructor; cbn in *; try done;
    first [intros [] l Hin; specialize (H5 _ _ Hin); done
          |intros Hs; destruct (H6 Hs) as [?|[?|?]]; first [discriminate | by auto]].
Qed.

Lemma handler_alive ring h l g : gateway_ok ring g -> (h, l) ∈ in_handler g -> engine_alive g = true.
Proof.
  intros Hg Hin. pose proof (ok_handlers ring g Hg _ _ Hin) as Hr. unfold engine_alive.
  destruct h; [pose proof (ok_hb ring g Hg Hr) | pose proof (ok_pool ring g Hg Hr)]; by destruct (phase g).
Qed.

Lemma request_stop_ok ring g :
  gateway_ok ring g -> engine_alive g = true ->
  exists g', request_stop g = GNext g' /\ gateway_ok ring g' /\ stop_requested g' = true.
Proof.
  intros Hg Ha. unfold request_stop. rewrite Ha. eexists. split; [done|]. split; [|done].
  destruct Hg as [H0 H1 H2 H3 H4 H5 H6]. constructor; cbn; try done.
  unfold efd_open, engine_alive in *. destruct (phase g); cbn in *; auto; try done.
Qed.

Lemma set_handlers_ok ring ih g :
  gateway_ok ring g -> (forall h l, (h, l) ∈ ih -> running h g = true) -> gateway_ok ring (set_handlers ih g).
Proof. intros [H0 H1 H2 H3 H4 H5 H6] Hi. by constructor. Qed.

Lemma gstep_ok ring e g :
  gateway_ok ring g ->
  match gstep ring e g with
  | GNext g' => gateway_ok ring g'
  | GKilled => handlers_installed g = false
  | GTerminated => phase g = GStart \/ phase g = GInstalled
  | GDangling => False
  | GWaits => True
  end.
Proof.
  intros Hg. destruct e as [| | |h|i| |]; cbn [gstep].
  - pose proof (main_step_ok ring g Hg). by destruct (main_step ring g).
  - by case_bool_decide.
  - destruct (handlers_installed g) eqn:Ei; [|done]. unfold on_term. destruct (g_engine g) eqn:Ep; [|done].
    assert (Ha : engine_alive g = true).
    { pose proof (ok_pointer ring g Hg) as Hp. rewrite Ep in Hp. unfold engine_alive. by destruct (phase g). }
    destruct (request_stop_ok ring g Hg Ha) as (g' & -> & Hg' & _). done.
  - destruct (running h g) eqn:Er; cbn; [|done]. destruct (handlers_installed g); [|done].
    apply set_handlers_ok; [done|]. intros h' l [[= -> ->]|Hin]%elem_of_cons; [done|].
    by apply (ok_handlers ring g Hg _ l).
  - destruct (in_handler g !! i) as [[h l]|] eqn:El; [|done].
    assert (Hin : (h, l) ∈ in_handler g) by (by apply list_elem_of_lookup_2 in El).
    assert (Hs : gateway_ok ring (set_handlers (delete i (in_handler g)) g)).
    { apply set_handlers_ok; [done|]. intros h' l' Hd%elem_of_delete. by apply (ok_handlers ring g Hg _ l'). }
    unfold on_term. destruct l; [|done].
    destruct (request_stop_ok ring _ Hs) as (g' & -> & Hg' & _); [by apply (handler_alive ring _ _ _ Hg Hin) | done].
  - destruct (hb_running g && hb_stop g && quiet Heartbeat g) eqn:E; [|done].
    apply andb_true_iff in E as [_ Hq]. destruct Hg as [H0 H1 H2 H3 H4 H5 H6].
    constructor; cbn; try done. intros [] l Hin; [by destruct (quiet_absent _ _ _ Hq Hin) | by apply (H5 _ l Hin)].
  - destruct (bool_decide (phase g = GClosed) && pool_running g && quiet Pool g) eqn:E; [|done].
    apply andb_true_iff in E as [_ Hq]. destruct Hg as [H0 H1 H2 H3 H4 H5 H6].
    constructor; cbn; try done. intros [] l Hin; [by apply (H5 _ l Hin) | by destruct (quiet_absent _ _ _ Hq Hin)].
Qed.

(** How a run ends, by the invariant of its last state. *)
Lemma grun_ok ring es : forall g,
  gateway_ok ring g ->
  match grun ring es g with
  | GNext g' => gateway_ok ring g'
  | GKilled => exists es1 e es2 g', es = es1 ++ e :: es2 /\ grun ring es1 g = GNext g'
      /\ handlers_installed g' = false
  | GTerminated => exists es1 e es2 g', es = es1 ++ e :: es2 /\ grun ring es1 g = GNext g'
      /\ (phase g' = GStart \/ phase g' = GInstalled)
  | _ => False
  end.
Proof.
  induction es as [|e es IH]; intros g Hg; [done|]. cbn [grun].
  pose proof (gstep_ok ring e g Hg) as Hs.
  destruct (gstep ring e g) as [g1| | | |] eqn:E; [| | |done|].
  2, 3: by exists [], e, es, g.
  - specialize (IH g1 Hs). destruct (grun ring es g1); try done;
      destruct IH as (es1 & e1 & es2 & g' & -> & Hr & Hi); exists (e :: es1), e1, es2, g';
      cbn [grun]; by rewrite E.
  - specialize (IH g Hg). destruct (grun ring es g); try done;
      destruct IH as (es1 & e1 & es2 & g' & -> & Hr & Hi); exists (e :: es1), e1, es2, g';
      cbn [grun]; by rewrite E.
Qed.

(** A handler that has interrupted a helper thread and loaded the pointer can
    go on, and asks the engine to stop. *)
Lemma handler_stops ring g i h :
  gateway_ok ring g -> in_handler g !! i = Some (h, true) ->
  exists g', gstep ring (EHandler i) g = GNext g' /\ stop_requested g' = true.
Proof.
  intros Hg Hi. cbn [gstep]. rewrite Hi. unfold on_term.
  assert (Hin : (h, true) ∈ in_handler g) by (by apply list_elem_of_lookup_2 in Hi).
  assert (Hs : gateway_ok ring (set_handlers (delete i (in_handler g)) g)).
  { apply set_handlers_ok; [done|]. intros h' l' Hd%elem_of_delete. by apply (ok_handlers ring g Hg _ l'). }
  destruct (request_stop_ok ring _ Hs) as (g' & E & _ & H); [by apply (handler_alive ring _ _ _ Hg Hin)|].
  by exists g'.
Qed.

Lemma main_step_keeps ring g g' :
  main_step ring g = GNext g' -> stop_requested g' = stop_requested g /\ in_handler g' = in_handler g.
Proof. destruct g as [[] ge inst st [] hs [] ih sw], ring; cbn; intros [= <-]; done. Qed.

Lemma request_stop_keeps g g' :
  request_stop g = GNext g' -> stop_requested g' = true /\ in_handler g' = in_handler g.
Proof. unfold request_stop. destruct (engine_alive g); [|done]. by intros [= <-]. Qed.

(** A request to stop is not withdrawn, and such a handler does not get lost. *)
Lemma gstep_monotone ring e g g' :
  gstep ring e g = GNext g' ->
  (stop_requested g = true -> stop_requested g' = true)
  /\ forall h, (h, true) ∈ in_handler g -> (h, true) ∈ in_handler g' \/ stop_requested g' = true.
Proof.
  destruct e as [| | |h0|i| |]; cbn [gstep].
  - intros [-> ->]%main_step_keeps. by auto.
  - by case_bool_decide.
  - destruct (handlers_installed g); [|done]. unfold on_term.
    destruct (g_engine g); [intros [-> ->]%request_stop_keeps | intros [= <-]]; by auto.
  - destruct (negb _); [done|]. destruct (handlers_installed g); [|done]. intros [= <-]. cbn.
    split; [done|]. intros h Hin. left. by apply elem_of_cons; right.
  - destruct (in_handler g !! i) as [[h0 l]|] eqn:Ei; [|done]. unfold on_term. destruct l.
    + intros [-> _]%request_stop_keeps. by auto.
    + intros [= <-]. cbn. split; [done|]. intros h Hin. left.
      rewrite (delete_Permutation _ _ _ Ei) in Hin. by apply elem_of_cons in Hin as [[=]|].
  - destruct (_ && _); [|done]. intros [= <-]. cbn. by auto.
  - destruct (_ && _); [|done]. intros [= <-]. cbn. by auto.
Qed.

(** C34: in both modes, whenever signals arrive, on the main thread or in the
    middle of the heartbeat or a pool thread, and however long their handlers
    are delayed, none touches an engine that is not yet or no longer there; a
    handler that outlives the eventfd of the engine can only be one of a pool
    thread in the window of the engine's destruction; the process is killed by
    a signal only before the handlers are installed and by an exception only
    from the constructor or from [run].  A signal taken while the engine runs
    asks it to stop: on the main thread at once, on another thread the handler
    loads the pointer and is not lost until a stop is requested, which it does
    itself whenever it goes on; a stop once requested stays requested. *)
Theorem gateway_signal_safe ring es :
  match grun ring es Gateway0 with
  | GNext g => (forall h, (h, true) ∈ in_handler g -> engine_alive g = true)
      /\ (efd_open g = false -> forall l, (Heartbeat, l) ∉ in_handler g)
      /\ (phase g <> GClosed -> phase g <> GPoolJoined -> phase g <> GDone -> stale_writes g = 0%nat)
      /\ (phase g = GInstalled ->
           (exists g', gstep ring ESignalMain g = GNext g' /\ stop_requested g' = true)
           /\ forall h, running h g = true ->
                exists g', gstep ring (ESignal h) g = GNext g' /\ (h, true) ∈ in_handler g')
      /\ (forall i h, in_handler g !! i = Some (h, true) ->
           exists g', gstep ring (EHandler i) g = GNext g' /\ stop_requested g' = true)
      /\ (forall e g', gstep ring e g = GNext g' ->
           (stop_requested g = true -> stop_requested g' = true)
           /\ forall h, (h, true) ∈ in_handler g -> (h, true) ∈ in_handler g' \/ stop_requested g' = true)
  | GKilled => exists es1 e es2 g, es = es1 ++ e :: es2 /\ grun ring es1 Gateway0 = GNext g
      /\ handlers_installed g = false
  | GTerminated => exists es1 e es2 g, es = es1 ++ e :: es2 /\ grun ring es1 Gateway0 = GNext g
      /\ (phase g = GStart \/ phase g = GInstalled)
  | GDangling => False
  | GWaits => False
  end.
Proof.
  pose proof (grun_ok ring es Gateway0) as H.
  assert (Hg0 : gateway_ok ring Gateway0).
  { constructor; cbn; try done; try lia. intros h l Hin. by apply elem_of_nil in Hin. }
  specialize (H Hg0). destruct (grun ring es Gateway0) as [g| | | |]; try done. rename H into Hg.
  split; [intros h; by apply (handler_alive ring)|].
  split; [|split; [|split; [|split; [intros i h; by apply handler_stops | intros e g'; apply gstep_monotone]]]].
  - intros He l Hin. pose proof (ok_hb ring g Hg (ok_handlers ring g Hg _ _ Hin)) as Hp.
    unfold efd_open in He. by destruct (phase g).
  - intros. destruct (stale_writes g) eqn:E; [done|]. destruct (ok_stale ring g Hg); [lia | done |].
    intuition congruence.
  - intros Hp. cbn [gstep]. rewrite (ok_installed ring g Hg), (ok_pointer ring g Hg), Hp. cbn. split.
    + destruct (request_stop_ok ring g Hg) as (g' & E & _ & Hs); [unfold engine_alive; by rewrite Hp|].
      by exists g'.
    + intros h ->. cbn. eexists. split; [reflexivity|]. cbn. by apply elem_of_cons; left.
Qed.

(** The window exists: a pool thread loads the pointer while the engine runs
    and its handler goes on after the destructor closed the eventfd. *)
Lemma stale_write_possible :
  exists es g, grun false es Gateway0 = GNext g /\ stale_writes g = 1%nat.
Proof.
  exists [EMain; EMain; EMain; ESignal Pool; EMain; EMain; EMain; EHandler 0].
  eexists. split; [vm_compute; reflexivity | reflexivity].
Qed.

(** ** dispatch_main.cpp: the reader's supervision of the gateway *)

Definition kSecondNs : Z := 1000000000.
Definition kMetricsNs : Z := 30000000000.

Record Reader : Type := mkReader {
  last_hb_ns : Z; last_metrics_ns : Z; peer_seen : bool; g_stopping : bool }.
Definition Reader0 : Reader := mkReader 0 0 false false.

Inductive raction : Type :=
| RHeartbeat (now : Z)       (* rsp_prod.heartbeat, source.heartbeat_all, alive file *)
| RMetrics (now : Z).

(** The part of one iteration after [flush_replies]: [now] is the clock, [alive]
    what [producer_alive] returns if it is asked. *)
Definition housekeeping (now : Z) (alive : bool) (r : Reader) : list raction * Reader :=
  let '(a1, r) :=
    if u64 (now - last_hb_ns r) >=? kSecondNs then
      let stop := negb alive && peer_seen r in
      ([RHeartbeat now],
       mkReader now (last_metrics_ns r) (alive || peer_seen r) (g_stopping r || stop))
    else ([], r) in
  if u64 (now - last_metrics_ns r) >=? kMetricsNs then
    (a1 ++ [RMetrics now], mkReader (last_hb_ns r) now (peer_seen r) (g_stopping r))
  else (a1, r).

(** [on_term] of the dispatch process; the eventfd write only ends a poll. *)
Definition dispatch_on_term (r : Reader) : Reader :=
  mkReader (last_hb_ns r) (last_metrics_ns r) (peer_seen r) true.

(** The loop: samples of clock and liveness until the flag is set. *)
Fixpoint supervise (samples : list (Z * bool)) (r : Reader) : list raction * Reader :=
  match samples with
  | [] => ([], r)
  | (now, alive) :: samples =>
      if g_stopping r then ([], r)
      else
        let '(a, r) := housekeeping now alive r in
        let '(as_, r) := supervise samples r in (a ++ as_, r)
  end.

(** Times of the heartbeats sent. *)
Definition heartbeats (l : list raction) : list Z :=
  omap (fun a => match a with RHeartbeat t => Some t | RMetrics _ => None end) l.

(** Consecutive elements are at least a second apart, the first at least a
    second after [t]. *)
Fixpoint spaced (t : Z) (l : list Z) : Prop :=
  match l with [] => True | x :: l => t + kSecondNs <= x /\ spaced x l end.

Lemma housekeeping_spec now alive r :
  0 <= last_hb_ns r <= now -> now < 2 ^ 64 ->
  let '(a, r') := housekeeping now alive r in
  (if now - last_hb_ns r >=? kSecondNs
   then heartbeats a = [now] /\ last_hb_ns r' = now /\ peer_seen r' = alive || peer_seen r
        /\ g_stopping r' = g_stopping r || (negb alive && peer_seen r)
   else heartbeats a = [] /\ last_hb_ns r' = last_hb_ns r /\ peer_seen r' = peer_seen r
        /\ g_stopping r' = g_stopping r).
Proof.
  intros H1 H2. unfold housekeeping. rewrite (u64_small (now - last_hb_ns r)) by lia.
  destruct (now - last_hb_ns r >=? kSecondNs); case_if; by cbn.
Qed.

(** The samples of a run are in the order of the clock. *)
Fixpoint clock_ok (t : Z) (l : list (Z * bool)) : Prop :=
  match l with [] => True | (now, _) :: l => t <= now < 2 ^ 64 /\ clock_ok now l end.

Lemma supervise_spec samples : forall r,
  0 <= last_hb_ns r -> clock_ok (last_hb_ns r) samples ->
  spaced (last_hb_ns r) (heartbeats (fst (supervise samples r)))
  /\ (g_stopping (snd (supervise samples r)) = true ->
      g_stopping r = true \/ peer_seen r = true \/ exists t, (t, true) ∈ samples).
Proof.
  induction samples as [|[now alive] samples IH]; intros r H0 Hc; [by cbn; auto|].
  cbn [supervise]. destruct (g_stopping r) eqn:Eg; [by cbn; auto|].
  destruct Hc as [Hn Hc]. pose proof (housekeeping_spec now alive r ltac:(lia) ltac:(lia)) as Hh.
  destruct (housekeeping now alive r) as [a r1].
  assert (Hc1 : clock_ok (last_hb_ns r1) samples /\ 0 <= last_hb_ns r1).
  { assert (last_hb_ns r1 <= now /\ 0 <= last_hb_ns r1) as [? ?]
      by (destruct (now - last_hb_ns r >=? kSecondNs); destruct Hh as (_ & -> & _); lia).
    split; [|done]. destruct samples as [|[x b] l]; [done|]. cbn [clock_ok] in *.
    destruct Hc as [? ?]. split; [lia | done]. }
  destruct Hc1 as [Hc1 Hp1]. destruct (IH r1 Hp1 Hc1) as [IH1 IH2].
  destruct (supervise samples r1) as [as_ r2]. cbn [fst snd] in *.
  replace (heartbeats (a ++ as_)) with (heartbeats a ++ heartbeats as_)
    by (unfold heartbeats; by rewrite omap_app).
  destruct (now - last_hb_ns r >=? kSecondNs) eqn:E; destruct Hh as (-> & Hl & Hps & Hgs).
  - rewrite Hl in IH1. split; [cbn; split; [blia | done]|]. intros Hst.
    rewrite Hps, Hgs, Eg in IH2. destruct alive.
    + right; right. exists now. apply list_elem_of_here.
    + destruct (IH2 Hst) as [Hx|[Hx|[t Ht]]]; [by cbn in Hx; auto | by cbn in Hx; auto |].
      right; right. exists t. by apply list_elem_of_further.
  - rewrite Hl in IH1. split; [done|]. intros Hst. rewrite Hps, Hgs, Eg in IH2.
    destruct (IH2 Hst) as [Hx|[Hx|[t Ht]]]; [done | by auto |].
    right; right. exists t. by apply list_elem_of_further.
Qed.

(** The dispatch process sends heartbeats at least one second
    apart; it gives up on the gateway only after having seen it alive, so it
    waits for a first gateway as long as it takes; and once it has seen one, the
    first check that finds it dead ends the loop. *)
Theorem dispatch_supervision samples now r :
  clock_ok 0 samples ->
  spaced 0 (heartbeats (fst (supervise samples Reader0)))
  /\ (g_stopping (snd (supervise samples Reader0)) = true -> exists t, (t, true) ∈ samples)
  /\ (peer_seen r = true -> 0 <= last_hb_ns r -> last_hb_ns r + kSecondNs <= now < 2 ^ 64 ->
      g_stopping (snd (housekeeping now false r)) = true).
Proof.
  intros Hc. destruct (supervise_spec samples Reader0 ltac:(cbn; lia) Hc) as [H1 H2].
  split; [done|]. split.
  - intros Hst. destruct (H2 Hst) as [Hx|[Hx|Hx]]; done.
  - intros Hp H0 Hn. pose proof (housekeeping_spec now false r) as Hh.
    unfold kSecondNs in *. specialize (Hh ltac:(lia) ltac:(lia)).
    destruct (housekeeping now false r) as [a r']. destruct (now - last_hb_ns r >=? _) eqn:E; [|blia].
    destruct Hh as (_ & _ & _ & Hg). cbn [snd]. rewrite Hg, Hp. apply orb_true_r.
Qed.

Lemma dispatch_supervision_witness :
  spaced 0 (heartbeats (fst (supervise [(5000000000, true); (5500000000, false); (6000000000, false)] Reader0)))
  /\ g_stopping (snd (supervise [(5000000000, true); (5500000000, false); (6000000000, false)] Reader0)) = true
  /\ exists t, (t, true) ∈ [(5000000000, true); (5500000000, false); (6000000000, false)].
Proof.
  destruct (dispatch_supervision [(5000000000, true); (5500000000, false); (6000000000, false)]
    0 Reader0) as (H1 & H2 & _).
  - cbn. lia.
  - split; [exact H1|]. split; [reflexivity|]. apply H2. reflexivity.
Defined.
