(* ===== verification/Boot.v ===== *)
(** * Start-up and tear-down of the two processes

    [main] of dispatch_main.cpp and gateway_main.cpp as the sequence of objects
    they construct: what each of them uses until it is destroyed, how a failing
    construction ends the process, and the reverse order in which C++ destroys
    what was constructed.  The theorems: the exit status names the stage that
    failed, and no object is destroyed while a thread or an object that uses it
    is still there. *)

From S2P Require Import Prelude.

(** The objects of the two processes, threads included.  [Sink], [Outbox] and
    [Workers] are members of UringEngine in their order of declaration,
    [Engine] stands for the rest of it: ring, eventfd and response consumer. *)
Inductive object : Type :=
| Shm | ReqNotify | RspNotify | ReqRings | RspRing | BizCtx | BizRouter | Replies | Biz
| WakeEfd | Source | Reader
| Sink | Outbox | Workers | Engine | HbThread.
#[export] Instance object_eq_dec : EqDecision object.
Proof. solve_decision. Defined.

(** What an object, or the code its threads run, reaches until it is gone. *)
Definition uses (o : object) : list object :=
  match o with
  | ReqRings | RspRing => [Shm]
  | Biz => [BizCtx; BizRouter; Replies]
  | Source => [ReqRings; Shm; ReqNotify; WakeEfd]
  | Reader => [Source; Biz; Replies; RspRing; RspNotify; BizCtx; BizRouter]
  | Sink => [ReqRings; Shm; ReqNotify]
  | Workers => [Sink; Outbox; BizRouter; BizCtx]
  | Engine => [RspRing; RspNotify; Shm; Workers; Outbox]
  | HbThread => [Sink]
  | _ => []
  end.

Inductive ending : Type := Exit (status : Z) | Terminate.
Inductive life : Type := Up (o : object) | Down (o : object).

(** A construction and what becomes of the process when it fails. *)
Abbreviation stage := (object * ending)%type (only parsing).

(** Destruction, last constructed first.  The descriptor [g_wake_efd] has no
    owner: it stays open until the process ends. *)
Definition owned (o : object) : bool := negb (bool_decide (o = WakeEfd)).
Definition unwind (live : list object) : list life := Down <$> List.filter owned live.

(** [live] holds what stands, last constructed first.  An exception that leaves
    [main] calls std::terminate, whether or not the stack is unwound before. *)
Fixpoint build (stages : list stage) (ok : object -> bool) (live : list object)
  : list life * ending :=
  match stages with
  | [] => (unwind live, Exit 0)
  | (o, failed) :: stages =>
      if ok o then
        let '(tr, e) := build stages ok (o :: live) in (Up o :: tr, e)
      else
        match failed with
        | Exit n => (unwind live, Exit n)
        | Terminate => ([], Terminate)
        end
  end.

Definition dispatch_stages : list stage :=
  [(Shm, Terminate); (ReqNotify, Terminate); (RspNotify, Terminate); (ReqRings, Terminate);
   (RspRing, Terminate); (BizCtx, Terminate); (BizRouter, Terminate); (Replies, Terminate);
   (Biz, Terminate); (WakeEfd, Exit 3); (Source, Terminate); (Reader, Terminate)].

Definition ring_stages : list stage :=
  [(Shm, Terminate); (ReqRings, Terminate); (RspRing, Terminate); (ReqNotify, Terminate);
   (RspNotify, Terminate); (BizRouter, Terminate); (BizCtx, Terminate);
   (Sink, Terminate); (Outbox, Terminate); (Workers, Terminate); (Engine, Terminate);
   (HbThread, Terminate)].

Definition inprocess_stages : list stage :=
  [(BizCtx, Terminate); (BizRouter, Terminate);
   (Sink, Terminate); (Outbox, Terminate); (Workers, Terminate); (Engine, Terminate)].

(** [main]: [argc], whether [load_config] returned, the constructions. *)
Definition boot (stages : list stage) (argc : Z) (config_ok : bool) (ok : object -> bool)
  : list life * ending :=
  if negb (argc =? 2) then ([], Exit 1)
  else if negb config_ok then ([], Exit 2)
  else build stages ok [].
Definition dispatch_main := boot dispatch_stages.
Definition gateway_main (ring : bool) := boot (if ring then ring_stages else inprocess_stages).

(** ** Lifetimes *)

Definition unused (o : object) (live : list object) : bool :=
  forallb (fun r => negb (bool_decide (o ∈ uses r))) live.

(** What stands after a trace; [None] when something is constructed before what
    it uses, twice, or destroyed while it is not there or still used. *)
Fixpoint play (known : list object) (tr : list life) (live : list object) : option (list object) :=
  match tr with
  | [] => Some live
  | Up o :: tr =>
      if bool_decide (o ∈ live)
         || negb (forallb (fun u => bool_decide (u ∈ live)) (List.filter (fun u => bool_decide (u ∈ known)) (uses o)))
      then None else play known tr (o :: live)
  | Down o :: tr =>
      let rest := List.filter (fun x => negb (bool_decide (x = o))) live in
      if bool_decide (o ∈ live) && unused o rest then play known tr rest else None
  end.

(** Split on every construction the goal depends on. *)
Ltac each_stage ok :=
  repeat (cbn [build dispatch_stages ring_stages inprocess_stages];
          match goal with |- context [if ok ?o then _ else _] => destruct (ok o) eqn:? end).

(** Whatever fails, both processes construct objects after what they use and
    destroy none that a thread or another object still uses; unless the process
    is terminated, nothing with an owner is left. *)
Theorem teardown_ordered stages argc config_ok ok :
  stages ∈ [dispatch_stages; ring_stages; inprocess_stages] ->
  let '(tr, e) := boot stages argc config_ok ok in
  exists left, play (fst <$> stages) tr [] = Some left
    /\ (e <> Terminate -> forall o, o ∈ left -> o = WakeEfd).
Proof.
  intros Hs. unfold boot. destruct (argc =? 2), config_ok; cbn [negb].
  2, 3, 4: exists []; split; [done|]; intros _ o Ho; by apply elem_of_nil in Ho.
  rewrite !elem_of_cons, elem_of_nil in Hs. destruct Hs as [->|[->|[->|[]]]]; each_stage ok;
    (eexists; split; [vm_compute; reflexivity|]; intros He o Ho;
     first [done | by apply elem_of_nil in Ho | by apply list_elem_of_singleton in Ho]).
Qed.

Lemma teardown_ordered_witness :
  exists left, play (fst <$> dispatch_stages)
      (fst (boot dispatch_stages 2 true (fun o => negb (bool_decide (o = WakeEfd))))) [] = Some left
    /\ forall o, o ∈ left -> o = WakeEfd.
Proof.
  destruct (teardown_ordered dispatch_stages 2 true (fun o => negb (bool_decide (o = WakeEfd))))
    as (left & H1 & H2); [apply list_elem_of_here|].
  exists left. split; [exact H1 | apply H2; discriminate].
Defined.

(** The exit status of the business process: 1 for the command line, 2 for the
    configuration, 3 for the wake-up eventfd; every other failure terminates
    the process, and 0 means that all of it was constructed and destroyed. *)
Theorem dispatch_exit_status argc config_ok ok :
  match snd (dispatch_main argc config_ok ok) with
  | Exit 0 => argc = 2 /\ config_ok = true /\ Forall (fun st => ok (fst st) = true) dispatch_stages
  | Exit 1 => argc <> 2
  | Exit 2 => argc = 2 /\ config_ok = false
  | Exit 3 => ok WakeEfd = false /\ ok Biz = true
  | Exit _ => False
  | Terminate => exists o, o <> WakeEfd /\ ok o = false
  end.
Proof.
  unfold dispatch_main, boot. destruct (Z.eqb_spec argc 2) as [->|Hn], config_ok; cbn [negb snd];
    [|done..]. each_stage ok; cbn [snd];
    first [by repeat constructor | by split | by eexists; split; [|eassumption]].
Qed.
