(* ===== verification/EndToEnd.v ===== *)
(** * From a call of the client to its result

    The parts composed along one connection: ApiBridge turns calls into
    requests, TcpWorker writes their frames, the network splits the bytes
    anywhere, the gateway cuts them batch by batch and runs a worker on each
    batch, the responses travel back the same way in whatever order the
    business threads finish, TcpWorker cuts them again and ApiBridge matches
    them with the requests in flight.  The handlers are those of Handlers.v;
    the one thing asked of them is that they return ([unanswered_blocks] shows
    what happens when one throws instead). *)

From S2P Require Import Prelude Protocol Double Common FrameCut Repo Messages Prog Handlers HandlerSteps Engine Dispatch ClientNet ClientApi InMemory Scenario ServerSafety.

(** The event of the response to a request. *)
Definition response_of (eid : Z) : Z :=
  if eid =? event_id ListAccountRecordsRequest then event_id ListAccountRecordsResponse else eid + 1.

Lemma response_known e :
  known_request e = true -> isKnownResponse (response_of e) = true /\ rspToReq (response_of e) = e
    /\ 0 <= response_of e < 2 ^ 16.
Proof.
  intros H. apply (known_request_cases
    (fun e => isKnownResponse (response_of e) = true /\ rspToReq (response_of e) = e
              /\ 0 <= response_of e < 2 ^ 16) e H).
  repeat (apply Forall_cons_2; [by vm_compute|]). constructor.
Qed.

(** ** The gateway's side of one connection *)

(** Every known request is answered with a frame of its response event, a
    position report with nothing. *)
Definition answered (answer : nat -> Request -> result (list byte)) : Prop :=
  forall i req,
    (req_event_id req = event_id RidePositionReport -> answer i req = Ok [])
    /\ (known_request (req_event_id req) = true ->
        exists p bs, answer i req = Ok bs /\ encode (mkFrame (response_of (req_event_id req)) 0 p) = Ok bs).

Definition reply_of (it : OutboxItem) : option (list byte) :=
  match it_kind it with Respond => Some (it_bytes it) | _ => None end.

(** The batches of a connection: each is the left-over of the last with the
    bytes received since; [answer n req] is the outcome of the n-th request.
    The result is the responses and whether the connection is still open. *)
Fixpoint serve (answer : nat -> Request -> result (list byte)) (conn_id : Z) (n : nat)
    (left : list byte) (chunks : list (list byte)) : list (list byte) * bool :=
  match chunks with
  | [] => ([], true)
  | c :: chunks =>
      let its := worker_batch (fun i => answer (n + i)%nat) conn_id (left ++ c) in
      let rs := omap reply_of its in
      match last its with
      | Some (mkItem RearmRecv _ left') =>
          let '(rs', o) := serve answer conn_id (n + length (snd (cut_frames (left ++ c) [])))%nat left' chunks in
          (rs ++ rs', o)
      | _ => (rs, false)
      end
  end.

Definition asks (f : Frame) : Prop :=
  known_request (f_event_id f) = true \/ f_event_id f = event_id RidePositionReport.
Definition expects_reply (f : Frame) : bool := known_request (f_event_id f).

(** [r] is the response to [q]. *)
Definition replies (q r : Frame) : Prop :=
  f_event_id r = response_of (f_event_id q) /\ f_seq r = f_seq q.
(** [bs] encodes a response to [q]. *)
Definition reply_bytes (q : Frame) (bs : list byte) : Prop :=
  exists r, replies q r /\ encode r = Ok bs.

Lemma worker_frames_answered answer conn_id fs : forall i,
  answered answer -> Forall asks fs ->
  exists rs, worker_frames answer i conn_id fs = (mkItem Respond conn_id <$> rs, true)
    /\ Forall2 reply_bytes (List.filter expects_reply fs) rs.
Proof.
  induction fs as [|f fs IH]; intros i Ha Hf; [by exists []; split|].
  apply Forall_cons in Hf as [Hf Hfs]. destruct (IH (S i) Ha Hfs) as (rs & E & Hr).
  cbn [worker_frames]. set (req := mkRequest conn_id (f_event_id f) (f_seq f) (f_payload f)).
  destruct (Ha i req) as [Hpos Hknown]. cbn [List.filter]. unfold expects_reply at 1.
  destruct (known_request (f_event_id f)) eqn:Ek.
  - destruct (Hknown Ek) as (p & bs & -> & He).
    destruct (stamp_encode _ (f_seq f) _ He) as (bs' & Hst & He').
    exists (bs' :: rs). rewrite E. split; [|by constructor; [by eexists; split; [|exact He']|]].
    unfold worker_reply. destruct bs as [|b bs]; [discriminate|]. cbn [req_seq req]. by rewrite Hst.
  - destruct Hf as [Hf|Hf]; [congruence|]. rewrite (Hpos Hf), E. by exists rs.
Qed.

Lemma omap_reply conn_id (rs : list (list byte)) : omap reply_of (mkItem Respond conn_id <$> rs) = rs.
Proof. induction rs as [|r rs IH]; [done|]. cbn. by f_equal. Qed.

Lemma serve_answered answer conn_id chunks : forall n left fs rest,
  answered answer -> o_status (decode_frame left) = NeedMore ->
  cuts (left ++ concat chunks) fs rest false -> Forall asks fs ->
  exists rs, serve answer conn_id n left chunks = (rs, true)
    /\ Forall2 reply_bytes (List.filter expects_reply fs) rs.
Proof.
  induction chunks as [|c chunks IH]; intros n left fs rest Ha Hl Hc Hf; cbn [serve concat] in *.
  - rewrite app_nil_r in Hc. destruct (cuts_det _ _ _ _ (cuts_more left Hl) _ _ _ Hc) as (-> & _ & _).
    by exists [].
  - rewrite app_assoc in Hc. apply cuts_split in Hc as (fs1 & l1 & fs2 & H1 & H2 & ->).
    apply Forall_app in Hf as [Hf1 Hf2].
    assert (Ha1 : answered (fun i => answer (n + i)%nat)) by (intros i req; apply Ha).
    destruct (worker_frames_answered _ conn_id fs1 0 Ha1 Hf1) as (rs1 & E1 & Hr1).
    unfold worker_batch. rewrite (cut_frames_eq _ [] _ _ _ H1). cbn [app snd cut_bad cut_leftover].
    rewrite E1, last_snoc.
    destruct (IH (n + length fs1)%nat l1 fs2 rest Ha (cuts_rest _ _ _ H1) H2 Hf2) as (rs2 & -> & Hr2).
    exists (rs1 ++ rs2). rewrite omap_app, omap_reply. cbn [omap list_omap reply_of it_kind].
    rewrite app_nil_r, List.filter_app. split; [done | by apply Forall2_app].
Qed.

(** ** The client's side *)

(** The socket's reads, in order. *)
Fixpoint read_all (chunks : list (list byte)) (w : TcpWorker) : list out * TcpWorker :=
  match chunks with
  | [] => ([], w)
  | c :: chunks =>
      let '(o, w) := onReadyRead c w in
      let '(os, w) := read_all chunks w in (o ++ os, w)
  end.

Lemma read_all_frames chunks : forall w fs rest,
  o_status (decode_frame (rx_ w)) = NeedMore ->
  cuts (rx_ w ++ concat chunks) fs rest false ->
  read_all chunks w = (EmitFrame <$> fs, set_rx rest w).
Proof.
  induction chunks as [|c chunks IH]; intros w fs rest Hl Hc; cbn [read_all concat] in *.
  - rewrite app_nil_r in Hc. destruct (cuts_det _ _ _ _ (cuts_more _ Hl) _ _ _ Hc) as (-> & -> & _).
    by destruct w.
  - rewrite app_assoc in Hc. apply cuts_split in Hc as (fs1 & l1 & fs2 & H1 & H2 & ->).
    unfold onReadyRead. destruct (cut_frames_consume_frames (rx_ w ++ c)) as (fs1' & l1' & bad & H1' & _ & ->).
    destruct (cuts_det _ _ _ _ H1 _ _ _ H1') as (-> & -> & ->). cbn [negb].
    rewrite (IH (set_rx l1 w) fs2 rest (cuts_rest _ _ _ H1) H2). by rewrite fmap_app.
Qed.

(** ** The bridge *)

Section Bridge.
Context {pb : Pb} (serialize : api_request -> list byte).

(** A call of the user interface, not a frame or a change of the link. *)
Definition is_call (ev : api_event) : bool :=
  match ev with FrameReady _ _ _ | LinkUp | LinkDown _ => false | _ => true end.

(** The frames the bridge asks the worker to send. *)
Definition sent (os : list signal) : list Frame :=
  omap (fun s => match s with requestSend e q p => Some (mkFrame e q p) | _ => None end) os.

Lemma nextSeq_spec b :
  0 <= fst (nextSeq b) < 2 ^ 32 /\ in_flight_ (snd (nextSeq b)) = in_flight_ b.
Proof. unfold nextSeq, u32. cbn. split; [|done]. case_match; apply Z.mod_pos_bound; lia. Qed.

(** What one call sends: nothing, a position report, or a request of an event
    that was not in flight. *)
Inductive call_sends (b b' : ApiBridge) : list Frame -> Prop :=
| cs_nothing : in_flight_ b' = in_flight_ b -> call_sends b b' []
| cs_report q p : 0 <= q < 2 ^ 32 -> in_flight_ b' = in_flight_ b ->
    call_sends b b' [mkFrame (event_id RidePositionReport) q p]
| cs_request e q p : 0 <= q < 2 ^ 32 -> known_request e = true -> in_flight_ b !! e = None ->
    in_flight_ b' = <[e := q]> (in_flight_ b) -> call_sends b b' [mkFrame e q p].

Lemma sendRequest_sends e req b0 b :
  in_flight_ b0 = in_flight_ b -> known_request e = true -> in_flight_ b !! e = None ->
  call_sends b (snd (sendRequest serialize e req b0)) (sent (fst (sendRequest serialize e req b0))).
Proof.
  intros E Hk Hn. unfold sendRequest. pose proof (nextSeq_spec b0) as [Hq Hf].
  destruct (nextSeq b0) as [q b1]. cbn in *. apply cs_request; try done. cbn. by rewrite Hf, E.
Qed.

Lemma request_sends ev busy req b :
  known_request (event_id ev) = true -> sent [busy] = [] ->
  call_sends b (snd (request serialize ev busy req b)) (sent (fst (request serialize ev busy req b))).
Proof.
  intros Hk Hb. unfold request, beginRequest. destruct (in_flight_ b !! event_id ev) eqn:E.
  - cbn [fst snd]. rewrite Hb. by constructor.
  - by apply sendRequest_sends.
Qed.

Lemma step_sends ev b :
  is_call ev = true ->
  call_sends b (snd (api_step serialize ev b)) (sent (fst (api_step serialize ev b))).
Proof.
  intros Hc. destruct ev; try discriminate; cbn [api_step];
    try (apply request_sends; reflexivity).
  - unfold login, beginRequest. destruct (in_flight_ b !! event_id LoginRequest) eqn:E.
    + by constructor.
    + by apply sendRequest_sends.
  - unfold reportPosition. pose proof (nextSeq_spec b) as [Hq Hf]. destruct (nextSeq b) as [q b1].
    by apply cs_report.
  - unfold endRide. case_bool_decide; [by constructor | by apply request_sends].
  - by constructor.
Qed.

(** What a sequence of calls sends, and what is in flight afterwards. *)
Record sent_by (b b' : ApiBridge) (fs : list Frame) : Prop := {
  sb_wf : Forall frame_wf fs;
  sb_asks : Forall asks fs;
  sb_nodup : NoDup (f_event_id <$> List.filter expects_reply fs);
  sb_free f : f ∈ List.filter expects_reply fs -> in_flight_ b !! f_event_id f = None;
  sb_flight e q : in_flight_ b' !! e = Some q <->
    in_flight_ b !! e = Some q
    \/ exists f, f ∈ List.filter expects_reply fs /\ f_event_id f = e /\ f_seq f = q
}.

Lemma known_range e : known_request e = true -> 0 <= e < 2 ^ 16.
Proof.
  intros H. apply (known_request_cases (fun e => 0 <= e < 2 ^ 16) e H).
  repeat (apply Forall_cons_2; [lia|]). constructor.
Qed.

Lemma run_sends evs : forall b,
  Forall (fun ev => is_call ev = true) evs ->
  sent_by b (snd (api_run serialize evs b)) (sent (fst (api_run serialize evs b))).
Proof.
  induction evs as [|ev evs IH]; intros b Hc; cbn [api_run].
  { split; cbn; try constructor; [by intros f ?%elem_of_nil | by left | by intros [?|(f & ?%elem_of_nil & _)]]. }
  apply Forall_cons in Hc as [Hc Hcs]. pose proof (step_sends ev b Hc) as Hs.
  destruct (api_step serialize ev b) as [o b1]. specialize (IH b1 Hcs).
  destruct (api_run serialize evs b1) as [os b2]. cbn [fst snd] in *.
  replace (sent (o ++ os)) with (sent o ++ sent os) by (unfold sent; by rewrite omap_app).
  destruct IH as [I1 I2 I3 I4 I5]. destruct Hs as [Hf|q p Hq Hf|e q p Hq Hk Hn Hf]; cbn [app].
  - split; try done; by setoid_rewrite <- Hf.
  - assert (Ep : expects_reply (mkFrame (event_id RidePositionReport) q p) = false) by done.
    split; cbn [List.filter]; rewrite ?Ep; try done; try by setoid_rewrite <- Hf.
    + constructor; [|done]. split; [cbn; lia | done].
    + constructor; [by right | done].
  - assert (Ex : expects_reply (mkFrame e q p) = true) by exact Hk.
    split; cbn [List.filter]; rewrite ?Ex.
    + constructor; [|done]. split; [by apply known_range | done].
    + constructor; [by left | done].
    + cbn. constructor; [|done]. intros (f & He & Hin)%list_elem_of_fmap. cbn in He.
      specialize (I4 f Hin). rewrite Hf, <- He, lookup_insert_eq in I4. done.
    + intros f [->|Hin]%elem_of_cons; [done|]. specialize (I4 f Hin). rewrite Hf in I4.
      by apply lookup_insert_None in I4 as [? _].
    + intros e' q'. rewrite I5, Hf, lookup_insert_Some. setoid_rewrite elem_of_cons. split.
      * intros [[[<- <-]|[_ H]]|(f & Hin & H)]; [right; by eexists; split; [left|] | by left |].
        right. exists f. tauto.
      * intros [H|(f & [->|Hin] & He & Hq')]; [|left; left; cbn in *; done | right; by exists f].
        left. right. split; [|done]. intros ->. congruence.
Qed.

(** The frames TcpWorker emits, as the bridge receives them. *)
Definition frame_events (fs : list Frame) : list api_event :=
  (fun f => FrameReady (f_event_id f) (f_seq f) (f_payload f)) <$> fs.
Definition req_of (f : Frame) : Z := rspToReq (f_event_id f).

Lemma onFrameReady_flight f b :
  isKnownResponse (f_event_id f) = true -> in_flight_ b !! req_of f = Some (f_seq f) ->
  in_flight_ (snd (onFrameReady (f_event_id f) (f_seq f) (f_payload f) b)) = delete (req_of f) (in_flight_ b).
Proof.
  intros Hk Hf. unfold onFrameReady, req_of in *. rewrite Hk, Hf, Z.eqb_refl. cbn [negb].
  by destruct (handle_result 0 (f_event_id f) (f_payload f)
                 (set_flight (delete (rspToReq (f_event_id f)) (in_flight_ b)) b) Hk) as [-> _].
Qed.

(** Responses to different requests in flight are all taken. *)
Lemma run_frames fs : forall b,
  NoDup (req_of <$> fs) ->
  (forall f, f ∈ fs -> isKnownResponse (f_event_id f) = true /\ in_flight_ b !! req_of f = Some (f_seq f)) ->
  forall e, in_flight_ (snd (api_run serialize (frame_events fs) b)) !! e
    = if decide (e ∈ req_of <$> fs) then None else in_flight_ b !! e.
Proof.
  induction fs as [|f fs IH]; intros b Hnd Hf e; cbn [frame_events fmap list_fmap api_run].
  { by rewrite decide_False by apply not_elem_of_nil. }
  apply NoDup_cons in Hnd as [Hn Hnd]. destruct (Hf f) as [Hk Hq]; [apply list_elem_of_here|].
  cbn [api_step]. pose proof (onFrameReady_flight f b Hk Hq) as E.
  destruct (onFrameReady _ _ _ b) as [o b1]. cbn [snd] in E.
  specialize (IH b1 Hnd). fold (frame_events fs).
  destruct (api_run serialize (frame_events fs) b1) as [os b2]. cbn [snd] in *. rewrite IH, E.
  - destruct (decide (e = req_of f)) as [->|Hne].
    + rewrite (decide_True (P := req_of f ∈ req_of f :: _)) by apply list_elem_of_here.
      by rewrite decide_False, lookup_delete_eq.
    + rewrite lookup_delete_ne by done. destruct (decide (e ∈ req_of <$> fs)) as [Hin|Hin].
      * by rewrite decide_True by (by apply list_elem_of_further).
      * rewrite decide_False; [done|]. rewrite not_elem_of_cons. done.
  - intros f' Hin. destruct (Hf f') as [Hk' Hq']; [by apply list_elem_of_further|]. split; [done|].
    rewrite E, lookup_delete_ne; [done|]. intros Heq. apply Hn. rewrite Heq. by apply list_elem_of_fmap_2.
Qed.

(** ** The whole way *)

(** A permutation of one side of a correspondence permutes the other. *)
Lemma Forall2_perm_r {A B} (P : A -> B -> Prop) l k k' :
  Forall2 P l k -> k ≡ₚ k' -> exists l', l ≡ₚ l' /\ Forall2 P l' k'.
Proof.
  intros H Hp. revert l H. induction Hp as [|y k k' _ IH|y z k|k1 k2 k3 _ IH1 _ IH2]; intros l H.
  - apply Forall2_nil_inv_r in H as ->. by exists [].
  - apply Forall2_cons_inv_r in H as (x & l1 & Hx & H & ->). destruct (IH l1 H) as (l' & Hl & H').
    exists (x :: l'). by split; [apply perm_skip | constructor].
  - apply Forall2_cons_inv_r in H as (x & l1 & Hx & H & ->).
    apply Forall2_cons_inv_r in H as (x2 & l2 & Hx2 & H & ->).
    exists (x2 :: x :: l2). split; [apply perm_swap | by repeat constructor].
  - destruct (IH1 l H) as (l1 & Hl1 & H1). destruct (IH2 l1 H1) as (l2 & Hl2 & H2).
    exists l2. split; [by transitivity l1 | done].
Qed.

Lemma reply_frames qs rs :
  Forall frame_wf qs -> Forall (fun q => expects_reply q = true) qs -> Forall2 reply_bytes qs rs ->
  exists fs, Forall2 replies qs fs /\ Forall2 (fun f e => encode f = Ok e) fs rs /\ Forall frame_wf fs.
Proof.
  intros Hw He H. induction H as [|q bs qs rs (r & Hr & Hb) _ IH]; [by exists []|].
  apply Forall_cons in Hw as [[_ Hq] Hw]. apply Forall_cons in He as [Hk He].
  destruct (IH Hw He) as (fs & H1 & H2 & H3). exists (r :: fs). split; [by constructor|].
  split; [by constructor|]. constructor; [|done]. destruct Hr as [E1 E2]. unfold frame_wf.
  rewrite E1, E2. split; [by apply response_known | done].
Qed.

Lemma replies_match qs fs :
  Forall (fun q => expects_reply q = true) qs -> Forall2 replies qs fs ->
  req_of <$> fs = f_event_id <$> qs
  /\ forall f, f ∈ fs -> isKnownResponse (f_event_id f) = true
       /\ exists q, q ∈ qs /\ req_of f = f_event_id q /\ f_seq f = f_seq q.
Proof.
  intros He H. induction H as [|q f qs fs [E1 E2] _ IH].
  { split; [done|]. by intros f ?%elem_of_nil. }
  apply Forall_cons in He as [Hk He]. destruct (IH He) as [IH1 IH2].
  destruct (response_known _ Hk) as (R1 & R2 & _). unfold req_of at 1. cbn. rewrite E1, R2.
  split; [by f_equal|]. intros f' [->|Hin]%elem_of_cons.
  - split; [by rewrite E1|]. exists q. unfold req_of. rewrite E1, R2. by split; [apply list_elem_of_here|].
  - destruct (IH2 f' Hin) as (H1 & q' & Hq' & H2). split; [done|]. exists q'.
    by split; [apply list_elem_of_further|].
Qed.

Lemma calls_frames k fs : calls k (frame_events fs) = 0%nat.
Proof. induction fs as [|f fs IH]; [done|]. exact IH. Qed.

(** When all that is in flight is answered, nothing is left. *)
Lemma all_answered b1 qs fs :
  flight_ok b1 -> Forall (fun q => expects_reply q = true) qs -> Forall2 replies qs fs ->
  NoDup (f_event_id <$> qs) ->
  (forall e q, in_flight_ b1 !! e = Some q <-> exists f, f ∈ qs /\ f_event_id f = e /\ f_seq f = q) ->
  in_flight_ (snd (api_run serialize (frame_events fs) b1)) = ∅
  /\ forall k, results k (fst (api_run serialize (frame_events fs) b1)) = flying k b1.
Proof.
  intros Hok He Hrep Hnd Hfl. destruct (replies_match qs fs He Hrep) as [Hids Hm].
  assert (E : in_flight_ (snd (api_run serialize (frame_events fs) b1)) = ∅).
  { apply map_empty. intros e. rewrite run_frames.
    - rewrite Hids. destruct (decide _) as [|Hn]; [done|].
      destruct (in_flight_ b1 !! e) as [q|] eqn:Eq; [|done].
      apply Hfl in Eq as (f & Hf & <- & _). destruct Hn. by apply list_elem_of_fmap_2.
    - by rewrite Hids.
    - intros f Hf. destruct (Hm f Hf) as (Hk & q & Hq & E1 & E2). split; [done|].
      apply Hfl. exists q. by rewrite E1, E2. }
  split; [done|]. intros k. pose proof (run_balanced serialize k (frame_events fs) b1 Hok) as Hb.
  rewrite calls_frames in Hb. unfold flying in Hb at 1. rewrite E, map_to_list_empty in Hb. cbn in Hb. lia.
Qed.

(** A run over one connection whose requests are all answered. *)
Lemma answered_run evs b wires up answer conn_id back down w :
  Forall (fun ev => is_call ev = true) evs -> in_flight_ b = ∅ ->
  let '(os, b1) := api_run serialize evs b in
  Forall2 (fun f e => encode f = Ok e) (sent os) wires -> concat up = concat wires ->
  answered answer ->
  let '(rs, open) := serve answer conn_id 0 [] up in
  rs ≡ₚ back -> concat down = concat back -> rx_ w = [] ->
  open = true
  /\ exists fs, read_all down w = (EmitFrame <$> fs, w)
    /\ let '(os2, b2) := api_run serialize (frame_events fs) b1 in
       in_flight_ b2 = ∅ /\ forall k, results k (os ++ os2) = calls k evs.
Proof.
  intros Hcalls Hempty. pose proof (run_sends evs b Hcalls) as Hsent.
  assert (Hok : flight_ok b) by (intros e q; by rewrite Hempty).
  pose proof (fun k => run_balanced serialize k evs b Hok) as Hbal.
  destruct (api_run serialize evs b) as [os b1]. cbn [fst snd] in *.
  intros Henc Hup Ha. destruct Hsent as [S1 S2 S3 S4 S5].
  assert (Hcut : cuts ([] ++ concat up) (sent os) [] false).
  { rewrite Hup, <- (app_nil_r (concat wires)). by apply cuts_encoded. }
  destruct (serve_answered answer conn_id up 0 [] _ _ Ha eq_refl Hcut S2) as (rs & -> & Hrs).
  intros Hperm Hdown Hrx. split; [done|].
  destruct (Forall2_perm_r _ _ _ _ Hrs Hperm) as (qs & Hqs & Hback).
  assert (Hin : forall q, q ∈ qs -> q ∈ sent os /\ expects_reply q = true).
  { intros q Hq. rewrite <- Hqs in Hq. by apply list_elem_of_In, List.filter_In in Hq as [?%list_elem_of_In ?]. }
  destruct (reply_frames qs back) as (fs & Hrep & Hfs & Hwf); [| |done|].
  { apply Forall_forall. intros q Hq. rewrite Forall_forall in S1. apply S1, (Hin q Hq). }
  { apply Forall_forall. intros q Hq. apply (Hin q Hq). }
  exists fs. split.
  { rewrite (read_all_frames down w fs []); [by rewrite <- Hrx; destruct w | by rewrite Hrx|].
    rewrite Hrx, Hdown, <- (app_nil_r (concat back)). by apply cuts_encoded. }
  destruct (all_answered b1 qs fs) as [E Hres]; [| |done| | |].
  - intros e q [Hx|(f & Hf & <- & _)]%S5; [by rewrite Hempty in Hx|].
    by apply list_elem_of_In, List.filter_In in Hf as [_ ?].
  - apply Forall_forall. intros q Hq. apply (Hin q Hq).
  - by rewrite <- Hqs.
  - intros e q. rewrite S5, Hempty, lookup_empty. setoid_rewrite Hqs. split; [by intros [?|?] | by right].
  - destruct (api_run serialize (frame_events fs) b1) as [os2 b2]. cbn [fst snd] in *.
    split; [done|]. intros k. rewrite results_app, Hres. rewrite (Hbal k).
    unfold flying. by rewrite Hempty, map_to_list_empty.
Qed.

(** The other side of [answered]: a request whose handler throws gets no
    response, the gateway goes on with the connection, and as long as the link
    stays up the request stays in flight: whatever the user calls, no request
    of that event is sent again. *)
Theorem unanswered_blocks answer conn_id f what raw evs b q i :
  let req := mkRequest conn_id (f_event_id f) (f_seq f) (f_payload f) in
  answer i req = Err (RuntimeError what) ->
  Forall (fun ev => is_call ev = true) evs ->
  in_flight_ b !! f_event_id f = Some q ->
  cut_frames raw [] = (mkCut false [], [f]) ->
  let '(os, b1) := api_run serialize evs b in
  worker_batch (fun n => answer (i + n)%nat) conn_id raw = [mkItem RearmRecv conn_id []]
  /\ in_flight_ b1 !! f_event_id f = Some q
  /\ (forall g, g ∈ sent os -> expects_reply g = true -> f_event_id g <> f_event_id f).
Proof.
  intros req Ha Hc Hq Hcut. pose proof (run_sends evs b Hc) as [_ _ _ S4 S5].
  destruct (api_run serialize evs b) as [os b1]. cbn [fst snd] in *. split; [|split].
  - unfold worker_batch. rewrite Hcut. cbn [worker_frames]. rewrite Nat.add_0_r. fold req. by rewrite Ha.
  - apply S5. by left.
  - intros g Hg Hx E. specialize (S4 g). rewrite E, Hq in S4. discriminate S4.
    apply list_elem_of_In, List.filter_In. split; [by apply list_elem_of_In | done].
Qed.

End Bridge.

(** ** The handlers' answers *)

(** Every value the program can return, whatever its operations return and
    whatever runs in between, satisfies [Q]. *)
Fixpoint returns {St X} (Q : X -> Prop) (p : prog St X) : Prop :=
  match p with
  | Ret x => Q x
  | Throw _ => True
  | Act a k => forall y, returns Q (k y)
  end.

Lemma returns_bind {St X Y} (Q : Y -> Prop) (p : prog St X) (f : X -> prog St Y) :
  (forall x, returns Q (f x)) -> returns Q (pbind p f).
Proof. intros Hf. induction p as [x|e|Z a k IH]; cbn; [apply Hf | done | exact IH]. Qed.

Lemma returns_run {St X} (Q : X -> Prop) (p : prog St X) : forall s w,
  returns Q p -> match run p s w with (Ok x, _, _) => Q x | _ => True end.
Proof.
  induction p as [x|e|Z a k IH]; intros s w Hp; cbn in *; [done | done |].
  destruct (a s w) as [[[y|e] s'] w']; [by apply IH | done].
Qed.

Section Answers.
Context {U A T B R : Type}.
Context `{!IUserRepo U, !IAccountRepo A, !ISessionStore T, !IBikeRepo B, !IRideRepo R}.
Context {pb : Pb} {libm : Libm} {std_sort : StdSort}.
Abbreviation C := (Ctx U A T B R).

(** The encoding of a frame of event [rsp]. *)
Definition is_frame_of (rsp : Z) (bs : list byte) : Prop :=
  exists p, encode (mkFrame rsp 0 p) = Ok bs.

Lemma returns_reply {M} `{!PbResponse M} ev (rsp : M) :
  returns (is_frame_of (event_id ev)) (reply ev rsp : prog C (list byte)).
Proof. unfold reply. destruct (encode _) eqn:E; [by eexists | done]. Qed.

Ltac answers :=
  repeat first [ apply returns_reply | apply returns_bind; intros ?
               | progress cbn [returns] | intros ? | case_match ].

(** One case of the router's table. *)
Lemma dispatch_registered eid h (Q : list byte -> Prop) payload :
  (register_all_handlers ∅ : gmap Z (list byte -> prog C (list byte))) !! eid = Some h ->
  returns Q (h payload) -> returns Q (dispatch (register_all_handlers ∅) eid payload : prog C (list byte)).
Proof. intros E. unfold dispatch. by rewrite E. Qed.

Lemma known_answered eid payload :
  known_request eid = true ->
  returns (is_frame_of (response_of eid)) (dispatch (register_all_handlers ∅) eid payload : prog C (list byte)).
Proof.
  intros H. apply (known_request_cases (fun eid => returns (is_frame_of (response_of eid))
    (dispatch (register_all_handlers ∅) eid payload : prog C (list byte))) eid H).
  repeat (apply Forall_cons_2; [eapply dispatch_registered; [reflexivity|]|]); [.. | constructor].
  - change (response_of 1) with (event_id MobileResponse). unfold mobile_code. answers.
  - change (response_of 3) with (event_id LoginResponse). unfold Handlers.login. answers.
  - change (response_of 5) with (event_id RechargeResponse). unfold Handlers.recharge. answers.
  - change (response_of 7) with (event_id AccountBalanceResponse). unfold account_balance. answers.
  - change (response_of 9) with (event_id ListAccountRecordsResponse). unfold Handlers.list_records. answers.
  - change (response_of 0x11) with (event_id ListNearbyBikesResponse). unfold list_nearby_bikes. answers.
  - change (response_of 0x13) with (event_id ScanUnlockResponse). unfold scan_unlock. answers.
  - change (response_of 0x17) with (event_id EndRideResponse). unfold end_ride. answers.
  - change (response_of 0x19) with (event_id ReportDamageResponse). unfold report_damage. answers.
  - change (response_of 0x1B) with (event_id GetRideDetailResponse). unfold get_ride_detail. answers.
  - change (response_of 0x1D) with (event_id ListRidesResponse). unfold list_rides. answers.
Qed.

Lemma report_answered payload :
  returns (fun bs => bs = [])
    (dispatch (register_all_handlers ∅) (event_id RidePositionReport) payload : prog C (list byte)).
Proof.
  eapply dispatch_registered; [reflexivity|]. unfold position_report. answers; done.
Qed.

(** Every handler answers with its own response event: what the router returns
    for a known request is the encoding of one frame, of the event the client
    waits for, and for a position report it is empty. *)
Theorem handlers_answer eid payload (c : C) w :
  match run (dispatch (register_all_handlers ∅) eid payload) c w with
  | (Ok bs, _, _) =>
      (known_request eid = true -> is_frame_of (response_of eid) bs)
      /\ (eid = event_id RidePositionReport -> bs = [])
  | _ => True
  end.
Proof.
  pose proof (fun H => returns_run _ _ c w (known_answered eid payload H)) as Hk.
  pose proof (returns_run _ _ c w (report_answered payload)) as Hp.
  destruct (run (dispatch _ eid payload) c w) as [[[bs|] c'] w'] eqn:E; [|done].
  split; [exact Hk|]. intros ->. by rewrite E in Hp.
Qed.

(** [x] is a value the program can return, whatever its operations return and
    whatever runs in between. *)
Fixpoint can_return {St X} (x : X) (p : prog St X) : Prop :=
  match p with
  | Ret y => y = x
  | Throw _ => False
  | Act a k => exists y, can_return x (k y)
  end.

Lemma returns_can {St X} (Q : X -> Prop) x (p : prog St X) : returns Q p -> can_return x p -> Q x.
Proof.
  induction p as [y|e|Z a k IH]; cbn; [by intros ? <- | done |].
  intros Hk [y Hy]. by eapply IH.
Qed.

(** What a thread of the pool returns, under any interleaving, is such a value. *)
Lemma pool_can_return {St X} (q q' : Pool St X) i x p :
  pool_steps q q' -> p_threads q !! i = Some p -> p_threads q' !! i = Some (Ret x) -> can_return x p.
Proof.
  intros Hst. revert p. induction Hst as [q|q1 q2 q3 H1 _ IH]; intros p Hp Hq.
  { rewrite Hp in Hq. by injection Hq as ->. }
  destruct H1 as [ts j Y a k s w r s' w' Hj Ha]. simpl in *.
  destruct (decide (j = i)) as [->|Hn].
  - rewrite Hp in Hj. injection Hj as ->. specialize (IH (resume k r)).
    destruct r as [y|e]; cbn in *.
    + exists y. apply IH; [|done]. apply list_lookup_insert_eq. by eapply lookup_lt_Some.
    + destruct IH; [|done]. apply list_lookup_insert_eq. by eapply lookup_lt_Some.
  - apply IH; [|done]. by rewrite list_lookup_insert_ne.
Qed.

(** Every request is handed to the router, and its handler returns. *)
Definition handled (answer : nat -> Request -> result (list byte)) : Prop :=
  forall i req, exists bs, answer i req = Ok bs
    /\ can_return bs (dispatch (register_all_handlers ∅) (req_event_id req) (req_payload req)
                      : prog C (list byte)).

Lemma handled_answered answer : handled answer -> answered answer.
Proof.
  intros Hh i req. destruct (Hh i req) as (bs & -> & Hc). split.
  - intros E. rewrite E in Hc. f_equal. exact (returns_can _ _ _ (report_answered _) Hc).
  - intros Hk. destruct (returns_can _ _ _ (known_answered _ (req_payload req) Hk) Hc) as [p Hp].
    by exists p, bs.
Qed.

(** C4: whatever the user calls on a fresh link, however the network splits
    the bytes either way and in whatever order the business threads finish: if
    every request's handler returns, with whatever result (none throws), the
    gateway keeps the connection, the client understands every byte that comes
    back, no request stays in flight and every call has got exactly one
    result.  The condition cannot be dropped: [unanswered_blocks]. *)
Theorem every_call_answered (serialize : api_request -> list byte) evs b wires up answer conn_id back down w :
  Forall (fun ev => is_call ev = true) evs -> in_flight_ b = ∅ ->
  let '(os, b1) := api_run serialize evs b in
  Forall2 (fun f e => encode f = Ok e) (sent os) wires -> concat up = concat wires ->
  handled answer ->
  let '(rs, open) := serve answer conn_id 0 [] up in
  rs ≡ₚ back -> concat down = concat back -> rx_ w = [] ->
  open = true
  /\ exists fs, read_all down w = (EmitFrame <$> fs, w)
    /\ let '(os2, b2) := api_run serialize (frame_events fs) b1 in
       in_flight_ b2 = ∅ /\ forall k, results k (os ++ os2) = calls k evs.
Proof.
  intros Hcalls Hempty.
  pose proof (answered_run serialize evs b wires up answer conn_id back down w Hcalls Hempty) as H.
  destruct (api_run serialize evs b) as [os b1]. intros Henc Hup Hh.
  exact (H Henc Hup (handled_answered _ Hh)).
Qed.

End Answers.

(** ** A run *)

(** Two requests, a position report and a call that is turned down; the
    responses, those of the handlers on the in-memory server, come back in the
    opposite order; seven bytes per read. *)
Definition demo_pb : Pb := {|
  pb_mobile_request := constant_request None; pb_login_request := constant_request None;
  pb_recharge_request := constant_request None;
  pb_account_balance_request := constant_request (Some (mk_account_balance_request "t1"));
  pb_list_account_records_request := constant_request (Some (mk_list_account_records_request "t1"));
  pb_list_nearby_bikes_request := constant_request None; pb_scan_unlock_request := constant_request None;
  pb_ride_position_report := constant_request None; pb_end_ride_request := constant_request None;
  pb_report_damage_request := constant_request None; pb_get_ride_detail_request := constant_request None;
  pb_list_rides_request := constant_request None;
  pb_mobile_response := constant_response []; pb_login_response := constant_response [];
  pb_recharge_response := constant_response [];
  pb_account_balance_response := rsp0 (fun m => code_byte (abrsp_code m));
  pb_list_account_records_response := rsp0 (fun m => code_byte (lars_code m));
  pb_list_nearby_bikes_response := constant_response []; pb_scan_unlock_response := constant_response [];
  pb_end_ride_response := constant_response []; pb_report_damage_response := constant_response [];
  pb_get_ride_detail_response := constant_response []; pb_list_rides_response := constant_response [] |}.

Definition demo_calls : list api_event :=
  [CallBalance; CallPosition "R1" 1 d_zero d_zero 5; CallRecords; CallBalance].
Definition demo_answer (_ : nat) (req : Request) : result (list byte) :=
  fst (fst (run (dispatch (router (pb := demo_pb)) (req_event_id req) (req_payload req)) ctx0 world1)).
Definition wire_of (f : Frame) : list byte := match encode f with Ok bs => bs | Err _ => [] end.
Definition demo_wires : list (list byte) :=
  wire_of <$> sent (fst (api_run (pb := demo_pb) (fun _ => [x01]) demo_calls (bridge0 ""))).
Fixpoint sevens (fuel : nat) (bs : list byte) : list (list byte) :=
  match fuel with O => [] | S fuel => take 7 bs :: sevens fuel (drop 7 bs) end.
Definition demo_up : list (list byte) := sevens 20 (concat demo_wires).
Definition demo_back : list (list byte) := reverse (fst (serve demo_answer 4 0 [] demo_up)).
Definition demo_down : list (list byte) := sevens 20 (concat demo_back).

Lemma run_can_return {St X} (p : prog St X) : forall s w x,
  fst (fst (run p s w)) = Ok x -> can_return x p.
Proof.
  induction p as [y|e|Z a k IH]; intros s w x; cbn; [by intros [= ->] | done |].
  destruct (a s w) as [[[y|e] s'] w']; [|done]. intros H. exists y. by eapply IH.
Qed.

Lemma demo_returns i req : is_ok (demo_answer i req) = true.
Proof.
  unfold demo_answer. generalize (req_event_id req) (req_payload req). intros eid pl.
  unfold dispatch. destruct (router (pb := demo_pb) !! eid) as [h|] eqn:E; [|done].
  apply router_lookup_inv in E as (e & -> & He).
  destruct e; simplify_eq He; intros <-; vm_compute; reflexivity.
Qed.

Lemma demo_handled : handled (pb := demo_pb) (U := InMemoryUserRepo) (A := InMemoryAccountRepo)
  (T := InMemorySessionStore) (B := InMemoryBikeRepo) (R := InMemoryRideRepo) demo_answer.
Proof.
  intros i req. pose proof (demo_returns i req) as Ho.
  destruct (demo_answer i req) as [bs|] eqn:E; [|done]. exists bs. split; [done|].
  by eapply run_can_return.
Qed.

Lemma every_call_answered_witness :
  let r := api_run (pb := demo_pb) (fun _ => [x01]) demo_calls (bridge0 "") in
  exists fs, read_all demo_down worker0 = (EmitFrame <$> fs, worker0)
    /\ (let '(os2, b2) := api_run (pb := demo_pb) (fun _ => [x01]) (frame_events fs) (snd r) in
        in_flight_ b2 = ∅ /\ results 5 (fst r ++ os2) = 2%nat /\ results 9 (fst r ++ os2) = 1%nat).
Proof.
  pose proof (every_call_answered (pb := demo_pb) (fun _ => [x01]) demo_calls (bridge0 "") demo_wires
    demo_up demo_answer 4 demo_back demo_down worker0) as H.
  unfold demo_back, demo_wires in *.
  destruct (api_run (fun _ => [x01]) demo_calls (bridge0 "")) as [os b1] eqn:E1.
  vm_compute in E1. injection E1 as <- <-.
  destruct (serve demo_answer 4 0 [] demo_up) as [rs op] eqn:E2. cbn [fst snd] in *.
  destruct H as (_ & fs & Hr & Hb).
  - by repeat constructor.
  - reflexivity.
  - cbn [sent omap list_omap fst fmap list_fmap].
    repeat (apply List.Forall2_cons; [vm_compute; reflexivity|]). apply List.Forall2_nil.
  - vm_compute. reflexivity.
  - apply demo_handled.
  - symmetry. apply reverse_Permutation.
  - unfold demo_down, demo_back. rewrite E2. vm_compute in E2. injection E2 as <- <-. vm_compute. reflexivity.
  - reflexivity.
  - exists fs. split; [exact Hr|].
    destruct (api_run (fun _ => [x01]) (frame_events fs) _) as [os2 b2].
    destruct Hb as [He Hk]. split; [exact He|]. split; [apply (Hk 5) | apply (Hk 9)].
Defined.
