(* ===== verification/LegacyPool.v ===== *)
(** * The thread pool of the former server (legacy/thread_pool.cpp,
      legacy/thread_mutex.cpp, legacy/thread_cond.cpp)

    Tasks are heap nodes linked through [next]; [queue.last] is a pointer to
    the pointer that the next task is written to.  [pstep] runs one action of
    one thread: a worker entering the loop, waking up, finishing a task, a
    client posting a task, the thread that destroys the pool.  What every
    pthread call returns is part of the action, so the error branches are
    steps like the others; a dangling pointer is an error value. *)

From S2P Require Import Prelude.

(** ** pthread wrappers *)

Definition T_OK : Z := 0.
Definition T_ERROR : Z := -1.

(** The arguments are what the pthread functions return. *)
Definition thread_mutex_create (attr_init settype init attr_destroy : Z) : Z :=
  if negb (attr_init =? 0) then T_ERROR
  else if negb (settype =? 0) then T_ERROR
  else if negb (init =? 0) then T_ERROR
  else T_OK.
Definition thread_mutex_lock (err : Z) : Z := if err =? 0 then T_OK else T_ERROR.
Definition thread_mutex_unlock (err : Z) : Z := if err =? 0 then T_OK else T_ERROR.
Definition thread_cond_create (err : Z) : Z := if err =? 0 then T_OK else T_ERROR.
Definition thread_cond_signal (err : Z) : Z := if err =? 0 then T_OK else T_ERROR.
Definition thread_cond_wait (err : Z) : Z := if err =? 0 then T_OK else T_ERROR.

(** What the calls of one action return. *)
Record pth : Type := mkPth { lock_err : Z; wait_err : Z; unlock_err : Z; signal_err : Z }.
Definition pth_ok : pth := mkPth 0 0 0 0.

(** ** Data *)

Abbreviation addr := nat (only parsing).

Inductive task_handler : Type := exit_handler | user_handler.
#[export] Instance task_handler_eq_dec : EqDecision task_handler.
Proof. solve_decision. Defined.

Record thread_task : Type := mkTask {
  t_next : option nat; t_id : Z; t_ctx : nat; t_handler : task_handler }.

(** A [thread_task_t**]: the head pointer of the queue or the [next] of a node. *)
Inductive slot : Type := QFirst | QNext (a : nat).

Record thread_pool : Type := mkPool {
  q_first : option nat; q_last : slot;
  waiting : Z; threads : nat; max_queue : Z }.

Definition DEFAULT_THREADS_NUM : nat := 4.
Definition DEFAULT_QUEUE_NUM : Z := 65535.

(** [m_tp] is [None] once the pool is freed; [m_held] says that the mutex was
    left locked by a failed unlock; [m_task_id] is thread_pool_task_id. *)
Record mem : Type := mkMem {
  m_tp : option thread_pool; m_heap : gmap nat thread_task; m_task_id : Z; m_held : bool }.

Definition set_tp (p : thread_pool) (m : mem) : mem :=
  mkMem (Some p) (m_heap m) (m_task_id m) (m_held m).
Definition set_heap (h : gmap nat thread_task) (m : mem) : mem :=
  mkMem (m_tp m) h (m_task_id m) (m_held m).

Definition unlock (oc : pth) (m : mem) : mem :=
  mkMem (m_tp m) (m_heap m) (m_task_id m) (negb (thread_mutex_unlock (unlock_err oc) =? T_OK)).

Definition dangling {A} : result A := Err (UndefinedBehaviour "dangling pointer").

(** ** Operations *)

(** thread_pool_init_default and thread_pool_queue_init. *)
Definition thread_pool_init_default : thread_pool :=
  mkPool None QFirst 0 DEFAULT_THREADS_NUM DEFAULT_QUEUE_NUM.

(** The stack object of thread_pool_destroy has address 0, thread_task_alloc
    returns the others. *)
Definition exit_addr : nat := 0%nat.

Definition thread_task_alloc (a ctx : nat) (m : mem) : mem :=
  set_heap (<[a := mkTask None 0 ctx user_handler]> (m_heap m)) m.
Definition thread_task_free (a : nat) (m : mem) : mem := set_heap (delete a (m_heap m)) m.

(** [*tp->queue.last = task; tp->queue.last = &task->next;] *)
Definition queue_push (a : nat) (p : thread_pool) (h : gmap nat thread_task)
  : result (thread_pool * gmap nat thread_task) :=
  match q_last p with
  | QFirst => Ok (mkPool (Some a) (QNext a) (waiting p) (threads p) (max_queue p), h)
  | QNext b =>
      match h !! b with
      | None => dangling
      | Some t =>
          Ok (mkPool (q_first p) (QNext a) (waiting p) (threads p) (max_queue p),
              <[b := mkTask (Some a) (t_id t) (t_ctx t) (t_handler t)]> h)
      end
  end.

(** [task = tp->queue.first; tp->queue.first = task->next; ...] *)
Definition queue_pop (a : nat) (p : thread_pool) (h : gmap nat thread_task) : result thread_pool :=
  match h !! a with
  | None => dangling
  | Some t =>
      Ok (mkPool (t_next t) (match t_next t with Some _ => q_last p | None => QFirst end)
                 (waiting p) (threads p) (max_queue p))
  end.

Definition add_waiting (d : Z) (p : thread_pool) : thread_pool :=
  mkPool (q_first p) (q_last p) (waiting p + d) (threads p) (max_queue p).

(** The second component says whether the condition variable was signalled. *)
Definition thread_task_post (oc : pth) (a : nat) (m : mem) : result (Z * bool * mem) :=
  match m_tp m with
  | None => dangling
  | Some p =>
      if negb (thread_mutex_lock (lock_err oc) =? T_OK) then Ok (T_ERROR, false, m)
      else if max_queue p <=? waiting p then Ok (T_ERROR, false, unlock oc m)
      else
        match m_heap m !! a with
        | None => dangling
        | Some t =>
            let h := <[a := mkTask None (m_task_id m) (t_ctx t) (t_handler t)]> (m_heap m) in
            let m1 := mkMem (m_tp m) h (u64 (m_task_id m + 1)) (m_held m) in
            if negb (thread_cond_signal (signal_err oc) =? T_OK) then Ok (T_ERROR, false, unlock oc m1)
            else
              try! ph := queue_push a p h in
              Ok (T_OK, true,
                  unlock oc (set_tp (add_waiting 1 (fst ph)) (set_heap (snd ph) m1)))
        end
  end.

(** Where a worker is: before the lock, in thread_cond_wait, woken and about to
    take the mutex again, in a task; or gone: through the exit handler or
    through one of the three failing calls. *)
Inductive wstate : Type :=
| WTop
| WAsleep
| WWoken
| WRun (a : nat)
| WExited
| WLockFailed
| WWaitFailed
| WUnlockFailed (a : nat).
#[export] Instance wstate_eq_dec : EqDecision wstate.
Proof. solve_decision. Defined.

(** The inner loop of thread_pool_cycle, with the mutex held. *)
Definition take_or_wait (oc : pth) (m : mem) : result (wstate * mem) :=
  match m_tp m with
  | None => dangling
  | Some p =>
      match q_first p with
      | None =>
          if thread_cond_wait (wait_err oc) =? T_OK then Ok (WAsleep, m)
          else Ok (WWaitFailed, unlock oc m)
      | Some a =>
          try! p' := queue_pop a p (m_heap m) in
          let m' := unlock oc (set_tp p' m) in
          if negb (thread_mutex_unlock (unlock_err oc) =? T_OK) then Ok (WUnlockFailed a, m')
          else Ok (WRun a, m')
      end
  end.

(** The top of the loop. *)
Definition cycle_top (oc : pth) (m : mem) : result (wstate * mem) :=
  match m_tp m with
  | None => dangling
  | Some p =>
      if negb (thread_mutex_lock (lock_err oc) =? T_OK) then Ok (WLockFailed, m)
      else take_or_wait oc (set_tp (add_waiting (-1) p) m)
  end.

(** thread_pool_exit_handler: [*lock = 0] and pthread_exit. *)
Definition thread_pool_exit_handler : wstate * bool := (WExited, true).

(** [task->handler(task->ctx)] has run: thread_pool_exit_handler clears the
    flag and does not return, any other task is freed.  The boolean is
    [*lock = 0]. *)
Definition finish_task (a : nat) (m : mem) : result (wstate * bool * mem) :=
  match m_heap m !! a with
  | None => dangling
  | Some t =>
      match t_handler t with
      | exit_handler => Ok (thread_pool_exit_handler, m)
      | user_handler => Ok (WTop, false, thread_task_free a m)
      end
  end.

(** ** The threads *)

(** thread_pool_destroy: before the post of round [n], spinning in round [n],
    returned after [free(tp)], returned because the post failed. *)
Inductive dstate : Type :=
| DNone
| DPosting (n : nat)
| DSpinning (n : nat)
| DFreed
| DRefused.
#[export] Instance dstate_eq_dec : EqDecision dstate.
Proof. solve_decision. Defined.

(** The last four fields record history: the ids posted, taken from the queue
    and completed, in order, and how many had been posted when the destruction
    began. *)
Record sys : Type := mkSys {
  s_mem : mem; s_workers : list wstate; s_destroy : dstate; s_lock : bool;
  s_posted : list Z; s_started : list Z; s_finished : list Z; s_mark : nat }.

Inductive label : Type :=
| LTop (i : nat) (oc : pth)
| LWoken (i : nat) (oc : pth)
| LSpurious (i : nat)
| LFinish (i : nat)
| LPost (a ctx : nat) (oc : pth) (wake : option nat)
| LDestroy
| LRound (oc : pth) (wake : option nat)
| LSpun.

(** pthread_cond_signal wakes a sleeper when there is one. *)
Definition signal (wake : option nat) (ws : list wstate) : option (list wstate) :=
  match wake with
  | Some i => if decide (ws !! i = Some WAsleep) then Some (<[i := WWoken]> ws) else None
  | None => if decide (WAsleep ∈ ws) then None else Some ws
  end.

Definition task_id_of (m : mem) (a : nat) : Z :=
  match m_heap m !! a with Some t => t_id t | None => 0 end.

(** A lock call waits while the mutex is held, unless it fails. *)
Definition can_lock (oc : pth) (m : mem) : bool :=
  negb (m_held m) || negb (thread_mutex_lock (lock_err oc) =? T_OK).

Definition popped (w : wstate) (m : mem) : list Z :=
  match w with
  | WRun a | WUnlockFailed a => [task_id_of m a]
  | _ => []
  end.

Definition move (i : nat) (s : sys) (r : result (wstate * mem)) : result sys :=
  try! wm := r in
  Ok (mkSys (snd wm) (<[i := fst wm]> (s_workers s)) (s_destroy s) (s_lock s)
            (s_posted s) (s_started s ++ popped (fst wm) (s_mem s)) (s_finished s) (s_mark s)).

(** A post by a client or by the destroying thread, with the wakeup it causes. *)
Definition post (oc : pth) (wake : option nat) (a : nat) (m : mem) (d d' : dstate) (lk : bool)
    (s : sys) : option (result sys) :=
  match thread_task_post oc a m with
  | Err e => Some (Err e)
  | Ok (r, sig, m') =>
      match (if sig then signal wake (s_workers s) else Some (s_workers s)) with
      | None => None
      | Some ws =>
          Some (Ok (mkSys m' ws (if r =? T_OK then d else d') lk
                          (s_posted s ++ (if r =? T_OK then [m_task_id m] else []))
                          (s_started s) (s_finished s) (s_mark s)))
      end
  end.

(** One round of the loop of thread_pool_destroy, or its end. *)
Definition destroy_round (oc : pth) (wake : option nat) (n : nat) (s : sys) : option (result sys) :=
  match m_tp (s_mem s) with
  | None => Some dangling
  | Some p =>
      if decide (n < threads p)%nat then
        if can_lock oc (s_mem s) then
          match post oc wake exit_addr (s_mem s) (DSpinning n) DRefused true s with
          | Some (Ok s') =>
              Some (Ok (match s_destroy s' with
                        | DRefused =>
                            mkSys (thread_task_free exit_addr (s_mem s')) (s_workers s') DRefused true
                                  (s_posted s') (s_started s') (s_finished s') (s_mark s')
                        | _ => s'
                        end))
          | o => o
          end
        else None
      else
        Some (Ok (mkSys (mkMem None (delete exit_addr (m_heap (s_mem s))) (m_task_id (s_mem s))
                               (m_held (s_mem s)))
                        (s_workers s) DFreed (s_lock s)
                        (s_posted s) (s_started s) (s_finished s) (s_mark s)))
  end.

(** [None]: the action is not possible in this state. *)
Definition pstep (l : label) (s : sys) : option (result sys) :=
  match l with
  | LTop i oc =>
      if decide (s_workers s !! i = Some WTop) then
        if can_lock oc (s_mem s) then Some (move i s (cycle_top oc (s_mem s))) else None
      else None
  | LWoken i oc =>
      if decide (s_workers s !! i = Some WWoken) then
        if m_held (s_mem s) then None else Some (move i s (take_or_wait oc (s_mem s)))
      else None
  | LSpurious i =>
      if decide (s_workers s !! i = Some WAsleep) then
        Some (Ok (mkSys (s_mem s) (<[i := WWoken]> (s_workers s)) (s_destroy s) (s_lock s)
                        (s_posted s) (s_started s) (s_finished s) (s_mark s)))
      else None
  | LFinish i =>
      match s_workers s !! i with
      | Some (WRun a) =>
          Some (try! wm := finish_task a (s_mem s) in
                Ok (mkSys (snd wm) (<[i := fst (fst wm)]> (s_workers s)) (s_destroy s)
                          (if snd (fst wm) then false else s_lock s) (s_posted s) (s_started s)
                          (s_finished s ++ [task_id_of (s_mem s) a]) (s_mark s)))
      | _ => None
      end
  | LPost a ctx oc wake =>
      if decide (m_heap (s_mem s) !! a = None /\ a <> exit_addr) then
        if can_lock oc (s_mem s) then
          post oc wake a (thread_task_alloc a ctx (s_mem s)) (s_destroy s) (s_destroy s) (s_lock s) s
        else None
      else None
  | LDestroy =>
      match s_destroy s with
      | DNone =>
          Some (Ok (mkSys (set_heap (<[exit_addr := mkTask None 0 0%nat exit_handler]> (m_heap (s_mem s)))
                                    (s_mem s))
                          (s_workers s) (DPosting 0) (s_lock s)
                          (s_posted s) (s_started s) (s_finished s) (length (s_posted s))))
      | _ => None
      end
  | LRound oc wake =>
      match s_destroy s with
      | DPosting n => destroy_round oc wake n s
      | _ => None
      end
  | LSpun =>
      match s_destroy s with
      | DSpinning n =>
          if s_lock s then None
          else Some (Ok (mkSys (s_mem s) (s_workers s) (DPosting (S n)) false
                               (s_posted s) (s_started s) (s_finished s) (s_mark s)))
      | _ => None
      end
  end.

(** A run of the given actions; [None] when one of them is not possible. *)
Fixpoint prun (ls : list label) (s : sys) : option (result sys) :=
  match ls with
  | [] => Some (Ok s)
  | l :: ls =>
      match pstep l s with
      | Some (Ok s') => prun ls s'
      | o => o
      end
  end.

(** The pool as thread_pool_init leaves it, with [n] workers. *)
Definition pool0 (n : nat) (p : thread_pool) (id : Z) : sys :=
  mkSys (mkMem (Some p) ∅ id false) (replicate n WTop) DNone false [] [] [] 0.

(** thread_pool_init; the arguments are the results of the calls it makes, in
    order; [create n] is that of the n-th pthread_create.  The result is the
    pool pointer and the threads left running, with the memory they use. *)
Record init_calls : Type := mkInit {
  ic_calloc : bool; ic_mutex : Z; ic_cond : Z; ic_attr : Z; ic_detach : Z; ic_create : nat -> Z }.

Fixpoint create_loop (create : nat -> Z) (n k : nat) : bool * nat :=
  match k with
  | O => (true, n)
  | S k => if create n =? 0 then create_loop create (S n) k else (false, n)
  end.

Definition thread_pool_init (ic : init_calls) (id : Z) : bool * sys :=
  let p := thread_pool_init_default in
  let fail n := (false, mkSys (mkMem None ∅ id false) (replicate n WTop) DNone false [] [] [] 0) in
  if negb (ic_calloc ic) then fail 0%nat
  else if negb (ic_mutex ic =? T_OK) then fail 0%nat
  else if negb (ic_cond ic =? T_OK) then fail 0%nat
  else if negb (ic_attr ic =? 0) then fail 0%nat
  else if negb (ic_detach ic =? 0) then fail 0%nat
  else
    match create_loop (ic_create ic) 0 (threads p) with
    | (true, n) => (true, pool0 n p id)
    | (false, n) => fail n
    end.

(** ** The linked queue is a list of tasks *)

Fixpoint lseg (h : gmap nat thread_task) (p : option nat) (q : list nat) : Prop :=
  match q with
  | [] => p = None
  | a :: q => p = Some a /\ exists t, h !! a = Some t /\ lseg h (t_next t) q
  end.

Definition last_slot (q : list nat) : slot :=
  match last q with Some a => QNext a | None => QFirst end.

Definition queue_rep (h : gmap nat thread_task) (p : thread_pool) (q : list nat) : Prop :=
  lseg h (q_first p) q /\ q_last p = last_slot q /\ NoDup q.

(** What the bookkeeping below reads of a node; links are left out. *)
Definition tag (h : gmap nat thread_task) (a : nat) : option (Z * task_handler) :=
  (fun t => (t_id t, t_handler t)) <$> h !! a.

Lemma lseg_insert_fresh h p q a t : a ∉ q -> lseg h p q -> lseg (<[a := t]> h) p q.
Proof.
  revert p. induction q as [|b q IH]; intros p Ha; [done|].
  apply not_elem_of_cons in Ha as [Hab Ha]. intros [-> (tb & Hb & Hq)]. split; [done|].
  exists tb. split; [by rewrite lookup_insert_ne|auto].
Qed.

Lemma lseg_delete_fresh h p q a : a ∉ q -> lseg h p q -> lseg (delete a h) p q.
Proof.
  revert p. induction q as [|b q IH]; intros p Ha; [done|].
  apply not_elem_of_cons in Ha as [Hab Ha]. intros [-> (tb & Hb & Hq)]. split; [done|].
  exists tb. split; [by rewrite lookup_delete_ne|auto].
Qed.

Lemma lseg_in h p q a : lseg h p q -> a ∈ q -> is_Some (h !! a).
Proof.
  revert p. induction q as [|b q IH]; intros p; [by intros _ ?%not_elem_of_nil|].
  intros [-> (tb & Hb & Hq)] [->|Ha]%elem_of_cons; [by eexists|eauto].
Qed.

Lemma lseg_snoc h p q b a t ta :
  NoDup (q ++ [b]) -> a ∉ q ++ [b] ->
  lseg h p (q ++ [b]) -> h !! b = Some t -> h !! a = Some ta -> t_next ta = None ->
  lseg (<[b := mkTask (Some a) (t_id t) (t_ctx t) (t_handler t)]> h) p ((q ++ [b]) ++ [a]).
Proof.
  intros Hnd Ha Hq Hb Hta Hn. revert p Hnd Ha Hq.
  induction q as [|c q IH]; intros p; simpl.
  - intros _ Hab [-> _]. apply not_elem_of_cons in Hab as [Hab _]. split; [done|].
    eexists. rewrite lookup_insert_eq. split; [reflexivity|]. cbn [t_next lseg]. split; [done|].
    exists ta. by rewrite lookup_insert_ne.
  - intros [Hc Hnd]%NoDup_cons [Hac Ha]%not_elem_of_cons [-> (tc & Htc & Hq)]. split; [done|].
    exists tc. rewrite lookup_insert_ne; [auto|]. intros ->. apply Hc. set_solver.
Qed.

Lemma tag_insert_next h b a t x :
  h !! b = Some t -> tag (<[b := mkTask (Some a) (t_id t) (t_ctx t) (t_handler t)]> h) x = tag h x.
Proof.
  intros Hb. unfold tag. destruct (decide (x = b)) as [->|Hx].
  - by rewrite lookup_insert_eq, Hb.
  - by rewrite lookup_insert_ne.
Qed.

(** Pushing through the pointer to the last link appends to the list. *)
Lemma queue_push_spec h p q a ta :
  queue_rep h p q -> a ∉ q -> h !! a = Some ta -> t_next ta = None ->
  exists p' h', queue_push a p h = Ok (p', h') /\ queue_rep h' p' (q ++ [a]) /\
    waiting p' = waiting p /\ threads p' = threads p /\ max_queue p' = max_queue p /\
    (forall x, tag h' x = tag h x).
Proof.
  intros (Hseg & Hlast & Hnd) Ha Hta Hn. unfold queue_push. rewrite Hlast.
  assert (Hnd' : NoDup (q ++ [a])).
  { apply NoDup_app. split_and!; [done| |apply NoDup_singleton].
    intros x Hx ->%list_elem_of_singleton. done. }
  assert (Hl' : last_slot (q ++ [a]) = QNext a) by (unfold last_slot; by rewrite last_snoc).
  destruct q as [|b q0 _] using rev_ind.
  - eexists _, _. split; [reflexivity|]. split_and!; try done. split_and!; try done.
    cbn [lseg q_first app]. split; [done|]. exists ta. done.
  - destruct (lseg_in h _ _ b Hseg) as [tb Hb]; [set_solver|].
    assert (Hl : last_slot (q0 ++ [b]) = QNext b) by (unfold last_slot; by rewrite last_snoc).
    rewrite Hl, Hb. eexists _, _. split; [reflexivity|]. split_and!; try done.
    + split_and!; try done. cbn [q_first]. by eapply lseg_snoc.
    + intros x. by apply tag_insert_next.
Qed.

(** Taking the first task removes the head of the list. *)
Lemma queue_pop_spec h p a q :
  queue_rep h p (a :: q) ->
  exists p', queue_pop a p h = Ok p' /\ queue_rep h p' q /\ q_first p = Some a /\
    waiting p' = waiting p /\ threads p' = threads p /\ max_queue p' = max_queue p.
Proof.
  intros ([Hf (t & Ht & Hq)] & Hl & Hnd). apply NoDup_cons in Hnd as [Ha Hnd].
  unfold queue_pop. rewrite Ht. eexists. split; [reflexivity|]. split_and!; try done.
  split_and!; try done. cbn [q_last]. destruct q as [|b q]; cbn [lseg] in Hq.
  - by rewrite Hq.
  - destruct Hq as [-> _]. rewrite Hl. reflexivity.
Qed.

Lemma tag_insert_ne h a t x : x <> a -> tag (<[a := t]> h) x = tag h x.
Proof. intros. unfold tag. by rewrite lookup_insert_ne. Qed.
Lemma tag_insert_eq h a t : tag (<[a := t]> h) a = Some (t_id t, t_handler t).
Proof. unfold tag. by rewrite lookup_insert_eq. Qed.
Lemma tag_delete_ne h a x : x <> a -> tag (delete a h) x = tag h x.
Proof. intros. unfold tag. by rewrite lookup_delete_ne. Qed.
Lemma tag_delete_eq h a : tag (delete a h) a = None.
Proof. unfold tag. by rewrite lookup_delete_eq. Qed.

Lemma queue_rep_insert h p q a t : a ∉ q -> queue_rep h p q -> queue_rep (<[a := t]> h) p q.
Proof. intros Ha (? & ? & ?). split_and!; auto using lseg_insert_fresh. Qed.
Lemma queue_rep_delete h p q a : a ∉ q -> queue_rep h p q -> queue_rep (delete a h) p q.
Proof. intros Ha (? & ? & ?). split_and!; auto using lseg_delete_fresh. Qed.

(** thread_task_post appends the task or changes neither queue nor counter. *)
Lemma thread_task_post_spec oc m p q a t :
  m_tp m = Some p -> queue_rep (m_heap m) p q -> a ∉ q -> m_heap m !! a = Some t ->
  exists r sig m' p',
    thread_task_post oc a m = Ok (r, sig, m') /\ m_tp m' = Some p' /\
    threads p' = threads p /\ max_queue p' = max_queue p /\
    (forall x, x <> a -> tag (m_heap m') x = tag (m_heap m) x) /\
    ((r = T_OK /\ sig = true /\ queue_rep (m_heap m') p' (q ++ [a]) /\
      waiting p' = waiting p + 1 /\ waiting p < max_queue p /\
      tag (m_heap m') a = Some (m_task_id m, t_handler t)) \/
     (r = T_ERROR /\ sig = false /\ queue_rep (m_heap m') p' q /\ waiting p' = waiting p /\
      exists i, tag (m_heap m') a = Some (i, t_handler t))).
Proof.
  intros Htp Hq Ha Ht. unfold thread_task_post. rewrite Htp.
  assert (Hta : tag (m_heap m) a = Some (t_id t, t_handler t)) by (unfold tag; by rewrite Ht).
  destruct (negb (thread_mutex_lock _ =? T_OK)) eqn:El.
  { eexists _, _, _, _. split; [reflexivity|]. split_and!; eauto 10. }
  destruct (max_queue p <=? waiting p) eqn:Ew.
  { eexists _, _, _, _. split; [reflexivity|]. split_and!; eauto 10. }
  rewrite Ht. set (ta := mkTask None (m_task_id m) (t_ctx t) (t_handler t)).
  assert (Hr : queue_rep (<[a := ta]> (m_heap m)) p q) by auto using queue_rep_insert.
  assert (Hne : forall x, x <> a -> tag (<[a := ta]> (m_heap m)) x = tag (m_heap m) x)
    by (intros; by apply tag_insert_ne).
  destruct (negb (thread_cond_signal _ =? T_OK)) eqn:Es.
  { eexists _, _, _, _. split; [reflexivity|]. split_and!; eauto. right. split_and!; eauto.
    cbn [unlock m_heap]. rewrite tag_insert_eq. by eexists. }
  destruct (queue_push_spec _ p q a ta Hr Ha) as (p' & h' & -> & Hr' & Hw & Hth & Hmq & Htag);
    [apply lookup_insert_eq|done|].
  cbn [rbind fst snd]. eexists _, _, _, _. split; [reflexivity|]. cbn [unlock set_tp set_heap m_tp m_heap].
  split_and!; [reflexivity|done|done| |].
  - intros x Hx. by rewrite Htag, Hne.
  - left. split_and!; try done; cbn [add_waiting waiting]; [lia|blia|]. by rewrite Htag, tag_insert_eq.
Qed.

(** The inner loop sleeps on an empty queue and otherwise takes the head. *)
Lemma take_or_wait_spec oc m p q :
  m_tp m = Some p -> queue_rep (m_heap m) p q ->
  exists w m' p',
    take_or_wait oc m = Ok (w, m') /\ m_tp m' = Some p' /\ m_heap m' = m_heap m /\
    waiting p' = waiting p /\ threads p' = threads p /\ max_queue p' = max_queue p /\
    ((q = [] /\ queue_rep (m_heap m) p' [] /\
      (w = WAsleep \/ (w = WWaitFailed /\ wait_err oc <> 0))) \/
     (exists a q', q = a :: q' /\ queue_rep (m_heap m) p' q' /\
      (w = WRun a \/ (w = WUnlockFailed a /\ unlock_err oc <> 0)))).
Proof.
  intros Htp Hq. unfold take_or_wait. rewrite Htp. destruct q as [|a q].
  - pose proof Hq as ([= Hf] & _). cbn [lseg] in Hf. rewrite Hf. unfold thread_cond_wait.
    destruct (wait_err oc =? 0) eqn:E; cbn [Z.eqb T_OK T_ERROR]; eexists _, _, _;
      (split; [reflexivity|]); split_and!; eauto; left; split_and!; try done; first [by left|right; split; [done|blia]].
  - destruct (queue_pop_spec _ _ _ _ Hq) as (p' & Hp & Hq' & Hf & Hw & Hth & Hmq).
    rewrite Hf, Hp. cbn [rbind]. unfold thread_mutex_unlock.
    destruct (unlock_err oc =? 0) eqn:E; cbn [Z.eqb T_OK T_ERROR negb]; eexists _, _, _;
      (split; [reflexivity|]); split_and!; eauto; right; eexists _, _; (split; [reflexivity|]);
      (split; [done|]); first [by left|right; split; [done|blia]].
Qed.
