(* ===== verification/LegacyPoolProps.v ===== *)
(** * Theorems about the thread pool of the former server

    [legacy_run] is an execution of a pool made by thread_pool_init.  The
    invariant [inv] relates the linked queue, the workers and the history; every
    action keeps it, with failing pthread calls included.  It gives: tasks
    start in the order they were posted and none is lost or run twice; the pool
    is freed only after every worker has gone and every earlier task is
    complete; and, when no call fails, every execution comes to rest. *)

From S2P Require Import Prelude LegacyPool.

(** ** Bookkeeping *)

(** The task a worker has taken and not completed. *)
Definition own (w : wstate) : list nat :=
  match w with WRun a | WUnlockFailed a => [a] | _ => [] end.
Definition owned (ws : list wstate) : list nat := concat (map own ws).

(** Workers counted in [waiting] as available. *)
Definition idle (w : wstate) : nat :=
  match w with WAsleep | WWoken | WWaitFailed => 1 | _ => 0 end.
Definition asleep (w : wstate) : nat := match w with WAsleep => 1 | _ => 0 end.
Definition woken (w : wstate) : nat := match w with WWoken => 1 | _ => 0 end.
Definition exited (w : wstate) : nat := match w with WExited => 1 | _ => 0 end.
Abbreviation total := (sum_list_with (A := wstate)) (only parsing).

Definition id_at (h : gmap nat thread_task) (a : nat) : Z :=
  match tag h a with Some (i, _) => i | None => 0 end.
Abbreviation ids h l := (map (id_at h) l).

Record core (h : gmap nat thread_task) (ws : list wstate) (q : list nat)
    (posted started finished : list Z) : Prop := mkCore {
  core_heap : forall a, a ∈ q ++ owned ws -> is_Some (tag h a);
  core_nodup : NoDup (q ++ owned ws);
  core_posted : posted = started ++ ids h q;
  core_started : started ≡ₚ finished ++ ids h (owned ws);
  core_handler : forall a i hd, tag h a = Some (i, hd) -> (hd = exit_handler <-> a = exit_addr) }.

Lemma owned_insert ws i w w' :
  ws !! i = Some w -> owned (<[i := w']> ws) ++ own w ≡ₚ owned ws ++ own w'.
Proof.
  unfold owned. revert i. induction ws as [|v ws IH]; intros [|i] Hi; simplify_eq/=.
  - solve_Permutation.
  - apply IH in Hi. rewrite <- !app_assoc, Hi. done.
Qed.

Lemma owned_same ws i w w' : ws !! i = Some w -> own w = own w' -> owned (<[i := w']> ws) = owned ws.
Proof.
  unfold owned. revert i. induction ws as [|v ws IH]; intros [|i] Hi Ho; simplify_eq/=; [by rewrite Ho|].
  by rewrite (IH i).
Qed.

Lemma ids_ext h h' l : (forall a, a ∈ l -> tag h' a = tag h a) -> ids h' l = ids h l.
Proof.
  intros H. apply map_ext_in. intros a Ha. unfold id_at. rewrite H; [done|]. by apply list_elem_of_In.
Qed.

Lemma task_id_tag m a : task_id_of m a = id_at (m_heap m) a.
Proof. unfold task_id_of, id_at, tag. by destruct (m_heap m !! a). Qed.

(** The nodes outside the queue and the workers may change. *)
Lemma core_retag h h' ws q po st fi a :
  core h ws q po st fi -> a ∉ q ++ owned ws ->
  (forall x, x <> a -> tag h' x = tag h x) ->
  (forall i hd, tag h' a = Some (i, hd) -> (hd = exit_handler <-> a = exit_addr)) ->
  core h' ws q po st fi.
Proof.
  intros [Hh Hnd Hp Hs Hhd] Ha Hx Hna.
  assert (E : forall x, x ∈ q ++ owned ws -> tag h' x = tag h x)
    by (intros x Hin; apply Hx; by intros ->).
  constructor.
  - intros x Hin. rewrite E; auto.
  - done.
  - rewrite (ids_ext h); [done|]. intros x Hin. apply E, elem_of_app. auto.
  - rewrite (ids_ext h); [done|]. intros x Hin. apply E, elem_of_app. auto.
  - intros x i hd. destruct (decide (x = a)) as [->|]; [by apply Hna|]. rewrite Hx by done. apply Hhd.
Qed.

Lemma core_move h ws q po st fi i w w' :
  core h ws q po st fi -> ws !! i = Some w -> own w = own w' -> core h (<[i := w']> ws) q po st fi.
Proof. intros [????] Hi Ho. constructor; rewrite ?(owned_same _ _ _ _ Hi Ho); auto. Qed.

Lemma core_pop h ws a q po st fi i w w' :
  core h ws (a :: q) po st fi -> ws !! i = Some w -> own w = [] -> own w' = [a] ->
  core h (<[i := w']> ws) q po (st ++ [id_at h a]) fi.
Proof.
  intros [Hh Hnd Hp Hs Hhd] Hi Ho Ho'.
  pose proof (owned_insert ws i w w' Hi) as E. rewrite Ho, Ho', app_nil_r in E.
  assert (Hq : q ++ owned (<[i := w']> ws) ≡ₚ (a :: q) ++ owned ws) by (rewrite E; solve_Permutation).
  constructor; auto.
  - intros x. rewrite Hq. auto.
  - by rewrite Hq.
  - rewrite Hp. cbn [map]. by rewrite <- app_assoc.
  - rewrite E, Hs, map_app. cbn [map]. by rewrite app_assoc.
Qed.

Lemma core_finish h h' ws q po st fi i w w' a :
  core h ws q po st fi -> ws !! i = Some w -> own w = [a] -> own w' = [] ->
  (forall x, x <> a -> tag h' x = tag h x) -> tag h' a = None \/ tag h' a = tag h a ->
  core h' (<[i := w']> ws) q po st (fi ++ [id_at h a]).
Proof.
  intros [Hh Hnd Hp Hs Hhd] Hi Ho Ho' Hx Ha.
  pose proof (owned_insert ws i w w' Hi) as E. rewrite Ho, Ho', app_nil_r in E.
  assert (Hq : q ++ owned ws ≡ₚ a :: (q ++ owned (<[i := w']> ws))) by (rewrite <- E; solve_Permutation).
  rewrite Hq in Hnd. apply NoDup_cons in Hnd as [Hna Hnd].
  assert (Eq : forall x, x ∈ q ++ owned (<[i := w']> ws) -> tag h' x = tag h x).
  { intros x Hin. apply Hx. intros ->. done. }
  constructor.
  - intros x Hin. rewrite Eq by done. apply Hh. rewrite Hq. by apply elem_of_cons; right.
  - done.
  - rewrite (ids_ext h); [done|]. intros x Hin. apply Eq, elem_of_app. auto.
  - rewrite (ids_ext h) by (intros x Hin; apply Eq, elem_of_app; auto). rewrite Hs, <- E, map_app. cbn [map]. solve_Permutation.
  - intros x j hd. destruct (decide (x = a)) as [->|]; [|rewrite Hx by done; apply Hhd].
    destruct Ha as [->| ->]; [done|apply Hhd].
Qed.

Lemma core_post h h' ws q po st fi a i :
  core h ws q po st fi -> a ∉ q ++ owned ws ->
  (forall x, x <> a -> tag h' x = tag h x) -> (exists hd, tag h a = Some hd /\ tag h' a = Some (i, snd hd)) ->
  core h' ws (q ++ [a]) (po ++ [i]) st fi.
Proof.
  intros Hc Ha Hx ([j hd] & Hta & Hta'). cbn [snd] in Hta'.
  destruct (core_retag h h' ws q po st fi a Hc Ha Hx) as [Hh Hnd Hp Hs Hhd].
  { intros i' hd' E. simplify_eq. by apply (core_handler _ _ _ _ _ _ Hc a j). }
  assert (Hq : (q ++ [a]) ++ owned ws ≡ₚ a :: (q ++ owned ws)) by solve_Permutation.
  constructor; auto.
  - intros x. rewrite Hq. intros [->|]%elem_of_cons; [by eexists|auto].
  - rewrite Hq. by constructor.
  - rewrite Hp, map_app. cbn [map]. unfold id_at at 3. rewrite Hta'. by rewrite app_assoc.
Qed.

(** ** The invariant *)

(** No sleeper is forgotten: while somebody sleeps, at least as many workers
    are on their way back as there are tasks queued. *)
Definition wake_ok (ws : list wstate) (q : list nat) : Prop :=
  (0 < total asleep ws)%nat -> (length q <= total woken ws)%nat.

(** The exit task of the current round is still to be run. *)
Definition exit_pending (ws : list wstate) (q : list nat) (nst mark : nat) : Prop :=
  (exists q1 q2, q = q1 ++ exit_addr :: q2 /\ (mark <= nst + length q1)%nat) \/
  (exit_addr ∈ owned ws /\ (mark < nst)%nat).

Definition dinv (h : gmap nat thread_task) (d : dstate) (lk : bool) (ws : list wstate)
    (q : list nat) (nst mark : nat) : Prop :=
  match d with
  | DNone => total exited ws = 0%nat /\ (exit_addr ∉ q ++ owned ws) /\ tag h exit_addr = None
  | DPosting n =>
      total exited ws = n /\ (n <= length ws)%nat /\ (exit_addr ∉ q ++ owned ws) /\
      is_Some (tag h exit_addr) /\ (mark <= nst + length q)%nat /\ ((0 < n)%nat -> (mark < nst)%nat)
  | DSpinning n =>
      (n < length ws)%nat /\ is_Some (tag h exit_addr) /\ (mark <= nst + length q)%nat /\
      (if lk then total exited ws = n /\ exit_pending ws q nst mark
       else total exited ws = S n /\ (exit_addr ∉ q ++ owned ws) /\ (mark < nst)%nat)
  | DFreed => total exited ws = length ws /\ ((0 < length ws)%nat -> (mark < nst)%nat)
  | DRefused => (exit_addr ∉ q ++ owned ws)
  end.

(** As many threads as workers, and never more tasks waiting than allowed. *)
Definition sized (p : thread_pool) (n : nat) : Prop :=
  threads p = n /\ waiting p <= max_queue p.

Record inv (s : sys) (q : list nat) : Prop := mkInv {
  inv_core : core (m_heap (s_mem s)) (s_workers s) q (s_posted s) (s_started s) (s_finished s);
  inv_tp : match m_tp (s_mem s) with
           | Some p => queue_rep (m_heap (s_mem s)) p q /\
               waiting p = Z.of_nat (length q) - Z.of_nat (total idle (s_workers s)) /\
               sized p (length (s_workers s))
           | None => s_destroy s = DFreed
           end;
  inv_wake : wake_ok (s_workers s) q;
  inv_destroy : dinv (m_heap (s_mem s)) (s_destroy s) (s_lock s) (s_workers s) q
                  (length (s_started s)) (s_mark s) }.

Lemma all_exited ws i w : total exited ws = length ws -> ws !! i = Some w -> w = WExited.
Proof.
  revert i. induction ws as [|v ws IH]; intros [|i] Ht Hi; simplify_eq/=.
  - assert (total exited ws <= length ws)%nat by (clear; induction ws as [|[] ? ?]; simpl; lia).
    destruct w; simpl in *; (done || lia).
  - assert (total exited ws <= length ws)%nat by (clear; induction ws as [|[] ? ?]; simpl; lia).
    apply (IH i); [|done]. destruct v; simpl in *; lia.
Qed.

(** A worker that has not exited has a pool. *)
Lemma worker_has_pool s q i w :
  inv s q -> s_workers s !! i = Some w -> w <> WExited -> exists p, m_tp (s_mem s) = Some p.
Proof.
  intros Hinv Hi Hw. destruct (m_tp (s_mem s)) as [p|] eqn:Htp; [by eexists|].
  pose proof (inv_tp _ _ Hinv) as Hd. rewrite Htp in Hd.
  pose proof (inv_destroy _ _ Hinv) as H. rewrite Hd in H. destruct H as [H _].
  by destruct Hw; eapply all_exited.
Qed.

Lemma dinv_move h d lk ws q nst mark i w w' :
  ws !! i = Some w -> own w = own w' -> exited w = 0%nat -> exited w' = 0%nat ->
  dinv h d lk ws q nst mark -> dinv h d lk (<[i := w']> ws) q nst mark.
Proof.
  intros Hi Ho He He'. pose proof (sum_insert exited ws i w w' Hi) as Hs.
  assert (total exited (<[i := w']> ws) = total exited ws) as Hx by lia.
  unfold dinv, exit_pending. by rewrite (owned_same _ _ _ _ Hi Ho), Hx, length_insert.
Qed.

Lemma dinv_pop h d lk ws a q nst mark i w w' :
  ws !! i = Some w -> own w = [] -> own w' = [a] -> exited w = 0%nat -> exited w' = 0%nat ->
  dinv h d lk ws (a :: q) nst mark -> dinv h d lk (<[i := w']> ws) q (nst + 1) mark.
Proof.
  intros Hi Ho Ho' He He'. pose proof (sum_insert exited ws i w w' Hi) as Hs.
  assert (total exited (<[i := w']> ws) = total exited ws) as Hx by lia.
  pose proof (owned_insert ws i w w' Hi) as E. rewrite Ho, Ho', app_nil_r in E.
  assert (Hq : q ++ owned (<[i := w']> ws) ≡ₚ (a :: q) ++ owned ws) by (rewrite E; solve_Permutation).
  unfold dinv. rewrite Hx, length_insert. destruct d as [|n|n| |]; cbn [length].
  - by rewrite Hq.
  - rewrite Hq. intros (? & ? & ? & ? & ? & ?). split_and!; try done; lia.
  - intros (? & ? & ? & H). split_and!; try done; [lia|]. destruct lk.
    + destruct H as [? H]. split; [done|]. destruct H as [(q1 & q2 & Hqq & Hm)|[Hin Hm]].
      * destruct q1 as [|b q1]; simplify_eq/=.
        -- right. rewrite E, elem_of_app, list_elem_of_singleton. split; [auto|lia].
        -- left. exists q1, q2. split; [done|lia].
      * right. rewrite E, elem_of_app, list_elem_of_singleton. split; [auto|lia].
    + rewrite Hq. destruct H as (? & ? & ?). split_and!; try done; lia.
  - intros (? & H). split; [done|]. intros. specialize (H ltac:(done)). lia.
  - by rewrite Hq.
Qed.

(** The inner loop, entered by a worker at [i] that is counted as idle in the
    pool [p] it works on. *)
Lemma inv_take s q i w p oc :
  inv s q -> s_workers s !! i = Some w -> w = WTop \/ w = WWoken ->
  queue_rep (m_heap (s_mem s)) p q ->
  waiting p = Z.of_nat (length q) - Z.of_nat (total idle (s_workers s)) - (1 - Z.of_nat (idle w)) ->
  sized p (length (s_workers s)) ->
  exists s' q', move i s (take_or_wait oc (set_tp p (s_mem s))) = Ok s' /\ inv s' q'.
Proof.
  intros [Hc Htp Hwk Hd] Hi Hw Hq Hwt Hth.
  assert (Hown : own w = []) by (by destruct Hw as [-> | ->]).
  assert (Hex : exited w = 0%nat) by (by destruct Hw as [-> | ->]).
  assert (Hsl : asleep w = 0%nat) by (by destruct Hw as [-> | ->]).
  destruct (take_or_wait_spec oc (set_tp p (s_mem s)) p q eq_refl Hq)
    as (w' & m' & p' & -> & Htp' & Hh & Hw' & Hth' & Hmq & Hcase).
  assert (Hsz : sized p' (length (s_workers s))) by (unfold sized in *; lia).
  cbn [move rbind fst snd set_tp m_heap] in *.
  pose proof (sum_insert idle _ _ _ w' Hi) as Si. pose proof (sum_insert asleep _ _ _ w' Hi) as Sa.
  pose proof (sum_insert woken _ _ _ w' Hi) as Sw.
  destruct Hcase as [(-> & Hq' & Hcase)|(a & q' & -> & Hq' & Hcase)].
  - assert (H : own w' = [] /\ exited w' = 0%nat /\ idle w' = 1%nat) by (by destruct Hcase as [-> | [-> _]]).
    destruct H as (Ho & He & Hid).
    eexists _, []. split; [reflexivity|]. constructor; cbn [s_mem s_workers s_posted s_started s_finished
      s_destroy s_lock s_mark]; rewrite ?Hh.
    + replace (popped w' (s_mem s)) with (@nil Z) by (by destruct Hcase as [-> | [-> _]]).
      rewrite app_nil_r. eapply core_move; eauto. congruence.
    + rewrite Htp', length_insert. split_and!; [done|cbn [length] in *; lia|exact Hsz].
    + intros _. cbn [length]. lia.
    + replace (popped w' (s_mem s)) with (@nil Z) by (by destruct Hcase as [-> | [-> _]]).
      rewrite app_nil_r. eapply dinv_move; eauto. congruence.
  - assert (H : own w' = [a] /\ exited w' = 0%nat /\ idle w' = 0%nat /\ asleep w' = 0%nat /\
                popped w' (s_mem s) = [id_at (m_heap (s_mem s)) a])
      by (destruct Hcase as [-> | [-> _]]; split_and!; try done; cbn [popped]; by rewrite task_id_tag).
    destruct H as (Ho & He & Hid & Has & Hpo).
    eexists _, q'. split; [reflexivity|]. constructor; cbn [s_mem s_workers s_posted s_started s_finished
      s_destroy s_lock s_mark]; rewrite ?Hh, ?Hpo.
    + eapply core_pop; eauto.
    + rewrite Htp', length_insert. split_and!; [done|cbn [length] in *; lia|exact Hsz].
    + intros Hpos. rewrite Has, Hsl in Sa. pose proof (Hwk ltac:(lia)) as Hle. cbn [length] in Hle.
      destruct Hw as [-> | ->]; cbn [woken] in Sw; lia.
    + rewrite length_app. cbn [length]. eapply dinv_pop; eauto.
Qed.

Lemma inv_top s q i oc :
  inv s q -> s_workers s !! i = Some WTop ->
  exists s' q', move i s (cycle_top oc (s_mem s)) = Ok s' /\ inv s' q'.
Proof.
  intros Hinv Hi. destruct (worker_has_pool _ _ _ _ Hinv Hi) as [p Hp]; [done|].
  pose proof (inv_tp _ _ Hinv) as Ht. rewrite Hp in Ht. destruct Ht as (Hq & Hwt & Hth).
  unfold cycle_top. rewrite Hp. destruct (negb (thread_mutex_lock (lock_err oc) =? T_OK)).
  - destruct Hinv as [Hc Htp Hwk Hd]. eexists _, q. split; [reflexivity|].
    pose proof (sum_insert idle _ _ _ WLockFailed Hi) as Si.
    pose proof (sum_insert asleep _ _ _ WLockFailed Hi) as Sa.
    pose proof (sum_insert woken _ _ _ WLockFailed Hi) as Sw. cbn [idle asleep woken] in *.
    constructor; cbn [fst snd s_mem s_workers s_posted s_started s_finished s_destroy s_lock s_mark popped];
      rewrite ?app_nil_r.
    + by eapply core_move.
    + rewrite Hp, length_insert. split_and!; [done|lia|done].
    + intros Hz. unfold wake_ok in Hwk. lia.
    + by eapply dinv_move.
  - eapply inv_take; eauto.
    + cbn [add_waiting waiting idle]. lia.
    + unfold sized in *. cbn [add_waiting waiting threads max_queue]. lia.
Qed.

Lemma set_tp_same m p : m_tp m = Some p -> set_tp p m = m.
Proof. destruct m. simpl. intros ->. done. Qed.

Lemma inv_woken s q i oc :
  inv s q -> s_workers s !! i = Some WWoken ->
  exists s' q', move i s (take_or_wait oc (s_mem s)) = Ok s' /\ inv s' q'.
Proof.
  intros Hinv Hi. destruct (worker_has_pool _ _ _ _ Hinv Hi) as [p Hp]; [done|].
  pose proof (inv_tp _ _ Hinv) as Ht. rewrite Hp in Ht. destruct Ht as (Hq & Hwt & Hth).
  destruct (inv_take s q i WWoken p oc) as (s' & q' & E & Hs'); auto; [cbn [idle]; lia|].
  rewrite (set_tp_same _ _ Hp) in E. eauto.
Qed.

Lemma dinv_retag h h' d lk ws q nst mark :
  tag h' exit_addr = tag h exit_addr -> dinv h d lk ws q nst mark -> dinv h' d lk ws q nst mark.
Proof. intros E. unfold dinv. by rewrite E. Qed.

(** A user task done: the exit task is where it was. *)
Lemma dinv_done h d lk ws q nst mark i a :
  ws !! i = Some (WRun a) -> a <> exit_addr ->
  dinv h d lk ws q nst mark -> dinv h d lk (<[i := WTop]> ws) q nst mark.
Proof.
  intros Hi Ha. pose proof (sum_insert exited ws i _ WTop Hi) as Hs. cbn [exited] in Hs.
  assert (total exited (<[i := WTop]> ws) = total exited ws) as Hx by lia.
  pose proof (owned_insert ws i _ WTop Hi) as E. cbn [own] in E. rewrite app_nil_r in E.
  assert (Ho : exit_addr ∈ owned (<[i := WTop]> ws) <-> exit_addr ∈ owned ws).
  { rewrite <- E, elem_of_app, list_elem_of_singleton. intuition congruence. }
  unfold dinv, exit_pending. rewrite Hx, length_insert.
  destruct d, lk; rewrite ?elem_of_app, ?Ho; done.
Qed.

(** The exit task done: the round of the destroying thread is over. *)
Lemma dinv_exit h d lk ws q nst mark i :
  ws !! i = Some (WRun exit_addr) -> NoDup (q ++ owned ws) ->
  dinv h d lk ws q nst mark -> dinv h d false (<[i := WExited]> ws) q nst mark.
Proof.
  intros Hi Hnd. pose proof (sum_insert exited ws i _ WExited Hi) as Hs. cbn [exited] in Hs.
  pose proof (owned_insert ws i _ WExited Hi) as E. cbn [own] in E. rewrite app_nil_r in E.
  assert (Hq : q ++ owned ws ≡ₚ exit_addr :: (q ++ owned (<[i := WExited]> ws)))
    by (rewrite <- E; solve_Permutation).
  pose proof Hnd as Hnd'. rewrite Hq in Hnd'. apply NoDup_cons in Hnd' as [Hna _].
  assert (Hin : exit_addr ∈ q ++ owned ws) by (rewrite Hq; apply elem_of_cons; auto).
  assert (Hino : exit_addr ∈ owned ws) by (rewrite <- E, elem_of_app, list_elem_of_singleton; auto).
  unfold dinv. rewrite length_insert. destruct d as [|n|n| |].
  - intros (_ & Hni & _). by destruct Hni.
  - intros (_ & _ & Hni & _). by destruct Hni.
  - intros (Hn & Ht & Hm & H). do 3 (split; [done|]). destruct lk; [|destruct H as (_ & Hni & _); by destruct Hni].
    destruct H as [He [(q1 & q2 & -> & _)|[_ Hm']]]; [|split_and!; [lia|done|done]].
    apply NoDup_app in Hnd as (_ & Hdis & _). exfalso. eapply Hdis, Hino.
    rewrite elem_of_app, elem_of_cons. auto.
  - intros [He _]. by apply (all_exited _ i) in Hi.
  - intros Hni. by destruct Hni.
Qed.

Lemma inv_finish s q i a :
  inv s q -> s_workers s !! i = Some (WRun a) ->
  exists s' q', pstep (LFinish i) s = Some (Ok s') /\ inv s' q'.
Proof.
  intros Hinv Hi. destruct (worker_has_pool _ _ _ _ Hinv Hi) as [p Hp]; [done|].
  destruct Hinv as [Hc Htp Hwk Hd]. rewrite Hp in Htp. destruct Htp as (Hq & Hwt & Hth).
  assert (Hin : a ∈ owned (s_workers s)).
  { apply list_elem_of_In, in_concat. exists [a]. split; [|by left].
    apply in_map_iff. exists (WRun a). split; [done|]. by eapply list_elem_of_In, list_elem_of_lookup_2. }
  assert (Hnq : a ∉ q).
  { intros Ha. pose proof (core_nodup _ _ _ _ _ _ Hc) as (_ & Hdis & _)%NoDup_app. by eapply Hdis. }
  cbn [pstep]. rewrite Hi. unfold finish_task.
  destruct (core_heap _ _ _ _ _ _ Hc a) as [[ia hd] Hta]; [rewrite elem_of_app; auto|].
  pose proof (core_handler _ _ _ _ _ _ Hc a ia hd Hta) as Hhd.
  destruct (m_heap (s_mem s) !! a) as [t|] eqn:Hha; [|unfold tag in Hta; by rewrite Hha in Hta].
  assert (t_handler t = hd) as <- by (unfold tag in Hta; rewrite Hha in Hta; by simplify_eq/=).
  pose proof (sum_insert exited _ _ _ WExited Hi) as Se. cbn [exited] in Se.
  assert (Hmv : forall w', own w' = [] -> asleep w' = 0%nat -> idle w' = 0%nat -> woken w' = 0%nat ->
    wake_ok (<[i := w']> (s_workers s)) q /\
    waiting p = Z.of_nat (length q) - Z.of_nat (total idle (<[i := w']> (s_workers s))) /\
    sized p (length (<[i := w']> (s_workers s)))).
  { intros w' Ho Ha Hid Hwo. pose proof (sum_insert idle _ _ _ w' Hi) as Si.
    pose proof (sum_insert asleep _ _ _ w' Hi) as Sa. pose proof (sum_insert woken _ _ _ w' Hi) as Sw.
    cbn [idle asleep woken] in *. rewrite length_insert. unfold wake_ok in *. split_and!; [|lia|done].
    intros Hz. lia. }
  destruct (t_handler t) eqn:Eh; cbn [rbind fst snd].
  - destruct Hhd as [Hhd _]. specialize (Hhd eq_refl). subst a.
    destruct (Hmv WExited) as (Hwk' & Hwt' & Hth'); [done..|].
    eexists _, q. split; [reflexivity|].
    constructor; cbn [s_mem s_workers s_posted s_started s_finished s_destroy s_lock s_mark];
      rewrite ?task_id_tag.
    + eapply core_finish; eauto.
    + by rewrite Hp.
    + done.
    + by eapply dinv_exit, Hd; [|apply (core_nodup _ _ _ _ _ _ Hc)].
  - destruct (Hmv WTop) as (Hwk' & Hwt' & Hth'); [done..|].
    eexists _, q. split; [reflexivity|].
    constructor; cbn [s_mem s_workers s_posted s_started s_finished s_destroy s_lock s_mark
                       thread_task_free set_heap m_heap m_tp];
      rewrite ?task_id_tag.
    + eapply core_finish; eauto using tag_delete_ne. left. apply tag_delete_eq.
    + rewrite Hp. split; [by apply queue_rep_delete|done].
    + done.
    + assert (Hne : a <> exit_addr) by (intros Ha; by apply Hhd in Ha).
      eapply dinv_retag; [by apply tag_delete_ne|]. by eapply dinv_done.
Qed.

(** Waking somebody moves no task. *)
Record same_work (ws ws' : list wstate) : Prop := mkSame {
  same_owned : owned ws' = owned ws;
  same_exited : total exited ws' = total exited ws;
  same_idle : total idle ws' = total idle ws;
  same_length : length ws' = length ws }.

Lemma same_work_refl ws : same_work ws ws.
Proof. done. Qed.

Lemma wake_same ws i : ws !! i = Some WAsleep -> same_work ws (<[i := WWoken]> ws).
Proof.
  intros Hi. pose proof (sum_insert exited _ _ _ WWoken Hi) as Se.
  pose proof (sum_insert idle _ _ _ WWoken Hi) as Si. cbn [exited idle] in *.
  constructor; [by eapply owned_same|lia|lia|by rewrite length_insert].
Qed.

Lemma wake_one_ok ws i q a :
  ws !! i = Some WAsleep -> wake_ok ws q ->
  wake_ok (<[i := WWoken]> ws) (q ++ [a]) /\ wake_ok (<[i := WWoken]> ws) q.
Proof.
  intros Hi Hwk. pose proof (sum_insert asleep _ _ _ WWoken Hi) as Sa.
  pose proof (sum_insert woken _ _ _ WWoken Hi) as Sw. unfold wake_ok in *. cbn [asleep woken] in *.
  rewrite length_app. cbn [length]. lia.
Qed.

Lemma no_sleeper ws : WAsleep ∉ ws -> total asleep ws = 0%nat.
Proof.
  induction ws as [|w ws IH]; intros H; [done|]. apply not_elem_of_cons in H as [Hw H].
  cbn [sum_list_with]. rewrite IH by done. by destruct w.
Qed.

Lemma signal_ok wake ws ws' q a :
  signal wake ws = Some ws' -> wake_ok ws q -> same_work ws ws' /\ wake_ok ws' (q ++ [a]).
Proof.
  unfold signal. destruct wake as [i|]; case_decide as Hd; intros [=<-] Hwk.
  - split; [by apply wake_same|exact (proj1 (wake_one_ok ws i q a Hd Hwk))].
  - split; [apply same_work_refl|]. intros Hz. rewrite no_sleeper in Hz by done. lia.
Qed.

Lemma core_same h ws ws' q po st fi :
  same_work ws ws' -> core h ws q po st fi -> core h ws' q po st fi.
Proof. intros [Ho _ _ _] [? ? ? ? ?]. by constructor; rewrite ?Ho. Qed.

Lemma dinv_same h d lk ws ws' q nst mark :
  same_work ws ws' -> dinv h d lk ws q nst mark -> dinv h d lk ws' q nst mark.
Proof. intros [Ho He _ Hl]. unfold dinv, exit_pending. by rewrite Ho, He, Hl. Qed.

(** A post of a task that nobody else refers to, from the memory [m]. *)
Lemma inv_post s q m p a t oc wake d d' lk r :
  m_tp m = Some p -> queue_rep (m_heap m) p q ->
  waiting p = Z.of_nat (length q) - Z.of_nat (total idle (s_workers s)) ->
  sized p (length (s_workers s)) ->
  core (m_heap m) (s_workers s) q (s_posted s) (s_started s) (s_finished s) ->
  wake_ok (s_workers s) q ->
  a ∉ q ++ owned (s_workers s) -> m_heap m !! a = Some t ->
  (forall h', (forall x, x <> a -> tag h' x = tag (m_heap m) x) -> is_Some (tag h' a) ->
     dinv h' d lk (s_workers s) (q ++ [a]) (length (s_started s)) (s_mark s) /\
     dinv h' d' lk (s_workers s) q (length (s_started s)) (s_mark s)) ->
  post oc wake a m d d' lk s = Some r ->
  exists s' q', r = Ok s' /\ inv s' q' /\ s_destroy s' = (if decide (q' = q) then d' else d) /\
    (exists p', m_tp (s_mem s') = Some p') /\ (q' = q \/ q' = q ++ [a]).
Proof.
  intros Hp Hq Hwt Hth Hc Hwk Ha Ht Hd. unfold post.
  assert (Haq : a ∉ q) by (intros H; apply Ha, elem_of_app; auto).
  assert (Hta : tag (m_heap m) a = Some (t_id t, t_handler t)) by (unfold tag; by rewrite Ht).
  destruct (thread_task_post_spec oc m p q a t Hp Hq Haq Ht)
    as (rc & sig & m' & p' & -> & Hp' & Hth' & Hmq & Htag & Hcase). unfold sized in Hth.
  destruct Hcase as [(-> & -> & Hq' & Hwt' & Hlt & Hta')|(-> & -> & Hq' & Hwt' & i & Hta')].
  - destruct (signal wake (s_workers s)) as [ws'|] eqn:Hsig; [|done]. intros [= <-].
    destruct (signal_ok _ _ _ q a Hsig Hwk) as [Hsame Hwk']. cbn [Z.eqb T_OK].
    eexists _, (q ++ [a]). split; [reflexivity|]. split; [|split; [|by eauto]].
    + constructor; cbn [s_mem s_workers s_posted s_started s_finished s_destroy s_lock s_mark].
      * eapply core_same, core_post; eauto.
      * rewrite Hp'. destruct Hsame as [_ _ Hid Hl]. rewrite Hid, Hl, length_app. cbn [length].
        unfold sized. split_and!; [done|lia|lia|lia].
      * done.
      * eapply dinv_same; [done|]. by apply Hd.
    + cbn [s_destroy]. rewrite decide_False; [done|]. intros E. apply (f_equal length) in E.
      rewrite length_app in E. cbn [length] in E. lia.
  - cbn [Z.eqb T_OK T_ERROR]. intros [= <-]. eexists _, q. split; [reflexivity|].
    split; [|split; [|by eauto]].
    + constructor; cbn [s_mem s_workers s_posted s_started s_finished s_destroy s_lock s_mark].
      * rewrite app_nil_r. eapply core_retag; [done|done|done|].
        intros j hd E. rewrite Hta' in E. simplify_eq. by apply (core_handler _ _ _ _ _ _ Hc a (t_id t)).
      * rewrite Hp'. unfold sized. split_and!; [done|lia|lia|lia].
      * done.
      * by apply Hd.
    + cbn [s_destroy]. by rewrite decide_True.
Qed.

Lemma dinv_client h h' d lk ws q nst mark a :
  a <> exit_addr -> tag h' exit_addr = tag h exit_addr -> dinv h d lk ws q nst mark ->
  dinv h' d lk ws (q ++ [a]) nst mark /\ dinv h' d lk ws q nst mark.
Proof.
  intros Ha E Hd. split; [|by eapply dinv_retag].
  assert (Hin : exit_addr ∈ (q ++ [a]) ++ owned ws <-> exit_addr ∈ q ++ owned ws).
  { rewrite !elem_of_app, list_elem_of_singleton. intuition congruence. }
  unfold dinv in *. rewrite E, length_app. cbn [length]. destruct d as [|n|n| |]; rewrite ?Hin; auto.
  - destruct Hd as (? & ? & ? & ? & ? & ?). split_and!; try done; lia.
  - destruct Hd as (? & ? & ? & Hd). do 2 (split; [done|]). split; [lia|]. destruct lk; rewrite ?Hin; [|done].
    destruct Hd as [? [(q1 & q2 & -> & Hm)|Hd]]; (split; [done|]); [left|by right].
    exists q1, (q2 ++ [a]). split; [by rewrite <- app_assoc|done].
Qed.

Definition is_post (l : label) : Prop := match l with LPost _ _ _ _ => True | _ => False end.

Lemma inv_lpost s q a ctx oc wake r :
  inv s q -> pstep (LPost a ctx oc wake) s = Some r ->
  (exists s' q', r = Ok s' /\ inv s' q') \/ (m_tp (s_mem s) = None /\ r = dangling).
Proof.
  intros [Hc Htp Hwk Hd] Hr. cbn [pstep] in Hr. case_decide as Ha; [|done]. destruct Ha as [Ha Hae].
  destruct (can_lock oc (s_mem s)); [|done].
  destruct (m_tp (s_mem s)) as [p|] eqn:Hp.
  2: { right. unfold post, thread_task_post in Hr. cbn [thread_task_alloc set_heap m_tp] in Hr.
       rewrite Hp in Hr. injection Hr as <-. done. }
  left. destruct Htp as (Hq & Hwt & Hth).
  assert (Hna : a ∉ q ++ owned (s_workers s)).
  { intros Hin. apply (core_heap _ _ _ _ _ _ Hc) in Hin as [? Hin]. unfold tag in Hin. by rewrite Ha in Hin. }
  assert (Haq : a ∉ q) by (intros Hin; apply Hna, elem_of_app; auto).
  set (t := mkTask None 0 ctx user_handler).
  eapply (inv_post s q (thread_task_alloc a ctx (s_mem s)) p a t) in Hr as (s' & q' & -> & Hs' & _); eauto.
  - by apply queue_rep_insert.
  - eapply core_retag; [done|done| |]; cbn [thread_task_alloc set_heap m_heap].
    + intros x Hx. by apply tag_insert_ne.
    + intros i hd. rewrite tag_insert_eq. intros [= <- <-]. cbn [t t_handler]. split; [done|]. intros ->. done.
  - cbn [thread_task_alloc set_heap m_heap]. apply lookup_insert_eq.
  - intros h' Hx _. eapply dinv_client; [done| |exact Hd].
    rewrite Hx by congruence. cbn [thread_task_alloc set_heap m_heap]. apply tag_insert_ne. congruence.
Qed.

Lemma inv_ldestroy s q r :
  inv s q -> pstep LDestroy s = Some r -> exists s' q', r = Ok s' /\ inv s' q'.
Proof.
  intros [Hc Htp Hwk Hd] Hr. cbn [pstep] in Hr. destruct (s_destroy s) eqn:Ed; simplify_eq.
  destruct Hd as (He & Hna & Hnone). eexists _, q. split; [reflexivity|].
  constructor; cbn [s_mem s_workers s_posted s_started s_finished s_destroy s_lock s_mark set_heap m_heap m_tp].
  - eapply core_retag; [done|done| |]; [intros; by apply tag_insert_ne|].
    intros i hd. rewrite tag_insert_eq. intros [= <- <-]. done.
  - destruct (m_tp (s_mem s)); [|done]. destruct Htp as (? & ? & ?).
    split_and!; [|done..]. apply queue_rep_insert; [|done]. intros Hin. apply Hna, elem_of_app. auto.
  - done.
  - unfold dinv. rewrite (core_posted _ _ _ _ _ _ Hc), tag_insert_eq, length_app, length_map.
    split_and!; [done|lia|done|by eexists|lia|lia].
Qed.

Lemma inv_spun s q r :
  inv s q -> pstep LSpun s = Some r -> exists s' q', r = Ok s' /\ inv s' q'.
Proof.
  intros [Hc Htp Hwk Hd] Hr. cbn [pstep] in Hr. destruct (s_destroy s) as [| |n| |] eqn:Ed; try done.
  destruct (s_lock s) eqn:El; [done|]. simplify_eq. eexists _, q. split; [reflexivity|].
  constructor; cbn [s_mem s_workers s_posted s_started s_finished s_destroy s_lock s_mark]; try done.
  - destruct (m_tp (s_mem s)); done.
  - destruct Hd as (Hn & Ht & Hm & He & Hni & Hms). unfold dinv. split_and!; try done; lia.
Qed.

Lemma inv_spurious s q i r :
  inv s q -> pstep (LSpurious i) s = Some r -> exists s' q', r = Ok s' /\ inv s' q'.
Proof.
  intros [Hc Htp Hwk Hd] Hr. cbn [pstep] in Hr. case_decide as Hi; simplify_eq.
  pose proof (wake_same _ _ Hi) as Hsame. eexists _, q. split; [reflexivity|].
  constructor; cbn [s_mem s_workers s_posted s_started s_finished s_destroy s_lock s_mark].
  - by eapply core_same.
  - destruct Hsame as [_ _ Hid Hl]. by rewrite Hid, Hl.
  - by eapply (wake_one_ok _ _ _ exit_addr).
  - by eapply dinv_same.
Qed.

(** Returning from thread_pool_destroy ends the life of its stack object. *)
Lemma inv_refused s q p lk :
  inv s q -> s_destroy s = DRefused -> m_tp (s_mem s) = Some p ->
  inv (mkSys (thread_task_free exit_addr (s_mem s)) (s_workers s) DRefused lk
             (s_posted s) (s_started s) (s_finished s) (s_mark s)) q.
Proof.
  intros [Hc Htp Hwk Hd] Ed Hp. rewrite Ed in Hd. rewrite Hp in Htp. destruct Htp as (Hq & Hwt & Hth).
  constructor; cbn [s_mem s_workers s_posted s_started s_finished s_destroy s_lock s_mark
                     thread_task_free set_heap m_heap m_tp]; try done.
  - eapply core_retag; [done|done| |]; [intros; by apply tag_delete_ne|].
    intros i hd. by rewrite tag_delete_eq.
  - rewrite Hp. split_and!; [|done..]. apply queue_rep_delete; [|done].
    intros Hin. apply Hd, elem_of_app. auto.
Qed.

Lemma inv_round s q oc wake r :
  inv s q -> pstep (LRound oc wake) s = Some r -> exists s' q', r = Ok s' /\ inv s' q'.
Proof.
  intros Hinv Hr. pose proof Hinv as [Hc Htp Hwk Hd]. cbn [pstep] in Hr.
  destruct (s_destroy s) as [|n| | |] eqn:Ed; try done. unfold destroy_round in Hr.
  destruct (m_tp (s_mem s)) as [p|] eqn:Hp; [|done].
  destruct Htp as (Hq & Hwt & Hth). pose proof Hth as [Hthr _].
  destruct Hd as (He & Hn & Hni & Hta & Hm & Hms). case_decide as Hlt.
  - destruct (can_lock oc (s_mem s)); [|done].
    destruct Hta as [hd Hta]. destruct (m_heap (s_mem s) !! exit_addr) as [t|] eqn:Ht;
      [|unfold tag in Hta; by rewrite Ht in Hta].
    destruct (post oc wake exit_addr (s_mem s) (DSpinning n) DRefused true s) as [r'|] eqn:Er; [|done].
    eapply (inv_post s q (s_mem s) p exit_addr t) in Er
      as (s' & q' & -> & Hs' & Ed' & (p' & Hp') & Hq'); eauto.
    + simplify_eq. destruct (s_destroy s') eqn:Es; eauto.
      eexists _, q'. split; [reflexivity|]. by eapply inv_refused.
    + intros h' Hx Hta'. split; [|exact Hni]. unfold dinv, exit_pending. rewrite length_app. cbn [length].
      split_and!; [lia|done|lia|done|]. left. exists q, []. split; [done|lia].
  - simplify_eq. eexists _, q. split; [reflexivity|].
    constructor; cbn [s_mem s_workers s_posted s_started s_finished s_destroy s_lock s_mark m_heap m_tp]; try done.
    + eapply core_retag; [done|done| |]; [intros; by apply tag_delete_ne|].
      intros i hd. by rewrite tag_delete_eq.
    + unfold dinv. split; [lia|]. intros. apply Hms. lia.
Qed.

(** Every action keeps the invariant; the only one that can touch freed memory
    is a post by a client after the destruction. *)
Lemma pool_inv_step s q l r :
  inv s q -> pstep l s = Some r ->
  (exists s' q', r = Ok s' /\ inv s' q') \/ (is_post l /\ m_tp (s_mem s) = None /\ r = dangling).
Proof.
  intros Hinv Hr. destruct l as [i oc|i oc|i|i|a ctx oc wake| |oc wake|].
  - left. cbn [pstep] in Hr. case_decide as Hi; [|done]. destruct (can_lock _ _); [|done]. simplify_eq.
    by eapply inv_top.
  - left. cbn [pstep] in Hr. case_decide as Hi; [|done]. destruct (m_held _); [done|]. simplify_eq.
    by eapply inv_woken.
  - left. by eapply inv_spurious.
  - left. pose proof Hr as Hr'. cbn [pstep] in Hr'. destruct (s_workers s !! i) as [[]|] eqn:Hi; try done.
    destruct (inv_finish s q i a Hinv Hi) as (s' & q' & E & Hs'). rewrite E in Hr. simplify_eq. eauto.
  - destruct (inv_lpost _ _ _ _ _ _ _ Hinv Hr) as [|[??]]; [by left|by right].
  - left. by eapply inv_ldestroy.
  - left. by eapply inv_round.
  - left. by eapply inv_spun.
Qed.

Lemma inv_run ls : forall s q s', inv s q -> prun ls s = Some (Ok s') -> exists q', inv s' q'.
Proof.
  induction ls as [|l ls IH]; intros s q s' Hinv; cbn [prun]; [intros [= <-]; eauto|].
  destruct (pstep l s) as [r|] eqn:Er; [|done].
  destruct (pool_inv_step _ _ _ _ Hinv Er) as [(s1 & q1 & -> & H1)|(_ & _ & ->)]; [|done].
  by apply (IH _ q1).
Qed.

Lemma total_replicate f n w : total f (replicate n w) = (n * f w)%nat.
Proof. induction n as [|n IH]; [done|]. cbn [replicate sum_list_with]. rewrite IH. lia. Qed.

Lemma pool_inv_init p id :
  q_first p = None -> q_last p = QFirst -> waiting p = 0 -> 0 <= max_queue p -> inv (pool0 (threads p) p id) [].
Proof.
  intros Hf Hl Hw Hmq.
  assert (Ho : owned (replicate (threads p) WTop) = []).
  { unfold owned. by induction (threads p). }
  constructor; cbn [pool0 s_mem s_workers s_posted s_started s_finished s_destroy s_lock s_mark m_heap m_tp].
  - constructor; rewrite ?Ho; try done; [by intros a ?%not_elem_of_nil|constructor].
  - rewrite total_replicate, length_replicate, Hw. split_and!; [|cbn [idle length]; lia|split; [done|lia]].
    split_and!; [done|done|constructor].
  - intros _. cbn [length]. lia.
  - cbn [dinv]. rewrite total_replicate, Ho. cbn [exited]. split_and!; [lia| |done]. by intros ?%not_elem_of_nil.
Qed.

(** ** Progress *)

(** Steps of the workers and of the destroying thread. *)
Definition internal (l : label) : bool :=
  match l with LTop _ _ | LWoken _ _ | LFinish _ | LRound _ _ | LSpun => true | _ => false end.

(** No pthread call of the action fails. *)
Definition calls_ok (l : label) : bool :=
  match l with
  | LTop _ oc | LWoken _ oc | LPost _ _ oc _ | LRound oc _ =>
      (lock_err oc =? 0) && (wait_err oc =? 0) && (unlock_err oc =? 0) && (signal_err oc =? 0)
  | _ => true
  end.

Definition load (w : wstate) : nat :=
  match w with WTop | WWoken => 1 | WRun _ => 2 | _ => 0 end.
Definition rounds (n : nat) (d : dstate) : nat :=
  match d with
  | DPosting k => 6 * (n - k) + 1
  | DSpinning k => 6 * (n - k) - 4
  | _ => 0
  end.

(** The work left: tasks queued, workers awake, rounds of the destruction. *)
Definition work (s : sys) : nat :=
  3 * (length (s_posted s) - length (s_started s)) + total load (s_workers s) +
  rounds (length (s_workers s)) (s_destroy s).

Lemma work_eq s q : inv s q ->
  work s = (3 * length q + total load (s_workers s) + rounds (length (s_workers s)) (s_destroy s))%nat.
Proof.
  intros Hinv. unfold work. rewrite (core_posted _ _ _ _ _ _ (inv_core _ _ Hinv)).
  rewrite length_app, length_map. lia.
Qed.

Lemma take_work s q i w p oc s' :
  inv s q -> s_workers s !! i = Some w -> w = WTop \/ w = WWoken ->
  queue_rep (m_heap (s_mem s)) p q ->
  move i s (take_or_wait oc (set_tp p (s_mem s))) = Ok s' -> (work s' < work s)%nat.
Proof.
  intros Hinv Hi Hw Hq.
  destruct (take_or_wait_spec oc (set_tp p (s_mem s)) p q eq_refl Hq)
    as (w' & m' & p' & -> & _ & _ & _ & _ & _ & Hcase).
  cbn [move rbind fst snd]. intros [= <-]. unfold work.
  cbn [s_workers s_posted s_started s_destroy]. rewrite length_insert, length_app.
  pose proof (sum_insert load _ _ _ w' Hi) as Sl.
  assert (Hl : load w = 1%nat) by (by destruct Hw as [-> | ->]).
  pose proof (core_posted _ _ _ _ _ _ (inv_core _ _ Hinv)) as Hp.
  apply (f_equal length) in Hp. rewrite length_app, length_map in Hp.
  destruct Hcase as [(-> & _ & Hcase)|(a & q' & -> & _ & Hcase)].
  - assert (H : load w' = 0%nat /\ length (popped w' (s_mem s)) = 0%nat)
      by (by destruct Hcase as [-> | [-> _]]).
    destruct H as [Hl' ->]. cbn [length] in *. lia.
  - assert (H : (load w' <= 2)%nat /\ length (popped w' (s_mem s)) = 1%nat)
      by (destruct Hcase as [-> | [-> _]]; cbn [load popped length]; (split; [lia|done])).
    destruct H as [Hl' ->]. cbn [length] in *. lia.
Qed.

Lemma signal_load wake ws ws' :
  signal wake ws = Some ws' -> (total load ws' <= total load ws + 1)%nat /\ length ws' = length ws.
Proof.
  unfold signal. destruct wake as [i|]; case_decide as Hd; intros [=<-]; [|lia].
  pose proof (sum_insert load _ _ _ WWoken Hd) as Sl. cbn [load] in Sl. rewrite length_insert. lia.
Qed.

Lemma round_work s q oc wake s' :
  inv s q -> pstep (LRound oc wake) s = Some (Ok s') -> (work s' < work s)%nat.
Proof.
  intros Hinv Hr. rewrite (work_eq s q Hinv). pose proof Hinv as [Hc Htp _ Hd]. cbn [pstep] in Hr.
  destruct (s_destroy s) as [|n| | |] eqn:Ed; try done. unfold destroy_round in Hr.
  destruct (m_tp (s_mem s)) as [p|] eqn:Hp; [|done]. destruct Htp as (Hq & _ & [Hth _]).
  destruct Hd as (_ & Hn & Hni & [hd Hta] & _).
  pose proof (core_posted _ _ _ _ _ _ Hc) as Hl. apply (f_equal length) in Hl.
  rewrite length_app, length_map in Hl. unfold work. case_decide as Hlt.
  - destruct (can_lock oc (s_mem s)); [|done]. unfold post in Hr.
    destruct (m_heap (s_mem s) !! exit_addr) as [t|] eqn:Ht; [|unfold tag in Hta; by rewrite Ht in Hta].
    destruct (thread_task_post_spec oc (s_mem s) p q exit_addr t Hp Hq)
      as (rc & sig & m' & p' & E & _ & _ & _ & _ & Hcase); [|done|].
    { intros Hin. apply Hni, elem_of_app. auto. }
    rewrite E in Hr. destruct Hcase as [(-> & -> & _)|(-> & -> & _)].
    + destruct (signal wake (s_workers s)) as [ws'|] eqn:Hs; [|done]. simplify_eq/=.
      apply signal_load in Hs as [Hs Hlen]. rewrite length_app, Hlen. cbn [length]. lia.
    + simplify_eq/=. rewrite app_nil_r. lia.
  - simplify_eq/=. lia.
Qed.

(** Every step of a worker or of the destroying thread reduces it. *)
Lemma internal_work s q l s' :
  inv s q -> internal l = true -> pstep l s = Some (Ok s') -> (work s' < work s)%nat.
Proof.
  intros Hinv Hl Hr. destruct l as [i oc|i oc| |i| | |oc wake|]; try done; cbn [pstep] in Hr.
  - case_decide as Hi; [|done]. destruct (can_lock _ _); [|done]. simplify_eq.
    destruct (worker_has_pool _ _ _ _ Hinv Hi) as [p Hp]; [done|].
    pose proof (inv_tp _ _ Hinv) as Ht. rewrite Hp in Ht. destruct Ht as (Hq & _ & _).
    unfold cycle_top in Hr. rewrite Hp in Hr. case_if_in Hr.
    + simplify_eq/=. unfold work. cbn [s_workers s_posted s_started s_destroy popped].
      pose proof (sum_insert load _ _ _ WLockFailed Hi) as Sl. cbn [load] in Sl.
      rewrite app_nil_r, length_insert. lia.
    + eapply (take_work _ q _ WTop (add_waiting (-1) p)); [done|done|by left|exact Hq|exact Hr].
  - case_decide as Hi; [|done]. destruct (m_held _); [done|]. simplify_eq.
    destruct (worker_has_pool _ _ _ _ Hinv Hi) as [p Hp]; [done|].
    pose proof (inv_tp _ _ Hinv) as Ht. rewrite Hp in Ht. destruct Ht as (Hq & _ & _).
    rewrite <- (set_tp_same _ _ Hp) in Hr.
    eapply (take_work _ q _ WWoken); [done|done|by right|exact Hq|exact Hr].
  - destruct (s_workers s !! i) as [[| | |a| | | |]|] eqn:Hi; try done. unfold finish_task in Hr.
    destruct (m_heap (s_mem s) !! a) as [t|]; [|done].
    pose proof (sum_insert load _ _ _ WTop Hi) as S1. pose proof (sum_insert load _ _ _ WExited Hi) as S2.
    cbn [load] in *. unfold work.
    destruct (t_handler t); simplify_eq/=; rewrite length_insert; lia.
  - by eapply round_work.
  - destruct (s_destroy s) as [| |n| |] eqn:Ed; try done. destruct (s_lock s); [done|]. simplify_eq/=.
    pose proof (inv_destroy _ _ Hinv) as Hd. rewrite Ed in Hd. destruct Hd as (Hn & _).
    unfold work. rewrite Ed. cbn [rounds s_workers s_posted s_started s_destroy]. lia.
Qed.

(** No thread has left through a failed call, and nobody died with the mutex. *)
Definition good (w : wstate) : Prop :=
  match w with WLockFailed | WWaitFailed | WUnlockFailed _ => False | _ => True end.
Definition healthy (s : sys) : Prop := Forall good (s_workers s) /\ m_held (s_mem s) = false.

Definition oc_ok (oc : pth) : Prop :=
  lock_err oc = 0 /\ wait_err oc = 0 /\ unlock_err oc = 0 /\ signal_err oc = 0.

Lemma unlock_held oc m : oc_ok oc -> m_held (unlock oc m) = false.
Proof. intros (_ & _ & Hu & _). unfold unlock, thread_mutex_unlock. by rewrite Hu. Qed.

Lemma take_good oc m w m' :
  oc_ok oc -> m_held m = false -> take_or_wait oc m = Ok (w, m') -> good w /\ m_held m' = false.
Proof.
  intros Hok Hm. unfold take_or_wait. destruct (m_tp m) as [p|]; [|done].
  destruct (q_first p) as [a|].
  - destruct (queue_pop a p (m_heap m)) as [p1|]; [|done]. cbn [rbind].
    pose proof (unlock_held oc (set_tp p1 m) Hok) as Hu. destruct Hok as (_ & _ & Hul & _).
    unfold thread_mutex_unlock. rewrite Hul. cbn [Z.eqb T_OK negb]. by intros [= <- <-].
  - destruct Hok as (_ & Hw & _). unfold thread_cond_wait. rewrite Hw. cbn [Z.eqb T_OK]. by intros [= <- <-].
Qed.

Lemma move_healthy i s r s' :
  healthy s -> (forall w m', r = Ok (w, m') -> good w /\ m_held m' = false) ->
  move i s r = Ok s' -> healthy s'.
Proof.
  intros [Hg _] Hr. unfold move. destruct r as [[w m']|]; [|done]. cbn [rbind fst snd]. intros [= <-].
  destruct (Hr w m' eq_refl) as [Hw Hm]. split; [|done]. by apply Forall_insert.
Qed.

Lemma signal_good wake ws ws' : signal wake ws = Some ws' -> Forall good ws -> Forall good ws'.
Proof. unfold signal. destruct wake; case_decide; intros [= <-] Hg; [by apply Forall_insert|done]. Qed.

Lemma post_held oc a m r sig m' :
  oc_ok oc -> thread_task_post oc a m = Ok (r, sig, m') -> m_held m' = false.
Proof.
  intros Hok. unfold thread_task_post. destruct (m_tp m) as [p|]; [|done].
  pose proof Hok as (Hl & _ & _ & Hs). unfold thread_mutex_lock, thread_cond_signal. rewrite Hl, Hs.
  cbn [Z.eqb T_OK negb]. case_if; [intros [= <- <- <-]; by apply unlock_held|].
  destruct (m_heap m !! a); [|done]. destruct (queue_push _ _ _); [|done].
  cbn [rbind]. intros [= <- <- <-]. by apply unlock_held.
Qed.

Lemma post_healthy oc wake a m d d' lk s s' :
  oc_ok oc -> healthy s -> post oc wake a m d d' lk s = Some (Ok s') -> healthy s'.
Proof.
  intros Hok [Hg _]. unfold post. destruct (thread_task_post oc a m) as [[[r sig] m']|] eqn:E; [|done].
  apply post_held in E; [|done]. destruct sig; [destruct (signal wake (s_workers s)) eqn:Es; [|done]|];
    intros [= <-]; (split; [|done]); [by eapply signal_good|done].
Qed.

Lemma oc_ok_bool oc :
  (lock_err oc =? 0) && (wait_err oc =? 0) && (unlock_err oc =? 0) && (signal_err oc =? 0) = true ->
  oc_ok oc.
Proof. intros. bool_to_prop. by split_and!. Qed.

Lemma healthy_step s l s' :
  healthy s -> calls_ok l = true -> pstep l s = Some (Ok s') -> healthy s'.
Proof.
  intros Hh Hok Hr. pose proof Hh as [Hg Hm].
  destruct l as [i oc|i oc|i|i|a ctx oc wake| |oc wake|]; cbn [pstep calls_ok] in Hr, Hok;
    try apply oc_ok_bool in Hok.
  - case_decide as Hi; [|done]. destruct (can_lock _ _); [|done]. simplify_eq.
    eapply move_healthy in Hr; [done|done|]. intros w m'. unfold cycle_top.
    destruct (m_tp (s_mem s)) as [p|]; [|done]. pose proof Hok as (Hl & _).
    unfold thread_mutex_lock. rewrite Hl. cbn [Z.eqb T_OK negb]. by apply take_good.
  - case_decide as Hi; [|done]. rewrite Hm in Hr. simplify_eq.
    eapply move_healthy in Hr; [done|done|]. intros w m'. by apply take_good.
  - case_decide; simplify_eq. split; [|done]. by apply Forall_insert.
  - destruct (s_workers s !! i) as [[]|]; try done. unfold finish_task in Hr.
    destruct (m_heap (s_mem s) !! a) as [t|]; [|done].
    destruct (t_handler t); simplify_eq/=; (split; [by apply Forall_insert|done]).
  - case_decide; [|done]. destruct (can_lock _ _); [|done]. by eapply post_healthy.
  - destruct (s_destroy s); simplify_eq. done.
  - destruct (s_destroy s) as [|n| | |]; try done. unfold destroy_round in Hr.
    destruct (m_tp (s_mem s)); [|done]. case_decide; [|by simplify_eq].
    destruct (can_lock _ _); [|done].
    destruct (post oc wake exit_addr _ _ _ _ _) as [[s1|]|] eqn:E; try done.
    apply post_healthy in E; [|done|done]. simplify_eq. destruct (s_destroy s1); done.
  - destruct (s_destroy s); try done. destruct (s_lock s); simplify_eq. done.
Qed.

(** No worker and no round of the destruction can go on. *)
Definition stuck (s : sys) : Prop :=
  forall l, internal l = true -> calls_ok l = true -> pstep l s = None.

Lemma stuck_workers s i w :
  healthy s -> stuck s -> s_workers s !! i = Some w -> w = WAsleep \/ w = WExited.
Proof.
  intros [Hg Hm] Hst Hi. pose proof (Forall_lookup_1 _ _ _ _ Hg Hi) as Hw.
  destruct w; try done; auto; exfalso.
  - specialize (Hst (LTop i pth_ok) eq_refl eq_refl). cbn [pstep] in Hst.
    rewrite decide_True in Hst by done. unfold can_lock in Hst. by rewrite Hm in Hst.
  - specialize (Hst (LWoken i pth_ok) eq_refl eq_refl). cbn [pstep] in Hst.
    rewrite decide_True in Hst by done. by rewrite Hm in Hst.
  - specialize (Hst (LFinish i) eq_refl eq_refl). cbn [pstep] in Hst. by rewrite Hi in Hst.
Qed.

Lemma parked_sums ws :
  (forall i w, ws !! i = Some w -> w = WAsleep \/ w = WExited) ->
  total woken ws = 0%nat /\ owned ws = [] /\ (total asleep ws + total exited ws = length ws)%nat.
Proof.
  unfold owned. induction ws as [|w ws IH]; intros H; [done|].
  destruct IH as (Hw & Ho & Hs); [intros i v Hi; apply (H (S i) v Hi)|].
  destruct (H 0%nat w eq_refl) as [-> | ->]; cbn [sum_list_with woken asleep exited map own concat app length];
    rewrite Hw, Ho; split_and!; done || lia.
Qed.

Lemma signal_total ws : exists wake ws', signal wake ws = Some ws'.
Proof.
  destruct (decide (WAsleep ∈ ws)) as [Hin|Hin].
  - apply list_elem_of_lookup in Hin as [i Hi]. exists (Some i). unfold signal.
    rewrite decide_True by done. by eexists.
  - exists None. unfold signal. rewrite decide_False by done. by eexists.
Qed.

Lemma round_enabled s q n :
  inv s q -> healthy s -> s_destroy s = DPosting n -> exists wake, pstep (LRound pth_ok wake) s <> None.
Proof.
  intros Hinv [_ Hm] Hd. destruct (signal_total (s_workers s)) as (wake & ws' & Hs). exists wake.
  cbn [pstep]. rewrite Hd. unfold destroy_round. destruct (m_tp (s_mem s)) as [p|]; [|done].
  case_decide; [|done]. unfold can_lock. rewrite Hm. cbn [negb orb].
  unfold post. destruct (thread_task_post pth_ok exit_addr (s_mem s)) as [[[r sig] m']|]; [|done].
  destruct sig; rewrite ?Hs; done.
Qed.

Lemma stuck_quiet s q :
  inv s q -> healthy s -> stuck s ->
  (q = [] \/ Forall (eq WExited) (s_workers s)) /\
  match s_destroy s with DPosting _ | DSpinning _ => False | _ => True end.
Proof.
  intros Hinv Hh Hst. pose proof Hinv as [Hc Htp Hwk Hd].
  destruct (parked_sums (s_workers s)) as (Hw & Ho & Hs); [intros i w; by apply stuck_workers|].
  assert (Hq : q = [] \/ total exited (s_workers s) = length (s_workers s)).
  { destruct (decide (0 < total asleep (s_workers s))%nat) as [Hz|Hz]; [left|right; lia].
    apply Hwk in Hz. rewrite Hw in Hz. destruct q; [done|cbn [length] in Hz; lia]. }
  split.
  - destruct Hq as [Hq|Hq]; [by left|right]. apply Forall_lookup_2. intros i w Hi. symmetry.
    by eapply all_exited.
  - destruct (s_destroy s) as [|n|n| |] eqn:Ed; try done.
    + destruct (round_enabled s q n Hinv Hh Ed) as [wake H]. by apply H, Hst.
    + destruct Hd as (Hn & _ & _ & Hd). destruct (s_lock s) eqn:El.
      * destruct Hd as [He [(q1 & q2 & -> & _)|[Hin _]]]; [|rewrite Ho in Hin; by apply not_elem_of_nil in Hin].
        destruct Hq as [Hq|Hq]; [by destruct q1|lia].
      * specialize (Hst LSpun eq_refl eq_refl). cbn [pstep] in Hst. rewrite Ed, El in Hst. done.
Qed.

Lemma healthy_run ls : forall s s',
  healthy s -> Forall (fun l => calls_ok l = true) ls -> prun ls s = Some (Ok s') -> healthy s'.
Proof.
  induction ls as [|l ls IH]; intros s s' Hh Hok; cbn [prun]; [by intros [= <-]|].
  apply Forall_cons in Hok as [Hl Hok]. destruct (pstep l s) as [[s1|]|] eqn:E; try done.
  apply IH; [by eapply healthy_step|done].
Qed.

Lemma internal_run ls : forall s q s',
  inv s q -> Forall (fun l => internal l = true) ls -> prun ls s = Some (Ok s') ->
  (length ls + work s' <= work s)%nat.
Proof.
  induction ls as [|l ls IH]; intros s q s' Hinv Hint; cbn [prun]; [intros [= <-]; cbn [length]; lia|].
  apply Forall_cons in Hint as [Hl Hint]. destruct (pstep l s) as [r|] eqn:E; [|done].
  destruct (pool_inv_step _ _ _ _ Hinv E) as [(s1 & q1 & -> & H1)|(_ & _ & ->)]; [|done].
  intros Hr. pose proof (internal_work _ _ _ _ Hinv Hl E). pose proof (IH _ _ _ H1 Hint Hr). cbn [length]. lia.
Qed.

Lemma prun_app ls1 ls2 s s1 :
  prun ls1 s = Some (Ok s1) -> prun (ls1 ++ ls2) s = prun ls2 s1.
Proof.
  revert s. induction ls1 as [|l ls IH]; intros s; cbn [prun app]; [by intros [= <-]|].
  destruct (pstep l s) as [[s'|]|]; try done. apply IH.
Qed.

Lemma init_inv ic id s0 :
  thread_pool_init ic id = (true, s0) ->
  s0 = pool0 DEFAULT_THREADS_NUM thread_pool_init_default id /\ inv s0 [] /\ healthy s0.
Proof.
  unfold thread_pool_init. repeat (case_if; [done|]).
  destruct (create_loop (ic_create ic) 0 (threads thread_pool_init_default)) as [[] n] eqn:Ec; [|done].
  intros [= <-].
  assert (Hn : forall k j n, create_loop (ic_create ic) j k = (true, n) -> n = (j + k)%nat).
  { induction k as [|k IH]; intros j n'; cbn [create_loop]; [intros [= <-]; lia|].
    case_if; [|done]. intros ->%IH. lia. }
  apply Hn in Ec. cbn [thread_pool_init_default threads Nat.add] in Ec. subst n. split; [done|].
  split; [by apply pool_inv_init|]. split; [|done]. by apply Forall_replicate.
Qed.

(** ** Theorems *)

(** The actions [ls] on a pool that thread_pool_init has made lead to [s]. *)
Definition legacy_run (ic : init_calls) (id : Z) (ls : list label) (s : sys) : Prop :=
  exists s0, thread_pool_init ic id = (true, s0) /\ prun ls s0 = Some (Ok s).

Lemma run_inv ic id ls s : legacy_run ic id ls s -> exists q, inv s q.
Proof. intros (s0 & Hi & Hr). apply init_inv in Hi as (_ & Hi & _). by eapply inv_run. Qed.

Lemma move_workers i s r s' : move i s r = Ok s' -> length (s_workers s') = length (s_workers s).
Proof. unfold move. destruct r; [|done]. intros [= <-]. apply length_insert. Qed.

Lemma post_workers oc wake a m d d' lk s s' :
  post oc wake a m d d' lk s = Some (Ok s') -> length (s_workers s') = length (s_workers s).
Proof.
  unfold post. destruct (thread_task_post oc a m) as [[[r sig] m']|]; [|done].
  destruct sig; [destruct (signal wake (s_workers s)) eqn:E; [|done]|]; intros [= <-]; [|done].
  by apply signal_load in E as [_ E].
Qed.

(** Threads come and go only in [s_workers] states. *)
Lemma step_workers l s s' : pstep l s = Some (Ok s') -> length (s_workers s') = length (s_workers s).
Proof.
  destruct l as [i oc|i oc|i|i|a ctx oc wake| |oc wake|]; cbn [pstep]; intros Hr.
  - case_decide; [|done]. destruct (can_lock _ _); simplify_eq. by eapply move_workers.
  - case_decide; [|done]. destruct (m_held _); simplify_eq. by eapply move_workers.
  - case_decide; simplify_eq. apply length_insert.
  - destruct (s_workers s !! i) as [[]|]; try done. destruct (finish_task _ _); simplify_eq/=. apply length_insert.
  - case_decide; [|done]. destruct (can_lock _ _); [|done]. by eapply post_workers.
  - destruct (s_destroy s); by simplify_eq.
  - destruct (s_destroy s); try done. unfold destroy_round in Hr.
    destruct (m_tp (s_mem s)); [|done]. case_decide; [|by simplify_eq].
    destruct (can_lock _ _); [|done]. destruct (post _ _ _ _ _ _ _ _) as [[s1|]|] eqn:E; try done.
    apply post_workers in E. simplify_eq. by destruct (s_destroy s1).
  - destruct (s_destroy s); try done. destruct (s_lock s); by simplify_eq.
Qed.

Lemma run_workers ic id ls s : legacy_run ic id ls s -> length (s_workers s) = DEFAULT_THREADS_NUM.
Proof.
  intros (s0 & (-> & _ & _)%init_inv & Hr). revert Hr.
  assert (H : length (s_workers (pool0 DEFAULT_THREADS_NUM thread_pool_init_default id)) = DEFAULT_THREADS_NUM) by done.
  revert H. generalize (pool0 DEFAULT_THREADS_NUM thread_pool_init_default id).
  induction ls as [|l ls IH]; intros s1 H1; cbn [prun]; [by intros [= <-]|].
  destruct (pstep l s1) as [[s2|]|] eqn:E; try done. apply IH. by rewrite (step_workers _ _ _ E).
Qed.

Lemma idle_le ws : (total idle ws <= length ws)%nat.
Proof. induction ws as [|[] ws IH]; simpl; lia. Qed.

Lemma create_loop_fails create j k m :
  (forall i, (i < k)%nat -> create i = 0) -> create k <> 0 -> (k < j + m)%nat -> (j <= k)%nat ->
  create_loop create j m = (false, k).
Proof.
  intros Hok Hk. revert j. induction m as [|m IH]; intros j Hlt Hle; [lia|]. cbn [create_loop].
  destruct (decide (j = k)) as [->|Hne]; [by rewrite (proj2 (Z.eqb_neq _ _) Hk)|].
  rewrite Hok by lia. cbn [Z.eqb]. apply IH; lia.
Qed.

(** C35: in every execution of the pool, with any pthread call failing anywhere,
    the tasks taken by workers are exactly the first ones posted, in order; the
    rest is the linked queue in memory; each task taken is completed or in the
    hands of one worker; the counter [waiting] is the queue length less the
    idle workers, between -4 and max_queue. *)
Theorem legacy_pool_fifo ic id ls s :
  legacy_run ic id ls s ->
  exists q,
    s_posted s = s_started s ++ ids (m_heap (s_mem s)) q /\
    s_started s ≡ₚ s_finished s ++ ids (m_heap (s_mem s)) (owned (s_workers s)) /\
    NoDup (q ++ owned (s_workers s)) /\
    forall p, m_tp (s_mem s) = Some p ->
      queue_rep (m_heap (s_mem s)) p q /\
      waiting p = Z.of_nat (length q) - Z.of_nat (total idle (s_workers s)) /\
      - Z.of_nat DEFAULT_THREADS_NUM <= waiting p <= max_queue p.
Proof.
  intros Hrun. pose proof (run_workers _ _ _ _ Hrun) as Hlen.
  destruct (run_inv _ _ _ _ Hrun) as [q [[_ Hnd Hp Hs _] Htp _ _]]. exists q. split_and!; try done.
  intros p Hp'. rewrite Hp' in Htp. destruct Htp as (Hq & Hwt & [_ Hle]).
  pose proof (idle_le (s_workers s)). split_and!; [done|done|lia|done].
Qed.

(** thread_pool_destroy frees the pool only when every worker has left
    through its exit task and every task posted before the call is complete;
    from then on no worker and no further step of the destruction can run. *)
Theorem legacy_destroy_safe ic id ls s :
  legacy_run ic id ls s -> s_destroy s = DFreed ->
  Forall (eq WExited) (s_workers s) /\
  (exists rest, s_finished s ≡ₚ take (s_mark s) (s_posted s) ++ rest) /\
  forall l, ~ is_post l -> pstep l s = None.
Proof.
  intros Hrun Hd. pose proof (run_workers _ _ _ _ Hrun) as Hlen.
  destruct (run_inv _ _ _ _ Hrun) as [q [[_ _ Hp Hs _] _ _ Hdi]]. rewrite Hd in Hdi. destruct Hdi as [He Hm].
  assert (Hw : forall i w, s_workers s !! i = Some w -> w = WExited) by (intros i w; by apply all_exited).
  split_and!.
  - apply Forall_lookup_2. intros i w Hi. symmetry. by eapply Hw.
  - destruct (parked_sums (s_workers s)) as (_ & Ho & _); [intros i w Hi; right; by eapply Hw|].
    rewrite Ho, app_nil_r in Hs. exists (drop (s_mark s) (s_started s)).
    rewrite Hp, take_app_le by (specialize (Hm ltac:(unfold DEFAULT_THREADS_NUM in *; lia)); lia).
    by rewrite take_drop.
  - intros [i oc|i oc|i|i|a ctx oc wake| |oc wake|] Hl; cbn [pstep]; rewrite ?Hd; try done.
    + case_decide as Hi; [by apply Hw in Hi|done].
    + case_decide as Hi; [by apply Hw in Hi|done].
    + case_decide as Hi; [by apply Hw in Hi|done].
    + destruct (s_workers s !! i) as [w|] eqn:Hi; [|done]. by rewrite (Hw i w Hi).
Qed.

(** no action of the pool's own threads ever follows a dangling pointer:
    not through the links of the queue, not through a task freed twice, not
    through the freed pool; only a client that posts to a destroyed pool does. *)
Theorem legacy_pool_no_dangling ic id ls s l e :
  legacy_run ic id ls s -> pstep l s = Some (Err e) -> is_post l /\ s_destroy s = DFreed.
Proof.
  intros Hrun He. destruct (run_inv _ _ _ _ Hrun) as [q Hinv].
  destruct (pool_inv_step _ _ _ _ Hinv He) as [(? & ? & [=] & _)|(Hl & Htp & _)].
  split; [done|]. pose proof (inv_tp _ _ Hinv) as H. by rewrite Htp in H.
Qed.

(** when no pthread call fails, the workers and the destroying thread make
    at most [work s] steps from any point of an execution, under any schedule;
    when they can make no more, thread_pool_destroy is not in progress and
    either the queue is empty or every worker has exited. *)
Theorem legacy_pool_quiesces ic id ls s ls' s' :
  legacy_run ic id ls s -> Forall (fun l => calls_ok l = true) ls ->
  Forall (fun l => internal l = true /\ calls_ok l = true) ls' -> prun ls' s = Some (Ok s') ->
  (length ls' + work s' <= work s)%nat /\
  (stuck s' ->
     match s_destroy s' with DPosting _ | DSpinning _ => False | _ => True end /\
     (s_posted s' = s_started s' \/ Forall (eq WExited) (s_workers s'))).
Proof.
  intros Hrun Hok Hint Hr. destruct (run_inv _ _ _ _ Hrun) as [q Hinv].
  assert (Hh : healthy s').
  { destruct Hrun as (s0 & (_ & _ & H0)%init_inv & Hs). 
    eapply healthy_run; [by eapply (healthy_run ls)| |exact Hr].
    eapply Forall_impl; [exact Hint|by intros ? [_ ?]]. }
  split; [eapply internal_run; [done| |done]; eapply Forall_impl; [exact Hint|by intros ? [? _]]|].
  destruct (inv_run _ _ _ _ Hinv Hr) as [q' Hinv']. intros Hst.
  destruct (stuck_quiet s' q' Hinv' Hh Hst) as [Hq Hd]. split; [done|].
  destruct Hq as [->|Hq]; [left|by right].
  pose proof (core_posted _ _ _ _ _ _ (inv_core _ _ Hinv')) as Hp. by rewrite app_nil_r in Hp.
Qed.

(** when the k-th pthread_create of thread_pool_init fails after earlier
    ones succeeded, the function frees the pool and returns NULL with k workers
    running: the first thing each of them does is to use the freed pool. *)
Theorem legacy_init_partial ic id k :
  ic_calloc ic = true -> ic_mutex ic = 0 -> ic_cond ic = 0 -> ic_attr ic = 0 -> ic_detach ic = 0 ->
  (forall j, (j < k)%nat -> ic_create ic j = 0) -> ic_create ic k <> 0 ->
  (k < DEFAULT_THREADS_NUM)%nat ->
  exists s, thread_pool_init ic id = (false, s) /\ s_workers s = replicate k WTop /\
    forall i oc, (i < k)%nat -> pstep (LTop i oc) s = Some dangling.
Proof.
  intros Hca Hmu Hco Hat Hde Hok Hk Hlt. unfold thread_pool_init.
  rewrite Hca, Hmu, Hco, Hat, Hde. cbn [negb Z.eqb T_OK].
  rewrite (create_loop_fails _ _ k); [|done|done|exact Hlt|lia].
  eexists. split; [reflexivity|]. split; [done|]. intros i oc Hi. cbn [pstep s_workers s_mem].
  rewrite decide_True by (by apply lookup_replicate_2). unfold can_lock. cbn [m_held negb orb]. done.
Qed.

(** ** A concrete execution: one task, then the destruction *)

Definition calls0 : init_calls := mkInit true 0 0 0 0 (fun _ => 0).
Definition work_labels : list label :=
  [LTop 0 pth_ok; LTop 1 pth_ok; LTop 2 pth_ok; LTop 3 pth_ok;
   LPost 1 7 pth_ok (Some 0%nat); LWoken 0 pth_ok].
Definition exit_labels : list label :=
  [LFinish 0; LDestroy;
   LRound pth_ok (Some 1%nat); LWoken 1 pth_ok; LFinish 1; LSpun;
   LRound pth_ok (Some 2%nat); LWoken 2 pth_ok; LFinish 2; LSpun;
   LRound pth_ok (Some 3%nat); LWoken 3 pth_ok; LFinish 3; LSpun;
   LRound pth_ok None; LTop 0 pth_ok; LFinish 0; LSpun; LRound pth_ok None].

Definition after (ls : list label) : sys :=
  match prun ls (snd (thread_pool_init calls0 0)) with Some (Ok s) => s | _ => snd (thread_pool_init calls0 0) end.

Definition working : sys := Eval vm_compute in after work_labels.
Definition destroyed : sys := Eval vm_compute in after (work_labels ++ exit_labels).

Lemma working_run : legacy_run calls0 0 work_labels working.
Proof. eexists. split; [reflexivity|vm_compute; reflexivity]. Qed.
Lemma destroyed_run : legacy_run calls0 0 (work_labels ++ exit_labels) destroyed.
Proof. eexists. split; [reflexivity|vm_compute; reflexivity]. Qed.

Lemma legacy_pool_fifo_witness :
  exists q, s_posted working = s_started working ++ ids (m_heap (s_mem working)) q.
Proof.
  destruct (legacy_pool_fifo calls0 0 work_labels working working_run) as (q & Hq & _).
  exists q. exact Hq.
Defined.

Lemma legacy_destroy_safe_witness :
  s_destroy destroyed = DFreed /\ Forall (eq WExited) (s_workers destroyed).
Proof.
  split; [reflexivity|].
  exact (proj1 (legacy_destroy_safe calls0 0 _ destroyed destroyed_run eq_refl)).
Defined.

Lemma legacy_pool_no_dangling_witness :
  pstep (LPost 9 0 pth_ok None) destroyed = Some dangling /\ s_destroy destroyed = DFreed.
Proof.
  split; [vm_compute; reflexivity|].
  refine (proj2 (legacy_pool_no_dangling calls0 0 _ destroyed (LPost 9 0 pth_ok None) _ destroyed_run _)).
  vm_compute. reflexivity.
Defined.

Lemma legacy_pool_quiesces_witness :
  (work working = 2 /\ length [LFinish 0; LTop 0 pth_ok] + work (after (work_labels ++ [LFinish 0; LTop 0 pth_ok]))
    <= work working)%nat.
Proof.
  split; [vm_compute; reflexivity|].
  refine (proj1 (legacy_pool_quiesces calls0 0 work_labels working [LFinish 0; LTop 0 pth_ok]
                   (after (work_labels ++ [LFinish 0; LTop 0 pth_ok])) working_run _ _ _)).
  - repeat constructor.
  - repeat constructor.
  - vm_compute. reflexivity.
Defined.

Lemma legacy_init_partial_witness :
  exists s, thread_pool_init (mkInit true 0 0 0 0 (fun n => if (n =? 2)%nat then 11 else 0)) 0 = (false, s) /\
    s_workers s = [WTop; WTop].
Proof.
  destruct (legacy_init_partial (mkInit true 0 0 0 0 (fun n => if (n =? 2)%nat then 11 else 0)) 0 2)
    as (s & Hs & Hw & _); try reflexivity.
  - intros [|[|j]] Hj; [reflexivity|reflexivity|lia].
  - intros E. discriminate E.
  - unfold DEFAULT_THREADS_NUM. lia.
  - exists s. split; [exact Hs|exact Hw].
Defined.
