(* ===== verification/LegacyNet.v ===== *)
(** * Events and sessions of the former server (legacy/ievent.h, events_def.h,
      eventtype.cpp, NetworkInterface.cpp, DispatchMsgService.cpp)

    A session collects one request at a time: a header of ten bytes, then as
    many bytes as the header announces, in whatever pieces they arrive.
    [handle_request] is the read callback; the bytes libevent has received and
    the callback has not taken stay in the input buffer.  Theorems: the pieces
    do not matter, a complete frame gives exactly its event, bad headers close
    the connection, and the header written in front of a response is read back. *)

From S2P Require Import Prelude Protocol Double Common CText.
From Stdlib Require Import Ascii.

(** ** Events *)

Inductive message : Type :=
| MobileCodeReqEv (mobile : text)
| MobileCodeRspEv (icode code : Z)
| LoginReqEv (mobile : text) (icode : Z)
| LoginRspEv (code : Z)
| ExitRspEv.

(** [ev_args] is null until set_args. *)
Record iEevent : Type := mkEvent { ev_msg : message; ev_sn : Z; ev_args : option nat }.

Definition EVENTID_GET_MOBILE_CODE_REQ : Z := 1.
Definition EVENTID_GET_MOBILE_CODE_RSP : Z := 2.
Definition EVENTID_LOGIN_REQ : Z := 3.
Definition EVENTID_LOGIN_RSP : Z := 4.
Definition EVENTID_EXIT_RSP : Z := 254.
Definition EVENTID_UNKNOWN : Z := 255.

Definition get_eid (ev : iEevent) : Z :=
  match ev_msg ev with
  | MobileCodeReqEv _ => EVENTID_GET_MOBILE_CODE_REQ
  | MobileCodeRspEv _ _ => EVENTID_GET_MOBILE_CODE_RSP
  | LoginReqEv _ _ => EVENTID_LOGIN_REQ
  | LoginRspEv _ => EVENTID_LOGIN_RSP
  | ExitRspEv => EVENTID_EXIT_RSP
  end.

Definition set_args (a : option nat) (ev : iEevent) : iEevent := mkEvent (ev_msg ev) (ev_sn ev) a.

(** The static counter [sn] is threaded: the number and the next value. *)
Definition generateSeqNo (sn : Z) : Z * Z := (sn, u32 (sn + 1)).
Definition new_event (msg : message) (sn : Z) : iEevent * Z :=
  let '(n, sn') := generateSeqNo sn in (mkEvent msg n None, sn').

Definition ERRC_SUCCESS : Z := 200.
Definition ERRC_INVALID_MSG : Z := 400.
Definition ERRC_INVALID_DATA : Z := 404.
Definition ERRC_METHOD_NOT_ALLOWED : Z := 405.
Definition ERRO_PROCCESS_FAILED : Z := 406.
Definition ERRO_BIKE_IS_TOOK : Z := 407.
Definition ERRO_BIKE_IS_RUNNING : Z := 408.
Definition ERRO_BIKE_IS_DAMAGED : Z := 409.
Definition ERR_NULL : Z := 0.

Definition EER : list (Z * string) :=
  [(ERRC_SUCCESS, "ok."%string); (ERRC_INVALID_MSG, "Invalid message."%string);
   (ERRC_INVALID_DATA, "Invalid data."%string); (ERRC_METHOD_NOT_ALLOWED, "Method not allowed."%string);
   (ERRO_PROCCESS_FAILED, "Proccess failed."%string); (ERRO_BIKE_IS_TOOK, "Bike is took."%string);
   (ERRO_BIKE_IS_RUNNING, "Bike is running."%string); (ERRO_BIKE_IS_DAMAGED, "Bike is damaged."%string);
   (ERR_NULL, "Undefined."%string)].

(** The loop stops at the sentinel, or runs off the table. *)
Fixpoint scan_table (sentinel key : Z) (t : list (Z * string)) : result string :=
  match t with
  | [] => Err (UndefinedBehaviour "index out of range")
  | (k, v) :: t =>
      if k =? sentinel then Ok v else if k =? key then Ok v else scan_table sentinel key t
  end.

Definition getReasonByErrorCode (code : Z) : result string := scan_table ERR_NULL code EER.

Definition ES : list (Z * string) :=
  [(1, "EVENTID_GET_MOBILE_CODE_REQ"%string); (2, "EVENTID_GET_MOBILE_CODE_RSP"%string);
   (3, "EVENTID_LOGIN_REQ"%string); (4, "EVENTID_LOGIN_RSP"%string);
   (5, "EVENTID_RECHARGE_REQ"%string); (6, "EVENTID_RECHARGE_RSP"%string);
   (7, "EVENTID_GET_ACCOUNT_BALANCE_REQ"%string); (8, "EVENTID_ACCOUNT_BALANCE_RSP"%string);
   (9, "EVENTID_LIST_ACCOUNT_RECORDS_REQ"%string); (16, "EVENTID_ACCOUNT_RECORDS_RSP"%string);
   (17, "EVENTID_LIST_TRAVELS_REQ"%string); (18, "EVENTID_LIST_TRAVELS_RSP"%string);
   (254, "EVENTID_EXIT_RSP"%string); (255, "EVENTID_UNKNOWN"%string)].
Definition getEidToString (eid : Z) : result string := scan_table EVENTID_UNKNOWN eid ES.

(** ** Protobuf *)

(** The generated classes of bike.pb: ParseFromArray and
    SerializeToArray of the four messages. *)
Class LegacyPb : Type := {
  parse_mobile_request : list byte -> option text;
  parse_login_request : list byte -> option (text * Z);
  ser_mobile_request : text -> list byte;
  ser_login_request : text -> Z -> list byte;
  ser_mobile_response : Z -> Z -> string -> list byte;
  ser_login_response : Z -> string -> list byte }.

(** ** Sessions *)

Definition MESSAGE_HEADER_LEN : nat := 10.
Definition MAX_MESSAGE_LEN : Z := 372680.

Inductive SESSION_STATUS : Type := SS_REQUEST | SS_RESPONSE.
Inductive MESSAGE_STATUS : Type := MS_READ_HEADER | MS_READ_MESSAGE | MS_READ_DONE | MS_SENDING.
#[export] Instance SESSION_STATUS_eq_dec : EqDecision SESSION_STATUS.
Proof. solve_decision. Defined.
#[export] Instance MESSAGE_STATUS_eq_dec : EqDecision MESSAGE_STATUS.
Proof. solve_decision. Defined.

(** [cs_header] holds the read_header_len bytes read of the header,
    [cs_read_buf] the read_message_len bytes read into the buffer of
    message_len bytes; [None] is a null pointer. *)
Record ConnectSession : Type := mkSession {
  session_stat : SESSION_STATUS;
  cs_request : option iEevent; req_stat : MESSAGE_STATUS;
  cs_response : option iEevent;
  cs_eid : Z; message_len : Z;
  cs_read_buf : option (list byte); cs_header : list byte;
  cs_write_buf : option (list byte); sent_len : Z }.

(** session_init and the two assignments of listener_cb. *)
Definition session_init : ConnectSession :=
  mkSession SS_REQUEST None MS_READ_HEADER None 0 0 None [] None 0.

Definition session_reset (cs : ConnectSession) : ConnectSession :=
  mkSession SS_REQUEST None MS_READ_HEADER None (cs_eid cs) 0 None [] None 0.

(** [strncmp(cs->header, "FBEB", 4) == 0]: the identifier has no NUL. *)
Definition header_id_ok (h : list byte) : bool := bool_decide (take 4 h = kFrameMagic).

Section Net.

Context `{!LegacyPb}.

Definition parseEvent (msg : option (list byte)) (eid sn : Z) : option iEevent * Z :=
  match msg with
  | None => (None, sn)
  | Some bs =>
      if eid =? EVENTID_GET_MOBILE_CODE_REQ then
        match parse_mobile_request bs with
        | Some mobile => let '(ev, sn') := new_event (MobileCodeReqEv mobile) sn in (Some ev, sn')
        | None => (None, sn)
        end
      else if eid =? EVENTID_LOGIN_REQ then
        match parse_login_request bs with
        | Some (mobile, icode) =>
            let '(ev, sn') := new_event (LoginReqEv mobile icode) sn in (Some ev, sn')
        | None => (None, sn)
        end
      else (None, sn)
  end.

(** The first half of handle_request; [None]: the connection is closed and the
    session freed. *)
Definition read_header (cs : ConnectSession) (inb : list byte) : option (ConnectSession * list byte) :=
  if decide (req_stat cs = MS_READ_HEADER) then
    let n := (MESSAGE_HEADER_LEN - length (cs_header cs))%nat in
    let h := cs_header cs ++ take n inb in
    let inb' := drop n inb in
    if decide (MESSAGE_HEADER_LEN = length h) then
      if header_id_ok h then
        let eid := get_u16_le (drop 4 h) in
        let len := u32 (get_i32_le (drop 6 h)) in
        if (len <? 1) || (len >? MAX_MESSAGE_LEN) then None
        else Some (mkSession (session_stat cs) (cs_request cs) MS_READ_MESSAGE (cs_response cs) eid len
                             (Some []) h (cs_write_buf cs) (sent_len cs), inb')
      else None
    else Some (mkSession (session_stat cs) (cs_request cs) (req_stat cs) (cs_response cs) (cs_eid cs)
                         (message_len cs) (cs_read_buf cs) h (cs_write_buf cs) (sent_len cs), inb')
  else Some (cs, inb).

(** What one call of handle_request does: the session is closed, or goes on
    with the rest of the input; [HEvent] is put into the thread pool. *)
Inductive outcome : Type :=
| HClosed
| HOpen (cs : ConnectSession) (inb : list byte)
| HEvent (cs : ConnectSession) (inb : list byte) (ev : iEevent).

(** The second half. [self] is the address of the session. *)
Definition read_message (self : nat) (cs : ConnectSession) (inb : list byte) (sn : Z)
  : result (outcome * Z) :=
  if decide (req_stat cs = MS_READ_MESSAGE /\ (0 < length inb)%nat) then
    match cs_read_buf cs with
    | None => Err (UndefinedBehaviour "null buffer")
    | Some buf =>
        let n := Z.to_nat (message_len cs - Z.of_nat (length buf)) in
        let buf' := buf ++ take n inb in
        let inb' := drop n inb in
        if Z.of_nat (length buf') =? message_len cs then
          let '(oev, sn') := parseEvent (Some buf') (cs_eid cs) sn in
          match oev with
          | Some ev =>
              let ev' := set_args (Some self) ev in
              Ok (HEvent (mkSession SS_RESPONSE (Some ev') (req_stat cs) (cs_response cs) (cs_eid cs)
                                    (message_len cs) None (cs_header cs) (cs_write_buf cs) (sent_len cs))
                         inb' ev', sn')
          | None => Ok (HClosed, sn')
          end
        else
          Ok (HOpen (mkSession (session_stat cs) (cs_request cs) (req_stat cs) (cs_response cs) (cs_eid cs)
                               (message_len cs) (Some buf') (cs_header cs) (cs_write_buf cs) (sent_len cs))
                    inb', sn)
    end
  else Ok (HOpen cs inb, sn).

Definition handle_request (self : nat) (cs : ConnectSession) (inb : list byte) (sn : Z)
  : result (outcome * Z) :=
  if decide (session_stat cs = SS_REQUEST) then
    match read_header cs inb with
    | None => Ok (HClosed, sn)
    | Some (cs', inb') => read_message self cs' inb' sn
    end
  else Ok (HOpen cs inb, sn).

(** ** Responses *)

Definition serialize (msg : message) : result (list byte) :=
  match msg with
  | MobileCodeRspEv icode code =>
      try! why := getReasonByErrorCode icode in Ok (ser_mobile_response code icode why)
  | LoginRspEv code => try! why := getReasonByErrorCode code in Ok (ser_login_response code why)
  | MobileCodeReqEv mobile => Ok (ser_mobile_request mobile)
  | LoginReqEv mobile icode => Ok (ser_login_request mobile icode)
  | ExitRspEv => Ok []
  end.

Definition AssembleHB (cs : ConnectSession) (ev : iEevent) (eid : Z) : result ConnectSession :=
  try! body := serialize (ev_msg ev) in
  let len := u32 (Z.of_nat (length body)) in
  Ok (mkSession (session_stat cs) (cs_request cs) (req_stat cs) (Some ev) (cs_eid cs) len
                (cs_read_buf cs) (cs_header cs)
                (Some (kFrameMagic ++ le2 (u16 eid) ++ le4 len ++ body)) (sent_len cs)).

(** send_response_message: the bytes written, [None] when the connection is
    closed instead. *)
Definition send_response_message (cs : ConnectSession) : result (option (list byte) * ConnectSession) :=
  match cs_response cs with
  | None => Ok (None, cs)
  | Some _ =>
      match cs_write_buf cs with
      | None => Err (UndefinedBehaviour "write from a null buffer")
      | Some w =>
          if Z.of_nat (length w) <? message_len cs + Z.of_nat MESSAGE_HEADER_LEN
          then Err (UndefinedBehaviour "write past the buffer")
          else Ok (Some (take (Z.to_nat (message_len cs) + MESSAGE_HEADER_LEN) w), session_reset cs)
      end
  end.

(** ** Reassembly *)

(** A connection, the sequence counter and the events put into the pool. *)
Record net : Type := mkNet {
  n_conn : option (ConnectSession * list byte); n_sn : Z; n_events : list iEevent }.

(** libevent appends what it received to the input buffer and calls back. *)
Definition receive (self : nat) (nt : net) (chunk : list byte) : result net :=
  match n_conn nt with
  | None => Ok nt
  | Some (cs, inb) =>
      try! r := handle_request self cs (inb ++ chunk) (n_sn nt) in
      Ok (match fst r with
          | HClosed => mkNet None (snd r) (n_events nt)
          | HOpen cs' inb' => mkNet (Some (cs', inb')) (snd r) (n_events nt)
          | HEvent cs' inb' ev => mkNet (Some (cs', inb')) (snd r) (n_events nt ++ [ev])
          end)
  end.

Fixpoint receive_all (self : nat) (nt : net) (chunks : list (list byte)) : result net :=
  match chunks with
  | [] => Ok nt
  | c :: chunks => try! nt' := receive self nt c in receive_all self nt' chunks
  end.

(** Sessions between two calls. *)
Definition session_wf (cs : ConnectSession) : Prop :=
  match session_stat cs with
  | SS_RESPONSE => True
  | SS_REQUEST =>
      match req_stat cs with
      | MS_READ_HEADER => (length (cs_header cs) < MESSAGE_HEADER_LEN)%nat
      | MS_READ_MESSAGE =>
          exists buf, cs_read_buf cs = Some buf /\ Z.of_nat (length buf) < message_len cs <= MAX_MESSAGE_LEN
      | _ => False
      end
  end.

Lemma session_init_wf : session_wf session_init.
Proof. unfold session_wf, MESSAGE_HEADER_LEN. cbn. lia. Qed.
Lemma session_reset_wf cs : session_wf (session_reset cs).
Proof. unfold session_wf, MESSAGE_HEADER_LEN. cbn. lia. Qed.

(** What a later arrival does to the outcome of a call. *)
Definition then_more (self : nat) (b : list byte) (r : outcome * Z) : result (outcome * Z) :=
  match fst r with
  | HClosed => Ok r
  | HOpen cs inb => handle_request self cs (inb ++ b) (snd r)
  | HEvent cs inb ev => Ok (HEvent cs (inb ++ b) ev, snd r)
  end.

Lemma handle_reading self cs inb sn :
  session_stat cs = SS_REQUEST -> req_stat cs = MS_READ_MESSAGE ->
  handle_request self cs inb sn = read_message self cs inb sn.
Proof.
  intros Hs Hr. unfold handle_request, read_header. rewrite decide_True by done.
  by rewrite decide_False by congruence.
Qed.

Lemma read_message_header self cs inb sn :
  req_stat cs = MS_READ_HEADER -> read_message self cs inb sn = Ok (HOpen cs inb, sn).
Proof. intros Hr. unfold read_message. by rewrite decide_False by (rewrite Hr; by intros [? _]). Qed.

Lemma read_message_split self cs b1 b2 sn buf :
  session_stat cs = SS_REQUEST -> req_stat cs = MS_READ_MESSAGE -> cs_read_buf cs = Some buf ->
  Z.of_nat (length buf) < message_len cs ->
  read_message self cs (b1 ++ b2) sn = rbind (read_message self cs b1 sn) (then_more self b2).
Proof.
  intros Hs Hr Hb Hlt.
  destruct b1 as [|x b1].
  { unfold read_message at 2. rewrite decide_False by (cbn [length]; lia).
    cbn [rbind then_more fst snd app]. by rewrite handle_reading. }
  set (c := x :: b1). unfold read_message at 1 2.
  rewrite decide_True by (split; [done|rewrite length_app; unfold c; cbn [length]; lia]).
  rewrite decide_True by (split; [done|unfold c; cbn [length]; lia]).
  rewrite Hb. set (n := Z.to_nat (message_len cs - Z.of_nat (length buf))).
  destruct (decide (n <= length c)%nat) as [Hn|Hn].
  - rewrite take_app_le, drop_app_le by done.
    replace (Z.of_nat (length (buf ++ take n c)) =? message_len cs) with true
      by (symmetry; apply Z.eqb_eq; rewrite length_app, length_take; lia).
    destruct (parseEvent (Some (buf ++ take n c)) (cs_eid cs) sn) as [[ev|] sn']; done.
  - replace (Z.of_nat (length (buf ++ take n c)) =? message_len cs) with false
      by (symmetry; apply Z.eqb_neq; rewrite length_app, length_take; lia).
    rewrite (take_ge c), (drop_ge c) by lia. cbn [rbind then_more fst snd app].
    rewrite handle_reading by done. destruct b2 as [|y b2].
    + unfold read_message. rewrite decide_False by (cbn [length]; lia). rewrite app_nil_r.
      rewrite take_ge, drop_ge by lia.
      replace (Z.of_nat (length (buf ++ c)) =? message_len cs) with false
        by (symmetry; apply Z.eqb_neq; rewrite length_app; lia). done.
    + unfold read_message. rewrite decide_True by (cbn [req_stat length]; split; [done|lia]).
      cbn [cs_read_buf message_len cs_eid session_stat cs_request req_stat cs_response cs_header cs_write_buf sent_len].
      rewrite take_app_ge, drop_app_ge by lia.
      replace (Z.to_nat (message_len cs - Z.of_nat (length (buf ++ c)))) with (n - length c)%nat
        by (rewrite length_app; lia).
      by rewrite (app_assoc buf).
Qed.

Lemma handle_request_split self cs b1 b2 sn :
  session_wf cs ->
  handle_request self cs (b1 ++ b2) sn = rbind (handle_request self cs b1 sn) (then_more self b2).
Proof.
  intros Hwf. unfold session_wf in Hwf. destruct (session_stat cs) eqn:Hs.
  2: { unfold handle_request. rewrite !decide_False by congruence. cbn [rbind then_more fst snd].
       unfold handle_request. by rewrite decide_False by congruence. }
  destruct (req_stat cs) eqn:Hr; try done.
  2: { destruct Hwf as (buf & Hb & Hlt & _). rewrite !handle_reading by done.
       by eapply read_message_split. }
  unfold handle_request at 1 2. do 2 rewrite decide_True by done. unfold read_header.
  do 2 rewrite (decide_True (P := req_stat cs = MS_READ_HEADER)) by done. set (n := (MESSAGE_HEADER_LEN - length (cs_header cs))%nat).
  destruct (decide (n <= length b1)%nat) as [Hn|Hn].
  - rewrite (take_app_le b1 b2 n), (drop_app_le b1 b2 n) by done.
    do 2 rewrite (decide_True (P := MESSAGE_HEADER_LEN = length (cs_header cs ++ take n b1)))
      by (rewrite length_app, length_take; lia).
    destruct (header_id_ok _); [|done]. destruct (_ || _) eqn:El; [done|].
    apply (read_message_split _ _ _ _ _ []); cbn [cs_read_buf req_stat session_stat message_len length];
      try done. bool_to_prop. lia.
  - rewrite (take_ge b1), (drop_ge b1) by lia.
    rewrite (decide_False (P := MESSAGE_HEADER_LEN = length (cs_header cs ++ b1))) by (rewrite length_app; lia).
    rewrite (take_app_ge b1 b2 n), (drop_app_ge b1 b2 n) by lia.
    rewrite read_message_header by done.
    cbn [rbind then_more fst snd app]. unfold handle_request, read_header. cbn [session_stat req_stat cs_header].
    rewrite (decide_True (P := session_stat cs = SS_REQUEST)) by done.
    rewrite (decide_True (P := req_stat cs = MS_READ_HEADER)) by done.
    replace (MESSAGE_HEADER_LEN - length (cs_header cs ++ b1))%nat with (n - length b1)%nat
      by (rewrite length_app; lia).
    by rewrite <- (app_assoc (cs_header cs)).
Qed.

(** A call never runs into undefined behaviour and keeps the session well
    formed; a session that waits for more has taken all there was. *)
Definition good_outcome (self : nat) (cs : ConnectSession) (o : outcome) : Prop :=
  match o with
  | HClosed => session_stat cs = SS_REQUEST
  | HOpen cs' inb' =>
      session_wf cs' /\ session_stat cs' = session_stat cs /\ (session_stat cs' = SS_REQUEST -> inb' = []) /\
      cs_response cs' = cs_response cs /\ cs_write_buf cs' = cs_write_buf cs
  | HEvent cs' _ ev =>
      session_stat cs = SS_REQUEST /\ session_stat cs' = SS_RESPONSE /\ cs_response cs' = cs_response cs /\
      cs_write_buf cs' = cs_write_buf cs /\ ev_args ev = Some self /\
      (get_eid ev = EVENTID_GET_MOBILE_CODE_REQ \/ get_eid ev = EVENTID_LOGIN_REQ)
  end.

Lemma parseEvent_eid msg eid sn ev sn' :
  parseEvent msg eid sn = (Some ev, sn') ->
  get_eid ev = EVENTID_GET_MOBILE_CODE_REQ \/ get_eid ev = EVENTID_LOGIN_REQ.
Proof.
  unfold parseEvent, new_event, generateSeqNo. destruct msg as [bs|]; [|done].
  repeat case_if; [destruct (parse_mobile_request bs)|destruct (parse_login_request bs) as [[]|]|done];
    intros [= <- <-]; first [by left|by right].
Qed.

Lemma read_message_ok self cs inb sn buf :
  session_stat cs = SS_REQUEST -> req_stat cs = MS_READ_MESSAGE -> cs_read_buf cs = Some buf ->
  Z.of_nat (length buf) < message_len cs <= MAX_MESSAGE_LEN ->
  exists o sn', read_message self cs inb sn = Ok (o, sn') /\ good_outcome self cs o.
Proof.
  intros Hs Hr Hb Hlt. unfold read_message. case_decide as Hd.
  - rewrite Hb. set (n := Z.to_nat (message_len cs - Z.of_nat (length buf))).
    destruct (Z.of_nat (length (buf ++ take n inb)) =? message_len cs) eqn:E.
    + destruct (parseEvent _ _ _) as [[ev|] sn'] eqn:Ep; eexists _, _; (split; [reflexivity|]); [|done].
      apply parseEvent_eid in Ep. by split_and!.
    + eexists _, _. split; [reflexivity|]. bool_to_prop. rewrite length_app, length_take in E.
      assert (Hn : (length inb < n)%nat) by lia. split_and!; [|done| |done|done].
      * unfold session_wf. cbn [session_stat req_stat cs_read_buf message_len]. rewrite Hs, Hr.
        eexists. split; [reflexivity|]. rewrite length_app, length_take. lia.
      * intros _. apply drop_ge. lia.
  - eexists _, _. split; [reflexivity|]. split_and!; [|done| |done|done].
    + unfold session_wf. rewrite Hs, Hr. eauto.
    + intros _. destruct inb; [done|]. destruct Hd. split; [done|]. cbn [length]. lia.
Qed.

Lemma handle_request_ok self cs inb sn :
  session_wf cs ->
  exists o sn', handle_request self cs inb sn = Ok (o, sn') /\ good_outcome self cs o.
Proof.
  intros Hwf. unfold handle_request. case_decide as Hs.
  2: { eexists _, _. split; [reflexivity|]. by split_and!. }
  pose proof Hwf as Hwf'. unfold session_wf in Hwf. rewrite Hs in Hwf. unfold read_header.
  destruct (req_stat cs) eqn:Hr; try done.
  - rewrite decide_True by done. set (n := (MESSAGE_HEADER_LEN - length (cs_header cs))%nat).
    case_decide as Hlen.
    + destruct (header_id_ok _); [|eexists _, _; by split].
      destruct (_ || _) eqn:El; [eexists _, _; by split|]. bool_to_prop.
      match goal with |- context [read_message self ?c ?i sn] =>
        destruct (read_message_ok self c i sn []) as (o & sn' & Ho & Hg);
          [done|done|done|cbn [message_len length]; lia|] end.
      exists o, sn'. split; [exact Ho|].
      by destruct o.
    + rewrite read_message_header by done. eexists _, _. split; [reflexivity|].
      rewrite length_app, length_take in Hlen. split_and!; [|done| |done|done].
      * unfold session_wf. cbn [session_stat req_stat cs_header]. rewrite Hs, length_app, length_take. lia.
      * intros _. apply drop_ge. lia.
  - rewrite decide_False by done. destruct Hwf as (buf & Hb & Hlt). by eapply read_message_ok.
Qed.

Lemma handle_request_args self cs inb sn cs' inb' ev sn' :
  handle_request self cs inb sn = Ok (HEvent cs' inb' ev, sn') -> ev_args ev = Some self.
Proof.
  unfold handle_request. case_decide; [|done]. destruct (read_header cs inb) as [[cs1 inb1]|]; [|done].
  unfold read_message. case_decide; [|done]. destruct (cs_read_buf cs1); [|done].
  destruct (_ =? _); [|done]. destruct (parseEvent _ _ _) as [[ev1|] sn1]; [|done]. by intros [= <- <- <- <-].
Qed.

Definition net_wf (nt : net) : Prop := match n_conn nt with Some (cs, _) => session_wf cs | None => True end.

Lemma receive_ok self nt c : net_wf nt -> exists nt', receive self nt c = Ok nt' /\ net_wf nt'.
Proof.
  unfold net_wf, receive. destruct (n_conn nt) as [[cs inb]|] eqn:E; [|intros _; eexists; split; [reflexivity|]; by rewrite E].
  intros Hwf. destruct (handle_request_ok self cs (inb ++ c) (n_sn nt) Hwf) as (o & sn' & -> & Hg).
  eexists. split; [reflexivity|]. destruct o; cbn [fst snd n_conn] in *; [done|by apply Hg|].
  unfold session_wf. destruct Hg as (_ & -> & _). done.
Qed.

Lemma receive_app self nt c1 c2 :
  net_wf nt -> receive self nt (c1 ++ c2) = rbind (receive self nt c1) (fun nt' => receive self nt' c2).
Proof.
  unfold net_wf, receive. destruct (n_conn nt) as [[cs inb]|] eqn:E; [|intros _; cbn [rbind]; by rewrite E].
  intros Hwf. rewrite app_assoc, handle_request_split by done.
  destruct (handle_request_ok self cs (inb ++ c1) (n_sn nt) Hwf) as (o & sn' & -> & Hg).
  destruct o as [|cs' inb'|cs' inb' ev]; cbn [rbind then_more fst snd n_conn n_sn n_events]; [done|done|].
  destruct Hg as (_ & Hs & _). unfold handle_request. by rewrite decide_False by congruence.
Qed.

Lemma receive_all_concat self nt c chunks :
  net_wf nt -> receive_all self nt (c :: chunks) = receive self nt (c ++ concat chunks).
Proof.
  revert nt c. induction chunks as [|c' chunks IH]; intros nt c Hwf; cbn [receive_all concat].
  - rewrite app_nil_r. by destruct (receive self nt c).
  - rewrite receive_app by done. destruct (receive_ok self nt c Hwf) as (nt' & -> & Hwf'). cbn [rbind].
    by rewrite <- IH.
Qed.

(** ** Frames *)

Definition legacy_frame (eid : Z) (payload : list byte) : list byte :=
  kFrameMagic ++ le2 eid ++ le4 (size_of payload) ++ payload.

Lemma length_legacy_frame eid payload :
  length (legacy_frame eid payload) = (MESSAGE_HEADER_LEN + length payload)%nat.
Proof. reflexivity. Qed.

(** The session while its request is being processed. *)
Definition in_process (self : nat) (eid : Z) (payload : list byte) (ev : iEevent) : ConnectSession :=
  mkSession SS_RESPONSE (Some (set_args (Some self) ev)) MS_READ_MESSAGE None eid (size_of payload) None
            (kFrameMagic ++ le2 eid ++ le4 (size_of payload)) None 0.

Lemma handle_frame self cs eid payload rest sn :
  session_reset cs = cs -> 0 <= eid < 2 ^ 16 -> 1 <= size_of payload <= MAX_MESSAGE_LEN ->
  handle_request self cs (legacy_frame eid payload ++ rest) sn =
  Ok (match parseEvent (Some payload) eid sn with
      | (Some ev, sn') =>
          (HEvent (in_process self eid payload ev) rest (set_args (Some self) ev), sn')
      | (None, sn') => (HClosed, sn')
      end).
Proof.
  intros <- He Hl. set (h := kFrameMagic ++ le2 eid ++ le4 (size_of payload)).
  assert (Hf : legacy_frame eid payload ++ rest = h ++ payload ++ rest) by (unfold legacy_frame, h; by rewrite <- !app_assoc).
  rewrite Hf. unfold handle_request. rewrite decide_True by done. unfold read_header.
  rewrite decide_True by done. cbn [session_reset cs_header length].
  change (MESSAGE_HEADER_LEN - 0)%nat with (length h). rewrite take_app_length, drop_app_length.
  cbn [app]. rewrite decide_True by done.
  assert (Hid : header_id_ok h = true) by (by apply bool_decide_eq_true_2). rewrite Hid.
  assert (Heid : get_u16_le (drop 4 h) = eid) by (apply (get_put_u16 eid (le4 (size_of payload))); lia).
  assert (Hlen : u32 (get_i32_le (drop 6 h)) = size_of payload).
  { change (drop 6 h) with (le4 (size_of payload)). rewrite get_i32_u32, u32_i32.
    rewrite <- (app_nil_r (le4 _)), get_put_u32 by (unfold MAX_MESSAGE_LEN in *; lia).
    apply u32_small. unfold MAX_MESSAGE_LEN in *. lia. }
  rewrite Heid, Hlen.
  replace ((size_of payload <? 1) || (size_of payload >? MAX_MESSAGE_LEN)) with false
    by (symmetry; apply orb_false_iff; split; [lia|rewrite Z.gtb_ltb; lia]).
  unfold read_message. cbn [req_stat cs_read_buf message_len length cs_eid].
  assert (Hp : (0 < length payload)%nat) by (unfold size_of in Hl; lia).
  rewrite decide_True by (split; [done|rewrite length_app; lia]).
  replace (Z.to_nat (size_of payload - Z.of_nat 0)) with (length payload) by (unfold size_of; lia).
  rewrite take_app_length, drop_app_length. cbn [app].
  replace (Z.of_nat (length payload) =? size_of payload) with true by (symmetry; apply Z.eqb_refl).
  destruct (parseEvent (Some payload) eid sn) as [[ev|] sn']; done.
Qed.

(** C38: however the bytes of a request arrive in pieces, the session puts
    exactly the event of the payload into the pool and leaves the bytes behind
    the frame in the input buffer; a payload that does not parse, or an event
    the server does not know, closes the connection. *)
Theorem legacy_reassembly self eid payload rest sn chunks :
  0 <= eid < 2 ^ 16 -> 1 <= size_of payload <= MAX_MESSAGE_LEN ->
  concat chunks = legacy_frame eid payload ++ rest ->
  receive_all self (mkNet (Some (session_init, [])) sn []) chunks =
  Ok (match parseEvent (Some payload) eid sn with
      | (Some ev, sn') =>
          mkNet (Some (in_process self eid payload ev, rest)) sn' [set_args (Some self) ev]
      | (None, sn') => mkNet None sn' []
      end).
Proof.
  intros He Hl Hc. destruct chunks as [|c chunks]; [done|].
  rewrite receive_all_concat by exact session_init_wf. cbn [concat] in Hc. rewrite Hc.
  unfold receive. cbn [n_conn n_sn n_events app]. rewrite handle_frame by done. cbn [rbind fst snd].
  by destruct (parseEvent (Some payload) eid sn) as [[ev|] sn'].
Qed.

(** A complete header with a wrong identifier or a length outside 1 to
    MAX_MESSAGE_LEN closes the connection, in whatever pieces it arrives. *)
Theorem legacy_bad_header self h rest sn chunks :
  length h = MESSAGE_HEADER_LEN -> concat chunks = h ++ rest ->
  header_id_ok h = false \/ u32 (get_i32_le (drop 6 h)) < 1 \/ MAX_MESSAGE_LEN < u32 (get_i32_le (drop 6 h)) ->
  receive_all self (mkNet (Some (session_init, [])) sn []) chunks = Ok (mkNet None sn []).
Proof.
  intros Hh Hc Hbad. destruct chunks as [|c chunks]; [by destruct h|].
  rewrite receive_all_concat by exact session_init_wf. cbn [concat] in Hc. rewrite Hc.
  unfold receive. cbn [n_conn n_sn n_events app]. unfold handle_request. rewrite decide_True by done.
  unfold read_header. rewrite decide_True by done. cbn [session_init cs_header length].
  rewrite Nat.sub_0_r, <- Hh, take_app_length, drop_app_length. cbn [app].
  rewrite decide_True by done. destruct (header_id_ok h) eqn:Ei; [|done].
  destruct ((u32 (get_i32_le (drop 6 h)) <? 1) || (u32 (get_i32_le (drop 6 h)) >? MAX_MESSAGE_LEN)) eqn:El; [done|].
  exfalso. destruct Hbad as [?|Hbad]; [done|]. apply orb_false_iff in El as [E1 E2].
  rewrite Z.gtb_ltb in E2. apply Z.ltb_ge in E1, E2. lia.
Qed.

(** The bytes sent for a response are a frame of the same format around its
    serialisation, and the session is ready for the next request. *)
Lemma response_frame cs ev eid body :
  serialize (ev_msg ev) = Ok body -> 0 <= eid < 2 ^ 16 -> size_of body <= INT_MAX ->
  rbind (AssembleHB cs ev eid) send_response_message =
  Ok (Some (legacy_frame eid body), session_reset cs).
Proof.
  intros Hs He Hl. unfold AssembleHB. rewrite Hs. cbn [rbind].
  unfold send_response_message. cbn [cs_response cs_write_buf message_len].
  unfold INT_MAX, size_of in Hl. rewrite u16_small, u32_small by lia.
  fold (size_of body). fold (legacy_frame eid body). rewrite length_legacy_frame.
  rewrite (proj2 (Z.ltb_ge _ _)) by (unfold size_of; lia).
  rewrite take_ge by (rewrite length_legacy_frame; unfold size_of; lia). done.
Qed.

End Net.

(** ** A concrete instance *)

(** A message is the text itself; a login carries the code 100007. *)
Definition demo_pb : LegacyPb := {|
  parse_mobile_request := fun bs => Some (map ascii_of_byte bs);
  parse_login_request := fun bs => Some (map ascii_of_byte bs, 100007);
  ser_mobile_request := map byte_of_ascii;
  ser_login_request := fun m _ => map byte_of_ascii m;
  ser_mobile_response := fun code icode _ => le4 code ++ le4 icode;
  ser_login_response := fun code _ => le4 code |}.

#[local] Existing Instance demo_pb.

Lemma legacy_reassembly_witness :
  receive_all 5 (mkNet (Some (session_init, [])) 0 [])
    [[x46; x42]; [x45; x42; x01; x00; x02; x00]; [x00; x00; x31]; [x32; x46]] =
  Ok (mkNet (Some (in_process 5 1 [x31; x32] (mkEvent (MobileCodeReqEv ["1"%char; "2"%char]) 0 None), [x46])) 1
            [mkEvent (MobileCodeReqEv ["1"%char; "2"%char]) 0 (Some 5%nat)]).
Proof.
  refine (legacy_reassembly 5 1 [x31; x32] [x46] 0 _ _ _ _).
  - lia.
  - unfold MAX_MESSAGE_LEN, size_of. cbn [length]. lia.
  - reflexivity.
Defined.
