(* ===== verification/LegacyServer.v ===== *)
(** * The former server (legacy/DispatchMsgService.cpp, user_event_handler.cpp,
      user_service.cpp, sqlConnection.cpp, BusinessProcessor.cpp, Sqltables.h,
      iniconfig.cpp, main.cpp)

    Sessions are heap objects reached by address; an event carries the address
    of its session through the thread pool and the response queue.  [sstep] is
    one action of the server: a connection is accepted, receives bytes or
    breaks, a worker completes a task, the main loop sends the responses.  The
    thread pool itself is LegacyPool; here its contract is used, that each task
    posted is run once, and the workers may complete in any order. *)

From S2P Require Import Prelude Protocol Double Common CText LegacyNet.
From Stdlib Require Import Ascii.

(** ** Database *)

(** libmysqlclient: mysql_init, mysql_real_connect and the outcome of a
    statement: an error, no result set, or a number of rows. *)
Inductive sql_reply : Type := SqlError | SqlDone | SqlRows (n : Z).

Class LegacyMysql (DB : Type) : Type := {
  mysql_init : bool;
  mysql_connect : DB -> bool;
  mysql_query : text -> DB -> sql_reply * DB }.

(** srand and rand: the first number after seeding with a time. *)
Class LegacyRand : Type := { first_rand : Z -> Z }.

Section Server.

Context {DB : Type} `{!LegacyPb} `{!LegacyMysql DB} `{!LegacyRand}.

Definition sql_init (db : DB) : bool := mysql_init && mysql_connect db.

Definition Execute (sql : text) (db : DB) : bool * DB :=
  match mysql_query sql db with
  | (SqlError, db') => (false, db')
  | (_, db') => (true, db')
  end.

(** With a record set: the row count, or [None] for [false]. *)
Definition Execute_rows (sql : text) (db : DB) : option Z * DB :=
  match mysql_query sql db with
  | (SqlRows n, db') => (Some n, db')
  | (_, db') => (None, db')
  end.

(** [sprintf(sql_content, ...)] into [char sql_content\[1024\]]. *)
Definition sprintf1024 (t : text) : result text :=
  if (length t <? 1024)%nat then Ok t else Err (UndefinedBehaviour "sql_content overflow").

Definition exist_sql (mobile : text) : text :=
  txt "SELECT * FROM userinfo WHERE mobile = " ++ cstr mobile.
Definition insert_sql (mobile : text) : text :=
  txt "INSERT INTO userinfo (mobile) VALUES (" ++ cstr mobile ++ txt ")".

Definition us_exist (mobile : text) (db : DB) : result (bool * DB) :=
  try! sql := sprintf1024 (exist_sql mobile) in
  let '(rows, db') := Execute_rows sql db in
  Ok (match rows with None => false | Some n => negb (n =? 0) end, db').

Definition us_insert (mobile : text) (db : DB) : result (bool * DB) :=
  try! sql := sprintf1024 (insert_sql mobile) in Ok (Execute sql db).

(** ** UserEventHandler *)

(** [now] is [time(NULL)]. *)
Definition code_gen (now : Z) : Z := first_rand (u32 now) mod (999999 - 100000) + 100000.

Abbreviation codes := (gmap (list ascii) Z).

Definition handle_mobile_code_req (now : Z) (mobile : text) (m2c : codes) : message * codes :=
  let icode := code_gen now in (MobileCodeRspEv ERRC_SUCCESS icode, <[mobile := icode]> m2c).

Definition handle_login_req (mobile : text) (icode : Z) (m2c : codes) (db : DB) : result (message * DB) :=
  match m2c !! mobile with
  | None => Ok (LoginRspEv ERRC_INVALID_DATA, db)
  | Some c =>
      if negb (icode =? c) then Ok (LoginRspEv ERRC_INVALID_DATA, db)
      else if negb (sql_init db) then Ok (LoginRspEv ERRO_PROCCESS_FAILED, db)
      else
        try! e := us_exist mobile db in
        if negb (fst e) then
          try! i := us_insert mobile (snd e) in
          if negb (fst i) then Ok (LoginRspEv ERRO_PROCCESS_FAILED, snd i)
          else Ok (LoginRspEv ERRC_SUCCESS, snd i)
        else Ok (LoginRspEv ERRC_SUCCESS, snd e)
  end.

(** UserEventHandler::handle. *)
Definition user_handle (now : Z) (ev : iEevent) (st : codes * DB)
  : result (option message * (codes * DB)) :=
  match ev_msg ev with
  | MobileCodeReqEv mobile =>
      let '(rsp, m2c') := handle_mobile_code_req now mobile (fst st) in Ok (Some rsp, (m2c', snd st))
  | LoginReqEv mobile icode =>
      try! r := handle_login_req mobile icode (fst st) (snd st) in
      Ok (Some (fst r), (fst st, snd r))
  | _ => Ok (None, st)
  end.

(** ** DispatchMsgService *)

(** Handlers are known by their address; an id without subscribers is absent. *)
Abbreviation subs := (gmap Z (list nat)).

Definition subscribe (eid : Z) (h : nat) (m : subs) : subs :=
  match m !! eid with
  | Some l => if decide (h ∈ l) then m else <[eid := l ++ [h]]> m
  | None => <[eid := [h]]> m
  end.

Fixpoint erase (h : nat) (l : list nat) : list nat :=
  match l with
  | [] => []
  | x :: l => if decide (x = h) then l else x :: erase h l
  end.

Definition unsubscribe (eid : Z) (h : nat) (m : subs) : subs :=
  match m !! eid with
  | Some l => <[eid := erase h l]> m
  | None => m
  end.

(** UserEventHandler::UserEventHandler and its destructor; the handler of the
    program has address 1. *)
Definition user_handler : nat := 1.
Definition UserEventHandler_ctor (m : subs) : subs :=
  subscribe EVENTID_LOGIN_REQ user_handler (subscribe EVENTID_GET_MOBILE_CODE_REQ user_handler m).
Definition UserEventHandler_dtor (m : subs) : subs :=
  unsubscribe EVENTID_LOGIN_REQ user_handler (unsubscribe EVENTID_GET_MOBILE_CODE_REQ user_handler m).

(** [handler->handle(ev)]; a handler that is not the UserEventHandler is the
    base class, whose handle returns NULL. *)
Definition handler_handle (h : nat) (now : Z) (ev : iEevent) (st : codes * DB)
  : result (option message * (codes * DB)) :=
  if decide (h = user_handler) then user_handle now ev st else Ok (None, st).

Fixpoint run_handlers (hs : list nat) (now : Z) (ev : iEevent) (rsp : option message) (st : codes * DB)
  : result (option message * (codes * DB)) :=
  match hs with
  | [] => Ok (rsp, st)
  | h :: hs =>
      try! r := handler_handle h now ev st in run_handlers hs now ev (fst r) (snd r)
  end.

Definition process (m : subs) (now : Z) (ev : iEevent) (st : codes * DB)
  : result (option message * (codes * DB)) :=
  if get_eid ev =? EVENTID_UNKNOWN then Ok (None, st)
  else
    match m !! get_eid ev with
    | None => Ok (None, st)
    | Some hs => run_handlers hs now ev None st
    end.

(** ** The server *)

Record server : Type := mkServer {
  v_sessions : gmap nat (ConnectSession * list byte);
  v_tasks : list iEevent;       (* posted to the pool and not completed *)
  v_responses : list iEevent;   (* response_events *)
  v_sn : Z; v_subs : subs; v_codes : codes; v_db : DB;
  v_exit : bool;                (* svr_exit_ *)
  v_wire : list (nat * list byte) }.

Definition set_sessions (f : gmap nat (ConnectSession * list byte)) (s : server) : server :=
  mkServer f (v_tasks s) (v_responses s) (v_sn s) (v_subs s) (v_codes s) (v_db s) (v_exit s) (v_wire s).

Definition freed {A} : result A := Err (UndefinedBehaviour "use of a freed session").

(** DispatchMsgService::svc on the event, as a worker runs it at time [now]. *)
Definition svc (now : Z) (ev : iEevent) (s : server) : result server :=
  if v_exit s then Ok s
  else
    try! r := process (v_subs s) now ev (v_codes s, v_db s) in
    let msg := match fst r with Some m => m | None => ExitRspEv end in
    let '(rsp, sn') := new_event msg (v_sn s) in
    Ok (mkServer (v_sessions s) (v_tasks s) (v_responses s ++ [set_args (ev_args ev) rsp]) sn'
                 (v_subs s) (fst (snd r)) (snd (snd r)) (v_exit s) (v_wire s)).

(** send_response_message on the session at address [a]. *)
Definition send (a : nat) (cs : ConnectSession) (inb : list byte) (s : server) : result server :=
  try! r := send_response_message cs in
  match fst r with
  | None => Ok (set_sessions (delete a (v_sessions s)) s)
  | Some w =>
      Ok (mkServer (<[a := (snd r, inb)]> (v_sessions s)) (v_tasks s) (v_responses s) (v_sn s)
                   (v_subs s) (v_codes s) (v_db s) (v_exit s) (v_wire s ++ [(a, w)]))
  end.

(** The body of the loop of handleAllResponseEvent. *)
Definition answer (ev : iEevent) (s : server) : result server :=
  let eid := get_eid ev in
  if (eid =? EVENTID_GET_MOBILE_CODE_RSP) || (eid =? EVENTID_EXIT_RSP) || (eid =? EVENTID_LOGIN_RSP) then
    match ev_args ev with
    | None => freed
    | Some a =>
        match v_sessions s !! a with
        | None => freed
        | Some (cs, inb) =>
            if eid =? EVENTID_EXIT_RSP then
              send a (mkSession (session_stat cs) (cs_request cs) (req_stat cs) (Some ev) (cs_eid cs)
                                (message_len cs) (cs_read_buf cs) (cs_header cs) (cs_write_buf cs)
                                (sent_len cs)) inb s
            else
              try! cs' := AssembleHB cs ev eid in send a cs' inb s
        end
    end
  else Ok s.

Fixpoint answer_all (evs : list iEevent) (s : server) : result server :=
  match evs with
  | [] => Ok s
  | ev :: evs => try! s' := answer ev s in answer_all evs s'
  end.

Definition handleAllResponseEvent (s : server) : result server :=
  answer_all (v_responses s)
    (mkServer (v_sessions s) (v_tasks s) [] (v_sn s) (v_subs s) (v_codes s) (v_db s) (v_exit s) (v_wire s)).

(** The read callback on the session at [a]; [posted] is whether enqueue put
    the task into the pool, which handle_request does not look at. *)
Definition on_read (a : nat) (chunk : list byte) (posted : bool) (cs : ConnectSession) (inb : list byte)
    (s : server) : result server :=
  try! r := handle_request a cs (inb ++ chunk) (v_sn s) in
  let ss := v_sessions s in
  Ok (match fst r with
      | HClosed =>
          mkServer (delete a ss) (v_tasks s) (v_responses s) (snd r) (v_subs s) (v_codes s) (v_db s)
                   (v_exit s) (v_wire s)
      | HOpen cs' inb' =>
          mkServer (<[a := (cs', inb')]> ss) (v_tasks s) (v_responses s) (snd r) (v_subs s) (v_codes s)
                   (v_db s) (v_exit s) (v_wire s)
      | HEvent cs' inb' ev =>
          mkServer (<[a := (cs', inb')]> ss) (v_tasks s ++ (if posted then [ev] else [])) (v_responses s)
                   (snd r) (v_subs s) (v_codes s) (v_db s) (v_exit s) (v_wire s)
      end).

(** listener_cb: a session for the connection, at the address [new] returns. *)
Definition listener_cb (a : nat) (s : server) : server :=
  set_sessions (<[a := (session_init, [])]> (v_sessions s)) s.

(** bufferevent_free and session_free. *)
Definition session_free (a : nat) (ss : gmap nat (ConnectSession * list byte))
  : gmap nat (ConnectSession * list byte) := delete a ss.

(** handle_error: end of file, timeout or an error on the socket. *)
Definition handle_error (a : nat) (s : server) : server :=
  set_sessions (session_free a (v_sessions s)) s.

Inductive slabel : Type :=
| SAccept (a : nat)
| SData (a : nat) (chunk : list byte) (posted : bool)
| SError (a : nat)
| SWork (i : nat) (now : Z)
| SRespond.

Definition sstep (l : slabel) (s : server) : option (result server) :=
  match l with
  | SAccept a =>
      match v_sessions s !! a with
      | Some _ => None
      | None => Some (Ok (listener_cb a s))
      end
  | SData a chunk posted =>
      match v_sessions s !! a with
      | None => None
      | Some (cs, inb) => Some (on_read a chunk posted cs inb s)
      end
  | SError a =>
      match v_sessions s !! a with
      | None => None
      | Some _ => Some (Ok (handle_error a s))
      end
  | SWork i now =>
      match v_tasks s !! i with
      | None => None
      | Some ev =>
          Some (svc now ev (mkServer (v_sessions s) (delete i (v_tasks s)) (v_responses s) (v_sn s)
                                     (v_subs s) (v_codes s) (v_db s) (v_exit s) (v_wire s)))
      end
  | SRespond => Some (handleAllResponseEvent s)
  end.

Fixpoint srun (ls : list slabel) (s : server) : option (result server) :=
  match ls with
  | [] => Some (Ok s)
  | l :: ls =>
      match sstep l s with
      | Some (Ok s') => srun ls s'
      | o => o
      end
  end.

(** network_event_dispatch: the callbacks that are due, then the responses. *)
Definition network_event_dispatch (callbacks : list slabel) (s : server) : option (result server) :=
  srun (callbacks ++ [SRespond]) s.

(** The server as main leaves it before the loop. *)
Definition server0 (db : DB) : server :=
  mkServer ∅ [] [] 0 (UserEventHandler_ctor ∅) ∅ db false [].

(** ** Outstanding requests *)

Implicit Types ss : gmap nat (ConnectSession * list byte).

Definition busy (ss : gmap nat (ConnectSession * list byte)) (a : nat) : Prop :=
  exists cs inb, ss !! a = Some (cs, inb) /\ session_stat cs = SS_RESPONSE.

Definition session_ok (x : ConnectSession * list byte) : Prop :=
  session_wf (fst x) /\ cs_response (fst x) = None /\ cs_write_buf (fst x) = None.

(** The events on their way through pool and response queue are those of the
    sessions that wait for a response, one each. *)
Record out_inv (ss : gmap nat (ConnectSession * list byte)) (evs : list iEevent) : Prop := mkOut {
  out_busy : forall a, Some a ∈ map ev_args evs <-> busy ss a;
  out_nodup : NoDup (map ev_args evs);
  out_none : None ∉ map ev_args evs;
  out_ok : forall a x, ss !! a = Some x -> session_ok x }.

Lemma out_perm ss evs evs' : evs ≡ₚ evs' -> out_inv ss evs -> out_inv ss evs'.
Proof.
  intros Hp [Hb Hn Ho Hk].
  assert (E : map ev_args evs ≡ₚ map ev_args evs') by (by apply Permutation_map).
  constructor; [intros a; by rewrite <- E|by rewrite <- E|by rewrite <- E|done].
Qed.

Lemma busy_insert_ne ss a b x : a <> b -> busy (<[a := x]> ss) b <-> busy ss b.
Proof. intros. unfold busy. by rewrite lookup_insert_ne. Qed.
Lemma busy_delete_ne ss a b : a <> b -> busy (delete a ss) b <-> busy ss b.
Proof. intros. unfold busy. by rewrite lookup_delete_ne. Qed.
Lemma busy_insert_eq ss a cs inb : busy (<[a := (cs, inb)]> ss) a <-> session_stat cs = SS_RESPONSE.
Proof.
  unfold busy. rewrite lookup_insert_eq. split; [by intros (? & ? & [= <- <-] & ?)|eauto].
Qed.

Lemma ok_insert ss a y :
  session_ok y -> (forall b x, ss !! b = Some x -> session_ok x) ->
  forall b x, <[a := y]> ss !! b = Some x -> session_ok x.
Proof. intros Hy Hk b x [[-> <-]|[_ Hx]]%lookup_insert_Some; [done|by apply (Hk b)]. Qed.

(** An idle session changes or appears. *)
Lemma out_idle ss evs a cs inb :
  out_inv ss evs -> ~ busy ss a -> session_stat cs = SS_REQUEST -> session_ok (cs, inb) ->
  out_inv (<[a := (cs, inb)]> ss) evs.
Proof.
  intros [Hb Hn Ho Hk] Hna Hs Hok. constructor; [|done|done|by apply ok_insert].
  intros b. rewrite Hb. destruct (decide (a = b)) as [->|Hab]; [|by rewrite busy_insert_ne].
  rewrite busy_insert_eq, Hs. split; [by intros ?|done].
Qed.

(** An idle session is freed. *)
Lemma out_free ss evs a : out_inv ss evs -> ~ busy ss a -> out_inv (delete a ss) evs.
Proof.
  intros [Hb Hn Ho Hk] Hna. constructor; [|done|done|].
  - intros b. rewrite Hb. destruct (decide (a = b)) as [->|Hab]; [|by rewrite busy_delete_ne].
    split; [by intros ?|]. intros (? & ? & Hx & _). by rewrite lookup_delete_eq in Hx.
  - intros b x [_ Hx]%lookup_delete_Some. by apply (Hk b).
Qed.

(** A request is complete. *)
Lemma out_start ss evs a cs inb ev :
  out_inv ss evs -> ~ busy ss a -> session_stat cs = SS_RESPONSE -> session_ok (cs, inb) ->
  ev_args ev = Some a -> out_inv (<[a := (cs, inb)]> ss) (ev :: evs).
Proof.
  intros [Hb Hn Ho Hk] Hna Hs Hok He. constructor; cbn [map]; rewrite ?He.
  - intros b. rewrite elem_of_cons, Hb. destruct (decide (a = b)) as [->|Hab].
    + rewrite busy_insert_eq. tauto.
    + rewrite busy_insert_ne by done. split; [intros [[= ->]|?]; done|auto].
  - constructor; [by rewrite Hb|done].
  - rewrite not_elem_of_cons. done.
  - by apply ok_insert.
Qed.

(** Its response is sent. *)
Lemma out_finish ss evs a cs inb ev :
  out_inv ss (ev :: evs) -> ev_args ev = Some a -> session_stat cs = SS_REQUEST -> session_ok (cs, inb) ->
  out_inv (<[a := (cs, inb)]> ss) evs.
Proof.
  intros [Hb Hn Ho Hk] He Hs Hok. cbn [map] in *. rewrite He in *.
  apply NoDup_cons in Hn as [Hna Hn]. apply not_elem_of_cons in Ho as [_ Ho].
  constructor; [|done|done|by apply ok_insert].
  intros b. destruct (decide (a = b)) as [->|Hab].
  - rewrite busy_insert_eq, Hs. split; [done|by intros ?].
  - rewrite busy_insert_ne by done. rewrite <- Hb, elem_of_cons. split; [auto|intros [[= ->]|?]; done].
Qed.

Lemma out_swap ss evs ev ev' :
  ev_args ev' = ev_args ev -> out_inv ss (ev :: evs) -> out_inv ss (ev' :: evs).
Proof. intros E [Hb Hn Ho Hk]. cbn [map] in *. by constructor; cbn [map]; rewrite ?E. Qed.

Lemma scan_table_ok sentinel key t :
  sentinel ∈ map fst t -> exists v, scan_table sentinel key t = Ok v.
Proof.
  induction t as [|[k v] t IH]; cbn [map fst scan_table]; [by intros ?%not_elem_of_nil|].
  intros [->|Hin]%elem_of_cons; [rewrite Z.eqb_refl; eauto|].
  destruct (k =? sentinel); [eauto|]. destruct (k =? key); eauto.
Qed.

Lemma serialize_ok msg : exists body, serialize msg = Ok body.
Proof.
  destruct msg as [m|i c|m i|c|]; cbn [serialize]; eauto.
  - destruct (scan_table_ok ERR_NULL i EER) as [v Hv]; [by repeat constructor|].
    unfold getReasonByErrorCode. rewrite Hv. eauto.
  - destruct (scan_table_ok ERR_NULL c EER) as [v Hv]; [by repeat constructor|].
    unfold getReasonByErrorCode. rewrite Hv. eauto.
Qed.

Definition is_answer (ev : iEevent) : Prop :=
  get_eid ev = EVENTID_GET_MOBILE_CODE_RSP \/ get_eid ev = EVENTID_LOGIN_RSP.
Definition is_request (ev : iEevent) : Prop :=
  get_eid ev = EVENTID_GET_MOBILE_CODE_REQ \/ get_eid ev = EVENTID_LOGIN_REQ.

(** A response whose session is alive is sent to it. *)
Lemma answer_ok ev s evs :
  is_answer ev -> out_inv (v_sessions s) (ev :: evs) ->
  exists a cs inb w, ev_args ev = Some a /\ v_sessions s !! a = Some (cs, inb) /\
    answer ev s = Ok (mkServer (<[a := (session_reset cs, inb)]> (v_sessions s)) (v_tasks s) (v_responses s)
                               (v_sn s) (v_subs s) (v_codes s) (v_db s) (v_exit s) (v_wire s ++ [(a, w)])) /\
    out_inv (<[a := (session_reset cs, inb)]> (v_sessions s)) evs.
Proof.
  intros Ha Hinv. destruct (ev_args ev) as [a|] eqn:Ea.
  2: { exfalso. apply (out_none _ _ Hinv). cbn [map]. rewrite Ea. apply elem_of_cons. auto. }
  destruct (proj1 (out_busy _ _ Hinv a)) as (cs & inb & Hss & Hst).
  { cbn [map]. rewrite Ea. apply elem_of_cons. auto. }
  destruct (serialize_ok (ev_msg ev)) as [body Hb].
  unfold answer. rewrite Ea, Hss.
  assert (Hpre : (get_eid ev =? EVENTID_GET_MOBILE_CODE_RSP) || (get_eid ev =? EVENTID_EXIT_RSP) ||
                 (get_eid ev =? EVENTID_LOGIN_RSP) = true /\ (get_eid ev =? EVENTID_EXIT_RSP) = false)
    by (by destruct Ha as [-> | ->]).
  destruct Hpre as [-> ->]. unfold AssembleHB. rewrite Hb. cbn [rbind].
  unfold send, send_response_message. cbn [cs_response cs_write_buf message_len].
  set (len := u32 (Z.of_nat (length body))).
  assert (Hlen : 0 <= len <= Z.of_nat (length body)).
  { unfold len, u32. split; [apply Z.mod_pos_bound; lia|apply Z.mod_le; lia]. }
  rewrite (proj2 (Z.ltb_ge _ _)).
  2: { rewrite !length_app. change (length kFrameMagic) with 4%nat. change (length (le2 _)) with 2%nat.
       change (length (le4 _)) with 4%nat. unfold MESSAGE_HEADER_LEN. lia. }
  cbn [rbind fst snd]. eexists a, cs, inb, _. split_and!; [done|done|reflexivity|].
  eapply out_finish; [done|done|done|]. split_and!; [apply session_reset_wf|done|done].
Qed.

(** ** The server invariant *)

Record sinv (s : server) : Prop := mkSinv {
  si_out : out_inv (v_sessions s) (v_tasks s ++ v_responses s);
  si_tasks : Forall is_request (v_tasks s);
  si_responses : Forall is_answer (v_responses s);
  si_subs : v_subs s = UserEventHandler_ctor ∅;
  si_exit : v_exit s = false }.

(** No connection breaks while its request is being processed, and the pool
    takes every task. *)
Definition calm (l : slabel) (s : server) : Prop :=
  match l with
  | SError a => ~ busy (v_sessions s) a
  | SData _ _ posted => posted = true
  | _ => True
  end.

Definition mobile_fits (ev : iEevent) : Prop :=
  match ev_msg ev with LoginReqEv m _ => (length (cstr m) <= 984)%nat | _ => True end.

Lemma answer_all_ok evs : forall s,
  Forall is_answer evs -> out_inv (v_sessions s) (v_tasks s ++ evs) ->
  exists s', answer_all evs s = Ok s' /\ out_inv (v_sessions s') (v_tasks s) /\
    v_tasks s' = v_tasks s /\ v_responses s' = v_responses s /\ v_subs s' = v_subs s /\ v_exit s' = v_exit s.
Proof.
  induction evs as [|ev evs IH]; intros s Ha Hout; cbn [answer_all].
  - exists s. rewrite app_nil_r in Hout. by split_and!.
  - apply Forall_cons in Ha as [Hev Ha].
    destruct (answer_ok ev s (v_tasks s ++ evs)) as (a & cs & inb & w & _ & _ & -> & Hout'); [done| |].
    { eapply out_perm, Hout. solve_Permutation. }
    cbn [rbind]. match goal with |- context [answer_all evs ?x] => destruct (IH x) as (s' & H1 & H2 & H3 & H4 & H5 & H6) end;
      [done|exact Hout'|].
    exists s'. by split_and!.
Qed.

Lemma sprintf_fits t : (length t < 1024)%nat -> sprintf1024 t = Ok t.
Proof. intros Ht. unfold sprintf1024. by rewrite (proj2 (Nat.ltb_lt _ _) Ht). Qed.

Lemma length_sqls mobile :
  length (exist_sql mobile) = (38 + length (cstr mobile))%nat /\
  length (insert_sql mobile) = (39 + length (cstr mobile))%nat.
Proof.
  unfold exist_sql, insert_sql. rewrite !length_app.
  change (length (txt "SELECT * FROM userinfo WHERE mobile = ")) with 38%nat.
  change (length (txt "INSERT INTO userinfo (mobile) VALUES (")) with 38%nat.
  change (length (txt ")")) with 1%nat. lia.
Qed.

(** Login answers unless a statement outgrows its buffer. *)
Lemma handle_login_cases mobile icode m2c db :
  (exists code db', handle_login_req mobile icode m2c db = Ok (LoginRspEv code, db')) \/
  ((984 < length (cstr mobile))%nat /\ exists e, handle_login_req mobile icode m2c db = Err e).
Proof.
  destruct (length_sqls mobile) as [H1 H2]. unfold handle_login_req.
  destruct (m2c !! mobile) as [c|]; [|eauto]. destruct (negb (icode =? c)); [eauto|].
  destruct (negb (sql_init db)); [eauto|]. unfold us_exist, us_insert.
  destruct (decide (length (cstr mobile) <= 984)%nat) as [Hl|Hl].
  - left. rewrite !sprintf_fits by lia. cbn [rbind].
    destruct (Execute_rows (exist_sql mobile) db) as [o db1]. cbn [rbind fst snd].
    destruct (negb _); [|eauto]. destruct (Execute _ db1) as [ok db2]. cbn [fst snd].
    destruct (negb ok); eauto.
  - unfold sprintf1024. rewrite H1, H2.
    destruct (38 + length (cstr mobile) <? 1024)%nat; cbn [rbind]; [|right; split; [lia|eauto]].
    destruct (Execute_rows (exist_sql mobile) db) as [o db1]. cbn [rbind fst snd].
    destruct (negb _); [|eauto].
    rewrite (proj2 (Nat.ltb_ge _ _)) by lia. cbn [rbind]. right. split; [lia|eauto].
Qed.

Lemma ctor_lookup ev : is_request ev -> UserEventHandler_ctor ∅ !! get_eid ev = Some [user_handler].
Proof. by intros [-> | ->]. Qed.

Lemma process_ok now ev st :
  is_request ev ->
  (exists msg st', process (UserEventHandler_ctor ∅) now ev st = Ok (Some msg, st') /\
     (forall sn a, is_answer (mkEvent msg sn a))) \/
  (~ mobile_fits ev /\ exists e, process (UserEventHandler_ctor ∅) now ev st = Err e).
Proof.
  intros Hr. unfold process. rewrite ctor_lookup by done.
  replace (get_eid ev =? EVENTID_UNKNOWN) with false by (by destruct Hr as [-> | ->]).
  cbn [run_handlers]. unfold handler_handle. rewrite decide_True by done.
  unfold user_handle, mobile_fits. unfold is_request, get_eid in Hr.
  destruct (ev_msg ev) as [m|i c|m icode|c|]; try (by destruct Hr).
  - left. cbn [handle_mobile_code_req rbind fst snd]. eexists _, _. split; [reflexivity|]. by left.
  - destruct (handle_login_cases m icode (fst st) (snd st)) as [(code & db' & ->)|(Hl & e & ->)].
    + left. cbn [rbind fst snd]. eexists _, _. split; [reflexivity|]. by right.
    + right. cbn [rbind]. split; [lia|eauto].
Qed.

Lemma sinv_work s i now ev r :
  sinv s -> v_tasks s !! i = Some ev -> sstep (SWork i now) s = Some r ->
  (exists s', r = Ok s' /\ sinv s') \/ (~ mobile_fits ev /\ exists e, r = Err e).
Proof.
  intros [Ho Ht Hr Hs He] Hi Hstep. cbn [sstep] in Hstep. rewrite Hi in Hstep. simplify_eq.
  pose proof (Forall_lookup_1 _ _ _ _ Ht Hi) as Hreq. unfold svc. cbn [v_exit v_subs v_codes v_db v_sn].
  rewrite He, Hs. destruct (process_ok now ev (v_codes s, v_db s) Hreq) as [(msg & st' & -> & Hans)|(Hf & e & ->)];
    [left|right; split; [done|by eexists]].
  cbn [rbind fst snd new_event generateSeqNo]. eexists. split; [reflexivity|].
  constructor; cbn [v_sessions v_tasks v_responses v_subs v_exit]; auto.
  - pose proof (Permutation_app_tail (v_responses s) (delete_Permutation _ _ _ Hi)) as Hp.
    apply (out_perm _ _ _ Hp) in Ho. rewrite app_assoc.
    eapply out_perm; [apply Permutation_cons_append|]. by eapply (out_swap _ _ ev).
  - by apply Forall_delete.
  - apply Forall_app. split; [done|]. constructor; [apply Hans|constructor].
Qed.

Lemma sinv_read s a chunk r :
  sinv s -> sstep (SData a chunk true) s = Some r -> exists s', r = Ok s' /\ sinv s'.
Proof.
  intros [Ho Ht Hr Hs He] Hstep. cbn [sstep] in Hstep.
  destruct (v_sessions s !! a) as [[cs inb]|] eqn:Hss; [|done]. simplify_eq.
  destruct (out_ok _ _ Ho a _ Hss) as (Hwf & Hre & Hwb). cbn [fst] in *. unfold on_read.
  destruct (handle_request_ok a cs (inb ++ chunk) (v_sn s) Hwf) as (o & sn' & -> & Hg).
  cbn [rbind fst snd]. eexists. split; [reflexivity|].
  assert (Hidle : session_stat cs = SS_REQUEST -> ~ busy (v_sessions s) a).
  { intros Hq (? & ? & Hx & Hb). rewrite Hss in Hx. simplify_eq. congruence. }
  destruct o as [|cs' inb'|cs' inb' ev]; constructor;
    cbn [v_sessions v_tasks v_responses v_subs v_exit good_outcome] in *; try done.
  - apply out_free; auto.
  - destruct Hg as (Hwf' & Hst & _ & Hr' & Hw'). destruct (session_stat cs) eqn:Hq.
    + apply out_idle; auto. split_and!; cbn [fst]; [done|congruence|congruence].
    + assert (Ecs : Some a ∈ map ev_args (v_tasks s ++ v_responses s))
        by (apply (out_busy _ _ Ho); exists cs, inb; done).
      destruct Ho as [Hb Hn Hno Hk]. constructor; [|done|done|].
      * intros b. rewrite Hb. destruct (decide (a = b)) as [<-|Hab]; [|by rewrite busy_insert_ne].
        rewrite busy_insert_eq. rewrite <- Hb. done.
      * apply ok_insert; [|done]. split_and!; cbn [fst]; [done|congruence|congruence].
  - destruct Hg as (Hq & Hst & Hr' & Hw' & Hargs & _).
    eapply out_perm; [|eapply (out_start _ (v_tasks s ++ v_responses s) a cs' inb' ev)]; eauto.
    + solve_Permutation.
    + split_and!; cbn [fst]; [|congruence|congruence]. unfold session_wf. by rewrite Hst.
  - destruct Hg as (_ & _ & _ & _ & _ & Hid). apply Forall_app. split; [done|]. by constructor.
Qed.

Lemma sinv_step s l r :
  sinv s -> calm l s -> sstep l s = Some r ->
  (exists s', r = Ok s' /\ sinv s') \/
  (exists i now ev e, l = SWork i now /\ v_tasks s !! i = Some ev /\ ~ mobile_fits ev /\ r = Err e).
Proof.
  intros Hinv Hc Hstep. pose proof Hinv as [Ho Ht Hr Hs He]. destruct l as [a|a chunk posted|a|i now|].
  - left. cbn [sstep] in Hstep. destruct (v_sessions s !! a) eqn:Hss; [done|]. simplify_eq.
    eexists. split; [reflexivity|]. constructor; cbn [listener_cb handle_error session_free set_sessions v_sessions v_tasks v_responses v_subs v_exit]; auto.
    apply out_idle; auto; [|split_and!; [apply session_init_wf|done|done]].
    intros (? & ? & Hx & _). by rewrite Hss in Hx.
  - left. cbn [calm] in Hc. subst posted. by eapply sinv_read.
  - left. cbn [sstep] in Hstep. destruct (v_sessions s !! a) eqn:Hss; [|done]. simplify_eq.
    eexists. split; [reflexivity|]. constructor; cbn [listener_cb handle_error session_free set_sessions v_sessions v_tasks v_responses v_subs v_exit]; auto.
    by apply out_free.
  - pose proof Hstep as Hst. cbn [sstep] in Hst. destruct (v_tasks s !! i) as [ev|] eqn:Hi; [|done].
    destruct (sinv_work _ _ _ _ _ Hinv Hi Hstep) as [Hok|(Hf & e & ->)]; [by left|right].
    by exists i, now, ev, e.
  - left. cbn [sstep] in Hstep. simplify_eq. unfold handleAllResponseEvent.
    match goal with |- context [answer_all _ ?x] => destruct (answer_all_ok (v_responses s) x)
      as (s' & -> & Hout & H1 & H2 & H3 & H4) end; [done|done|].
    exists s'. split; [done|]. cbn [v_tasks v_responses v_subs v_exit] in *.
    constructor; rewrite ?H1, ?H2, ?H3, ?H4; auto. by rewrite app_nil_r.
Qed.

(** ** Theorems *)

(** What the server does as long as no connection breaks while its request is
    being processed and the pool takes every task. *)
Inductive calm_reach (db : DB) : server -> Prop :=
| calm_start : calm_reach db (server0 db)
| calm_next s l s' :
    calm_reach db s -> calm l s -> sstep l s = Some (Ok s') -> calm_reach db s'.

Lemma sinv_start db : sinv (server0 db).
Proof.
  constructor; cbn [server0 v_sessions v_tasks v_responses v_subs v_exit app]; auto.
  constructor; cbn [map].
  - intros a. split; [by intros ?%not_elem_of_nil|]. intros (? & ? & Hx & _). by rewrite lookup_empty in Hx.
  - constructor.
  - by intros ?%not_elem_of_nil.
  - intros a x Hx. by rewrite lookup_empty in Hx.
Qed.

Lemma calm_sinv db s : calm_reach db s -> sinv s.
Proof.
  induction 1 as [|s l s' _ IH Hc Hs]; [apply sinv_start|].
  by destruct (sinv_step s l _ IH Hc Hs) as [(s1 & [= <-] & Hs1)|(? & ? & ? & ? & _ & _ & _ & ?)].
Qed.

(** C39: as long as no connection breaks while its request is being processed and
    the pool takes every task, every session that waits for a response has
    exactly one event in the pool or in the response queue and every such event
    belongs to a waiting session; nothing is dereferenced after it was freed,
    sent from a null buffer or dispatched without handler: the only step that
    can fail is the login of a mobile number of more than 984 characters. *)
Theorem legacy_one_response db s :
  calm_reach db s ->
  NoDup (map ev_args (v_tasks s ++ v_responses s)) /\
  (forall a, Some a ∈ map ev_args (v_tasks s ++ v_responses s) <-> busy (v_sessions s) a) /\
  (forall l e, calm l s -> sstep l s = Some (Err e) ->
     exists i now ev, l = SWork i now /\ v_tasks s !! i = Some ev /\ ~ mobile_fits ev).
Proof.
  intros Hr. apply calm_sinv in Hr. pose proof (si_out _ Hr) as Ho.
  split; [apply (out_nodup _ _ Ho)|]. split; [apply (out_busy _ _ Ho)|].
  intros l e Hc He. destruct (sinv_step s l _ Hr Hc He) as [(? & [=] & _)|(i & now & ev & _ & Hl & Hi & Hf & _)].
  by exists i, now, ev.
Qed.

(** ** One request step by step *)

Lemma srun_cons l ls s s' : sstep l s = Some (Ok s') -> srun (l :: ls) s = srun ls s'.
Proof. intros E. cbn [srun]. by rewrite E. Qed.
Lemma srun_err l ls s e : sstep l s = Some (Err e) -> srun (l :: ls) s = Some (Err e).
Proof. intros E. cbn [srun]. by rewrite E. Qed.

Lemma step_data_frame s a cs eid payload rest ev sn' :
  v_sessions s !! a = Some (cs, []) -> session_reset cs = cs ->
  0 <= eid < 2 ^ 16 -> 1 <= size_of payload <= MAX_MESSAGE_LEN ->
  parseEvent (Some payload) eid (v_sn s) = (Some ev, sn') ->
  sstep (SData a (legacy_frame eid payload ++ rest) true) s =
  Some (Ok (mkServer (<[a := (in_process a eid payload ev, rest)]> (v_sessions s))
                     (v_tasks s ++ [set_args (Some a) ev]) (v_responses s) sn' (v_subs s) (v_codes s)
                     (v_db s) (v_exit s) (v_wire s))).
Proof.
  intros Hs Hid He Hl Hp. cbn [sstep]. rewrite Hs. unfold on_read. cbn [app].
  rewrite handle_frame, Hp by done. done.
Qed.

Lemma step_work_code s ev mobile now :
  v_tasks s = [ev] -> ev_msg ev = MobileCodeReqEv mobile ->
  v_subs s = UserEventHandler_ctor ∅ -> v_exit s = false ->
  sstep (SWork 0 now) s =
  Some (Ok (mkServer (v_sessions s) []
              (v_responses s ++ [mkEvent (MobileCodeRspEv ERRC_SUCCESS (code_gen now)) (v_sn s) (ev_args ev)])
              (u32 (v_sn s + 1)) (v_subs s) (<[mobile := code_gen now]> (v_codes s)) (v_db s) (v_exit s)
              (v_wire s))).
Proof.
  intros Ht Hm Hs He. cbn [sstep]. rewrite Ht. cbn [lookup list_lookup delete list_delete].
  unfold svc. cbn [v_exit v_subs v_codes v_db v_sn]. rewrite He, Hs. unfold process.
  assert (Hid : get_eid ev = EVENTID_GET_MOBILE_CODE_REQ) by (unfold get_eid; by rewrite Hm).
  rewrite ctor_lookup by (by left). rewrite Hid. cbn [Z.eqb EVENTID_GET_MOBILE_CODE_REQ EVENTID_UNKNOWN].
  cbn [run_handlers]. unfold handler_handle. rewrite decide_True by done. unfold user_handle. rewrite Hm. done.
Qed.

(** The response of a code request goes to whatever session has the address. *)
Lemma answer_code s sn a code cs inb :
  v_sessions s !! a = Some (cs, inb) ->
  size_of (ser_mobile_response code ERRC_SUCCESS "ok.") <= INT_MAX ->
  answer (mkEvent (MobileCodeRspEv ERRC_SUCCESS code) sn (Some a)) s =
  Ok (mkServer (<[a := (session_reset cs, inb)]> (v_sessions s)) (v_tasks s) (v_responses s)
               (v_sn s) (v_subs s) (v_codes s) (v_db s) (v_exit s)
               (v_wire s ++ [(a, legacy_frame EVENTID_GET_MOBILE_CODE_RSP
                                   (ser_mobile_response code ERRC_SUCCESS "ok."))])).
Proof.
  intros Hs Hl. set (ev := mkEvent (MobileCodeRspEv ERRC_SUCCESS code) sn (Some a)).
  pose proof (response_frame cs ev EVENTID_GET_MOBILE_CODE_RSP (ser_mobile_response code ERRC_SUCCESS "ok.")
                eq_refl ltac:(done) Hl) as Hf.
  unfold answer. change (get_eid ev) with EVENTID_GET_MOBILE_CODE_RSP.
  cbn [Z.eqb EVENTID_GET_MOBILE_CODE_RSP EVENTID_EXIT_RSP EVENTID_LOGIN_RSP Pos.eqb orb ev_args ev].
  rewrite Hs. fold ev. destruct (AssembleHB cs ev EVENTID_GET_MOBILE_CODE_RSP) as [cs'|]; [|done].
  cbn [rbind] in *. unfold send. rewrite Hf. done.
Qed.

(** ** A session nobody refers to *)

Definition untouched (a : nat) (l : slabel) : Prop :=
  match l with SData b _ _ | SError b => b <> a | _ => True end.

Definition parked (a : nat) (x : ConnectSession * list byte) (s : server) : Prop :=
  v_sessions s !! a = Some x /\ Some a ∉ map ev_args (v_tasks s ++ v_responses s).

Lemma send_other b cs inb s s' a :
  send b cs inb s = Ok s' -> b <> a ->
  v_sessions s' !! a = v_sessions s !! a /\ v_tasks s' = v_tasks s /\ v_responses s' = v_responses s.
Proof.
  unfold send. destruct (send_response_message cs) as [[[w|] cs']|]; [| |done]; cbn [rbind fst snd];
    intros [= <-] Hb; cbn [set_sessions v_sessions v_tasks v_responses];
    [by rewrite lookup_insert_ne|by rewrite lookup_delete_ne].
Qed.

Lemma answer_other ev s s' a :
  answer ev s = Ok s' -> ev_args ev <> Some a ->
  v_sessions s' !! a = v_sessions s !! a /\ v_tasks s' = v_tasks s /\ v_responses s' = v_responses s.
Proof.
  unfold answer. destruct (_ || _); [|by intros [= <-]]. intros E Ha.
  destruct (ev_args ev) as [b|]; [|done]. destruct (v_sessions s !! b) as [[cs inb]|]; [|done].
  assert (Hb : b <> a) by congruence. case_if_in E; [by eapply send_other|].
  destruct (AssembleHB cs ev (get_eid ev)) as [cs'|]; [|done]. by eapply send_other.
Qed.

Lemma answer_all_other evs a : forall s s',
  answer_all evs s = Ok s' -> Some a ∉ map ev_args evs ->
  v_sessions s' !! a = v_sessions s !! a /\ v_tasks s' = v_tasks s /\ v_responses s' = v_responses s.
Proof.
  induction evs as [|ev evs IH]; intros s s'; cbn [answer_all map]; [by intros [= <-]|].
  destruct (answer ev s) as [s1|] eqn:E; [|done]. cbn [rbind]. intros H1 [Hne Hn]%not_elem_of_cons.
  destruct (answer_other _ _ _ a E) as (E1 & E2 & E3); [congruence|].
  destruct (IH _ _ H1 Hn) as (F1 & F2 & F3). rewrite F1, F2, F3. done.
Qed.

Lemma svc_parts now ev s s' :
  svc now ev s = Ok s' ->
  v_sessions s' = v_sessions s /\ v_tasks s' = v_tasks s /\
  exists r, v_responses s' = v_responses s ++ r /\ Forall (fun e => ev_args e = ev_args ev) r.
Proof.
  unfold svc. destruct (v_exit s); [intros [= <-]; split_and!; try done; exists []; by rewrite app_nil_r|].
  destruct (process _ _ _ _) as [r|]; [|done]. cbn [rbind new_event generateSeqNo]. intros [= <-].
  split_and!; try done. eexists. split; [reflexivity|]. by repeat constructor.
Qed.

Lemma parked_step a x l s s' :
  parked a x s -> untouched a l -> sstep l s = Some (Ok s') -> parked a x s'.
Proof.
  intros [Hs Hn] Hl Hst. unfold parked. rewrite map_app in *.
  destruct l as [b|b chunk posted|b|i now|]; cbn [sstep untouched] in *.
  - destruct (v_sessions s !! b) eqn:Hb; [done|]. simplify_eq. split; [|done].
    cbn [listener_cb handle_error session_free set_sessions v_sessions]. rewrite lookup_insert_ne; [done|]. intros ->. congruence.
  - destruct (v_sessions s !! b) as [[cs inb]|]; [|done]. unfold on_read in Hst.
    destruct (handle_request b cs (inb ++ chunk) (v_sn s)) as [[o sn']|] eqn:E; [|done]. simplify_eq/=.
    destruct o as [|cs' inb'|cs' inb' ev]; cbn [v_sessions v_tasks v_responses].
    + by rewrite lookup_delete_ne.
    + by rewrite lookup_insert_ne.
    + rewrite lookup_insert_ne by done. split; [done|].
      apply handle_request_args in E. destruct posted; [|by rewrite app_nil_r].
      rewrite map_app, !elem_of_app in *. cbn [map]. rewrite list_elem_of_singleton, E. intuition congruence.
  - destruct (v_sessions s !! b); [|done]. simplify_eq. split; [|done].
    unfold handle_error, session_free. cbn [set_sessions v_sessions]. by rewrite lookup_delete_ne.
  - destruct (v_tasks s !! i) as [ev|] eqn:Hi; [|done]. simplify_eq.
    apply svc_parts in Hst as (-> & -> & r & -> & Hr). cbn [v_sessions v_tasks v_responses]. split; [done|].
    pose proof (Permutation_map ev_args (delete_Permutation _ _ _ Hi)) as Hp. cbn [map] in Hp.
    rewrite Hp in Hn. cbn [app] in Hn. apply not_elem_of_cons in Hn as [He Hn].
    rewrite map_app, app_assoc, elem_of_app. intros [Hin|Hin]; [done|].
    apply list_elem_of_In, in_map_iff in Hin as (e & Ee & Hin%list_elem_of_In).
    rewrite Forall_forall in Hr. apply Hr in Hin. congruence.
  - simplify_eq. unfold handleAllResponseEvent in Hst.
    apply (answer_all_other _ a) in Hst as (-> & -> & ->); [|intros Hin; apply Hn, elem_of_app; auto].
    cbn [v_sessions v_tasks v_responses map]. rewrite app_nil_r. split; [done|].
    intros Hin. apply Hn, elem_of_app. auto.
Qed.

Lemma parked_run a x ls : forall s s',
  parked a x s -> Forall (untouched a) ls -> srun ls s = Some (Ok s') -> parked a x s'.
Proof.
  induction ls as [|l ls IH]; intros s s' Hp Hl; cbn [srun]; [by intros [= <-]|].
  apply Forall_cons in Hl as [Hl Hls]. destruct (sstep l s) as [[s1|]|] eqn:E; try done.
  apply IH; [by eapply parked_step|done].
Qed.

(** ** Login *)

(** What the database is asked, and the code that follows from its answers. *)
Definition login_effect (mobile : text) (db : DB) : Z * DB :=
  let '(r1, db1) := mysql_query (exist_sql mobile) db in
  match r1 with
  | SqlRows n =>
      if n =? 0 then
        let '(r2, db2) := mysql_query (insert_sql mobile) db1 in
        (match r2 with SqlError => ERRO_PROCCESS_FAILED | _ => ERRC_SUCCESS end, db2)
      else (ERRC_SUCCESS, db1)
  | _ =>
      let '(r2, db2) := mysql_query (insert_sql mobile) db1 in
      (match r2 with SqlError => ERRO_PROCCESS_FAILED | _ => ERRC_SUCCESS end, db2)
  end.

Lemma handle_login_match mobile icode m2c db :
  m2c !! mobile = Some icode -> sql_init db = true -> (length (cstr mobile) <= 984)%nat ->
  handle_login_req mobile icode m2c db =
  Ok (LoginRspEv (fst (login_effect mobile db)), snd (login_effect mobile db)).
Proof.
  intros Hc Hi Hl. destruct (length_sqls mobile) as [H1 H2]. unfold handle_login_req, login_effect.
  rewrite Hc, Z.eqb_refl, Hi. cbn [negb]. unfold us_exist, us_insert, Execute_rows, Execute.
  rewrite !sprintf_fits by lia. cbn [rbind].
  destruct (mysql_query (exist_sql mobile) db) as [[| |n] db1]; cbn [rbind fst snd negb].
  - destruct (mysql_query (insert_sql mobile) db1) as [[| |k] db2]; done.
  - destruct (mysql_query (insert_sql mobile) db1) as [[| |k] db2]; done.
  - destruct (n =? 0); cbn [negb]; [|done].
    destruct (mysql_query (insert_sql mobile) db1) as [[| |k] db2]; done.
Qed.

Lemma step_work_login s ev mobile icode now :
  v_tasks s = [ev] -> ev_msg ev = LoginReqEv mobile icode ->
  v_subs s = UserEventHandler_ctor ∅ -> v_exit s = false ->
  v_codes s !! mobile = Some icode -> sql_init (v_db s) = true -> (length (cstr mobile) <= 984)%nat ->
  sstep (SWork 0 now) s =
  Some (Ok (mkServer (v_sessions s) []
              (v_responses s ++ [mkEvent (LoginRspEv (fst (login_effect mobile (v_db s)))) (v_sn s) (ev_args ev)])
              (u32 (v_sn s + 1)) (v_subs s) (v_codes s) (snd (login_effect mobile (v_db s))) (v_exit s)
              (v_wire s))).
Proof.
  intros Ht Hm Hs He Hc Hi Hl. cbn [sstep]. rewrite Ht. cbn [lookup list_lookup delete list_delete].
  unfold svc. cbn [v_exit v_subs v_codes v_db v_sn]. rewrite He, Hs. unfold process.
  assert (Hid : get_eid ev = EVENTID_LOGIN_REQ) by (unfold get_eid; by rewrite Hm).
  rewrite ctor_lookup by (by right). rewrite Hid. cbn [Z.eqb EVENTID_LOGIN_REQ EVENTID_UNKNOWN].
  cbn [run_handlers]. unfold handler_handle. rewrite decide_True by done. unfold user_handle. rewrite Hm.
  cbn [fst snd]. by rewrite (handle_login_match _ _ _ _ Hc Hi Hl).
Qed.

Lemma srun_app ls1 ls2 s s1 : srun ls1 s = Some (Ok s1) -> srun (ls1 ++ ls2) s = srun ls2 s1.
Proof.
  revert s. induction ls1 as [|l ls IH]; intros s; cbn [srun app]; [by intros [= <-]|].
  destruct (sstep l s) as [[s'|]|]; try done. apply IH.
Qed.

Lemma second_login s a cs payload mobile icode now :
  v_tasks s = [] -> v_responses s = [] -> v_subs s = UserEventHandler_ctor ∅ -> v_exit s = false ->
  v_codes s !! mobile = Some icode -> sql_init (v_db s) = true -> (length (cstr mobile) <= 984)%nat ->
  v_sessions s !! a = Some (cs, []) -> session_reset cs = cs ->
  parse_login_request payload = Some (mobile, icode) -> 1 <= size_of payload <= MAX_MESSAGE_LEN ->
  exists s',
    srun [SData a (legacy_frame EVENTID_LOGIN_REQ payload) true; SWork 0 now] s = Some (Ok s') /\
    v_wire s' = v_wire s /\
    map ev_msg (v_responses s') = [LoginRspEv (fst (login_effect mobile (v_db s)))] /\
    v_db s' = snd (login_effect mobile (v_db s)) /\ v_codes s' !! mobile = Some icode.
Proof.
  intros Ht Hr Hs He Hc Hi Hl Hcs Hid Hp Hsz.
  assert (Hpe : parseEvent (Some payload) EVENTID_LOGIN_REQ (v_sn s) =
                (Some (mkEvent (LoginReqEv mobile icode) (v_sn s) None), u32 (v_sn s + 1))).
  { unfold parseEvent. cbn [Z.eqb EVENTID_LOGIN_REQ EVENTID_GET_MOBILE_CODE_REQ Pos.eqb]. by rewrite Hp. }
  pose proof (step_data_frame s a cs EVENTID_LOGIN_REQ payload [] _ _ Hcs Hid ltac:(done) Hsz Hpe) as H1.
  rewrite app_nil_r, Ht, Hr in H1. cbn [app] in H1. rewrite (srun_cons _ _ _ _ H1).
  match type of H1 with _ = Some (Ok ?x) => set (s1 := x) in * end.
  pose proof (step_work_login s1 _ mobile icode now eq_refl eq_refl Hs He Hc Hi Hl) as H2.
  rewrite (srun_cons _ _ _ _ H2). eexists. split; [reflexivity|].
  cbn [v_wire v_responses v_db v_codes map ev_msg app s1]. done.
Qed.

Section OneRequest.

Variables (s : server) (a : nat) (cs : ConnectSession) (payload : list byte) (mobile : text) (now : Z).
Hypothesis Hsub : v_subs s = UserEventHandler_ctor ∅.
Hypothesis Hexit : v_exit s = false.
Hypothesis Htasks : v_tasks s = [].
Hypothesis Hresp : v_responses s = [].
Hypothesis Hcs : v_sessions s !! a = Some (cs, []).
Hypothesis Hidle : session_reset cs = cs.
Hypothesis Hparse : parse_mobile_request payload = Some mobile.
Hypothesis Hsize : 1 <= size_of payload <= MAX_MESSAGE_LEN.
Hypothesis Hser : size_of (ser_mobile_response (code_gen now) ERRC_SUCCESS "ok.") <= INT_MAX.

Definition code_frame : list byte :=
  legacy_frame EVENTID_GET_MOBILE_CODE_RSP (ser_mobile_response (code_gen now) ERRC_SUCCESS "ok.").

Lemma parse_code : parseEvent (Some payload) EVENTID_GET_MOBILE_CODE_REQ (v_sn s) =
  (Some (mkEvent (MobileCodeReqEv mobile) (v_sn s) None), u32 (v_sn s + 1)).
Proof. unfold parseEvent. cbn [Z.eqb EVENTID_GET_MOBILE_CODE_REQ Pos.eqb]. by rewrite Hparse. Qed.

(** a client that disconnects while its request is being processed makes the
    main loop use the freed session; and when a new client has been given the
    same address in the meantime, the response with the verification code of
    the first client is sent to the second. *)
Theorem legacy_response_misdelivered :
  srun [SData a (legacy_frame EVENTID_GET_MOBILE_CODE_REQ payload) true; SError a; SWork 0 now; SRespond] s
  = Some freed /\
  exists s',
    srun [SData a (legacy_frame EVENTID_GET_MOBILE_CODE_REQ payload) true; SError a; SAccept a;
          SWork 0 now; SRespond] s = Some (Ok s') /\
    v_wire s' = v_wire s ++ [(a, code_frame)] /\ v_codes s' !! mobile = Some (code_gen now).
Proof.
  pose proof (step_data_frame s a cs EVENTID_GET_MOBILE_CODE_REQ payload [] _ _ Hcs Hidle ltac:(done) Hsize parse_code) as H1.
  rewrite app_nil_r, Htasks, Hresp in H1. cbn [app] in H1. split.
  - erewrite srun_cons by exact H1.
    erewrite srun_cons by (cbn [sstep v_sessions]; rewrite lookup_insert_eq; reflexivity).
    erewrite srun_cons by (eapply (step_work_code _ _ mobile now); [reflexivity|reflexivity|exact Hsub|exact Hexit]).
    apply srun_err. cbn [sstep]. unfold handleAllResponseEvent, answer_all, answer, handle_error, session_free.
    cbn [handle_error session_free set_sessions v_sessions v_responses app get_eid ev_msg ev_args set_args Z.eqb
         EVENTID_GET_MOBILE_CODE_RSP Pos.eqb orb].
    by rewrite lookup_delete_eq.
  - erewrite srun_cons by exact H1.
    erewrite srun_cons by (cbn [sstep v_sessions]; rewrite lookup_insert_eq; reflexivity).
    erewrite srun_cons by (cbn [sstep]; unfold handle_error, session_free; cbn [set_sessions v_sessions]; rewrite lookup_delete_eq; reflexivity).
    erewrite srun_cons by (eapply (step_work_code _ _ mobile now); [reflexivity|reflexivity|exact Hsub|exact Hexit]).
    cbn [srun sstep]. unfold handleAllResponseEvent. cbn [listener_cb handle_error session_free v_responses answer_all app set_sessions set_args ev_args].
    erewrite answer_code; [|cbn [v_sessions]; apply lookup_insert_eq|exact Hser].
    cbn [rbind]. eexists. split; [reflexivity|]. cbn [v_wire v_codes]. split; [done|apply lookup_insert_eq].
Qed.

(** a client that sends its next request before the response to the first
    one is not served: after the response the next request lies complete in the
    input buffer, and stays there through everything else the server does, until
    the client sends another byte (or the connection times out); then it is
    processed. *)
Theorem legacy_pipelined_stalls eid payload2 ev sn' :
  let rest := legacy_frame eid payload2 in
  0 <= eid < 2 ^ 16 -> 1 <= size_of payload2 <= MAX_MESSAGE_LEN ->
  parseEvent (Some payload2) eid (u32 (u32 (v_sn s + 1) + 1)) = (Some ev, sn') ->
  exists s' cs',
    srun [SData a (legacy_frame EVENTID_GET_MOBILE_CODE_REQ payload ++ rest) true; SWork 0 now; SRespond] s
      = Some (Ok s') /\
    v_wire s' = v_wire s ++ [(a, code_frame)] /\ v_tasks s' = [] /\ v_responses s' = [] /\
    session_stat cs' = SS_REQUEST /\
    (forall ls s'', Forall (untouched a) ls -> srun ls s' = Some (Ok s'') ->
       v_sessions s'' !! a = Some (cs', rest)) /\
    (forall chunk, exists s'', sstep (SData a chunk true) s' = Some (Ok s'') /\
       v_tasks s'' = [set_args (Some a) ev] /\
       v_sessions s'' !! a = Some (in_process a eid payload2 ev, chunk)).
Proof.
  intros rest He Hsz Hp2.
  pose proof (step_data_frame s a cs EVENTID_GET_MOBILE_CODE_REQ payload rest _ _ Hcs Hidle ltac:(done) Hsize parse_code) as H1.
  rewrite Htasks, Hresp in H1. cbn [app] in H1.
  eexists _, (session_reset (in_process a EVENTID_GET_MOBILE_CODE_REQ payload
                               (mkEvent (MobileCodeReqEv mobile) (v_sn s) None))). split.
  { erewrite srun_cons by exact H1.
    erewrite srun_cons by (eapply (step_work_code _ _ mobile now); [reflexivity|reflexivity|exact Hsub|exact Hexit]).
    cbn [srun sstep]. unfold handleAllResponseEvent. cbn [v_responses answer_all app set_args ev_args].
    erewrite answer_code; [|cbn [v_sessions]; apply lookup_insert_eq|exact Hser]. cbn [rbind]. reflexivity. }
  cbn [v_wire v_tasks v_responses]. split; [done|]. split; [done|]. split; [done|]. split; [|split].
  - reflexivity.
  - intros ls s'' Hls Hr. eapply parked_run in Hr as [Hr _]; [exact Hr| |done].
    split; [apply lookup_insert_eq|]. by intros ?%not_elem_of_nil.
  - intros chunk. cbn [sstep v_sessions]. rewrite lookup_insert_eq. unfold on_read. cbn [v_sn].
    unfold rest. rewrite handle_frame, Hp2 by done. cbn [rbind fst snd]. eexists. split; [reflexivity|].
    cbn [v_tasks v_sessions app]. split; [done|apply lookup_insert_eq].
Qed.

Lemma first_request :
  exists s1,
    srun [SData a (legacy_frame EVENTID_GET_MOBILE_CODE_REQ payload) true; SWork 0 now; SRespond] s
      = Some (Ok s1) /\
    v_wire s1 = v_wire s ++ [(a, code_frame)] /\ v_tasks s1 = [] /\ v_responses s1 = [] /\
    v_subs s1 = UserEventHandler_ctor ∅ /\ v_exit s1 = false /\ v_db s1 = v_db s /\
    v_codes s1 !! mobile = Some (code_gen now) /\
    exists cs1, v_sessions s1 !! a = Some (cs1, []) /\ session_reset cs1 = cs1.
Proof.
  pose proof (step_data_frame s a cs EVENTID_GET_MOBILE_CODE_REQ payload [] _ _ Hcs Hidle ltac:(done) Hsize parse_code) as H1.
  rewrite app_nil_r, Htasks, Hresp in H1. cbn [app] in H1.
  erewrite srun_cons by exact H1.
  erewrite srun_cons by (eapply (step_work_code _ _ mobile now); [reflexivity|reflexivity|exact Hsub|exact Hexit]).
  cbn [srun sstep]. unfold handleAllResponseEvent. cbn [v_responses answer_all app set_args ev_args].
  erewrite answer_code; [|cbn [v_sessions]; apply lookup_insert_eq|exact Hser]. cbn [rbind].
  eexists. split; [reflexivity|]. cbn [v_wire v_tasks v_responses v_subs v_exit v_db v_codes v_sessions].
  split_and!; try done; [apply lookup_insert_eq|]. eexists. split; [apply lookup_insert_eq|done].
Qed.

(** whoever asks for the code of a mobile number is sent it and can log in
    with it: the second request makes the database execute a statement that ends
    in the text the client chose as mobile number, unquoted; a failed query
    counts as an unknown number and leads to the insertion; and the code stays
    valid afterwards. *)
Theorem legacy_login_without_phone payload2 now2 :
  parse_login_request payload2 = Some (mobile, code_gen now) ->
  1 <= size_of payload2 <= MAX_MESSAGE_LEN ->
  sql_init (v_db s) = true -> (length (cstr mobile) <= 984)%nat ->
  exists s',
    srun [SData a (legacy_frame EVENTID_GET_MOBILE_CODE_REQ payload) true; SWork 0 now; SRespond;
          SData a (legacy_frame EVENTID_LOGIN_REQ payload2) true; SWork 0 now2] s = Some (Ok s') /\
    v_wire s' = v_wire s ++ [(a, code_frame)] /\
    map ev_msg (v_responses s') = [LoginRspEv (fst (login_effect mobile (v_db s)))] /\
    v_db s' = snd (login_effect mobile (v_db s)) /\
    v_codes s' !! mobile = Some (code_gen now).
Proof.
  intros Hp2 Hsz Hi Hl. destruct first_request as (s1 & H1 & Hw & Hrest).
  destruct Hrest as (Ht & Hr & Hs & He & Hd & Hc & cs1 & Hcs1 & Hid1).
  destruct (second_login s1 a cs1 payload2 mobile (code_gen now) now2) as (s' & H2 & E1 & E2 & E3 & E4);
    try done; [by rewrite Hd|].
  exists s'. split; [|split_and!; [by rewrite E1|by rewrite E2, Hd|by rewrite E3, Hd|by rewrite E4]].
  change (srun ([SData a (legacy_frame EVENTID_GET_MOBILE_CODE_REQ payload) true; SWork 0 now; SRespond] ++
                [SData a (legacy_frame EVENTID_LOGIN_REQ payload2) true; SWork 0 now2]) s = Some (Ok s')).
  by rewrite (srun_app _ _ _ _ H1).
Qed.

End OneRequest.

End Server.

(** ** A concrete server *)

(** The database records the statements it is given and finds nothing. *)
Definition demo_sql : LegacyMysql (list text) := {|
  mysql_init := true;
  mysql_connect := fun _ => true;
  mysql_query := fun q log => (SqlDone, log ++ [q]) |}.
Definition demo_rand : LegacyRand := {| first_rand := fun _ => 7 |}.
#[local] Existing Instance demo_pb.
#[local] Existing Instance demo_sql.
#[local] Existing Instance demo_rand.

(** One client connected, nothing requested yet. *)
Definition one_client : server (DB := list text) :=
  set_sessions {[3%nat := (session_init, [])]} (server0 []).
Definition demo_mobile : list byte := [x31; x20; x4f; x52; x20; x31].

Lemma one_client_reach : calm_reach [] one_client.
Proof. by apply (calm_next _ (server0 []) (SAccept 3)); [constructor| |]. Qed.

(** The client has asked for a code; the request is in the pool. *)
Definition one_request : server (DB := list text) :=
  match sstep (SData 3 (legacy_frame EVENTID_GET_MOBILE_CODE_REQ demo_mobile) true) one_client with
  | Some (Ok s) => s
  | _ => one_client
  end.
Lemma one_request_reach : calm_reach [] one_request.
Proof.
  apply (calm_next _ one_client (SData 3 (legacy_frame EVENTID_GET_MOBILE_CODE_REQ demo_mobile) true));
    [apply one_client_reach | done | by vm_compute].
Qed.

Lemma legacy_one_response_witness :
  length (v_tasks one_request) = 1%nat /\ busy (v_sessions one_request) 3
  /\ NoDup (map ev_args (v_tasks one_request ++ v_responses one_request)).
Proof.
  destruct (legacy_one_response [] one_request one_request_reach) as (H1 & H2 & _).
  split; [by vm_compute|]. split; [|exact H1]. apply H2.
  replace (map ev_args (v_tasks one_request ++ v_responses one_request)) with [Some 3%nat] by (by vm_compute).
  by apply list_elem_of_singleton.
Defined.

Lemma legacy_response_misdelivered_witness :
  srun [SData 3 (legacy_frame EVENTID_GET_MOBILE_CODE_REQ demo_mobile) true; SError 3; SWork 0 1000; SRespond]
    one_client = Some freed.
Proof.
  refine (proj1 (legacy_response_misdelivered one_client 3 session_init demo_mobile (map ascii_of_byte demo_mobile)
                   1000 _ _ _ _ _ _ _ _ _)); try reflexivity.
  - unfold MAX_MESSAGE_LEN, size_of. cbn. lia.
  - vm_compute. discriminate.
Defined.

Lemma legacy_pipelined_stalls_witness :
  exists s' cs',
    srun [SData 3 (legacy_frame EVENTID_GET_MOBILE_CODE_REQ demo_mobile ++ legacy_frame 3 demo_mobile) true;
          SWork 0 1000; SRespond] one_client = Some (Ok s') /\
    v_tasks s' = [] /\ session_stat cs' = SS_REQUEST /\
    forall ls s'', Forall (untouched 3) ls -> srun ls s' = Some (Ok s'') ->
      v_sessions s'' !! 3%nat = Some (cs', legacy_frame 3 demo_mobile).
Proof.
  destruct (@legacy_pipelined_stalls (list text) demo_pb demo_sql demo_rand one_client 3 session_init demo_mobile (map ascii_of_byte demo_mobile) 1000
              eq_refl eq_refl eq_refl eq_refl eq_refl eq_refl eq_refl
              ltac:(unfold MAX_MESSAGE_LEN, size_of; cbn; lia) ltac:(vm_compute; discriminate)
              3 demo_mobile (mkEvent (LoginReqEv (map ascii_of_byte demo_mobile) 100007) 2 None) 3
              ltac:(lia) ltac:(unfold MAX_MESSAGE_LEN, size_of; cbn; lia) eq_refl)
    as (s' & cs' & H1 & _ & H2 & _ & H3 & H4 & _).
  exists s', cs'. split; [exact H1|]. split; [exact H2|]. split; [exact H3|exact H4].
Defined.

Lemma legacy_login_without_phone_witness :
  exists s',
    srun [SData 3 (legacy_frame EVENTID_GET_MOBILE_CODE_REQ demo_mobile) true; SWork 0 1000; SRespond;
          SData 3 (legacy_frame EVENTID_LOGIN_REQ demo_mobile) true; SWork 0 1001] one_client = Some (Ok s') /\
    v_db s' = [txt "SELECT * FROM userinfo WHERE mobile = 1 OR 1"; txt "INSERT INTO userinfo (mobile) VALUES (1 OR 1)"].
Proof.
  destruct (@legacy_login_without_phone (list text) demo_pb demo_sql demo_rand one_client 3 session_init demo_mobile (map ascii_of_byte demo_mobile) 1000
              eq_refl eq_refl eq_refl eq_refl eq_refl eq_refl eq_refl
              ltac:(unfold MAX_MESSAGE_LEN, size_of; cbn; lia) ltac:(vm_compute; discriminate)
              demo_mobile 1001 eq_refl ltac:(unfold MAX_MESSAGE_LEN, size_of; cbn; lia) eq_refl
              ltac:(apply Nat.leb_le; vm_compute; reflexivity)) as (s' & H1 & _ & _ & H2 & _).
  exists s'. split; [exact H1|]. rewrite H2. reflexivity.
Defined.
