(* ===== verification/LegacyMain.v ===== *)
(** * Start of the former server (legacy/main.cpp, iniconfig.cpp, configdef.h,
      Sqltables.h, BusinessProcessor.cpp, NetworkInterface::start and close)

    [legacy_main] is main up to its endless loop.  The ini parser and the table
    definitions are parameters; a configuration that was never loaded holds
    indeterminate port numbers, reading which is undefined.  The theorems: which
    failures main reports and which it does not notice. *)

From S2P Require Import Prelude Protocol Double Common CText LegacyNet LegacyServer LegacyPool.
From Stdlib Require Import Ascii.

(** ** Configuration *)

(** iniparser: a dictionary for a readable file, and its two getters. *)
Class IniParser : Type := {
  dictionary : Type;
  iniparser_load : string -> option dictionary;
  iniparser_getstring : dictionary -> string -> string -> string;
  iniparser_getint : dictionary -> string -> Z -> Z }.

Record st_env_config : Type := mkConfig {
  db_ip : string; db_port : Z; db_user : string; db_pwd : string; db_name : string; svr_port : Z }.

(** The six-argument constructor: both ports are [unsigned short] members. *)
Definition new_config (ip : string) (port : Z) (user pwd db : string) (sport : Z) : st_env_config :=
  mkConfig ip (u16 (u32 port)) user pwd db (u16 sport).

Section Main.

Context `{!IniParser}.

(** Iniconfig::loadfile: what it returns and the configuration it leaves;
    [None] is the default-constructed one.  [return -1] is [true]. *)
Definition loadfile (path : string) : bool * option st_env_config :=
  match iniparser_load path with
  | None => (negb (-1 =? 0), None)
  | Some ini =>
      (true, Some (new_config (iniparser_getstring ini "database:ip" "127.0.0.1")
                              (iniparser_getint ini "database:port" 3306)
                              (iniparser_getstring ini "database:user" "root")
                              (iniparser_getstring ini "database:pwd" "p12345")
                              (iniparser_getstring ini "database:db" "shared_bike")
                              (iniparser_getint ini "server:port" 8888)))
  end.

(** getconfig, copied by main: the ports of a configuration never assigned are
    indeterminate. *)
Definition getconfig (c : option st_env_config) : result st_env_config :=
  match c with
  | Some c => Ok c
  | None => Err (UndefinedBehaviour "indeterminate port")
  end.

(** ** Database tables *)

Context {DB : Type} `{!LegacyPb} `{!LegacyMysql DB} `{!LegacyRand}.

(** The texts of the two CREATE TABLE statements. *)
Variables user_table bike_table : text.

Definition CreateUserInfo (db : DB) : bool * DB := Execute user_table db.
Definition CreateBikeTable (db : DB) : bool * DB := Execute bike_table db.

(** BusinessProcessor::init does not look at either result. *)
Definition bp_init (db : DB) : bool * DB :=
  let '(_, db1) := CreateUserInfo db in
  let '(_, db2) := CreateBikeTable db1 in
  (true, db2).

(** ** Listener *)

Record network : Type := mkNetwork { nw_base : bool; nw_listener : bool }.

(** NetworkInterface::start; [bound] is whether evconnlistener_new_bind
    returned a listener. *)
Definition nw_start (bound : bool) : bool * network := (bound, mkNetwork true bound).

(** NetworkInterface::close: evconnlistener_free removes its event from the
    event base. *)
Definition nw_close (n : network) : result network :=
  let n1 := if nw_base n then mkNetwork false (nw_listener n) else n in
  if nw_listener n1 then
    if nw_base n1 then Ok (mkNetwork (nw_base n1) false)
    else Err (UndefinedBehaviour "event base already freed")
  else Ok n1.

(** ** main *)

Inductive main_end : Type :=
| MReturn (code : Z)
| MLoop (s : server (DB := DB)) (pool listening : bool) (port : Z).

(** DispatchMsgService::open. *)
Definition dms_open (ic : init_calls) : bool := fst (thread_pool_init ic 0).

(** DispatchMsgService::close, after thread_pool_destroy: late tasks find the
    exit flag, and nobody is subscribed any more. *)
Definition dms_close (s : server (DB := DB)) : server (DB := DB) :=
  mkServer (v_sessions s) (v_tasks s) (v_responses s) (v_sn s) ∅ (v_codes s) (v_db s) true (v_wire s).

Definition legacy_main (argc : Z) (logger_ok : bool) (path : string) (ic : init_calls) (bound : bool)
    (db : DB) : result main_end :=
  if negb (argc =? 3) then Ok (MReturn (-1))
  else if negb logger_ok then Ok (MReturn (-2))
  else
    let '(loaded, cfg) := loadfile path in
    if negb loaded then Ok (MReturn (-3))
    else
      try! c := getconfig cfg in
      if negb (sql_init db) then Ok (MReturn (-4))
      else
        let '(_, db') := bp_init db in
        let pool := dms_open ic in
        let '(listening, _) := nw_start bound in
        Ok (MLoop (server0 db') pool listening (svr_port c)).

(** main reports a wrong number of arguments, a logger or a database that does
    not start; a configuration file that cannot be read is not reported (the
    error code converts to [true]) and the indeterminate ports are used; and it
    enters its loop without thread pool or listener when these fail. *)
Theorem legacy_main_ends argc logger_ok path ic bound db :
  legacy_main argc logger_ok path ic bound db <> Ok (MReturn (-3)) /\
  (argc = 3 -> logger_ok = true -> iniparser_load path = None ->
     exists e, legacy_main argc logger_ok path ic bound db = Err e) /\
  (argc = 3 -> logger_ok = true -> iniparser_load path <> None -> sql_init db = true ->
     exists s port, legacy_main argc logger_ok path ic bound db =
       Ok (MLoop s (dms_open ic) bound port) /\ 0 <= port < 2 ^ 16).
Proof.
  unfold legacy_main, loadfile. split_and!.
  - repeat (case_if; [done|]). destruct (iniparser_load path) as [ini|]; cbn [negb Z.eqb]; [|done].
    cbn [getconfig rbind]. case_if; [done|]. destruct (bp_init db) as [? ?]. done.
  - intros -> -> ->. cbn [Z.eqb Pos.eqb negb getconfig rbind]. eauto.
  - intros -> -> Hl Hd. destruct (iniparser_load path) as [ini|]; [|done].
    cbn [Z.eqb Pos.eqb negb getconfig rbind]. rewrite Hd. cbn [negb].
    destruct (bp_init db) as [? db']. cbn [nw_start]. eexists _, _. split; [reflexivity|].
    cbn [svr_port new_config]. apply u16_range.
Qed.

(** Closing an interface that listens uses the event base after it was freed. *)
Theorem legacy_close_order : exists e, nw_close (snd (nw_start true)) = Err e.
Proof. eexists. reflexivity. Qed.

End Main.
